(* ===== verification/_CoqProject ===== *)
-Q . S2P
Prelude.v
Words.v
Hex.v
Blake.v
Targets.v
Work.v
Cpu.v
Avx2.v
Gpu.v
Cuda.v
OpenCl.v
Devices.v
Amd.v
Nvml.v
Drivers.v
Sv2.v
Noise.v
Json.v
Stratum.v
Session.v
Workers.v
Transport.v
Connect.v
View.v
Render.v
Display.v
Api.v
Server.v
Options.v
Coordinator.v
Figures.v
Mine.v
Protocols.v
System.v
Refine.v
Delivery.v
Pool.v
Channel.v
Startup.v
Whole.v
Bench.v
Program.v
Report.v
