(* ===== verification/Prelude.v ===== *)
(** * Verification of the supryolo BLAKE2b miner

    supryolo searches for nonces that give an 80-byte header a BLAKE2b-256 digest
    below a target, on CPUs and GPUs, for a mining pool that hands out work and
    judges the shares found.  This development translates the C++ sources under
    src/ (with the CUDA and OpenCL kernels, and the C ABI of the Rust crate) into
    executable functions and step relations, and proves what makes each part
    correct and what the parts achieve together.

    ** The program and its parts

    [main] turns the command line into options and starts mining (or a benchmark).
    [mine] chooses devices, starts one thread per GPU and per CPU core, and runs
    the coordinator: it reads the pool's messages over one of two protocols,
    publishes work to the threads under a mutex, takes the shares they found,
    checks and submits them, counts the pool's answers, and shows and serves the
    figures.  A thread reserves a range of nonces of the published work, scans it
    with its back end and queues what it found.

    Each file models one part; the sources are under src/.
    - [Prelude]: exceptions as values ([exn], [result]), code that mutates state and
      may throw ([stM], the state at the throw is kept), weakest preconditions
      ([wp]), and the lemmas and tactics all files share.
    - [Words], [Hex], [Blake]: bytes and 64-bit words, the hex codec and the scalar
      hash (src/crypto.cpp), with RFC 7693 as an independent specification: its own
      constants, message schedule and rounds, run on published test vectors.
    - [Targets], [Work]: target comparison, decimal and compact difficulty, the two
      header builders (src/crypto.cpp, src/coin.cpp, src/sv2.cpp); [Work.Backend] is
      the interface of a back end and [Work.BackendLaws] its contract.
    - [Cpu], [Avx2], [Gpu], [Cuda], [OpenCl]: the back ends (src/cpu.cpp,
      src/cpu_avx2.cpp, src/cuda/blake2b.cu, src/opencl/blake2b.cl and
      src/opencl/runtime.cpp).  [Gpu] holds the kernels' hash and the candidate
      buffer as a transition system of device threads.
    - [Devices], [Amd], [Nvml], [Drivers]: enumeration and choice of GPUs, hardware
      management, the driver libraries and the builds without a back end
      (src/devices.cpp, src/opencl/runtime.cpp, src/hardware,
      include/yolo/dynamic.hpp, src/cuda_stub.cpp, src/opencl_stub.cpp).
    - [Sv2], [Noise], [Session]: Stratum V2 messages, the encrypted transport and
      the session (src/sv2.cpp, src/sv2_noise.cpp, src/rust/sv2-noise,
      src/sv2_session.cpp).
    - [Json], [Stratum]: JSON values and the Stratum V1 state (src/stratum.cpp).
    - [Workers]: the mining threads and the variables they share with the
      coordinator, as interleaved atomic steps (the worker lambda of src/miner.cpp).
    - [Transport], [Connect]: the pool URL, sending and reading lines, opening and
      closing a plain or TLS connection (Socket of src/miner.cpp, include/yolo/net.hpp).
    - [View], [Render], [Display]: the data shown, the event log, what is drawn, and
      the terminal and the display thread from construction to end
      (src/ui/dashboard.cpp).
    - [Api], [Server]: one client of the HTTP interface, and the server with its
      thread (src/api.cpp).
    - [Options], [Startup], [Bench]: the command line, what [mine] does before its
      loop, and the benchmark (src/main.cpp, src/miner.cpp).
    - [Coordinator], [Figures], [Protocols], [System], [Delivery], [Mine]: the main
      loop of src/miner.cpp over an interface [Coordinator.Protocol]; what a refresh
      of the figures shows; the two instances and the laws [Protocols.ProtocolLaws]
      both satisfy; threads, coordinator and protocol interleaved; what becomes of
      each share; and the loop over connections.
    - [Program]: [mine] as a whole and [main], with the objects whose destructors
      give back what they took, in the order the code builds them.
    - [Report]: rows and totals of the view in every state, and the final report.
    - [Refine], [Pool], [Channel], [Whole]: the composition.  [Refine] runs the loop
      of [Coordinator] with the threads stepping between its locked blocks; [Pool]
      and [Channel] are pools of the two protocols that keep their own record of
      what they announced and check shares on their own ([Pool] reads hexadecimal
      and decimal difficulties with [unhex] and [difficulty_target], which are
      exact by theorems of [Hex] and [Targets]; the rest of the pool is not the
      miner's code); [Whole] goes from a command line through devices, back ends,
      threads and loop to such a pool.

    ** What the theorems show

    - The hash and every back end: the scalar hash is BLAKE2b-256; the AVX2, CUDA
      and OpenCL back ends return exactly the nonces of their range whose scalar
      digest meets the target, for every kernel variant and every interleaving of
      the device threads ([BackendLaws] is proved for each).
    - Targets and headers: difficulty and compact targets are exact; both protocols
      build the same header for the same job.
    - The connection: a TLS address is used only after a verified handshake, and
      nothing leaks when opening fails.
    - Protocol parsing: [decode] accepts exactly the encodings of well-formed
      messages; frames and lines are reassembled however the stream is cut, up to
      the limits the code sets for a line and for one read, and only these limits
      or a line that does not parse throw; buffers stay bounded; a broken
      transport stays broken.
    - Protocol state: session invariants over all reachable states, which jobs stay
      valid after each message, extranonce uniqueness, and the accounting of
      shares acknowledged in batches.
    - The composition, for both protocols: a run that starts from a command line
      submits only shares that a pool checking each of them - job, extranonce or
      channel, numbering, time, digest, target, duplicates - accepts; the loop as
      written, beside the threads, refines the interleaved system, so what is
      proved of the system holds of the loop.
    - The whole system, in every interleaving: no nonce range is scanned twice for a
      job; only shares a scan found are submitted, each while the protocol calls its
      job valid; outside a shutdown the work offered is the live work; what is
      written to a V1 socket; each share is accounted for once, over any number of
      connections; a stop request ends the loop.
    - Delivery: every solution a thread covers is in exactly one place, and lost only
      by a thread or a connection that fails; none is submitted twice; the steps
      that carry it - from a scan to the queue, from the queue to the pool - do so or
      record why not; a thread that is asked to stop ends.
    - Devices and management: hardware is written only after every check passed,
      within the advertised ranges, with roll-back; constructors leak nothing;
      devices are numbered and matched correctly; a driver library is used whole or
      not at all.
    - Surroundings: the command line and start-up establish the ranges the rest
      assumes; the log keeps order and bounds; no text from outside reaches the
      terminal unescaped; the figures shown are exact sums and the final report
      agrees with the shares submitted; the API answers well-formed messages and
      leaks no socket; however the program ends, the terminal and the signal
      handlers are those it found.

    ** Conventions

    A [uint8_t] is a [byte], a wider integer a [Z] reduced where the code's type
    wraps; doubles are [SpecFloat] values with the operations of IEEE 754.  A
    [std::string] is a [string] of bytes.  Exceptions keep the message of a
    [std::runtime_error]; [what] of any other exception is not modelled: an output
    that quotes it shows the empty string.  Loops whose length the data fixes
    are structural; loops over a stream, a socket or a clock recurse on the list of
    what the outside answers, and end undecided when that list does.  The fuel of
    the remaining loops (for example the 96 characters of a difficulty, the six
    lines of an HTTP message, the frames in a receive buffer, the 640 decimal
    exponents a double can have) is bounded by the data, and the theorems
    about them state the result, not only its correctness should there be one.

    ** Parameters

    Code outside the repository is an interface: OpenSSL's big numbers and SHA-256
    ([Targets.BigNum]), the noise_sv2 crate ([Noise.NoiseCrate]), JSON text
    ([Transport.JsonParser], [Json.FloatPrinter], [Api.JsonDump]), the CUDA, OpenCL
    and NVML drivers and sysfs (records of their answers).  Laws about them are
    classes ([BigNumLaws], [NoiseCrateLaws]); the witnesses instantiate them with
    concrete functions.

    ** Not modelled

    What happens inside the socket, TLS, terminal, linker and polling calls (what
    they answer is an input; to the main loop, a V1 connection is the outcome of
    each [read] and of each line's [send]); which rounds the display thread and
    which clients the API thread find between two refreshes (any sequence is
    allowed); sleeping; names and elapsed times of the back ends;
    the entry points of the OpenCL runtime beyond their order of construction,
    launches and release; the text [what] of exceptions of the standard library; the Windows
    branches; JSON text, which is the library's; the program's tests, packaging and
    third-party code. *)
From stdpp Require Export prelude strings gmap list pretty.
From Stdlib Require Export ZArith Lia.
From Stdlib Require Export Strings.Byte.

#[export] Set Default Goal Selector "!".
#[global] Open Scope Z_scope.

(** [lia] with division and modulo by constants. *)
Ltac Zify.zify_post_hook ::= Z.to_euclidean_division_equations.

(** ** Exceptions and results *)

(** The C++ exceptions the modelled code throws or lets escape.  Every
    [throw std::runtime_error("...")] keeps its message. *)
Inductive exn :=
| runtime_error (what : string)
| std_invalid_argument
| std_out_of_range
| json_type_error (id : Z)
| json_out_of_range (id : Z).

(** [e.what()] of a [std::runtime_error]; empty for the others. *)
Definition what (e : exn) : string := match e with runtime_error m => m | _ => EmptyString end.

(** The outcome of a function that may throw. *)
Inductive result (A : Type) :=
| Ok (a : A)
| Throw (e : exn).
Arguments Ok {A} a.
Arguments Throw {A} e.

#[export] Instance exn_eq_dec : EqDecision exn.
Proof. solve_decision. Defined.
#[export] Instance result_eq_dec `{EqDecision A} : EqDecision (result A).
Proof. solve_decision. Defined.

#[export] Instance result_ret : MRet result := fun A a => Ok a.
#[export] Instance result_bind : MBind result := fun A B f m =>
  match m with Ok a => f a | Throw e => Throw e end.

(** [throw_if b msg] is [if (b) throw std::runtime_error(msg);]. *)
Definition throw_if (b : bool) (msg : string) : result unit :=
  if b then Throw (runtime_error msg) else Ok tt.

Definition is_ok {A} (r : result A) : bool :=
  match r with Ok _ => true | Throw _ => false end.

(** Code that mutates an object and may throw: the mutations made before the
    throw stay, as they do in C++. *)
Definition stM (S A : Type) : Type := S → S * result A.
#[export] Instance stM_ret {S} : MRet (stM S) := fun A a s => (s, Ok a).
#[export] Instance stM_bind {S} : MBind (stM S) := fun A B f m s =>
  match m s with
  | (s', Ok a) => f a s'
  | (s', Throw e) => (s', Throw e)
  end.
Definition st_get {S} : stM S S := fun s => (s, Ok s).
Definition st_modify {S} (f : S → S) : stM S unit := fun s => (f s, Ok tt).
Definition st_lift {S A} (r : result A) : stM S A := fun s => (s, r).
Definition st_throw {S A} (msg : string) : stM S A :=
  fun s => (s, Throw (runtime_error msg)).
(** [require(b, msg)] of the session, and [if (!b) throw ...]. *)
Definition st_require {S} (b : bool) (msg : string) : stM S unit :=
  fun s => (s, throw_if (negb b) msg).

(** [try { m } catch (...) { h; throw; }]. *)
Definition st_catch {S A} (m : stM S A) (h : stM S unit) : stM S A := fun s =>
  match m s with
  | (s', Ok a) => (s', Ok a)
  | (s', Throw e) => (fst (h s'), Throw e)
  end.

(** ** Generic lemmas *)

Section results.
Context {A B : Type}.

Lemma bind_Ok (m : result A) (f : A → result B) b :
  (m ≫= f) = Ok b ↔ ∃ a, m = Ok a ∧ f a = Ok b.
Proof. destruct m; split; naive_solver. Qed.

Lemma bind_Ok_eq (a : A) (f : A → result B) : (Ok a ≫= f) = f a.
Proof. done. Qed.

Lemma bind_Throw_eq e (f : A → result B) : (Throw e ≫= f) = Throw e.
Proof. done. Qed.
End results.

Lemma Ok_inj {A} (a b : A) : Ok a = Ok b → a = b.
Proof. by intros [= ->]. Qed.

Lemma throw_if_Ok b msg u : throw_if b msg = Ok u ↔ b = false.
Proof. destruct b, u; naive_solver. Qed.

Lemma throw_if_false msg : throw_if false msg = Ok tt.
Proof. done. Qed.

Lemma throw_if_true msg : throw_if true msg = Throw (runtime_error msg).
Proof. done. Qed.

Lemma is_ok_Ok {A} (r : result A) : is_ok r = true ↔ ∃ a, r = Ok a.
Proof. destruct r; naive_solver. Qed.

Create Rewrite HintDb result.
#[export] Hint Rewrite @bind_Ok throw_if_Ok : result.

(** Peel the successful binds of a hypothesis. *)
Ltac inv_ok :=
  repeat match goal with
  | H : (_ ≫= _) = Ok _ |- _ => apply bind_Ok in H as (? & ? & ?)
  | H : throw_if _ _ = Ok _ |- _ => apply throw_if_Ok in H
  | H : Ok _ = Ok _ |- _ => injection H as H
  | H : Throw _ = Ok _ |- _ => discriminate H
  | H : Ok _ = Throw _ |- _ => discriminate H
  | x : unit |- _ => destruct x
  end; simplify_eq.

(** Case analysis on the matches and conditionals of the goal. *)
Ltac split_match :=
  repeat match goal with
  | |- context [match ?x with _ => _ end] =>
      lazymatch x with
      | context [match _ with _ => _ end] => fail
      | _ => destruct x eqn:?
      end
  end.

(** Boolean tests as propositions. *)
Ltac bool_lia :=
  repeat match goal with
  | H : _ && _ = true |- _ => apply andb_true_iff in H as [? ?]
  | H : _ || _ = false |- _ => apply orb_false_iff in H as [? ?]
  | H : negb _ = true |- _ => apply negb_true_iff in H
  | H : negb _ = false |- _ => apply negb_false_iff in H
  | H : (_ <? _)%Z = true |- _ => apply Z.ltb_lt in H
  | H : (_ <? _)%Z = false |- _ => apply Z.ltb_ge in H
  | H : (_ <=? _)%Z = true |- _ => apply Z.leb_le in H
  | H : (_ <=? _)%Z = false |- _ => apply Z.leb_gt in H
  | H : (_ =? _)%Z = true |- _ => apply Z.eqb_eq in H
  | H : (_ =? _)%Z = false |- _ => apply Z.eqb_neq in H
  end; try lia.

(** ** Lists *)

Lemma forallb_Forall {A} (f : A → bool) l : forallb f l = true ↔ Forall (λ x, f x = true) l.
Proof. rewrite forallb_forall, Forall_forall. by setoid_rewrite list_elem_of_In. Qed.

Lemma fold_left_ext {A B} (f g : A → B → A) l a :
  (∀ a x, x ∈ l → f a x = g a x) → fold_left f l a = fold_left g l a.
Proof.
  revert a. induction l as [|x l IH]; intros a H; [done|]. simpl.
  rewrite H by set_solver. apply IH. set_solver.
Qed.

Lemma fold_left_cons {A B} (f : A → B → A) x l a :
  fold_left f (x :: l) a = fold_left f l (f a x).
Proof. done. Qed.

Lemma fold_left_fmap {A B C} (g : C → B) (f : A → B → A) l a :
  fold_left (λ a x, f a (g x)) l a = fold_left f (g <$> l) a.
Proof. revert a. induction l; intros; simpl; auto. Qed.

(** Induction two elements at a time. *)
Lemma list_pair_ind {A} (P : list A → Prop) :
  P [] → (∀ x, P [x]) → (∀ x y l, P l → P (x :: y :: l)) → ∀ l, P l.
Proof.
  intros H0 H1 H2. fix IH 1. intros [|x [|y l]]; [done|apply H1|apply H2, IH].
Qed.

(** The longest prefix whose elements satisfy [P], and the rest. *)
Fixpoint take_while {A} (P : A → bool) (l : list A) : list A :=
  match l with x :: l => if P x then x :: take_while P l else [] | [] => [] end.
Fixpoint drop_while {A} (P : A → bool) (l : list A) : list A :=
  match l with x :: l' => if P x then drop_while P l' else l | [] => [] end.

Lemma take_drop_while {A} (P : A → bool) l : take_while P l ++ drop_while P l = l.
Proof. induction l as [|x l IH]; [done|]. cbn. destruct (P x); cbn; [by rewrite IH|done]. Qed.

(** Prove a decidable closed proposition by evaluating its decision. *)
Ltac by_compute := apply (bool_decide_eq_true_1 _); vm_compute; reflexivity.

Lemma alter_insert_total {A} `{Inhabited A} (i : nat) (f : A → A) (l : list A) :
  (i < length l)%nat → alter f i l = <[i := f (l !!! i)]> l.
Proof.
  intros Hi. apply list_eq. intros j. destruct (decide (i = j)) as [<-|].
  - rewrite list_lookup_alter_eq, list_lookup_insert_eq by done.
    by rewrite (list_lookup_lookup_total_lt l i).
  - by rewrite list_lookup_alter_ne, list_lookup_insert_ne.
Qed.

Lemma list_alter_id' {A} (i : nat) (f : A → A) (l : list A) : (∀ x, f x = x) → alter f i l = l.
Proof.
  intros Hf. apply list_eq. intros j. destruct (decide (i = j)) as [<-|].
  - rewrite list_lookup_alter_eq. destruct (l !! i); simpl; by rewrite ?Hf.
  - by rewrite list_lookup_alter_ne.
Qed.

(** ** Weakest preconditions of stateful code *)

Lemma st_bind_eq {S A B} (m : stM S A) (k : A → stM S B) s :
  (m ≫= k) s = match m s with (s', Ok a) => k a s' | (s', Throw e) => (s', Throw e) end.
Proof. reflexivity. Qed.

(** A bind that ends well ran both its parts well. *)
Lemma st_bind_Ok {S A B} (m : stM S A) (k : A → stM S B) s s' b : (m ≫= k) s = (s', Ok b) →
  ∃ a s1, m s = (s1, Ok a) ∧ k a s1 = (s', Ok b).
Proof. rewrite st_bind_eq. destruct (m s) as [s1 [a|e]]; [|done]. intros Hk. by exists a, s1. Qed.
Lemma st_require_Ok {S} c msg (s s' : S) u : st_require c msg s = (s', Ok u) → c = true ∧ s' = s.
Proof. unfold st_require. intros [= <- Hc]. by destruct c. Qed.
Lemma st_lift_Ok {S A} (r : result A) (s s' : S) a : st_lift r s = (s', Ok a) → r = Ok a ∧ s' = s.
Proof. by intros [= <- ->]. Qed.
(** Peel a stateful run that ended well. *)
Ltac inv_st :=
  repeat match goal with
  | H : (_ ≫= _) _ = (_, Ok _) |- _ => apply st_bind_Ok in H as (? & ? & ? & H)
  | H : st_require _ _ _ = (_, Ok _) |- _ => apply st_require_Ok in H as [H ->]
  | H : st_lift _ _ = (_, Ok _) |- _ => apply st_lift_Ok in H as [H ->]
  | H : st_get _ = (_, Ok _) |- _ => injection H as <- <-
  | H : st_modify _ _ = (_, Ok _) |- _ => injection H as <-
  | H : mret _ _ = (_, Ok _) |- _ => injection H as <- <-
  end.

(** [wp m Q s]: running [m] from [s] ends in a state and a result with [Q]. *)
Definition wp {S A} (m : stM S A) (Q : S → result A → Prop) (s : S) : Prop := Q (m s).1 (m s).2.

Section wp.
Context {S : Type}.

Lemma wp_run {A} (m : stM S A) (Q : S → result A → Prop) s s' r :
  m s = (s', r) → wp m Q s → Q s' r.
Proof. intros E H. unfold wp in H. by rewrite E in H. Qed.

Lemma wp_mono {A} (m : stM S A) (Q R : S → result A → Prop) s :
  wp m Q s → (∀ s' r, Q s' r → R s' r) → wp m R s.
Proof. unfold wp. auto. Qed.

Lemma wp_and {A} (m : stM S A) (Q R : S → result A → Prop) s :
  wp m Q s → wp m R s → wp m (λ s' r, Q s' r ∧ R s' r) s.
Proof. by split. Qed.

(** The continuation of a bind: run on a value, skipped by an exception. *)
Definition wp_next {A B} (k : A → stM S B) (Q : S → result B → Prop) (s : S) (r : result A) : Prop :=
  match r with Ok a => wp (k a) Q s | Throw e => Q s (Throw e) end.

Lemma wp_bind {A B} (m : stM S A) (k : A → stM S B) Q s :
  wp m (wp_next k Q) s → wp (m ≫= k) Q s.
Proof. unfold wp, wp_next, mbind, stM_bind. by destruct (m s) as [? [?|?]]. Qed.

Lemma wp_ret {A} (a : A) (Q : S → result A → Prop) s : Q s (Ok a) → wp (mret a) Q s.
Proof. done. Qed.
Lemma wp_get (Q : S → result S → Prop) s : Q s (Ok s) → wp st_get Q s.
Proof. done. Qed.
Lemma wp_modify (f : S → S) Q s : Q (f s) (Ok tt) → wp (st_modify f) Q s.
Proof. done. Qed.
Lemma wp_lift {A} (x : result A) (Q : S → result A → Prop) s : Q s x → wp (st_lift x) Q s.
Proof. done. Qed.
Lemma wp_require c msg Q (s : S) :
  (c = true → Q s (Ok tt)) → (c = false → Q s (Throw (runtime_error msg))) →
  wp (st_require c msg) Q s.
Proof. intros Ht Hf. destruct c; [exact (Ht eq_refl)|exact (Hf eq_refl)]. Qed.
End wp.

(** One symbolic execution step. *)
Ltac wp_step :=
  lazymatch goal with
  | |- wp (mbind _ _) _ _ => apply wp_bind
  | |- wp (mret _) _ _ => apply wp_ret
  | |- wp st_get _ _ => apply wp_get
  | |- wp (st_modify _) _ _ => apply wp_modify
  | |- wp (st_lift _) _ _ => apply wp_lift
  | |- wp (st_require _ _) _ _ => apply wp_require; intros ?
  | |- wp_next _ _ _ (Ok _) => cbn [wp_next]; cbn beta
  | |- wp_next _ _ _ (Throw _) => cbn [wp_next]
  end.
Ltac wp_steps := repeat wp_step.
