(* ===== verification/Words.v ===== *)
(** * Bytes and machine words

    [uint8_t] is [Byte.byte]; wider unsigned integers are [Z] with their
    wrap-around written out.  Models [load_le] and [store_le] of
    src/src/crypto.cpp and the rotations of [std::rotr]. *)
From S2P Require Import Prelude.

(** ** Bytes *)

Abbreviation Bytes := (list byte).
#[export] Instance byte_eq_dec : EqDecision byte := Byte.byte_eq_dec.
#[export] Instance byte_inhabited : Inhabited byte := populate x00.

(** Value of a [uint8_t], and the conversion of an integer to [uint8_t]. *)
Definition b2z (b : byte) : Z := Z.of_N (Byte.to_N b).
Definition u8 (z : Z) : byte :=
  match Byte.of_N (Z.to_N (z mod 256)) with Some b => b | None => x00 end.

(** The characters of a [std::string]. *)
Definition bytes_of (s : string) : Bytes := String.list_byte_of_string s.

(** ** Unsigned words *)

Definition u16 (z : Z) : Z := z mod 2 ^ 16.
Definition u32 (z : Z) : Z := z mod 2 ^ 32.
Definition u64 (z : Z) : Z := z mod 2 ^ 64.
Definition is_u16 (z : Z) : Prop := 0 ≤ z < 2 ^ 16.
Definition is_u32 (z : Z) : Prop := 0 ≤ z < 2 ^ 32.
Definition is_u64 (z : Z) : Prop := 0 ≤ z < 2 ^ 64.

#[export] Instance is_u16_dec z : Decision (is_u16 z) := ltac:(unfold is_u16; apply _).
#[export] Instance is_u32_dec z : Decision (is_u32 z) := ltac:(unfold is_u32; apply _).
#[export] Instance is_u64_dec z : Decision (is_u64 z) := ltac:(unfold is_u64; apply _).

(** [std::rotr] on [uint64_t], for 0 < r < 64. *)
Definition rotr (x r : Z) : Z :=
  Z.lor (Z.shiftr x r) (u64 (Z.shiftl x (64 - r))).

(** [load_le]: [for (i = 7..0) x = (x << 8) | p[i]]. *)
Definition load_le (p : Bytes) : Z :=
  fold_left (λ x i, Z.lor (u64 (Z.shiftl x 8)) (b2z (p !!! i))) [7;6;5;4;3;2;1;0]%nat 0.

(** [store_le]: [for (i = 0..7) { p[i] = x; x >>= 8; }] on the buffer [p]
    from offset [off]. *)
Fixpoint store_le_loop (n : nat) (p : Bytes) (off : nat) (x : Z) : Bytes :=
  match n with
  | O => p
  | S n' => store_le_loop n' (<[off := u8 x]> p) (S off) (Z.shiftr x 8)
  end.
Definition store_le (p : Bytes) (off : nat) (x : Z) : Bytes := store_le_loop 8 p off x.

(** ** Reference codecs *)

Fixpoint le_value (l : Bytes) : Z :=
  match l with [] => 0 | b :: r => b2z b + 256 * le_value r end.
Fixpoint le_bytes (n : nat) (z : Z) : Bytes :=
  match n with O => [] | S n' => u8 z :: le_bytes n' (z / 256) end.
Definition be_value (l : Bytes) : Z := le_value (reverse l).

(** ** Bytes *)

Lemma b2z_range b : 0 ≤ b2z b < 256.
Proof. unfold b2z. pose proof (Byte.to_N_bounded b). lia. Qed.

Lemma b2z_u8 z : b2z (u8 z) = z mod 256.
Proof.
  unfold b2z, u8. pose proof (Z.mod_pos_bound z 256 ltac:(lia)).
  destruct (Byte.of_N _) as [b|] eqn:E.
  - apply Byte.to_of_N in E. rewrite E. lia.
  - apply Byte.of_N_None_iff in E. lia.
Qed.

Lemma u8_b2z b : u8 (b2z b) = b.
Proof.
  unfold b2z, u8. pose proof (Byte.to_N_bounded b).
  rewrite Z.mod_small by lia. by rewrite N2Z.id, Byte.of_to_N.
Qed.

Lemma b2z_inj a b : b2z a = b2z b → a = b.
Proof. intros H. by rewrite <- (u8_b2z a), <- (u8_b2z b), H. Qed.
#[export] Instance b2z_Inj : Inj (=) (=) b2z := b2z_inj.

Lemma u8_eq x y : x mod 256 = y mod 256 → u8 x = u8 y.
Proof. intros H. apply b2z_inj. by rewrite !b2z_u8. Qed.

Lemma b2z_small z : 0 ≤ z < 256 → b2z (u8 z) = z.
Proof. intros. rewrite b2z_u8. by apply Z.mod_small. Qed.

(** ** Little-endian codec *)

Lemma le_bytes_length n z : length (le_bytes n z) = n.
Proof. revert z. induction n; intros; simpl; auto. Qed.

Lemma le_value_bytes n z : le_value (le_bytes n z) = z mod 256 ^ Z.of_nat n.
Proof.
  revert z. induction n as [|n IH]; intros z; simpl le_bytes; simpl le_value.
  - by rewrite Z.mod_1_r.
  - rewrite IH, b2z_u8, Nat2Z.inj_succ, Z.pow_succ_r by lia.
    rewrite Z.rem_mul_r; lia.
Qed.

Lemma le_bytes_value l : le_bytes (length l) (le_value l) = l.
Proof.
  induction l as [|b l IH]; [done|]. cbn [length le_value le_bytes].
  pose proof (b2z_range b). f_equal.
  - rewrite <- (u8_b2z b) at 2. apply u8_eq. lia.
  - replace ((b2z b + 256 * le_value l) / 256) with (le_value l) by lia. done.
Qed.

Lemma le_bytes_value' n l : length l = n → le_bytes n (le_value l) = l.
Proof. intros <-. apply le_bytes_value. Qed.

Lemma le_value_bound l : 0 ≤ le_value l < 256 ^ Z.of_nat (length l).
Proof.
  rewrite <- (le_bytes_value l) at 1 2. rewrite le_value_bytes.
  apply Z.mod_pos_bound. apply Z.pow_pos_nonneg; lia.
Qed.

Lemma le_value_inj a b : length a = length b → le_value a = le_value b → a = b.
Proof. intros Hl Hv. by rewrite <- (le_bytes_value a), <- (le_bytes_value b), Hl, Hv. Qed.

Lemma le_value_app a b :
  le_value (a ++ b) = le_value a + 256 ^ Z.of_nat (length a) * le_value b.
Proof.
  induction a as [|x a IH]; cbn [app le_value length]; [lia|].
  rewrite IH, Nat2Z.inj_succ, Z.pow_succ_r by lia. lia.
Qed.

Lemma le_bytes_small n z : 0 ≤ z < 256 ^ Z.of_nat n → le_value (le_bytes n z) = z.
Proof. intros. rewrite le_value_bytes. by apply Z.mod_small. Qed.

Lemma le_bytes_eq n x y :
  x mod 256 ^ Z.of_nat n = y mod 256 ^ Z.of_nat n → le_bytes n x = le_bytes n y.
Proof.
  intros H. apply le_value_inj; [by rewrite !le_bytes_length|].
  by rewrite !le_value_bytes.
Qed.

Lemma le_bytes_inj n x y :
  0 ≤ x < 256 ^ Z.of_nat n → 0 ≤ y < 256 ^ Z.of_nat n →
  le_bytes n x = le_bytes n y → x = y.
Proof. intros Hx Hy H. by rewrite <- (le_bytes_small n x), <- (le_bytes_small n y), H. Qed.

Lemma le_bytes_app n m z :
  le_bytes (n + m) z = le_bytes n z ++ le_bytes m (z / 256 ^ Z.of_nat n).
Proof.
  revert z. induction n as [|n IH]; intros z; cbn [Nat.add le_bytes app].
  - by rewrite Z.div_1_r.
  - rewrite IH, Nat2Z.inj_succ, Z.pow_succ_r by lia.
    by rewrite Zdiv.Zdiv_Zdiv by lia.
Qed.

Lemma le_value_repeat0 n : le_value (replicate n x00) = 0.
Proof. induction n; simpl; [done|]. rewrite IHn. done. Qed.

(** ** The loops of [load_le] and [store_le] *)

Lemma testbit_high x n i : 0 ≤ x < 2 ^ n → n ≤ i → Z.testbit x i = false.
Proof.
  intros Hx Hi. assert (0 ≤ n).
  { destruct (decide (0 ≤ n)); [done|]. rewrite Z.pow_neg_r in Hx; lia. }
  rewrite <- (Z.mod_small x (2 ^ n)) by done. by apply Z.mod_pow2_bits_high.
Qed.

(** Words that do not overlap are added by [|]. *)
Lemma lor_mul_pow2 a b n : 0 ≤ n → 0 ≤ b < 2 ^ n → Z.lor (a * 2 ^ n) b = a * 2 ^ n + b.
Proof.
  intros Hn Hb.
  assert (Z.land (a * 2 ^ n) b = 0) as Hl.
  { apply Z.bits_inj'; intros i Hi. rewrite Z.land_spec, Z.bits_0.
    destruct (decide (i < n)); [by rewrite Z.mul_pow2_bits_low|].
    rewrite (testbit_high b n) by lia. apply andb_false_r. }
  by rewrite <- Z.lxor_lor, <- Z.add_nocarry_lxor.
Qed.

Lemma lor_shiftl_byte x b : 0 ≤ b < 256 → Z.lor (Z.shiftl x 8) b = 256 * x + b.
Proof.
  intros Hb. rewrite Z.shiftl_mul_pow2, lor_mul_pow2 by lia. lia.
Qed.

Lemma lor_step x b : 0 ≤ x < 2 ^ 56 → Z.lor (u64 (Z.shiftl x 8)) (b2z b) = 256 * x + b2z b.
Proof.
  intros Hx. unfold u64. rewrite Z.mod_small.
  - apply lor_shiftl_byte, b2z_range.
  - rewrite Z.shiftl_mul_pow2 by lia. lia.
Qed.

Lemma list8_inv {A} (l : list A) :
  length l = 8%nat → ∃ a b c d e f g h, l = [a;b;c;d;e;f;g;h].
Proof.
  intros H. do 8 (destruct l as [|? l]; [discriminate H|]).
  destruct l; [|discriminate H]. by repeat eexists.
Qed.

Lemma be_value_snoc l b : be_value (l ++ [b]) = b2z b + 256 * be_value l.
Proof. unfold be_value. by rewrite reverse_snoc. Qed.

Lemma be_value_bound l : 0 ≤ be_value l < 256 ^ Z.of_nat (length l).
Proof. unfold be_value. rewrite <- length_reverse. apply le_value_bound. Qed.

Lemma be_value_cons b l : be_value (b :: l) = b2z b * 256 ^ Z.of_nat (length l) + be_value l.
Proof.
  unfold be_value. rewrite reverse_cons, le_value_app, length_reverse. simpl. lia.
Qed.

(** [x = (x << 8) | b] over the bytes of [l] reads them big-endian. *)
Lemma be_fold_value l : (length l ≤ 8)%nat →
  fold_left (λ x b, Z.lor (u64 (Z.shiftl x 8)) (b2z b)) l 0 = be_value l.
Proof.
  induction l as [|b l IH] using rev_ind; [done|].
  rewrite length_app, fold_left_app, be_value_snoc. simpl. intros H.
  rewrite IH by lia. rewrite lor_step; [apply Z.add_comm|].
  pose proof (be_value_bound l) as [? Hlt]. split; [done|].
  apply (Z.lt_le_trans _ _ _ Hlt). apply (Z.pow_le_mono_r 256 _ 7); lia.
Qed.

Lemma lookups_reverse (p : Bytes) : (8 ≤ length p)%nat →
  ((λ i, p !!! i) <$> [7;6;5;4;3;2;1;0]%nat) = reverse (take 8 p).
Proof.
  intros H. destruct (list8_inv (take 8 p)) as (a&b&c&d&e&f&g&h&E).
  { rewrite length_take. lia. }
  rewrite E. rewrite <- (take_drop 8 p), E. reflexivity.
Qed.

Lemma load_le_value p : (8 ≤ length p)%nat → load_le p = le_value (take 8 p).
Proof.
  intros H. unfold load_le.
  rewrite (fold_left_fmap (λ i, p !!! i) (λ x b, Z.lor (u64 (Z.shiftl x 8)) (b2z b))).
  rewrite lookups_reverse by done.
  rewrite be_fold_value by (rewrite length_reverse, length_take; lia).
  unfold be_value. by rewrite reverse_involutive.
Qed.

Lemma load_le_range p : (8 ≤ length p)%nat → is_u64 (load_le p).
Proof.
  intros H. rewrite load_le_value by done. pose proof (le_value_bound (take 8 p)) as Hb.
  rewrite length_take, Nat.min_l in Hb by done. exact Hb.
Qed.

Lemma store_le_loop_splice n p off x : (off + n ≤ length p)%nat →
  store_le_loop n p off x = take off p ++ le_bytes n x ++ drop (off + n) p.
Proof.
  revert p off x. induction n as [|n IH]; intros p off x H.
  - cbn. by rewrite Nat.add_0_r, take_drop.
  - cbn [store_le_loop le_bytes]. rewrite IH by (rewrite length_insert; lia).
    rewrite Z.shiftr_div_pow2 by lia. change (2 ^ 8) with 256.
    rewrite (take_S_r _ _ (u8 x)) by (rewrite list_lookup_insert_eq; [done|lia]).
    rewrite take_insert_ge by lia. rewrite drop_insert_lt by lia.
    rewrite <- !app_assoc. simpl. by rewrite Nat.add_succ_r.
Qed.

Lemma store_le_splice p off x : (off + 8 ≤ length p)%nat →
  store_le p off x = take off p ++ le_bytes 8 x ++ drop (off + 8) p.
Proof. apply store_le_loop_splice. Qed.

Lemma store_le_loop_length n p off x : length (store_le_loop n p off x) = length p.
Proof.
  revert p off x. induction n; intros; simpl; [done|].
  by rewrite IHn, length_insert.
Qed.

Lemma store_le_length p off x : length (store_le p off x) = length p.
Proof. apply store_le_loop_length. Qed.

Lemma load_store_le p off x : (off + 8 ≤ length p)%nat →
  load_le (drop off (store_le p off x)) = u64 x.
Proof.
  intros H. rewrite load_le_value by (rewrite length_drop, store_le_length; lia).
  rewrite store_le_splice by done.
  rewrite drop_app_length' by (rewrite length_take; lia).
  rewrite take_app_length' by (by rewrite le_bytes_length).
  by rewrite le_value_bytes.
Qed.

(** ** Rotation and word operations *)

Lemma u64_range z : is_u64 (u64 z).
Proof. apply Z.mod_pos_bound. lia. Qed.

Lemma u64_small z : is_u64 z → u64 z = z.
Proof. apply Z.mod_small. Qed.

Lemma u32_range z : is_u32 (u32 z).
Proof. apply Z.mod_pos_bound. lia. Qed.

Lemma u32_small z : is_u32 z → u32 z = z.
Proof. apply Z.mod_small. Qed.

Lemma rotr_eq x r : is_u64 x → 0 < r < 64 →
  rotr x r = x / 2 ^ r + x mod 2 ^ r * 2 ^ (64 - r).
Proof.
  intros Hx Hr. unfold rotr, u64.
  rewrite Z.shiftr_div_pow2, Z.shiftl_mul_pow2 by lia.
  replace (2 ^ 64) with (2 ^ r * 2 ^ (64 - r)) by (rewrite <- Z.pow_add_r by lia; f_equal; lia).
  rewrite Z.mul_mod_distr_r by (apply Z.pow_nonzero; lia).
  rewrite Z.lor_comm, lor_mul_pow2; [lia|lia|].
  split; [apply Z.div_pos; [apply Hx|apply Z.pow_pos_nonneg; lia]|].
  apply Z.div_lt_upper_bound; [apply Z.pow_pos_nonneg; lia|].
  rewrite <- Z.pow_add_r by lia. replace (r + (64 - r)) with 64 by lia. apply Hx.
Qed.

Lemma range_of_bits n x : 0 ≤ n → (∀ i, n ≤ i → Z.testbit x i = false) → 0 ≤ x < 2 ^ n.
Proof.
  intros Hn H. replace x with (x mod 2 ^ n); [apply Z.mod_pos_bound, Z.pow_pos_nonneg; lia|].
  apply Z.bits_inj'. intros i Hi. destruct (decide (i < n)).
  - by apply Z.mod_pow2_bits_low.
  - rewrite Z.mod_pow2_bits_high by lia. symmetry. apply H. lia.
Qed.

Lemma lxor_range n x y : 0 ≤ n → 0 ≤ x < 2 ^ n → 0 ≤ y < 2 ^ n → 0 ≤ Z.lxor x y < 2 ^ n.
Proof.
  intros Hn Hx Hy. apply range_of_bits; [done|]. intros i Hi.
  by rewrite Z.lxor_spec, (testbit_high x n), (testbit_high y n).
Qed.

Lemma lor_range n x y : 0 ≤ n → 0 ≤ x < 2 ^ n → 0 ≤ y < 2 ^ n → 0 ≤ Z.lor x y < 2 ^ n.
Proof.
  intros Hn Hx Hy. apply range_of_bits; [done|]. intros i Hi.
  by rewrite Z.lor_spec, (testbit_high x n), (testbit_high y n).
Qed.

Lemma lxor_u64 x y : is_u64 x → is_u64 y → is_u64 (Z.lxor x y).
Proof. apply lxor_range. lia. Qed.

Lemma rotr_u64 x r : is_u64 x → 0 < r < 64 → is_u64 (rotr x r).
Proof.
  intros Hx Hr. unfold rotr. apply lor_range; [lia| |apply u64_range].
  rewrite Z.shiftr_div_pow2 by lia. unfold is_u64 in Hx.
  pose proof (Z.pow_pos_nonneg 2 r ltac:(lia) ltac:(lia)).
  split; [apply Z.div_pos; lia|]. apply Z.div_lt_upper_bound; [lia|]. nia.
Qed.

(** [~x] on [uint64_t]. *)
Definition not64 (x : Z) : Z := u64 (Z.lnot x).

Lemma not64_range x : is_u64 (not64 x).
Proof. apply u64_range. Qed.

Lemma not64_eq x : is_u64 x → not64 x = 2 ^ 64 - 1 - x.
Proof. unfold not64, u64, Z.lnot, is_u64. intros. lia. Qed.

Create HintDb words.
#[export] Hint Resolve u64_range u32_range lxor_u64 rotr_u64 not64_range load_le_range : words.

(** ** Checking all 256 bytes *)

Definition all_bytes : list byte := u8 <$> seqZ 0 256.

Lemma byte_forall (P : byte → bool) : forallb P all_bytes = true → ∀ b, P b = true.
Proof.
  rewrite forallb_Forall. intros H b. rewrite Forall_forall in H. apply H.
  unfold all_bytes. apply list_elem_of_fmap. exists (b2z b).
  rewrite u8_b2z. split; [done|]. apply elem_of_seqZ. pose proof (b2z_range b). lia.
Qed.

(** ** [std::copy] into a buffer *)

(** [std::copy(src.begin(), src.end(), dst + off)]. *)
Definition copy_at (dst : Bytes) (off : nat) (src : Bytes) : Bytes :=
  take off dst ++ src ++ drop (off + length src) dst.

Lemma copy_at_length dst off src : (off + length src ≤ length dst)%nat →
  length (copy_at dst off src) = length dst.
Proof. intros. unfold copy_at. rewrite !length_app, length_take, length_drop. lia. Qed.

(** Storing consecutive words fills the buffer from the left. *)
Lemma store_words_splice (f : nat → Z) n out : (8 * n ≤ length out)%nat →
  fold_left (λ out i, store_le out (8 * i) (f i)) (seq 0 n) out =
  flat_map (λ i, le_bytes 8 (f i)) (seq 0 n) ++ drop (8 * n) out.
Proof.
  induction n as [|n IH]; intros Hl; [by rewrite Nat.mul_0_r|].
  rewrite seq_S, fold_left_app, IH by lia. cbn [fold_left]. rewrite Nat.add_0_l.
  assert (length (flat_map (λ i, le_bytes 8 (f i)) (seq 0 n)) = (8 * n)%nat) as Hf.
  { rewrite flat_map_constant_length with (c := 8%nat) by (intros; apply le_bytes_length).
    rewrite length_seq. lia. }
  rewrite store_le_splice by (rewrite length_app, Hf, length_drop; lia).
  rewrite flat_map_app, take_app_length' by done. cbn [flat_map]. rewrite app_nil_r.
  rewrite <- app_assoc. do 2 f_equal.
  rewrite drop_app_ge by (rewrite Hf; lia). rewrite Hf, drop_drop. f_equal. lia.
Qed.

(** ** Big-endian values of buffers *)

Lemma be_value_app a b : be_value (a ++ b) = be_value a * 256 ^ Z.of_nat (length b) + be_value b.
Proof. unfold be_value. rewrite reverse_app, le_value_app, length_reverse. lia. Qed.

Lemma be_value_insert l (i : nat) x : (i < length l)%nat →
  be_value (<[i := x]> l) =
  be_value l + (b2z x - b2z (l !!! i)) * 256 ^ (Z.of_nat (length l) - 1 - Z.of_nat i).
Proof.
  revert i. induction l as [|b l IH]; intros [|i] Hi; cbn [length] in Hi; try lia.
  - cbn [insert list_insert lookup_total list_lookup_total length]. rewrite !be_value_cons.
    replace (Z.of_nat (S (length l)) - 1 - Z.of_nat 0) with (Z.of_nat (length l)) by lia. lia.
  - change (<[S i := x]> (b :: l)) with (b :: <[i := x]> l).
    change ((b :: l) !!! S i) with (l !!! i). rewrite !be_value_cons, length_insert, IH by lia.
    replace (Z.of_nat (length (b :: l)) - 1 - Z.of_nat (S i))
      with (Z.of_nat (length l) - 1 - Z.of_nat i) by (cbn [length]; lia). lia.
Qed.

Lemma be_value_zeros n : be_value (replicate n x00) = 0.
Proof. unfold be_value. rewrite reverse_replicate. apply le_value_repeat0. Qed.

Lemma be_value_ff n : be_value (replicate n xff) = 256 ^ Z.of_nat n - 1.
Proof.
  induction n as [|n IH]; [done|]. cbn [replicate].
  rewrite be_value_cons, IH, length_replicate, Nat2Z.inj_succ, Z.pow_succ_r by lia.
  change (b2z xff) with 255. lia.
Qed.

Lemma be_value_zero_iff l : forallb (λ b, b2z b =? 0) l = true ↔ be_value l = 0.
Proof.
  induction l as [|b l IH]; [done|]. cbn [forallb]. rewrite andb_true_iff, IH, be_value_cons.
  pose proof (b2z_range b). pose proof (be_value_bound l).
  pose proof (Z.pow_pos_nonneg 256 (Z.of_nat (length l)) ltac:(lia) ltac:(lia)).
  rewrite Z.eqb_eq. split; [intros [-> ->]; lia|]. intros Hs.
  assert (b2z b = 0) by nia. split; nia.
Qed.

Lemma be_value_inj a b : length a = length b → be_value a = be_value b → a = b.
Proof.
  intros Hl Hv. apply (inj reverse). apply le_value_inj; [by rewrite !length_reverse|done].
Qed.

Lemma land_low x n : 0 ≤ n → Z.land x (Z.ones n) = x mod 2 ^ n.
Proof. apply Z.land_ones. Qed.

Lemma land_255 x : Z.land x 255 = x mod 256.
Proof. exact (Z.land_ones x 8 ltac:(lia)). Qed.

(** Testing the top bit of an [n+1]-bit word. *)
Lemma land_top_bit x n : 0 ≤ n → 0 ≤ x < 2 ^ (n + 1) → Z.land x (2 ^ n) = 0 ↔ x < 2 ^ n.
Proof.
  intros Hn Hx. rewrite Z.pow_add_r in Hx by lia. split.
  - intros H. destruct (decide (x < 2 ^ n)) as [|Hge]; [done|exfalso].
    assert (Z.testbit (Z.land x (2 ^ n)) n = true) as Ht; [|by rewrite H, Z.bits_0 in Ht].
    rewrite Z.land_spec, Z.pow2_bits_true, andb_true_r by lia.
    apply Z.testbit_true; [lia|].
    replace (x / 2 ^ n) with 1; [done|]. apply Z.div_unique with (x - 2 ^ n); lia.
  - intros H. apply Z.bits_inj'. intros i Hi. rewrite Z.land_spec, Z.bits_0.
    destruct (decide (i = n)) as [->|].
    + rewrite (testbit_high x n n) by lia. done.
    + rewrite Z.pow2_bits_false by done. apply andb_false_r.
Qed.

(** Overwriting one segment of a buffer. *)
Lemma copy_at_app n a b c src : length a = n → length b = length src →
  copy_at (a ++ b ++ c) n src = a ++ src ++ c.
Proof.
  intros <- Hb. unfold copy_at. rewrite take_app_length. do 2 f_equal.
  rewrite drop_app_ge by lia. rewrite drop_app_ge by lia.
  replace (length a + length src - length a - length b)%nat with 0%nat by lia. apply drop_0.
Qed.

Lemma store_le_app n a b c x : length a = n → length b = 8%nat →
  store_le (a ++ b ++ c) n x = a ++ le_bytes 8 x ++ c.
Proof.
  intros Hn Hb. rewrite store_le_splice by (rewrite !length_app; lia).
  subst n. rewrite take_app_length. do 2 f_equal.
  rewrite drop_app_ge by lia. rewrite drop_app_ge by lia.
  replace (length a + 8 - length a - length b)%nat with 0%nat by lia. apply drop_0.
Qed.

(** A rotation by whole bytes permutes the bytes of the word. *)
Lemma rotr_bytes x k : is_u64 x → (0 < k < 8)%nat →
  le_value (drop k (le_bytes 8 x) ++ take k (le_bytes 8 x)) = rotr x (8 * Z.of_nat k).
Proof.
  intros Hx Hk. rewrite rotr_eq by (done || lia).
  replace 8%nat with (k + (8 - k))%nat by lia. rewrite le_bytes_app.
  rewrite drop_app_length', take_app_length' by (by rewrite le_bytes_length).
  rewrite le_value_app, !le_value_bytes, le_bytes_length.
  change 256 with (2 ^ 8). rewrite <- !Z.pow_mul_r by lia.
  rewrite (Z.mod_small (x / _)); [|].
  2:{ split; [apply Z.div_pos; [apply Hx|apply Z.pow_pos_nonneg; lia]|].
      apply Z.div_lt_upper_bound; [apply Z.pow_pos_nonneg; lia|].
      rewrite <- Z.pow_add_r by lia. replace (_ + _) with 64 by lia. apply Hx. }
  replace (8 * Z.of_nat (8 - k)) with (64 - 8 * Z.of_nat k) by lia. lia.
Qed.
