(* ===== verification/Hex.v ===== *)
(** * Hexadecimal text

    [unhex] and [hex] of src/src/crypto.cpp.  A [std::string] is a Rocq
    [string]; its characters are handled as bytes. *)
From S2P Require Import Prelude Words.

(** The lambda [nib] of [unhex]. *)
Definition nib (c : byte) : result Z :=
  let v := b2z c in
  if (48 <=? v) && (v <=? 57) then Ok (v - 48)
  else if (97 <=? v) && (v <=? 102) then Ok (v - 97 + 10)
  else if (65 <=? v) && (v <=? 70) then Ok (v - 65 + 10)
  else Throw (runtime_error "invalid hex").

Fixpoint unhex_loop (s : Bytes) : result Bytes :=
  match s with
  | c1 :: c2 :: r =>
      hi ← nib c1;
      lo ← nib c2;
      rest ← unhex_loop r;
      Ok (u8 (Z.lor (Z.shiftl hi 4) lo) :: rest)
  | _ => Ok []
  end.

Definition unhex (s : string) : result Bytes :=
  _ ← throw_if (Nat.odd (String.length s)) "odd hex length";
  unhex_loop (String.list_byte_of_string s).

Definition hex_digits : Bytes := String.list_byte_of_string "0123456789abcdef".
Definition hex_digit (v : Z) : byte := hex_digits !!! Z.to_nat v.

Definition hex (b : Bytes) : string :=
  String.string_of_list_byte
    (flat_map (λ v, [hex_digit (Z.shiftr (b2z v) 4); hex_digit (Z.land (b2z v) 15)]) b).

(** ** Specification *)

(** ASCII lower case, as [std::tolower] in the C locale. *)
Definition lower (c : byte) : byte :=
  if (65 <=? b2z c) && (b2z c <=? 90) then u8 (b2z c + 32) else c.
Definition is_hex_digit (c : byte) : bool := is_ok (nib c).

Lemma hex_bytes b :
  String.list_byte_of_string (hex b) =
  flat_map (λ v, [hex_digit (Z.shiftr (b2z v) 4); hex_digit (Z.land (b2z v) 15)]) b.
Proof. apply String.list_byte_of_string_of_list_byte. Qed.

Lemma length_list_byte s : length (String.list_byte_of_string s) = String.length s.
Proof.
  unfold String.list_byte_of_string. rewrite length_map.
  induction s; simpl; auto.
Qed.

Lemma hex_length b : String.length (hex b) = (2 * length b)%nat.
Proof.
  rewrite <- length_list_byte, hex_bytes. induction b as [|c b IH]; [done|].
  cbn [flat_map app length]. rewrite IH. lia.
Qed.

Lemma nib_digits b :
  bool_decide (nib (hex_digit (Z.shiftr (b2z b) 4)) = Ok (b2z b / 16)) &&
  bool_decide (nib (hex_digit (Z.land (b2z b) 15)) = Ok (b2z b mod 16)) = true.
Proof. revert b. apply byte_forall. vm_compute. reflexivity. Qed.

Lemma join_nibbles b : u8 (Z.lor (Z.shiftl (b2z b / 16) 4) (b2z b mod 16)) = b.
Proof.
  rewrite Z.shiftl_mul_pow2, lor_mul_pow2 by lia.
  rewrite <- (u8_b2z b) at 3. f_equal. lia.
Qed.

Lemma unhex_loop_cons c1 c2 s b r :
  unhex_loop (c1 :: c2 :: s) = Ok (b :: r) ↔
  (∃ h l, nib c1 = Ok h ∧ nib c2 = Ok l ∧ u8 (Z.lor (Z.shiftl h 4) l) = b) ∧
  unhex_loop s = Ok r.
Proof.
  cbn [unhex_loop]. rewrite !bind_Ok. setoid_rewrite bind_Ok. setoid_rewrite bind_Ok.
  naive_solver.
Qed.

(** Digits of an accepted pair of characters, by enumeration of the hex digits. *)
Lemma nib_spec c h : nib c = Ok h → 0 ≤ h < 16 ∧ hex_digit h = lower c.
Proof.
  assert (forallb (λ c, match nib c with
     | Ok h => (0 <=? h) && (h <? 16) && bool_decide (hex_digit h = lower c)
     | Throw _ => true end) all_bytes = true) as H by (vm_compute; reflexivity).
  pose proof (byte_forall _ H c) as Hc. intros E. cbn beta in Hc. rewrite E in Hc.
  apply andb_true_iff in Hc as [Hr Hd]. apply bool_decide_eq_true in Hd.
  bool_lia. auto.
Qed.

Lemma hex_pair h l : 0 ≤ h < 16 → 0 ≤ l < 16 →
  let b := u8 (Z.lor (Z.shiftl h 4) l) in
  Z.shiftr (b2z b) 4 = h ∧ Z.land (b2z b) 15 = l.
Proof.
  intros Hh Hl b. subst b.
  rewrite Z.shiftl_mul_pow2, lor_mul_pow2, b2z_small by lia.
  rewrite Z.shiftr_div_pow2 by lia. change 15 with (Z.ones 4). rewrite Z.land_ones by lia.
  lia.
Qed.

Lemma unhex_loop_hex b : unhex_loop (String.list_byte_of_string (hex b)) = Ok b.
Proof.
  rewrite hex_bytes. induction b as [|c b IH]; [done|].
  cbn [flat_map app]. apply unhex_loop_cons. split; [|done].
  pose proof (nib_digits c) as [H1 H2]%andb_true_iff.
  apply bool_decide_eq_true in H1, H2. eauto using join_nibbles.
Qed.

Lemma unhex_loop_lower s b : Nat.odd (length s) = false → unhex_loop s = Ok b →
  String.list_byte_of_string (hex b) = lower <$> s.
Proof.
  rewrite hex_bytes. revert s b.
  induction s as [|c1|c1 c2 s IH] using list_pair_ind; intros b Ho H.
  - by injection H as <-.
  - discriminate Ho.
  - destruct b as [|b r].
    { cbn in H. by destruct (nib c1), (nib c2), (unhex_loop s). }
    apply unhex_loop_cons in H as [(h & l & H1 & H2 & <-) H3].
    apply nib_spec in H1 as [Hh E1], H2 as [Hl E2].
    cbn [flat_map app]. rewrite !fmap_cons, <- E1, <- E2.
    destruct (hex_pair h l Hh Hl) as [-> ->]. by rewrite (IH r).
Qed.

Lemma unhex_loop_digits s b : Nat.odd (length s) = false → unhex_loop s = Ok b →
  forallb is_hex_digit s = true.
Proof.
  revert s b. induction s as [|c1|c1 c2 s IH] using list_pair_ind; intros b Ho H; [done..|].
  destruct b as [|b r].
  { cbn in H. by destruct (nib c1), (nib c2), (unhex_loop s). }
  apply unhex_loop_cons in H as [(h & l & H1 & H2 & _) H3].
  cbn [forallb]. unfold is_hex_digit at 1 2. rewrite H1, H2. by apply (IH r).
Qed.

Lemma unhex_loop_total s : forallb is_hex_digit s = true → is_ok (unhex_loop s) = true.
Proof.
  induction s as [|c1|c1 c2 s IH] using list_pair_ind; intros H; [done..|].
  cbn [forallb] in H. rewrite !andb_true_iff in H. destruct H as (H1 & H2 & H3).
  unfold is_hex_digit in *. cbn [unhex_loop].
  destruct (nib c1); [|done]. destruct (nib c2); [|done]. simpl.
  by destruct (unhex_loop s); [|apply IH in H3].
Qed.

Lemma unhex_loop_throw s e : unhex_loop s = Throw e → e = runtime_error "invalid hex".
Proof.
  induction s as [|c1|c1 c2 s IH] using list_pair_ind; cbn [unhex_loop]; [done..|].
  assert (∀ c e', nib c = Throw e' → e' = runtime_error "invalid hex") as Hn.
  { intros c e'. unfold nib. repeat case_match; naive_solver. }
  destruct (nib c1) eqn:E1; [|intros [= <-]; eauto].
  destruct (nib c2) eqn:E2; [|intros [= <-]; eauto]. simpl.
  destruct (unhex_loop s); [done|]. intros [= <-]. by apply IH.
Qed.

Lemma unhex_length s b : unhex s = Ok b → (2 * length b)%nat = String.length s.
Proof.
  intros H. unfold unhex in H. inv_ok.
  match goal with Hl : unhex_loop _ = Ok _ |- _ =>
    apply unhex_loop_lower in Hl; [|by rewrite length_list_byte] end.
  rewrite <- hex_length, <- !length_list_byte.
  match goal with Hl : _ = lower <$> _ |- _ => by rewrite Hl, length_fmap end.
Qed.

Lemma unhex_of_hex b : unhex (hex b) = Ok b.
Proof.
  unfold unhex. rewrite hex_length, Nat.odd_mul. simpl. apply unhex_loop_hex.
Qed.

Lemma hex_inj a b : hex a = hex b → a = b.
Proof. intros Hh. apply Ok_inj. by rewrite <- !unhex_of_hex, Hh. Qed.

(** decoding the text that [hex] writes gives back the bytes, the text has
    two characters per byte, and different bytes have different texts. *)
Theorem unhex_hex a b :
  unhex (hex a) = Ok a ∧ String.length (hex a) = (2 * length a)%nat ∧ (hex a = hex b ↔ a = b).
Proof.
  split_and!; [apply unhex_of_hex|apply hex_length|]. split; [apply hex_inj|by intros ->].
Qed.

(** [unhex] on every input: an odd length and a character that is not a hex
    digit throw with the code's message, and otherwise the result is the bytes
    whose [hex] text is the input in lower case. *)
Theorem unhex_spec s :
  let chars := String.list_byte_of_string s in
  match unhex s with
  | Ok b => Nat.even (String.length s) = true ∧ forallb is_hex_digit chars = true ∧
            String.list_byte_of_string (hex b) = lower <$> chars
  | Throw e =>
      (Nat.odd (String.length s) = true ∧ e = runtime_error "odd hex length") ∨
      (Nat.odd (String.length s) = false ∧ forallb is_hex_digit chars = false ∧
       e = runtime_error "invalid hex")
  end.
Proof.
  intros chars. unfold unhex. destruct (Nat.odd (String.length s)) eqn:Ho; simpl; [by left|].
  rewrite <- length_list_byte in Ho. fold chars in Ho |- *.
  destruct (unhex_loop chars) as [b|e] eqn:E.
  - rewrite <- length_list_byte. fold chars. rewrite <- Nat.negb_odd, Ho.
    split_and!; [done|by eapply unhex_loop_digits|by apply unhex_loop_lower].
  - right. split_and!; [done| |by eapply unhex_loop_throw].
    destruct (forallb is_hex_digit chars) eqn:Hd; [|done].
    apply unhex_loop_total in Hd. by rewrite E in Hd.
Qed.
