(* ===== verification/Blake.v ===== *)
(** * BLAKE2b-256, scalar reference implementation

    [blake2b256] of src/src/crypto.cpp, an independent specification written
    from RFC 7693, and the round schedule the device back ends share. *)
From S2P Require Import Prelude Words.

(** ** The tables *)

Definition iv : list Z :=
  [0x6a09e667f3bcc908; 0xbb67ae8584caa73b; 0x3c6ef372fe94f82b; 0xa54ff53a5f1d36f1;
   0x510e527fade682d1; 0x9b05688c2b3e6c1f; 0x1f83d9abfb41bd6b; 0x5be0cd19137e2179].

Definition sigma : list (list nat) :=
  [[0; 1; 2; 3; 4; 5; 6; 7; 8; 9; 10; 11; 12; 13; 14; 15];
   [14; 10; 4; 8; 9; 15; 13; 6; 1; 12; 0; 2; 11; 7; 5; 3];
   [11; 8; 12; 0; 5; 2; 15; 13; 10; 14; 3; 6; 7; 1; 9; 4];
   [7; 9; 3; 1; 13; 12; 11; 14; 2; 6; 5; 10; 4; 0; 15; 8];
   [9; 0; 5; 7; 2; 4; 10; 15; 14; 1; 11; 12; 6; 8; 3; 13];
   [2; 12; 6; 10; 0; 11; 8; 3; 4; 13; 7; 5; 15; 14; 1; 9];
   [12; 5; 1; 15; 14; 13; 4; 10; 0; 7; 6; 3; 9; 2; 8; 11];
   [13; 11; 7; 14; 12; 1; 3; 9; 5; 0; 15; 4; 8; 6; 2; 10];
   [6; 15; 14; 9; 11; 3; 0; 8; 12; 2; 13; 7; 1; 4; 10; 5];
   [10; 2; 8; 4; 7; 6; 1; 5; 15; 11; 9; 14; 3; 12; 13; 0]]%nat.

(** ** [blake2b256] *)

(** The lambda [g]: it updates the array [v] in place. *)
Definition g (a bb c d : nat) (x y : Z) (v : list Z) : list Z :=
  let v := <[a := u64 (v !!! a + u64 (v !!! bb + x))]> v in
  let v := <[d := rotr (Z.lxor (v !!! d) (v !!! a)) 32]> v in
  let v := <[c := u64 (v !!! c + v !!! d)]> v in
  let v := <[bb := rotr (Z.lxor (v !!! bb) (v !!! c)) 24]> v in
  let v := <[a := u64 (v !!! a + u64 (v !!! bb + y))]> v in
  let v := <[d := rotr (Z.lxor (v !!! d) (v !!! a)) 16]> v in
  let v := <[c := u64 (v !!! c + v !!! d)]> v in
  <[bb := rotr (Z.lxor (v !!! bb) (v !!! c)) 63]> v.

(** The body of [for (int r = 0; r < 12; ++r)]. *)
Definition scalar_round (m : list Z) (v : list Z) (r : nat) : list Z :=
  let s := sigma !!! (r `mod` 10)%nat in
  let v := g 0 4 8 12 (m !!! (s !!! 0%nat)) (m !!! (s !!! 1%nat)) v in
  let v := g 1 5 9 13 (m !!! (s !!! 2%nat)) (m !!! (s !!! 3%nat)) v in
  let v := g 2 6 10 14 (m !!! (s !!! 4%nat)) (m !!! (s !!! 5%nat)) v in
  let v := g 3 7 11 15 (m !!! (s !!! 6%nat)) (m !!! (s !!! 7%nat)) v in
  let v := g 0 5 10 15 (m !!! (s !!! 8%nat)) (m !!! (s !!! 9%nat)) v in
  let v := g 1 6 11 12 (m !!! (s !!! 10%nat)) (m !!! (s !!! 11%nat)) v in
  let v := g 2 7 8 13 (m !!! (s !!! 12%nat)) (m !!! (s !!! 13%nat)) v in
  g 3 4 9 14 (m !!! (s !!! 14%nat)) (m !!! (s !!! 15%nat)) v.

(** [m[i] = load_le(block.data() + 8 * i)] for i < n. *)
Definition load_words (n : nat) (block : Bytes) : list Z :=
  (λ i, load_le (drop (8 * i) block)) <$> seq 0 n.

(** [store_le(out.data() + 8 * i, h[i] ^ v[i] ^ v[i + 8])] for i < 4. *)
Definition digest (h v : list Z) : Bytes :=
  fold_left (λ out i, store_le out (8 * i) (Z.lxor (Z.lxor (h !!! i) (v !!! i)) (v !!! (i + 8)%nat)))
    (seq 0 4) (replicate 32 x00).

Definition blake2b256 (b : Bytes) : result Bytes :=
  _ ← throw_if (128 <? length b)%nat "reference BLAKE2b supports one block only";
  let block := copy_at (replicate 128 x00) 0 b in
  let m := load_words 16 block in
  let h := <[0%nat := Z.lxor (iv !!! 0%nat) 0x01010020]> iv in
  let v := h ++ iv in
  let v := <[12%nat := Z.lxor (v !!! 12%nat) (Z.of_nat (length b))]> v in
  let v := <[14%nat := not64 (v !!! 14%nat)]> v in
  let v := fold_left (scalar_round m) (seq 0 12) v in
  Ok (digest h v).

(** ** The schedule with four words passed by reference

    The AVX2, CUDA and OpenCL code calls a mixing function on four array
    elements by reference; [mix_at] is one such call on elements [a b c d]. *)
Section schedule.
Context {W : Type} `{Inhabited W}.
Variable mix : W → W → W → W → W → W → W * W * W * W.

Definition mix_at (a b c d : nat) (x y : W) (v : list W) : list W :=
  let '(a', b', c', d') := mix (v !!! a) (v !!! b) (v !!! c) (v !!! d) x y in
  <[d := d']> (<[c := c']> (<[b := b']> (<[a := a']> v))).

Definition mix_round (s : list nat) (m v : list W) : list W :=
  let v := mix_at 0 4 8 12 (m !!! (s !!! 0%nat)) (m !!! (s !!! 1%nat)) v in
  let v := mix_at 1 5 9 13 (m !!! (s !!! 2%nat)) (m !!! (s !!! 3%nat)) v in
  let v := mix_at 2 6 10 14 (m !!! (s !!! 4%nat)) (m !!! (s !!! 5%nat)) v in
  let v := mix_at 3 7 11 15 (m !!! (s !!! 6%nat)) (m !!! (s !!! 7%nat)) v in
  let v := mix_at 0 5 10 15 (m !!! (s !!! 8%nat)) (m !!! (s !!! 9%nat)) v in
  let v := mix_at 1 6 11 12 (m !!! (s !!! 10%nat)) (m !!! (s !!! 11%nat)) v in
  let v := mix_at 2 7 8 13 (m !!! (s !!! 12%nat)) (m !!! (s !!! 13%nat)) v in
  mix_at 3 4 9 14 (m !!! (s !!! 14%nat)) (m !!! (s !!! 15%nat)) v.
End schedule.

(** The mixing function on values: [a += b + x; d = rotr(d ^ a, 32); ...]. *)
Definition mix64 (a b c d x y : Z) : Z * Z * Z * Z :=
  let a := u64 (a + u64 (b + x)) in
  let d := rotr (Z.lxor d a) 32 in
  let c := u64 (c + d) in
  let b := rotr (Z.lxor b c) 24 in
  let a := u64 (a + u64 (b + y)) in
  let d := rotr (Z.lxor d a) 16 in
  let c := u64 (c + d) in
  let b := rotr (Z.lxor b c) 63 in
  (a, b, c, d).

(** ** RFC 7693 *)

Module Rfc7693.

(** Section 2.6: the first 64 bits of the fractional parts of the square roots
    of the first eight primes. *)
Definition IV : list Z :=
  (λ p, Z.sqrt (p * 2 ^ 128) mod 2 ^ 64) <$> [2; 3; 5; 7; 11; 13; 17; 19].

(** Section 2.7: the message schedule, one permutation of the sixteen message
    words for each of the ten distinct rounds. *)
Definition SIGMA : list (list nat) :=
  [[0; 1; 2; 3; 4; 5; 6; 7; 8; 9; 10; 11; 12; 13; 14; 15];
   [14; 10; 4; 8; 9; 15; 13; 6; 1; 12; 0; 2; 11; 7; 5; 3];
   [11; 8; 12; 0; 5; 2; 15; 13; 10; 14; 3; 6; 7; 1; 9; 4];
   [7; 9; 3; 1; 13; 12; 11; 14; 2; 6; 5; 10; 4; 0; 15; 8];
   [9; 0; 5; 7; 2; 4; 10; 15; 14; 1; 11; 12; 6; 8; 3; 13];
   [2; 12; 6; 10; 0; 11; 8; 3; 4; 13; 7; 5; 15; 14; 1; 9];
   [12; 5; 1; 15; 14; 13; 4; 10; 0; 7; 6; 3; 9; 2; 8; 11];
   [13; 11; 7; 14; 12; 1; 3; 9; 5; 0; 15; 4; 8; 6; 2; 10];
   [6; 15; 14; 9; 11; 3; 0; 8; 12; 2; 13; 7; 1; 4; 10; 5];
   [10; 2; 8; 4; 7; 6; 1; 5; 15; 11; 9; 14; 3; 12; 13; 0]]%nat.

(** Section 2.3: rotation of a 64-bit word to the right. *)
Definition ROTR (x n : Z) : Z := x / 2 ^ n + (x mod 2 ^ n) * 2 ^ (64 - n).

(** Section 3.1: the mixing function on one column or diagonal. *)
Definition G (a b c d x y : Z) : Z * Z * Z * Z :=
  let a := (a + b + x) mod 2 ^ 64 in
  let d := ROTR (Z.lxor d a) 32 in
  let c := (c + d) mod 2 ^ 64 in
  let b := ROTR (Z.lxor b c) 24 in
  let a := (a + b + y) mod 2 ^ 64 in
  let d := ROTR (Z.lxor d a) 16 in
  let c := (c + d) mod 2 ^ 64 in
  let b := ROTR (Z.lxor b c) 63 in
  (a, b, c, d).

(** The work vector as a 4x4 matrix of columns. *)
Definition column : Type := Z * Z * Z * Z.
Definition columns (v : list Z) : list column :=
  (λ i, (v !!! i, v !!! (i + 4), v !!! (i + 8), v !!! (i + 12))%nat) <$> seq 0 4.

Definition mix_columns (xy : list (Z * Z)) (cs : list column) : list column :=
  zip_with (λ '(x, y) '(a, b, c, d), G a b c d x y) xy cs.

(** Diagonal [i] takes row [k] from column [i + k]. *)
Definition diagonals (cs : list column) : list column :=
  (λ i, (((cs !!! i).1.1.1, (cs !!! ((i + 1) mod 4)).1.1.2),
          (cs !!! ((i + 2) mod 4)).1.2, (cs !!! ((i + 3) mod 4)).2)%nat) <$> seq 0 4.
Definition undiagonals (cs : list column) : list column :=
  (λ i, (((cs !!! i).1.1.1, (cs !!! ((i + 3) mod 4)).1.1.2),
          (cs !!! ((i + 2) mod 4)).1.2, (cs !!! ((i + 1) mod 4)).2)%nat) <$> seq 0 4.

Definition pairs (s : list nat) (m : list Z) (from : nat) : list (Z * Z) :=
  (λ i, (m !!! (s !!! (from + 2 * i)), m !!! (s !!! (from + 2 * i + 1)))%nat) <$> seq 0 4.

Definition round (m : list Z) (cs : list column) (r : nat) : list column :=
  let s := SIGMA !!! (r `mod` 10)%nat in
  let cs := mix_columns (pairs s m 0) cs in
  undiagonals (mix_columns (pairs s m 8) (diagonals cs)).

Definition flatten (cs : list column) : list Z :=
  (fst <$> (fst <$> (fst <$> cs))) ++ (snd <$> (fst <$> (fst <$> cs))) ++
  (snd <$> (fst <$> cs)) ++ (snd <$> cs).

(** Section 3.2: the compression function with byte counter [t] and final flag. *)
Definition F (h m : list Z) (t : Z) (final : bool) : list Z :=
  let v := h ++ IV in
  let v := alter (λ x, Z.lxor x (t mod 2 ^ 64)) 12%nat v in
  let v := alter (λ x, Z.lxor x (t / 2 ^ 64)) 13%nat v in
  let v := if final then alter (λ x, 2 ^ 64 - 1 - x) 14%nat v else v in
  let v := flatten (fold_left (round m) (seq 0 12) (columns v)) in
  zip_with Z.lxor h (zip_with Z.lxor (take 8 v) (drop 8 v)).

Definition words (block : Bytes) : list Z :=
  (λ i, le_value (take 8 (drop (8 * i) block))) <$> seq 0 16.
Definition pad (d : Bytes) : Bytes := d ++ replicate (128 - length d) x00.

Fixpoint hash_blocks (fuel : nat) (h : list Z) (t : Z) (d : Bytes) : list Z :=
  match fuel with
  | S fuel' =>
      if (128 <? length d)%nat then
        hash_blocks fuel' (F h (words (take 128 d)) (t + 128) false) (t + 128) (drop 128 d)
      else F h (words (pad d)) (t + Z.of_nat (length d)) true
  | O => h
  end.

(** Section 3.3: unkeyed hashing with [nn] bytes of output. *)
Definition blake2b (nn : nat) (d : Bytes) : Bytes :=
  let h := alter (λ x, Z.lxor x (Z.lxor 0x01010000 (Z.of_nat nn))) 0%nat IV in
  take nn (flat_map (le_bytes 8) (hash_blocks (S (length d)) h 0 d)).

(** The published test vectors, as big-endian numbers: Appendix A of the RFC
    (BLAKE2b-512 of "abc"), the 32-byte digest of the same message, and the
    255-byte message 00, 01, ..., fe of the BLAKE2 known answer tests, which
    takes two blocks and has no zero message word in the first. *)
Definition vector (nn : nat) (d : Bytes) : Z := le_value (reverse (blake2b nn d)).

Example appendix_a : vector 64 (bytes_of "abc") =
  0xba80a53f981c4d0d6a2797b69f12f6e94c212f14685ac4b74b12bb6fdbffa2d17d87c5392aab792dc252d5de4533cc9518d38aa8dbf1925ab92386edd4009923.
Proof. vm_compute. reflexivity. Qed.

Example abc_256 : vector 32 (bytes_of "abc") =
  0xbddd813c634239723171ef3fee98579b94964e3bb1cb3e427262c8c068d52319.
Proof. vm_compute. reflexivity. Qed.

Example known_answer_255 : vector 64 (flat_map (le_bytes 1) (Z.of_nat <$> seq 0 255)) =
  0x5b21c5fd8868367612474fa2e70e9cfa2201ffeee8fafab5797ad58fefa17c9b5b107da4a3db6320baaf2c8617d5a51df914ae88da3867c2d41f0cc14fa67928.
Proof. vm_compute. reflexivity. Qed.

End Rfc7693.

(** ** The scalar [g] is the mixing function on four elements *)

Lemma length_mix_at {W} `{Inhabited W} mix a b c d (x y : W) v :
  length (mix_at mix a b c d x y v) = length v.
Proof. unfold mix_at. destruct (mix _ _ _ _ _ _) as [[[??]?]?]. by rewrite !length_insert. Qed.

Lemma length_mix_round {W} `{Inhabited W} mix s (m v : list W) :
  length (mix_round mix s m v) = length v.
Proof. unfold mix_round. by rewrite !length_mix_at. Qed.

Lemma g_mix_at a b c d x y v : NoDup [a; b; c; d] →
  (a < length v)%nat → (b < length v)%nat → (c < length v)%nat → (d < length v)%nat →
  g a b c d x y v = mix_at mix64 a b c d x y v.
Proof.
  intros Hn Ha Hb Hc Hd. rewrite !NoDup_cons in Hn.
  assert (a ≠ b ∧ a ≠ c ∧ a ≠ d ∧ b ≠ c ∧ b ≠ d ∧ c ≠ d) as (?&?&?&?&?&?) by set_solver.
  unfold g, mix_at, mix64. cbn zeta.
  repeat first
    [ rewrite list_lookup_total_insert_eq by (rewrite ?length_insert; done)
    | rewrite list_lookup_total_insert_ne by done ].
  apply list_eq; intros i.
  destruct (decide (i < length v)%nat).
  2:{ rewrite !lookup_ge_None_2; rewrite ?length_insert; (done || lia). }
  destruct (decide (i = a)) as [->|]; [|destruct (decide (i = b)) as [->|];
    [|destruct (decide (i = c)) as [->|]; [|destruct (decide (i = d)) as [->|]]]].
  all: repeat first
    [ rewrite list_lookup_insert_eq by (rewrite ?length_insert; done)
    | rewrite list_lookup_insert_ne by done ]; done.
Qed.

(** The same for concrete indices into a 16-word array. *)
Lemma g_mix16 a b c d x y v :
  bool_decide (NoDup [a; b; c; d] ∧ a < 16 ∧ b < 16 ∧ c < 16 ∧ d < 16)%nat = true →
  length v = 16%nat → g a b c d x y v = mix_at mix64 a b c d x y v.
Proof.
  intros (?&?&?&?&?)%bool_decide_eq_true Hv. by apply g_mix_at; rewrite ?Hv.
Qed.

Ltac length16 := rewrite ?length_mix_at; first [done | assumption].

Lemma scalar_round_mix m v r : length v = 16%nat →
  scalar_round m v r = mix_round mix64 (sigma !!! (r `mod` 10)%nat) m v.
Proof.
  intros Hv. unfold scalar_round, mix_round. cbn zeta.
  rewrite (g_mix16 0 4 8 12) by length16. rewrite (g_mix16 1 5 9 13) by length16.
  rewrite (g_mix16 2 6 10 14) by length16. rewrite (g_mix16 3 7 11 15) by length16.
  rewrite (g_mix16 0 5 10 15) by length16. rewrite (g_mix16 1 6 11 12) by length16.
  rewrite (g_mix16 2 7 8 13) by length16. rewrite (g_mix16 3 4 9 14) by length16.
  done.
Qed.

(** ** Word ranges *)

Definition words_ok (v : list Z) : Prop := Forall is_u64 v.

Lemma words_ok_lookup v i : words_ok v → is_u64 (v !!! i).
Proof.
  intros H. destruct (decide (i < length v)%nat) as [Hi|Hi].
  - eapply Forall_lookup_1; [exact H|]. by apply list_lookup_lookup_total_lt.
  - rewrite list_lookup_total_alt, lookup_ge_None_2 by lia. simpl. unfold is_u64. simpl. lia.
Qed.

Lemma words_ok_insert v i x : words_ok v → is_u64 x → words_ok (<[i := x]> v).
Proof. intros. by apply Forall_insert. Qed.
#[export] Hint Resolve words_ok_lookup words_ok_insert : words.

(** Word-range side conditions of nested word expressions. *)
Ltac word_range :=
  repeat first
    [ assumption | apply u64_range | apply not64_range | apply lxor_u64
    | apply rotr_u64; [|lia] | apply words_ok_lookup | apply Z.mod_pos_bound; lia ].

Lemma mix64_range a b c d x y :
  is_u64 a → is_u64 b → is_u64 c → is_u64 d →
  let '(a', b', c', d') := mix64 a b c d x y in
  is_u64 a' ∧ is_u64 b' ∧ is_u64 c' ∧ is_u64 d'.
Proof.
  intros. unfold mix64. split_and!; word_range.
Qed.

Lemma mix_at_words_ok a b c d x y v : words_ok v → words_ok (mix_at mix64 a b c d x y v).
Proof.
  intros Hv. unfold mix_at.
  pose proof (mix64_range (v !!! a) (v !!! b) (v !!! c) (v !!! d) x y) as Hr.
  destruct (mix64 _ _ _ _ _ _) as [[[??]?]?].
  destruct Hr as (?&?&?&?); auto 10 with words.
Qed.

Lemma mix_round_words_ok s m v : words_ok v → words_ok (mix_round mix64 s m v).
Proof. intros. unfold mix_round. do 8 apply mix_at_words_ok. done. Qed.

(** ** Agreement with RFC 7693 *)

Lemma iv_rfc : Rfc7693.IV = iv.
Proof. vm_compute. reflexivity. Qed.

Lemma sigma_rfc : Rfc7693.SIGMA = sigma.
Proof. vm_compute. reflexivity. Qed.

Lemma iv_words_ok : words_ok iv.
Proof. unfold words_ok, iv. repeat constructor; unfold is_u64; simpl; lia. Qed.

Lemma mix64_G a b c d x y : is_u64 a → is_u64 b → is_u64 c → is_u64 d →
  Rfc7693.G a b c d x y = mix64 a b c d x y.
Proof.
  intros Ha Hb Hc Hd. unfold Rfc7693.G, mix64. cbn zeta.
  assert (∀ p q r, (p + q + r) mod 2 ^ 64 = u64 (p + u64 (q + r))) as Hadd.
  { intros. unfold u64. rewrite Zplus_mod_idemp_r. f_equal. lia. }
  rewrite !Hadd. change (λ z, z mod 2 ^ 64) with u64.
  assert (∀ z n, is_u64 z → 0 < n < 64 → Rfc7693.ROTR z n = rotr z n) as Hrot.
  { intros. unfold Rfc7693.ROTR. by rewrite rotr_eq. }
  repeat (rewrite Hrot; [|solve [word_range]|lia]).
  done.
Qed.

Lemma list16_inv {A} (l : list A) : length l = 16%nat →
  ∃ a0 a1 a2 a3 b0 b1 b2 b3 c0 c1 c2 c3 d0 d1 d2 d3,
    l = [a0;a1;a2;a3;b0;b1;b2;b3;c0;c1;c2;c3;d0;d1;d2;d3].
Proof.
  intros H. do 16 (destruct l as [|? l]; [discriminate H|]).
  destruct l; [|discriminate H]. by repeat eexists.
Qed.

Lemma flatten_columns v : length v = 16%nat → Rfc7693.flatten (Rfc7693.columns v) = v.
Proof. intros Hv. by destruct (list16_inv v Hv) as (?&?&?&?&?&?&?&?&?&?&?&?&?&?&?&?&->). Qed.

(** Column-wise mixing with any mixing function is the code's array schedule. *)
Section layout.
Context (f : Z → Z → Z → Z → Z → Z → Z * Z * Z * Z).

Definition mix_columns_with (xy : list (Z * Z)) (cs : list Rfc7693.column) :=
  zip_with (λ '(x, y) '(a, b, c, d), f a b c d x y) xy cs.

Lemma mix_layout x0 y0 x1 y1 x2 y2 x3 y3 x4 y4 x5 y5 x6 y6 x7 y7 v : length v = 16%nat →
  Rfc7693.undiagonals (mix_columns_with [(x4, y4); (x5, y5); (x6, y6); (x7, y7)]
    (Rfc7693.diagonals (mix_columns_with [(x0, y0); (x1, y1); (x2, y2); (x3, y3)]
      (Rfc7693.columns v)))) =
  Rfc7693.columns
    (mix_at f 3 4 9 14 x7 y7 (mix_at f 2 7 8 13 x6 y6
    (mix_at f 1 6 11 12 x5 y5 (mix_at f 0 5 10 15 x4 y4
    (mix_at f 3 7 11 15 x3 y3 (mix_at f 2 6 10 14 x2 y2
    (mix_at f 1 5 9 13 x1 y1 (mix_at f 0 4 8 12 x0 y0 v)))))))).
Proof.
  intros Hv.
  destruct (list16_inv v Hv) as (a0&a1&a2&a3&b0&b1&b2&b3&c0&c1&c2&c3&d0&d1&d2&d3&->).
  unfold mix_at at 8. cbn [lookup_total list_lookup_total insert list_insert].
  unfold mix_columns_with at 2, Rfc7693.columns at 1.
  cbn [lookup_total list_lookup_total fmap list_fmap seq Nat.add zip_with].
  destruct (f a0 b0 c0 d0 x0 y0) as [[[a0' b0'] c0'] d0'].
  unfold mix_at at 7. cbn [lookup_total list_lookup_total insert list_insert].
  destruct (f a1 b1 c1 d1 x1 y1) as [[[a1' b1'] c1'] d1'].
  unfold mix_at at 6. cbn [lookup_total list_lookup_total insert list_insert].
  destruct (f a2 b2 c2 d2 x2 y2) as [[[a2' b2'] c2'] d2'].
  unfold mix_at at 5. cbn [lookup_total list_lookup_total insert list_insert].
  destruct (f a3 b3 c3 d3 x3 y3) as [[[a3' b3'] c3'] d3'].
  change (Rfc7693.diagonals _) with
    [(a0', b1', c2', d3'); (a1', b2', c3', d0'); (a2', b3', c0', d1'); (a3', b0', c1', d2')].
  unfold mix_columns_with. cbn [zip_with].
  unfold mix_at at 4. cbn [lookup_total list_lookup_total insert list_insert].
  destruct (f a0' b1' c2' d3' x4 y4) as [[[??]?]?].
  unfold mix_at at 3. cbn [lookup_total list_lookup_total insert list_insert].
  destruct (f a1' b2' c3' d0' x5 y5) as [[[??]?]?].
  unfold mix_at at 2. cbn [lookup_total list_lookup_total insert list_insert].
  destruct (f a2' b3' c0' d1' x6 y6) as [[[??]?]?].
  unfold mix_at at 1. cbn [lookup_total list_lookup_total insert list_insert].
  destruct (f a3' b0' c1' d2' x7 y7) as [[[??]?]?].
  reflexivity.
Qed.
End layout.

(** Columns whose entries are all 64-bit words. *)
Definition column_ok (c : Rfc7693.column) : Prop :=
  let '(a, b, c, d) := c in is_u64 a ∧ is_u64 b ∧ is_u64 c ∧ is_u64 d.

Lemma mix_columns_G xy cs : Forall column_ok cs →
  Rfc7693.mix_columns xy cs = mix_columns_with mix64 xy cs.
Proof.
  intros H. revert xy. induction H as [|[[[a b] c] d] cs (?&?&?&?) _ IH]; intros [|[x y] xy]; try done.
  cbn. rewrite mix64_G by done. f_equal. apply IH.
Qed.

Lemma mix_columns_with_ok xy cs : Forall column_ok cs →
  Forall column_ok (mix_columns_with mix64 xy cs).
Proof.
  intros H. revert xy. induction H as [|[[[a b] c] d] cs (?&?&?&?) _ IH];
    intros [|[x y] xy]; try by constructor.
  constructor; [by apply mix64_range|apply IH].
Qed.

Lemma column_ok_lookup cs i : Forall column_ok cs → column_ok (cs !!! i).
Proof.
  intros H. destruct (decide (i < length cs)%nat) as [Hi|Hi].
  - eapply Forall_lookup_1; [exact H|]. by apply list_lookup_lookup_total_lt.
  - rewrite list_lookup_total_alt, lookup_ge_None_2 by lia. cbn. unfold is_u64. lia.
Qed.

Lemma columns_ok v : words_ok v → Forall column_ok (Rfc7693.columns v).
Proof. intros. repeat constructor; by apply words_ok_lookup. Qed.

Lemma column_ok_proj c : column_ok c →
  is_u64 c.1.1.1 ∧ is_u64 c.1.1.2 ∧ is_u64 c.1.2 ∧ is_u64 c.2.
Proof. by destruct c as [[[??]?]?]. Qed.

Lemma diagonals_ok cs : Forall column_ok cs → Forall column_ok (Rfc7693.diagonals cs).
Proof.
  intros H. unfold Rfc7693.diagonals. apply Forall_fmap, Forall_true. intros i.
  split_and!; by apply column_ok_proj, column_ok_lookup.
Qed.

(** One RFC round, column-wise and diagonal-wise, is the code's round of eight
    calls on array elements. *)
Lemma rfc_round m v r : length v = 16%nat → words_ok v →
  Rfc7693.round m (Rfc7693.columns v) r =
  Rfc7693.columns (mix_round mix64 (sigma !!! (r `mod` 10)%nat) m v).
Proof.
  intros Hv Hok. unfold Rfc7693.round. rewrite sigma_rfc. cbn zeta.
  rewrite (mix_columns_G _ (Rfc7693.columns v)) by by apply columns_ok.
  rewrite mix_columns_G by by apply diagonals_ok, mix_columns_with_ok, columns_ok.
  unfold Rfc7693.pairs, mix_round. cbn [fmap list_fmap seq Nat.add Nat.mul]. cbn zeta.
  by rewrite mix_layout.
Qed.

Lemma rfc_rounds m rs v : length v = 16%nat → words_ok v →
  fold_left (Rfc7693.round m) rs (Rfc7693.columns v) =
  Rfc7693.columns (fold_left (scalar_round m) rs v).
Proof.
  revert v. induction rs as [|r rs IH]; intros v Hv Hok; [done|]. rewrite !fold_left_cons.
  rewrite rfc_round, scalar_round_mix by done.
  apply IH; [by rewrite length_mix_round|by apply mix_round_words_ok].
Qed.

Lemma copy_block b : (length b ≤ 128)%nat →
  copy_at (replicate 128 x00) 0 b = Rfc7693.pad b.
Proof. intros H. unfold copy_at, Rfc7693.pad. by rewrite drop_replicate. Qed.

Lemma load_words_value n p : (8 * n ≤ length p)%nat →
  load_words n p = (λ i, le_value (take 8 (drop (8 * i) p))) <$> seq 0 n.
Proof.
  intros H. unfold load_words. apply list_fmap_ext. intros i x Hi.
  apply lookup_seq in Hi as [-> Hi]. apply load_le_value. rewrite length_drop. lia.
Qed.

Lemma digest_value h v : length h = 8%nat → length v = 16%nat →
  digest h v =
  take 32 (flat_map (le_bytes 8) (zip_with Z.lxor h (zip_with Z.lxor (take 8 v) (drop 8 v)))).
Proof.
  intros Hh Hv. unfold digest. rewrite store_words_splice by (rewrite length_replicate; lia).
  rewrite drop_replicate, app_nil_r.
  destruct (list8_inv h Hh) as (h0&h1&h2&h3&h4&h5&h6&h7&->).
  destruct (list16_inv v Hv) as (a0&a1&a2&a3&b0&b1&b2&b3&c0&c1&c2&c3&d0&d1&d2&d3&->).
  cbn [take drop zip_with seq flat_map lookup_total list_lookup_total Nat.add].
  rewrite !Z.lxor_assoc, !app_assoc, !app_nil_r.
  repeat rewrite take_app_le by (rewrite !length_app, !le_bytes_length; lia).
  by rewrite take_ge by (rewrite !length_app, !le_bytes_length; lia).
Qed.

Lemma scalar_rounds_length m rs v : length v = 16%nat →
  length (fold_left (scalar_round m) rs v) = 16%nat.
Proof.
  revert v. induction rs as [|r rs IH]; intros v Hv; [done|].
  rewrite fold_left_cons, scalar_round_mix by done. apply IH. by rewrite length_mix_round.
Qed.

(** The initial state of [blake2b256] for a message of [n] bytes. *)
Definition initial_h : list Z := <[0%nat := Z.lxor (iv !!! 0%nat) 0x01010020]> iv.
Definition initial_v (n : Z) : list Z :=
  let v := initial_h ++ iv in
  let v := <[12%nat := Z.lxor (v !!! 12%nat) n]> v in
  <[14%nat := not64 (v !!! 14%nat)]> v.

Lemma initial_h_words_ok : words_ok initial_h.
Proof. unfold words_ok. by_compute. Qed.

Lemma initial_v_words_ok n : is_u64 n → words_ok (initial_v n).
Proof.
  intros Hn. unfold initial_v. cbn zeta.
  assert (words_ok (initial_h ++ iv)) by (apply Forall_app_2; [apply initial_h_words_ok|apply iv_words_ok]).
  apply words_ok_insert; [apply words_ok_insert|]; word_range; done.
Qed.

Lemma initial_v_rfc n : 0 ≤ n < 2 ^ 64 →
  alter (λ x, 2 ^ 64 - 1 - x) 14%nat
    (alter (λ x, Z.lxor x (n / 2 ^ 64)) 13%nat
      (alter (λ x, Z.lxor x (n mod 2 ^ 64)) 12%nat (initial_h ++ Rfc7693.IV))) = initial_v n.
Proof.
  intros Hn. rewrite Z.mod_small, Z.div_small by done.
  rewrite iv_rfc. rewrite (list_alter_id' 13) by (intros; apply Z.lxor_0_r).
  rewrite (alter_insert_total 12) by (vm_compute; lia). fold initial_h.
  rewrite (alter_insert_total 14) by (rewrite length_insert; vm_compute; lia).
  unfold initial_v. cbn zeta. rewrite not64_eq; [done|].
  rewrite list_lookup_total_insert_ne by lia. vm_compute. split; [discriminate|reflexivity].
Qed.

(** The value [blake2b256] computes on one block. *)
Lemma blake2b256_one_block b : (length b ≤ 128)%nat →
  blake2b256 b = Ok (digest initial_h (fold_left (scalar_round (load_words 16 (Rfc7693.pad b)))
                      (seq 0 12) (initial_v (Z.of_nat (length b))))).
Proof.
  intros H. unfold blake2b256. rewrite (proj2 (Nat.ltb_ge _ _) H). rewrite throw_if_false.
  rewrite bind_Ok_eq. cbn zeta. by rewrite copy_block.
Qed.

Lemma rfc_one_block b : (length b ≤ 128)%nat →
  Rfc7693.blake2b 32 b =
  take 32 (flat_map (le_bytes 8)
    (Rfc7693.F initial_h (Rfc7693.words (Rfc7693.pad b)) (Z.of_nat (length b)) true)).
Proof.
  intros H. unfold Rfc7693.blake2b. cbn [Rfc7693.hash_blocks].
  by rewrite (proj2 (Nat.ltb_ge _ _) H), iv_rfc, Z.add_0_l.
Qed.

Lemma blake2b256_rfc_block b : (length b ≤ 128)%nat → blake2b256 b = Ok (Rfc7693.blake2b 32 b).
Proof.
  intros H. rewrite blake2b256_one_block, rfc_one_block by done. f_equal.
  assert (0 ≤ Z.of_nat (length b) < 2 ^ 64) as Hn by lia.
  rewrite digest_value; [|done|by apply scalar_rounds_length].
  unfold Rfc7693.F. cbn zeta. rewrite initial_v_rfc by done.
  rewrite rfc_rounds by (done || by apply initial_v_words_ok).
  rewrite flatten_columns by (by apply scalar_rounds_length).
  unfold Rfc7693.words. rewrite load_words_value; [done|].
  unfold Rfc7693.pad. rewrite length_app, length_replicate. lia.
Qed.

Lemma blake2b256_rfc_value b d : blake2b256 b = Ok d → d = Rfc7693.blake2b 32 b.
Proof.
  intros H. destruct (Nat.leb_spec (length b) 128) as [Hl|Hl].
  - rewrite blake2b256_rfc_block in H by done. by injection H.
  - unfold blake2b256 in H. by rewrite (proj2 (Nat.ltb_lt _ _) Hl) in H.
Qed.

(** C6: on every message of at most one block, [blake2b256] is BLAKE2b with a
    32-byte digest as RFC 7693 defines it, and on every longer message it
    throws. *)
Theorem blake2b256_rfc7693 b :
  blake2b256 b =
  if (length b <=? 128)%nat then Ok (Rfc7693.blake2b 32 b)
  else Throw (runtime_error "reference BLAKE2b supports one block only").
Proof.
  destruct (Nat.leb_spec (length b) 128) as [H|H]; [by apply blake2b256_rfc_block|].
  unfold blake2b256. by rewrite (proj2 (Nat.ltb_lt _ _) H).
Qed.

Lemma digest_length h v : length (digest h v) = 32%nat.
Proof.
  unfold digest. rewrite store_words_splice by (rewrite length_replicate; lia).
  rewrite length_app, drop_replicate, length_replicate.
  by rewrite flat_map_constant_length with (c := 8%nat) by (intros; apply le_bytes_length).
Qed.

Lemma blake2b256_length b d : blake2b256 b = Ok d → length d = 32%nat.
Proof.
  intros H. unfold blake2b256 in H. apply bind_Ok in H as (u & _ & H).
  apply Ok_inj in H. rewrite <- H. apply digest_length.
Qed.

(** ** Back ends that mix other word types

    A mixing function on a word type [W] that is [mix64] under a view of [W] as
    64-bit words gives the scalar rounds under that view. *)
Section simulation.
Context {W : Type} `{Inhabited W} (mix : W → W → W → W → W → W → W * W * W * W).
Context (view : W → Z) (good : W → Prop).
Hypothesis view_inhabitant : view inhabitant = inhabitant.
Hypothesis good_inhabitant : good inhabitant.
Hypothesis mix_view : ∀ a b c d x y,
  good a → good b → good c → good d → good x → good y →
  let '(a', b', c', d') := mix a b c d x y in
  (good a' ∧ good b' ∧ good c' ∧ good d') ∧
  (view a', view b', view c', view d') = mix64 (view a) (view b) (view c) (view d) (view x) (view y).

Lemma view_lookup (v : list W) (i : nat) : (view <$> v) !!! i = view (v !!! i).
Proof.
  rewrite !list_lookup_total_alt, list_lookup_fmap. by destruct (v !! i).
Qed.

Lemma good_lookup (v : list W) (i : nat) : Forall good v → good (v !!! i).
Proof.
  intros Hv. rewrite list_lookup_total_alt. destruct (v !! i) eqn:E; [|done].
  by eapply Forall_lookup_1 in E.
Qed.

Lemma mix_at_sim a b c d x y v : Forall good v → good x → good y →
  Forall good (mix_at mix a b c d x y v) ∧
  view <$> mix_at mix a b c d x y v = mix_at mix64 a b c d (view x) (view y) (view <$> v).
Proof.
  intros Hv Hx Hy. unfold mix_at. rewrite !view_lookup.
  pose proof (mix_view (v !!! a) (v !!! b) (v !!! c) (v !!! d) x y
    (good_lookup _ _ Hv) (good_lookup _ _ Hv) (good_lookup _ _ Hv) (good_lookup _ _ Hv) Hx Hy) as Hm.
  destruct (mix _ _ _ _ _ _) as [[[a' b'] c'] d']. destruct Hm as [(?&?&?&?) <-].
  split; [by repeat apply Forall_insert|]. by rewrite !list_fmap_insert.
Qed.

Lemma mix_round_sim s m v : Forall good v → Forall good m →
  Forall good (mix_round mix s m v) ∧
  view <$> mix_round mix s m v = mix_round mix64 s (view <$> m) (view <$> v).
Proof.
  intros Hv Hm. unfold mix_round. cbn zeta. rewrite !view_lookup.
  repeat match goal with
  | |- context [mix_at mix ?a ?b ?c ?d ?x ?y ?v] =>
      lazymatch v with context [mix_at mix] => fail | _ => idtac end;
      let Hg := fresh in let He := fresh in
      destruct (mix_at_sim a b c d x y v) as [Hg He];
        [assumption|by apply good_lookup..|]; rewrite <- He; clear He;
      let w := fresh "w" in set (w := mix_at mix a b c d x y v) in *; clearbody w
  end.
  done.
Qed.

Lemma rounds_sim m rs v : Forall good v → Forall good m → length v = 16%nat →
  let round v r := mix_round mix (sigma !!! (r `mod` 10)%nat) m v in
  Forall good (fold_left round rs v) ∧
  view <$> fold_left round rs v = fold_left (scalar_round (view <$> m)) rs (view <$> v).
Proof.
  intros Hv Hm Hl round. revert v Hv Hl. induction rs as [|r rs IH]; intros v Hv Hl; [done|].
  rewrite !fold_left_cons. rewrite scalar_round_mix by (by rewrite length_fmap).
  destruct (mix_round_sim (sigma !!! (r `mod` 10)%nat) m v Hv Hm) as [Hg He].
  rewrite <- He. apply IH; [done|]. unfold round. by rewrite length_mix_round.
Qed.
End simulation.

Lemma scalar_rounds_words_ok m rs v : length v = 16%nat → words_ok v →
  words_ok (fold_left (scalar_round m) rs v).
Proof.
  revert v. induction rs as [|r rs IH]; intros v Hl Hv; [done|].
  rewrite fold_left_cons, scalar_round_mix by done.
  apply IH; [by rewrite length_mix_round|by apply mix_round_words_ok].
Qed.
