(* ===== verification/Targets.v ===== *)
(** * Targets: comparison, difficulty and compact form

    [meets], [difficulty_target] and [tagged_sha256] of src/src/crypto.cpp and
    [compact_target] of src/src/coin.cpp.  OpenSSL's BIGNUM and SHA256 are
    interfaces: [BigNum] lists the calls the code makes, [BigNumLaws] what the
    code relies on. *)
From S2P Require Import Prelude Words Hex.

(** ** Comparison of hashes *)

(** [std::lexicographical_compare] on byte ranges. *)
Fixpoint lexicographical_compare (a b : Bytes) : bool :=
  match a, b with
  | _, [] => false
  | [], _ :: _ => true
  | x :: a', y :: b' =>
      if b2z x <? b2z y then true
      else if b2z y <? b2z x then false
      else lexicographical_compare a' b'
  end.

Definition meets (h t : Bytes) : bool := negb (lexicographical_compare t h).

(** ** Compact targets *)

(** The loop of the branch [exponent > 3]: one iteration for byte [i]. *)
Definition compact_byte (exponent mantissa : Z) (out : Bytes) (i : nat) : result Bytes :=
  let position := 32 - exponent + Z.of_nat i in
  let byte := Z.land (Z.shiftr mantissa (16 - Z.of_nat i * 8)) 255 in
  if position <? 0 then
    if negb (byte =? 0) then Throw (runtime_error "compact target overflow") else Ok out
  else if position <? 32 then Ok (<[Z.to_nat position := u8 byte]> out)
  else Ok out.

(** The loop of the branch [exponent <= 3]. *)
Fixpoint compact_low (idx : list nat) (mantissa : Z) (out : Bytes) : Bytes :=
  match idx with
  | [] => out
  | i :: idx' => compact_low idx' (Z.shiftr mantissa 8) (<[i := u8 (Z.land mantissa 255)]> out)
  end.

Definition compact_target (nbits : string) : result Bytes :=
  bytes ← unhex nbits;
  _ ← throw_if (negb (length bytes =? 4)%nat) "invalid nbits";
  let exponent := b2z (bytes !!! 0%nat) in
  let mantissa := Z.lor (Z.lor (Z.shiftl (b2z (bytes !!! 1%nat)) 16)
                     (Z.shiftl (b2z (bytes !!! 2%nat)) 8)) (b2z (bytes !!! 3%nat)) in
  _ ← throw_if (negb (Z.land mantissa 0x800000 =? 0) || (mantissa =? 0) || (34 <? exponent))
        "invalid compact target";
  let out := replicate 32 x00 in
  out ← (if exponent <=? 3 then
           Ok (compact_low [31; 30; 29; 28]%nat (Z.shiftr mantissa (8 * (3 - exponent))) out)
         else
           o1 ← compact_byte exponent mantissa out 0;
           o2 ← compact_byte exponent mantissa o1 1;
           compact_byte exponent mantissa o2 2);
  _ ← throw_if (forallb (λ b, b2z b =? 0) out) "zero compact target";
  Ok out.

(** ** OpenSSL interfaces *)

(** The BIGNUM calls of [difficulty_target].  [None] is a null pointer or a
    failure status. *)
Class BigNum := {
  bn : Type;
  BN_new : option bn;
  BN_CTX_new : option unit;
  BN_dec2bn : string → option bn;
  BN_is_zero : bn → bool;
  BN_set_word : bn → Z → bn;
  BN_lshift : bn → Z → bn;
  BN_mul_word : bn → Z → option bn;
  BN_div : bn → bn → option bn;
  BN_num_bits : bn → Z;
  BN_bn2binpad : bn → nat → option Bytes;
}.

(** [SHA256(data, size, out)]. *)
Class Sha256 := SHA256 : Bytes → Bytes.

(** ** Difficulty *)

(** [isspace] in the C locale, and the digit test. *)
Definition is_space (c : byte) : bool :=
  (b2z c =? 32) || ((9 <=? b2z c) && (b2z c <=? 13)).
Definition is_digit (c : byte) : bool := (48 <=? b2z c) && (b2z c <=? 57).

(** Value of a digit string, most significant digit first. *)
Definition dec_value (l : Bytes) : Z :=
  fold_left (λ v c, 10 * v + (b2z c - 48)) l 0.

(** [std::string::find_first_of] for the characters satisfying [P];
    [None] is [npos]. *)
Definition find_first (P : byte → bool) (s : Bytes) : option nat :=
  fst <$> list_find (λ c, P c = true) s.

(** [std::stoi(s, &n)]: value and number of characters consumed. *)
Definition stoi (s : Bytes) : result (Z * nat) :=
  let ws := length (take_while is_space s) in
  let s1 := drop ws s in
  let '(neg, sign) := match s1 with
    | c :: _ => if b2z c =? 45 then (true, 1%nat) else if b2z c =? 43 then (false, 1%nat) else (false, 0%nat)
    | [] => (false, 0%nat) end in
  let ds := take_while is_digit (drop sign s1) in
  if bool_decide (ds = []) then Throw std_invalid_argument
  else
    let v := if neg then - dec_value ds else dec_value ds in
    if (v <? - 2 ^ 31) || (2 ^ 31 - 1 <? v) then Throw std_out_of_range
    else Ok (v, (ws + sign + length ds)%nat).

Section difficulty.
Context {BN : BigNum}.

(** [for (i < n) if (!BN_mul_word(x, 10)) throw ...]. *)
Fixpoint mul10 (n : nat) (x : bn) : result bn :=
  match n with
  | O => Ok x
  | S n' =>
      match BN_mul_word x 10 with
      | Some x' => mul10 n' x'
      | None => Throw (runtime_error "BN multiply failed")
      end
  end.

(** The exponent part: the mantissa text and the exponent. *)
Definition split_exponent (decimal : Bytes) : result (Bytes * Z) :=
  match find_first (λ c, (b2z c =? 101) || (b2z c =? 69)) decimal with
  | Some ep =>
      let e := drop (S ep) decimal in
      '(exponent, n) ← stoi e;
      _ ← throw_if (negb (n =? length e)%nat || (300 <? exponent) || (exponent <? -300))
            "difficulty exponent";
      Ok (take ep decimal, exponent)
  | None => Ok (decimal, 0)
  end.

(** The decimal point: [exponent -= int(mant.size() - dot - 1); mant.erase(dot, 1)]. *)
Definition remove_dot (mant : Bytes) (exponent : Z) : Bytes * Z :=
  match find_first (λ c, b2z c =? 46) mant with
  | Some dot =>
      (take dot mant ++ drop (S dot) mant, exponent - (Z.of_nat (length mant) - Z.of_nat dot - 1))
  | None => (mant, exponent)
  end.

Definition difficulty_target (decimal : string) : result Bytes :=
  let text := String.list_byte_of_string decimal in
  _ ← throw_if ((length text =? 0)%nat || (96 <? length text)%nat) "invalid difficulty";
  '(mant, exponent) ← split_exponent text;
  let '(mant, exponent) := remove_dot mant exponent in
  _ ← throw_if ((length mant =? 0)%nat || negb (forallb is_digit mant)) "invalid difficulty";
  match BN_dec2bn (String.string_of_list_byte mant), BN_new, BN_new, BN_CTX_new with
  | Some den, Some num, Some _, Some _ =>
      _ ← throw_if (BN_is_zero den) "invalid difficulty";
      let num := BN_lshift (BN_set_word num 65535) 208 in
      '(num, den) ← (if exponent <? 0
                     then num' ← mul10 (Z.to_nat (Z.abs exponent)) num; Ok (num', den)
                     else den' ← mul10 (Z.to_nat (Z.abs exponent)) den; Ok (num, den'));
      match BN_div num den with
      | None => Throw (runtime_error "BN divide failed")
      | Some out =>
          if 256 <? BN_num_bits out then Ok (replicate 32 xff)
          else Ok (default (replicate 32 x00) (BN_bn2binpad out 32))
      end
  | _, _, _, _ => Throw (runtime_error "invalid difficulty")
  end.
End difficulty.

(** ** Tagged hashes *)

Definition tagged_sha256 {SHA : Sha256} (tag : string) (b : Bytes) : Bytes :=
  let t := SHA256 (String.list_byte_of_string tag) in
  let pre := t ++ t ++ b in
  SHA256 pre.

(** ** What the code relies on of BIGNUM *)

(** The documented behaviour of the calls above when memory is available. *)
Class BigNumLaws `{BigNum} := {
  bn_value : bn → Z;
  BN_new_ok : ∃ b, BN_new = Some b;
  BN_CTX_new_ok : BN_CTX_new = Some ();
  BN_dec2bn_ok s : s ≠ EmptyString →
    forallb is_digit (String.list_byte_of_string s) = true →
    ∃ b, BN_dec2bn s = Some b ∧ bn_value b = dec_value (String.list_byte_of_string s);
  BN_is_zero_ok b : BN_is_zero b = true ↔ bn_value b = 0;
  BN_set_word_ok b w : is_u64 w → bn_value (BN_set_word b w) = w;
  BN_lshift_ok b n : 0 ≤ n → bn_value (BN_lshift b n) = bn_value b * 2 ^ n;
  BN_mul_word_ok b w : is_u64 w → ∃ b', BN_mul_word b w = Some b' ∧ bn_value b' = bn_value b * w;
  BN_div_ok a b : 0 ≤ bn_value a → 0 < bn_value b →
    ∃ q, BN_div a b = Some q ∧ bn_value q = bn_value a / bn_value b;
  BN_num_bits_ok b : 0 ≤ bn_value b →
    BN_num_bits b = if bn_value b =? 0 then 0 else Z.log2 (bn_value b) + 1;
  BN_bn2binpad_ok b n : 0 ≤ bn_value b < 256 ^ Z.of_nat n →
    BN_bn2binpad b n = Some (reverse (le_bytes n (bn_value b)));
  BN_bn2binpad_length b n out : BN_bn2binpad b n = Some out → length out = n;
}.
Arguments BigNumLaws : clear implicits.
Arguments BigNumLaws BN : rename.

(** A concrete BIGNUM over [Z]. *)
#[export] Instance bignum_Z : BigNum := {
  bn := Z;
  BN_new := Some 0;
  BN_CTX_new := Some ();
  BN_dec2bn s := Some (dec_value (String.list_byte_of_string s));
  BN_is_zero b := b =? 0;
  BN_set_word _ w := w;
  BN_lshift b n := b * 2 ^ n;
  BN_mul_word b w := Some (b * w);
  BN_div a b := if b =? 0 then None else Some (a / b);
  BN_num_bits b := if b =? 0 then 0 else Z.log2 b + 1;
  BN_bn2binpad b n := if b <? 256 ^ Z.of_nat n then Some (reverse (le_bytes n b)) else None;
}.

#[refine, export] Instance bignum_Z_laws : BigNumLaws bignum_Z := { bn_value := λ b : @bn bignum_Z, b : Z }.
Proof.
  all: simpl; try done; eauto.
  - intros b. by rewrite Z.eqb_eq.
  - intros a b _ Hb. destruct (Z.eqb_spec b 0); [lia|eauto].
  - intros b n [_ Hn]. by apply Z.ltb_lt in Hn as ->.
  - intros b n out. destruct (_ <? _); [|done]. intros [= <-]. by rewrite length_reverse, le_bytes_length.
Qed.

Example difficulty_one :
  difficulty_target "1" = compact_target "1d00ffff".
Proof. vm_compute. reflexivity. Qed.
Example difficulty_exponent :
  difficulty_target "128" = difficulty_target "1.28e2".
Proof. vm_compute. reflexivity. Qed.

(** ** [meets] *)

Lemma lexicographical_compare_be a b : length a = length b →
  lexicographical_compare a b = true ↔ be_value a < be_value b.
Proof.
  revert b. induction a as [|x a IH]; intros [|y b] Hl; try discriminate Hl; [done|].
  injection Hl as Hl. cbn [lexicographical_compare]. rewrite !be_value_cons.
  pose proof (be_value_bound a) as Ha. pose proof (be_value_bound b) as Hb.
  pose proof (b2z_range x). pose proof (b2z_range y). rewrite <- Hl in *.
  destruct (Z.ltb_spec (b2z x) (b2z y)); [split; [nia|done]|].
  destruct (Z.ltb_spec (b2z y) (b2z x)); [split; [done|nia]|].
  rewrite (IH b Hl). replace (b2z y) with (b2z x) by lia. lia.
Qed.

Lemma meets_be h t : length h = length t → meets h t = true ↔ be_value h ≤ be_value t.
Proof.
  intros Hl. unfold meets. rewrite negb_true_iff, <- not_true_iff_false.
  rewrite lexicographical_compare_be by done. lia.
Qed.

(** [meets] compares the hash and the target as big-endian integers. *)
Theorem meets_be_value h t : length h = length t →
  meets h t = true ↔ be_value h ≤ be_value t.
Proof. apply meets_be. Qed.

Lemma meets_be_value_witness :
  (meets (reverse (le_bytes 32 7)) (reverse (le_bytes 32 256)) = true ↔
   be_value (reverse (le_bytes 32 7)) ≤ be_value (reverse (le_bytes 32 256))) ∧
  meets (reverse (le_bytes 32 7)) (reverse (le_bytes 32 256)) = true.
Proof.
  split; [|reflexivity].
  apply (meets_be_value (reverse (le_bytes 32 7)) (reverse (le_bytes 32 256))). reflexivity.
Defined.

(** ** [compact_target] *)

Lemma mantissa_value b1 b2 b3 :
  Z.lor (Z.lor (Z.shiftl (b2z b1) 16) (Z.shiftl (b2z b2) 8)) (b2z b3) = be_value [b1; b2; b3].
Proof.
  pose proof (b2z_range b1). pose proof (b2z_range b2). pose proof (b2z_range b3).
  rewrite !Z.shiftl_mul_pow2, lor_mul_pow2 by lia.
  replace (b2z b1 * 2 ^ 16 + b2z b2 * 2 ^ 8) with ((b2z b1 * 256 + b2z b2) * 2 ^ 8) by lia.
  rewrite lor_mul_pow2 by lia. rewrite !be_value_cons. cbn [length]. cbn. lia.
Qed.

Lemma compact_low_value m : 0 ≤ m < 2 ^ 24 →
  be_value (compact_low [31; 30; 29; 28]%nat m (replicate 32 x00)) = m.
Proof.
  intros Hm. cbn [compact_low]. rewrite !be_value_insert by (rewrite ?length_insert, length_replicate; lia).
  rewrite be_value_zeros.
  repeat (rewrite list_lookup_total_insert_ne by lia).
  rewrite !lookup_total_replicate_2 by lia.
  rewrite !length_insert, length_replicate, !land_255, !b2z_u8.
  rewrite !Z.shiftr_div_pow2 by lia. change (b2z x00) with 0. cbn. lia.
Qed.

(** The three loop iterations for [exponent > 3]. *)
Definition compact_high (exponent mantissa : Z) (out : Bytes) : result Bytes :=
  o1 ← compact_byte exponent mantissa out 0;
  o2 ← compact_byte exponent mantissa o1 1;
  compact_byte exponent mantissa o2 2.

Lemma compact_byte_eq e m out (i : nat) : (i ≤ 2)%nat →
  compact_byte e m out i =
  let position := 32 - e + Z.of_nat i in
  let byte := (m / 2 ^ (16 - Z.of_nat i * 8)) mod 256 in
  if position <? 0 then
    if negb (byte =? 0) then Throw (runtime_error "compact target overflow") else Ok out
  else if position <? 32 then Ok (<[Z.to_nat position := u8 byte]> out)
  else Ok out.
Proof. intros Hi. unfold compact_byte. rewrite land_255, Z.shiftr_div_pow2 by lia. done. Qed.

Lemma bytes3 m : 0 ≤ m < 2 ^ 24 →
  m = 65536 * ((m / 2 ^ 16) mod 256) + 256 * ((m / 2 ^ 8) mod 256) + m mod 256.
Proof. lia. Qed.

Lemma compact_high_fits e m : 3 < e ≤ 32 → 0 ≤ m < 2 ^ 24 →
  ∃ out, compact_high e m (replicate 32 x00) = Ok out ∧ length out = 32%nat ∧
         be_value out = m * 256 ^ (e - 3).
Proof.
  intros He Hm. unfold compact_high. rewrite !compact_byte_eq by lia. cbn zeta.
  repeat match goal with
  | |- context [(?a <? 0)] => rewrite (proj2 (Z.ltb_ge a 0)) by lia
  | |- context [(?a <? 32)] => rewrite (proj2 (Z.ltb_lt a 32)) by lia
  | |- context [compact_byte _ _ _ ?i] => rewrite !bind_Ok_eq, compact_byte_eq by lia; cbn zeta
  end.
  eexists. split; [done|]. split; [by rewrite !length_insert|].
  rewrite !be_value_insert by (rewrite ?length_insert, length_replicate; lia).
  repeat (rewrite list_lookup_total_insert_ne by lia).
  rewrite !lookup_total_replicate_2, !length_insert, length_replicate, be_value_zeros by lia.
  rewrite !b2z_small by lia. change (b2z x00) with 0.
  rewrite !Z2Nat.id by lia.
  replace (Z.of_nat 32 - 1 - (32 - e + Z.of_nat 0)) with ((e - 3) + 2) by lia.
  replace (Z.of_nat 32 - 1 - (32 - e + Z.of_nat 1)) with ((e - 3) + 1) by lia.
  replace (Z.of_nat 32 - 1 - (32 - e + Z.of_nat 2)) with (e - 3) by lia.
  rewrite !Z.pow_add_r by lia. change (256 ^ 2) with 65536. change (256 ^ 1) with 256.
  change (16 - Z.of_nat 0 * 8) with 16. change (16 - Z.of_nat 1 * 8) with 8.
  change (16 - Z.of_nat 2 * 8) with 0. rewrite Z.pow_0_r, Z.div_1_r.
  rewrite (bytes3 m) at 4 by done. lia.
Qed.

(** Byte [i] of the mantissa, most significant first. *)
Definition mantissa_byte (m : Z) (i : nat) : Z := (m / 2 ^ (16 - Z.of_nat i * 8)) mod 256.

Lemma mantissa_byte_range m i : 0 ≤ mantissa_byte m i < 256.
Proof. apply Z.mod_pos_bound. lia. Qed.

Lemma mantissa_bytes m : 0 ≤ m < 2 ^ 24 →
  m = 65536 * mantissa_byte m 0 + 256 * mantissa_byte m 1 + mantissa_byte m 2.
Proof.
  intros Hm. rewrite (bytes3 m) at 1 by done. unfold mantissa_byte.
  change (2 ^ (16 - Z.of_nat 2 * 8)) with 1. rewrite Z.div_1_r. done.
Qed.

(** Where a byte of the mantissa goes. *)
Lemma compact_byte_above e m out i : (i ≤ 2)%nat → 32 - e + Z.of_nat i < 0 →
  compact_byte e m out i =
  if mantissa_byte m i =? 0 then Ok out else Throw (runtime_error "compact target overflow").
Proof.
  intros Hi Hp. rewrite compact_byte_eq by done. cbn zeta. fold (mantissa_byte m i).
  rewrite (proj2 (Z.ltb_lt _ _) Hp). by destruct (mantissa_byte m i =? 0).
Qed.

Lemma compact_byte_inside e m out i : (i ≤ 2)%nat → 0 ≤ 32 - e + Z.of_nat i < 32 →
  compact_byte e m out i = Ok (<[Z.to_nat (32 - e + Z.of_nat i) := u8 (mantissa_byte m i)]> out).
Proof.
  intros Hi [Hp Hq]. rewrite compact_byte_eq by done. cbn zeta. fold (mantissa_byte m i).
  by rewrite (proj2 (Z.ltb_ge _ _) Hp), (proj2 (Z.ltb_lt _ _) Hq).
Qed.

Lemma insert_zeros_value (i : nat) b : (i < 32)%nat → 0 ≤ b < 256 →
  be_value (<[i := u8 b]> (replicate 32 x00)) = b * 256 ^ (31 - Z.of_nat i).
Proof.
  intros Hi Hb. rewrite be_value_insert by (by rewrite length_replicate).
  rewrite lookup_total_replicate_2, be_value_zeros, length_replicate, b2z_small by done.
  replace (Z.of_nat 32 - 1 - Z.of_nat i) with (31 - Z.of_nat i) by lia.
  change (b2z x00) with 0. lia.
Qed.

Lemma compact_high_edge e m : e = 33 ∨ e = 34 → 0 < m < 2 ^ 24 →
  match compact_high e m (replicate 32 x00) with
  | Ok out => length out = 32%nat ∧ be_value out = m * 256 ^ (e - 3) ∧ m * 256 ^ (e - 3) < 2 ^ 256
  | Throw _ => 2 ^ 256 ≤ m * 256 ^ (e - 3)
  end.
Proof.
  intros He Hm. pose proof (mantissa_bytes m ltac:(lia)) as Hb.
  pose proof (mantissa_byte_range m 0). pose proof (mantissa_byte_range m 1).
  pose proof (mantissa_byte_range m 2).
  unfold compact_high. rewrite compact_byte_above by lia.
  destruct (Z.eqb_spec (mantissa_byte m 0) 0) as [Hz|Hz].
  2:{ rewrite bind_Throw_eq. destruct He as [-> | ->]; simpl Z.sub; nia. }
  rewrite bind_Ok_eq. destruct He as [-> | ->].
  - rewrite !compact_byte_inside, bind_Ok_eq, compact_byte_inside by lia.
    split; [by rewrite !length_insert|]. split; [|simpl Z.sub; nia].
    change (Z.to_nat (32 - 33 + Z.of_nat 1)) with 0%nat.
    change (Z.to_nat (32 - 33 + Z.of_nat 2)) with 1%nat.
    rewrite be_value_insert by (rewrite length_insert, length_replicate; lia).
    rewrite insert_zeros_value by lia.
    rewrite list_lookup_total_insert_ne, lookup_total_replicate_2, length_insert, length_replicate by lia.
    rewrite b2z_small by done. change (b2z x00) with 0. simpl Z.sub. nia.
  - rewrite compact_byte_above by lia.
    destruct (Z.eqb_spec (mantissa_byte m 1) 0) as [Hy|Hy].
    2:{ rewrite bind_Throw_eq. simpl Z.sub. nia. }
    rewrite bind_Ok_eq, compact_byte_inside by lia.
    split; [by rewrite !length_insert|]. split; [|simpl Z.sub; nia].
    change (Z.to_nat (32 - 34 + Z.of_nat 2)) with 0%nat.
    rewrite insert_zeros_value by lia. change (34 - 3) with (31 - Z.of_nat 0). nia.
Qed.

(** The target a compact encoding denotes: mantissa times 256^(exponent - 3). *)
Definition compact_value (b0 b1 b2 b3 : byte) : Z :=
  be_value [b1; b2; b3] * 256 ^ b2z b0 / 256 ^ 3.

Lemma compact_value_low b0 b1 b2 b3 : b2z b0 ≤ 3 →
  compact_value b0 b1 b2 b3 = Z.shiftr (be_value [b1; b2; b3]) (8 * (3 - b2z b0)).
Proof.
  intros He. pose proof (b2z_range b0). unfold compact_value.
  rewrite Z.shiftr_div_pow2, Z.pow_mul_r by lia. change (2 ^ 8) with 256.
  replace (256 ^ 3) with (256 ^ (3 - b2z b0) * 256 ^ b2z b0)
    by (rewrite <- Z.pow_add_r by lia; f_equal; lia).
  apply Z.div_mul_cancel_r; apply Z.pow_nonzero; lia.
Qed.

Lemma compact_value_high b0 b1 b2 b3 : 3 ≤ b2z b0 →
  compact_value b0 b1 b2 b3 = be_value [b1; b2; b3] * 256 ^ (b2z b0 - 3).
Proof.
  intros He. unfold compact_value.
  replace (256 ^ b2z b0) with (256 ^ (b2z b0 - 3) * 256 ^ 3)
    by (rewrite <- Z.pow_add_r by lia; f_equal; lia).
  rewrite Z.mul_assoc. apply Z.div_mul. lia.
Qed.

Lemma compact_value_large b0 b1 b2 b3 : 34 < b2z b0 → 0 < be_value [b1; b2; b3] →
  2 ^ 256 ≤ compact_value b0 b1 b2 b3.
Proof.
  intros He Hm. rewrite compact_value_high by lia.
  assert (256 ^ 32 ≤ 256 ^ (b2z b0 - 3)) by (apply Z.pow_le_mono_r; lia).
  change (2 ^ 256) with (256 ^ 32). nia.
Qed.

(** What [compact_target] returns on a mantissa and exponent it accepts. *)
Lemma compact_body b0 b1 b2 b3 :
  let m := be_value [b1; b2; b3] in
  0 < m < 2 ^ 23 → b2z b0 ≤ 34 →
  match (if b2z b0 <=? 3 then
           Ok (compact_low [31; 30; 29; 28]%nat (Z.shiftr m (8 * (3 - b2z b0))) (replicate 32 x00))
         else compact_high (b2z b0) m (replicate 32 x00)) with
  | Ok out => length out = 32%nat ∧ be_value out = compact_value b0 b1 b2 b3 ∧
              compact_value b0 b1 b2 b3 < 2 ^ 256
  | Throw _ => 2 ^ 256 ≤ compact_value b0 b1 b2 b3
  end.
Proof.
  intros m Hm He. pose proof (b2z_range b0). destruct (Z.leb_spec (b2z b0) 3) as [Hl|Hl].
  - pose proof (compact_value_low b0 b1 b2 b3 Hl) as Hc. fold m in Hc. rewrite <- Hc.
    split; [done|].
    assert (0 ≤ compact_value b0 b1 b2 b3 < 2 ^ 24).
    { rewrite Hc, Z.shiftr_div_pow2 by lia.
      pose proof (Z.pow_pos_nonneg 2 (8 * (3 - b2z b0)) ltac:(lia) ltac:(lia)).
      split; [apply Z.div_pos; lia|]. apply Z.div_lt_upper_bound; nia. }
    rewrite compact_low_value by done. lia.
  - rewrite compact_value_high by lia. fold m.
    destruct (decide (b2z b0 ≤ 32)) as [Hf|Hf].
    + destruct (compact_high_fits (b2z b0) m) as (out & -> & Hlen & Hv); [lia..|].
      rewrite Hv. split_and!; [done..|].
      assert (256 ^ (b2z b0 - 3) ≤ 256 ^ 29) by (apply Z.pow_le_mono_r; lia).
      change (2 ^ 256) with (2 ^ 24 * 256 ^ 29). nia.
    + pose proof (compact_high_edge (b2z b0) m ltac:(lia) ltac:(lia)) as Hedge.
      by destruct (compact_high _ _ _).
Qed.

(** a four-byte compact encoding is accepted exactly when the sign bit is
    clear and mantissa * 256^(exponent-3) is a positive 256-bit number, and the
    32-byte result then has that value. *)
Theorem compact_target_spec s b0 b1 b2 b3 : unhex s = Ok [b0; b1; b2; b3] →
  let v := compact_value b0 b1 b2 b3 in
  match compact_target s with
  | Ok t => length t = 32%nat ∧ be_value t = v ∧ be_value [b1; b2; b3] < 2 ^ 23 ∧ 0 < v < 2 ^ 256
  | Throw _ => ¬ (be_value [b1; b2; b3] < 2 ^ 23 ∧ 0 < v < 2 ^ 256)
  end.
Proof.
  intros Hs v. unfold compact_target. rewrite Hs, bind_Ok_eq.
  cbn [length Nat.eqb negb]. rewrite throw_if_false, bind_Ok_eq.
  cbn [lookup_total list_lookup_total]. cbn zeta. rewrite mantissa_value.
  set (m := be_value [b1; b2; b3]).
  assert (0 ≤ m < 2 ^ 24) as Hm by exact (be_value_bound [b1; b2; b3]).
  change 0x800000 with (2 ^ 23).
  destruct (Z.eqb_spec (Z.land m (2 ^ 23)) 0) as [Hs0|Hs0];
    rewrite land_top_bit in Hs0 by (simpl Z.add; lia).
  2:{ cbn [negb orb]. rewrite throw_if_true, bind_Throw_eq. lia. }
  destruct (Z.eqb_spec m 0) as [H0|H0].
  { cbn [negb orb]. rewrite throw_if_true, bind_Throw_eq.
    unfold v, compact_value. fold m. rewrite H0. cbn. lia. }
  destruct (Z.ltb_spec 34 (b2z b0)) as [He|He].
  { cbn [negb orb]. rewrite throw_if_true, bind_Throw_eq.
    pose proof (compact_value_large b0 b1 b2 b3 He) as Hl. fold v m in Hl. lia. }
  cbn [negb orb]. rewrite throw_if_false, bind_Ok_eq.
  pose proof (compact_body b0 b1 b2 b3 ltac:(fold m; lia) He) as Hb. fold m v in Hb.
  change (o1 ← compact_byte _ _ _ 0; o2 ← compact_byte _ _ o1 1; compact_byte _ _ o2 2)
    with (compact_high (b2z b0) m (replicate 32 x00)).
  destruct (if b2z b0 <=? 3 then _ else _) as [out|e]; [|rewrite bind_Throw_eq; lia].
  destruct Hb as (Hlen & Hv & Hlt). rewrite bind_Ok_eq.
  destruct (forallb _ out) eqn:Hz; [apply be_value_zero_iff in Hz|
    rewrite <- not_true_iff_false, be_value_zero_iff in Hz; pose proof (be_value_bound out)].
  - rewrite throw_if_true, bind_Throw_eq. lia.
  - rewrite throw_if_false, bind_Ok_eq. lia.
Qed.

Lemma compact_target_spec_witness :
  unhex "190f0b50" = Ok [x19; x0f; x0b; x50] ∧
  (let v := compact_value x19 x0f x0b x50 in
   match compact_target "190f0b50" with
   | Ok t => length t = 32%nat ∧ be_value t = v ∧ be_value [x0f; x0b; x50] < 2 ^ 23 ∧ 0 < v < 2 ^ 256
   | Throw _ => ¬ (be_value [x0f; x0b; x50] < 2 ^ 23 ∧ 0 < v < 2 ^ 256)
   end).
Proof.
  split; [vm_compute; reflexivity|].
  apply (compact_target_spec "190f0b50" x19 x0f x0b x50). vm_compute. reflexivity.
Defined.

(** ** [difficulty_target] *)

Lemma find_first_here P a c b : forallb (λ x, negb (P x)) a = true → P c = true →
  find_first P (a ++ c :: b) = Some (length a).
Proof.
  intros Ha Hc. unfold find_first.
  assert (list_find (λ x, P x = true) (a ++ c :: b) = Some (length a, c)) as ->; [|done].
  apply list_find_Some. split_and!; [by rewrite list_lookup_middle|done|].
  intros j y Hj Hlt. rewrite lookup_app_l in Hj by done.
  apply forallb_Forall in Ha. rewrite Forall_lookup in Ha.
  specialize (Ha j y Hj). simpl in Ha. intros HP. by rewrite HP in Ha.
Qed.

Lemma find_first_none P a : forallb (λ x, negb (P x)) a = true → find_first P a = None.
Proof.
  intros Ha. unfold find_first.
  assert (list_find (λ x, P x = true) a = None) as ->; [|done].
  apply list_find_None. apply forallb_Forall in Ha.
  eapply Forall_impl; [exact Ha|]. intros y Hy. simpl in Hy. intros HP. by rewrite HP in Hy.
Qed.

(** Digits are neither an exponent letter nor a point. *)
Lemma digits_avoid (P : byte → bool) l :
  (∀ c, is_digit c = true → P c = false) → forallb is_digit l = true →
  forallb (λ x, negb (P x)) l = true.
Proof.
  intros HP. rewrite !forallb_Forall. intros H. eapply Forall_impl; [exact H|]. intros c Hc. simpl in *. by rewrite HP.
Qed.

Definition is_exp (c : byte) : bool := (b2z c =? 101) || (b2z c =? 69).
Definition is_dot (c : byte) : bool := b2z c =? 46.

Lemma digit_not_exp c : is_digit c = true → is_exp c = false.
Proof.
  unfold is_digit, is_exp. rewrite andb_true_iff, !Z.leb_le. intros [??].
  apply orb_false_iff. rewrite !Z.eqb_neq. lia.
Qed.

Lemma digit_not_dot c : is_digit c = true → is_dot c = false.
Proof. unfold is_digit, is_dot. rewrite andb_true_iff, !Z.leb_le, Z.eqb_neq. lia. Qed.

(** A decimal number: integer digits, optional fraction, optional exponent. *)
Record decimal := Decimal {
  int_digits : Bytes;
  fraction : option Bytes;
  exp_part : option (byte * Bytes * Z)   (* letter, text, value *)
}.
Definition frac_digits (d : decimal) : Bytes := default [] (fraction d).
Definition exp_value (d : decimal) : Z := match exp_part d with Some (_, _, v) => v | None => 0 end.
Definition mantissa_text (d : decimal) : Bytes :=
  int_digits d ++ match fraction d with Some f => x2e :: f | None => [] end.
Definition decimal_text (d : decimal) : Bytes :=
  mantissa_text d ++ match exp_part d with Some (c, e, _) => c :: e | None => [] end.
Definition decimal_mantissa (d : decimal) : Z := dec_value (int_digits d ++ frac_digits d).
(** The power of ten the mantissa is scaled by. *)
Definition decimal_scale (d : decimal) : Z := exp_value d - Z.of_nat (length (frac_digits d)).

Definition decimal_ok (d : decimal) : Prop :=
  forallb is_digit (int_digits d) = true ∧ forallb is_digit (frac_digits d) = true ∧
  int_digits d ++ frac_digits d ≠ [] ∧ (length (decimal_text d) ≤ 96)%nat ∧
  match exp_part d with
  | Some (c, e, v) => is_exp c = true ∧ stoi e = Ok (v, length e) ∧ -300 ≤ v ≤ 300
  | None => True
  end.

Lemma mantissa_no_exp d : decimal_ok d → forallb (λ x, negb (is_exp x)) (mantissa_text d) = true.
Proof.
  intros (Hi & Hf & _). unfold mantissa_text. rewrite forallb_app.
  rewrite (digits_avoid is_exp _ digit_not_exp Hi). unfold frac_digits in Hf.
  destruct (fraction d) as [f|]; [|done]. simpl default in Hf. cbn [forallb].
  by rewrite (digits_avoid is_exp _ digit_not_exp Hf).
Qed.

Lemma split_exponent_text d : decimal_ok d →
  split_exponent (decimal_text d) = Ok (mantissa_text d, exp_value d).
Proof.
  intros Hok. pose proof (mantissa_no_exp d Hok) as Hm. destruct Hok as (_ & _ & _ & _ & He).
  unfold split_exponent, decimal_text, exp_value. fold is_exp.
  destruct (exp_part d) as [[[c e] v]|].
  - destruct He as (Hc & Hs & Hv). rewrite (find_first_here is_exp) by done.
    rewrite drop_app_ge by lia. replace (S _ - length _)%nat with 1%nat by lia.
    change (drop 1 (c :: e)) with e. rewrite Hs, bind_Ok_eq, Nat.eqb_refl. cbn [negb orb].
    rewrite (proj2 (Z.ltb_ge 300 v)), (proj2 (Z.ltb_ge v (-300))) by lia.
    cbn [orb]. rewrite throw_if_false, bind_Ok_eq, take_app_length. done.
  - by rewrite app_nil_r, (find_first_none is_exp).
Qed.

Lemma remove_dot_text d v : decimal_ok d →
  remove_dot (mantissa_text d) v =
  (int_digits d ++ frac_digits d, v - Z.of_nat (length (frac_digits d))).
Proof.
  intros (Hi & Hf & _). unfold remove_dot, mantissa_text, frac_digits in *. fold is_dot.
  destruct (fraction d) as [f|]; simpl default in *.
  - rewrite (find_first_here is_dot); [|by apply (digits_avoid is_dot _ digit_not_dot)|done].
    rewrite take_app_length. rewrite drop_app_ge by lia.
    replace (S _ - length _)%nat with 1%nat by lia.
    change (drop 1 (x2e :: f)) with f. rewrite length_app. cbn [length]. f_equal. lia.
  - rewrite app_nil_r, (find_first_none is_dot) by by apply (digits_avoid is_dot _ digit_not_dot).
    f_equal. simpl. lia.
Qed.

Lemma dec_value_fold l v : 0 ≤ v → forallb is_digit l = true →
  0 ≤ fold_left (λ v c, 10 * v + (b2z c - 48)) l v.
Proof.
  revert v. induction l as [|c l IH]; intros v Hv Hd; [done|].
  cbn [forallb] in Hd. apply andb_true_iff in Hd as [Hc Hd]. rewrite fold_left_cons.
  apply IH; [|done]. unfold is_digit in Hc. apply andb_true_iff in Hc as [??]. bool_lia.
Qed.

Lemma dec_value_nonneg l : forallb is_digit l = true → 0 ≤ dec_value l.
Proof. by apply dec_value_fold. Qed.

Section difficulty_laws.
Context {BN : BigNum} {Laws : BigNumLaws BN}.

Lemma mul10_ok n x : ∃ y, mul10 n x = Ok y ∧ bn_value y = bn_value x * 10 ^ Z.of_nat n.
Proof.
  revert x. induction n as [|n IH]; intros x; [exists x; simpl; split; [done|lia]|].
  destruct (BN_mul_word_ok x 10) as (x' & Hx & Hv); [unfold is_u64; lia|].
  destruct (IH x') as (y & Hy & Hyv). exists y. cbn [mul10]. rewrite Hx, Hy.
  split; [done|]. rewrite Hyv, Hv, Nat2Z.inj_succ, Z.pow_succ_r by lia. lia.
Qed.

(** The exact difficulty quotient, saturated to 256 bits. *)
Definition difficulty_value (d : decimal) : Z :=
  let x := decimal_scale d in
  Z.min (2 ^ 256 - 1)
    (65535 * 2 ^ 208 * 10 ^ Z.max 0 (- x) / (decimal_mantissa d * 10 ^ Z.max 0 x)).

(** The quotient of the two BIGNUMs as a 32-byte target. *)
Lemma quotient_target a b : 0 ≤ bn_value a → 0 < bn_value b →
  ∃ q t, BN_div a b = Some q ∧
    (if 256 <? BN_num_bits q then replicate 32 xff
     else default (replicate 32 x00) (BN_bn2binpad q 32)) = t ∧
    length t = 32%nat ∧ be_value t = Z.min (2 ^ 256 - 1) (bn_value a / bn_value b).
Proof.
  intros Ha Hb. destruct (BN_div_ok a b Ha Hb) as (q & Hq & Hv).
  assert (0 ≤ bn_value q) as Hq0 by (rewrite Hv; apply Z.div_pos; lia).
  rewrite <- Hv. exists q. eexists. split; [done|]. split; [done|].
  rewrite BN_num_bits_ok by done.
  destruct (Z.ltb_spec 256 (if bn_value q =? 0 then 0 else Z.log2 (bn_value q) + 1)) as [Hl|Hl].
  - split; [done|]. rewrite be_value_ff. destruct (Z.eqb_spec (bn_value q) 0); [lia|].
    assert (2 ^ 256 ≤ bn_value q) by (apply Z.log2_le_pow2; lia).
    rewrite Z.min_l by lia. done.
  - assert (bn_value q < 2 ^ 256).
    { destruct (Z.eqb_spec (bn_value q) 0); [lia|]. apply Z.log2_lt_pow2; lia. }
    rewrite BN_bn2binpad_ok by (change (256 ^ Z.of_nat 32) with (2 ^ 256); lia).
    cbn [from_option]. unfold id. rewrite length_reverse, le_bytes_length. split; [done|].
    unfold be_value. rewrite reverse_involutive, le_bytes_small by
      (change (256 ^ Z.of_nat 32) with (2 ^ 256); lia). lia.
Qed.

Lemma scale_ok x num den : 0 ≤ bn_value num → 0 < bn_value den →
  ∃ num' den',
    (if x <? 0 then n' ← mul10 (Z.to_nat (Z.abs x)) num; Ok (n', den)
     else d' ← mul10 (Z.to_nat (Z.abs x)) den; Ok (num, d')) = Ok (num', den') ∧
    bn_value num' = bn_value num * 10 ^ Z.max 0 (- x) ∧
    bn_value den' = bn_value den * 10 ^ Z.max 0 x.
Proof.
  intros Hn Hd. destruct (Z.ltb_spec x 0).
  - destruct (mul10_ok (Z.to_nat (Z.abs x)) num) as (y & -> & Hy). exists y, den.
    rewrite Hy, Z2Nat.id, Z.abs_neq, (Z.max_r 0 (- x)), (Z.max_l 0 x) by lia. split_and!; [done..|lia].
  - destruct (mul10_ok (Z.to_nat (Z.abs x)) den) as (y & -> & Hy). exists num, y.
    rewrite Hy, Z2Nat.id, Z.abs_eq, (Z.max_r 0 x), (Z.max_l 0 (- x)) by lia. split_and!; [done|lia|done].
Qed.

(** A target has 32 bytes. *)
Lemma difficulty_target_length s t : difficulty_target s = Ok t → length t = 32%nat.
Proof.
  unfold difficulty_target. intros H. apply bind_Ok in H as (? & _ & H).
  apply bind_Ok in H as ([m e] & _ & H). destruct (remove_dot m e) as [mant exponent].
  apply bind_Ok in H as (? & _ & H).
  destruct (BN_dec2bn _), BN_new, BN_CTX_new; try discriminate.
  apply bind_Ok in H as (? & _ & H). apply bind_Ok in H as ([n d] & _ & H).
  destruct (BN_div n d) as [q|]; [|discriminate].
  destruct (256 <? _); injection H as <-; [done|].
  destruct (BN_bn2binpad q 32) eqn:E; [by apply BN_bn2binpad_length in E|done].
Qed.

(** C22: on every decimal number of at most 96 characters, [difficulty_target]
    is the exact rational quotient 65535 * 2^208 / difficulty, rounded down and
    saturated to 32 bytes; a zero difficulty throws. *)
Theorem difficulty_target_exact (d : decimal) : decimal_ok d →
  let r := difficulty_target (String.string_of_list_byte (decimal_text d)) in
  if decimal_mantissa d =? 0 then r = Throw (runtime_error "invalid difficulty")
  else ∃ t, r = Ok t ∧ length t = 32%nat ∧ be_value t = difficulty_value d.
Proof.
  intros Hok r. pose proof Hok as (Hi & Hf & Hne & Hlen & _). subst r. unfold difficulty_target.
  rewrite String.list_byte_of_string_of_list_byte.
  rewrite (proj2 (Nat.ltb_ge 96 _)), orb_false_r by done.
  assert (length (decimal_text d) ≠ 0%nat) as Hl0.
  { unfold decimal_text, mantissa_text, frac_digits in *. rewrite !length_app.
    destruct (int_digits d); simpl; [|lia]. destruct (fraction d); [simpl; lia|done]. }
  rewrite (proj2 (Nat.eqb_neq _ _) Hl0), throw_if_false, bind_Ok_eq.
  rewrite split_exponent_text, bind_Ok_eq, remove_dot_text by done.
  fold (decimal_scale d). set (m := int_digits d ++ frac_digits d) in *.
  assert (forallb is_digit m = true) as Hm by (unfold m; rewrite forallb_app, Hi, Hf; done).
  rewrite Hm, (proj2 (Nat.eqb_neq (length m) 0)) by (by destruct m).
  cbn [negb orb]. rewrite throw_if_false, bind_Ok_eq.
  destruct (BN_dec2bn_ok (String.string_of_list_byte m)) as (den & -> & Hden).
  { intros He. apply Hne. apply (f_equal String.list_byte_of_string) in He.
    by rewrite String.list_byte_of_string_of_list_byte in He. }
  { by rewrite String.list_byte_of_string_of_list_byte. }
  rewrite String.list_byte_of_string_of_list_byte in Hden.
  change (dec_value m) with (decimal_mantissa d) in Hden.
  destruct BN_new_ok as (z & ->). rewrite BN_CTX_new_ok.
  pose proof (dec_value_nonneg m Hm) as H0. change (dec_value m) with (decimal_mantissa d) in H0.
  destruct (Z.eqb_spec (decimal_mantissa d) 0) as [Hz|Hz].
  { by rewrite (proj2 (BN_is_zero_ok den) (eq_trans Hden Hz)). }
  destruct (BN_is_zero den) eqn:Hzd; [apply BN_is_zero_ok in Hzd; lia|].
  rewrite throw_if_false, bind_Ok_eq. cbn zeta.
  set (num := BN_lshift (BN_set_word z 65535) 208).
  assert (bn_value num = 65535 * 2 ^ 208) as Hnum.
  { unfold num. rewrite BN_lshift_ok, BN_set_word_ok by (unfold is_u64; lia). done. }
  destruct (scale_ok (decimal_scale d) num den) as (num' & den' & -> & Hn' & Hd'); [lia..|].
  rewrite bind_Ok_eq.
  assert (0 ≤ bn_value num' ∧ 0 < bn_value den') as [Hp1 Hp2].
  { rewrite Hn', Hd'. pose proof (Z.pow_pos_nonneg 10 (Z.max 0 (decimal_scale d))).
    pose proof (Z.pow_pos_nonneg 10 (Z.max 0 (- decimal_scale d))). nia. }
  destruct (quotient_target num' den' Hp1 Hp2) as (q & t & -> & Ht & Hlt & Hv).
  exists t. rewrite <- Ht at 1. split_and!; [by destruct (256 <? _)|done|].
  by rewrite Hv, Hn', Hd', Hnum, Hden.
Qed.
End difficulty_laws.

Lemma difficulty_target_exact_witness :
  decimal_ok (Decimal [x31] (Some [x32; x38]) (Some (x65, [x32], 2))) ∧
  (let r := difficulty_target (BN := bignum_Z)
              (String.string_of_list_byte
                (decimal_text (Decimal [x31] (Some [x32; x38]) (Some (x65, [x32], 2))))) in
   if decimal_mantissa (Decimal [x31] (Some [x32; x38]) (Some (x65, [x32], 2))) =? 0
   then r = Throw (runtime_error "invalid difficulty")
   else ∃ t, r = Ok t ∧ length t = 32%nat ∧
     be_value t = difficulty_value (Decimal [x31] (Some [x32; x38]) (Some (x65, [x32], 2)))).
Proof.
  assert (decimal_ok (Decimal [x31] (Some [x32; x38]) (Some (x65, [x32], 2)))) as Hok.
  { repeat split; try (vm_compute; reflexivity); try (vm_compute; discriminate);
      vm_compute; lia. }
  split; [exact Hok|].
  apply (difficulty_target_exact (BN := bignum_Z) (Decimal [x31] (Some [x32; x38]) (Some (x65, [x32], 2)))).
  exact Hok.
Defined.
