(* ===== verification/Work.v ===== *)
(** * Work headers

    [sia_work] of src/src/coin.cpp, [work_header] and [standard_work] of
    src/src/sv2.cpp, the [Work] and [Scan] records of src/include/yolo/core.hpp
    and the interface every [Backend] is held to. *)
From S2P Require Import Prelude Words Hex Blake Targets.

(** ** Headers *)

Definition sia_work (prev c1 c2 en1 en2 time : string) : result Bytes :=
  p ← unhex prev;
  a ← unhex c1;
  b ← unhex c2;
  e1 ← unhex en1;
  e2 ← unhex en2;
  t ← unhex time;
  _ ← throw_if (negb (length p =? 32)%nat || negb (length a =? 39)%nat ||
                negb (length b =? 0)%nat || negb (length e1 + length e2 =? 12)%nat ||
                negb (length t =? 8)%nat) "unsupported BTCB2 Sia job layout";
  let leaf := [x00] ++ a ++ e1 ++ e2 in
  root ← blake2b256 leaf;
  let w := replicate 80 x00 in
  let w := copy_at w 0 p in
  let w := copy_at w 40 t in
  Ok (copy_at w 48 root).

Definition work_header (hidden root : Bytes) (t : Z) : Bytes :=
  let h := replicate 80 x00 in
  let h := copy_at h 0 hidden in
  let h := store_le h 40 t in
  copy_at h 48 root.

Definition standard_work (hidden commitment extranonce : Bytes) (ntime : Z) : result Bytes :=
  _ ← throw_if (negb (length extranonce =? 12)%nat ||
                negb (forallb (λ b, b2z b =? 0) (take 6 hidden)))
        "invalid BTCB2 SV2 hidden hash or extranonce length";
  let leaf := replicate 4 x00 in
  let leaf := leaf ++ commitment in
  let leaf := leaf ++ replicate 4 x00 in
  let leaf := leaf ++ extranonce in
  root ← blake2b256 leaf;
  Ok (work_header hidden root ntime).

(** ** Work and scans *)

Record Work := { header : Bytes; target : Bytes }.
(** [Scan::seconds] is wall-clock time and is not modelled. *)
Record Scan := { hashes : Z; nonces : list Z }.

(** [Job] of src/include/yolo/stratum.hpp: the work a worker scans. *)
Record Job := {
  j_work : Work;
  j_id : string; j_en2 : string; j_ntime : string;
  j_generation : Z; j_epoch : Z;
  j_network_target : Bytes;
  j_sv2 : bool;
  j_channel : Z; j_wire_job : Z; j_version : Z; j_time32 : Z;
}.

(** A default-constructed [Job]. *)
Definition empty_job : Job :=
  {| j_work := {| header := replicate 80 x00; target := replicate 32 x00 |};
     j_id := EmptyString; j_en2 := EmptyString; j_ntime := EmptyString;
     j_generation := 0; j_epoch := 0; j_network_target := replicate 32 x00;
     j_sv2 := false; j_channel := 0; j_wire_job := 0; j_version := 0; j_time32 := 0 |}.

(** [Backend::scan(work, start, count)], a call that may throw. *)
Class Backend := scan : Work → Z → Z → result Scan.

Definition nonce_header (h : Bytes) (nonce : Z) : Bytes := store_le h 32 nonce.

(** The digest of the 80-byte header with a nonce stored at byte 32. *)
Definition nonce_hash (h : Bytes) (nonce : Z) : Bytes :=
  match blake2b256 (nonce_header h nonce) with Ok d => d | Throw _ => [] end.

(** The nonces of [start, start + count) whose digest meets the target, in order. *)
Definition solutions (w : Work) (start count : Z) : list Z :=
  filter (λ n, meets (nonce_hash (header w) n) (target w) = true) (seqZ start count).

(** What the miner relies on of a back end: a scan of a valid range reports
    exactly the solutions, in some order, and counts every nonce; an empty or
    wrapping range is refused. *)
Definition range_ok (start count : Z) : bool :=
  negb ((count =? 0) || (2 ^ 64 - 1 - (count - 1) <? start)).

Class BackendLaws (B : Backend) := {
  scan_exact w start count : length (header w) = 80%nat → length (target w) = 32%nat →
    is_u64 start → is_u32 count →
    ∀ s, @scan B w start count = Ok s →
    range_ok start count = true ∧ hashes s = count ∧ nonces s ≡ₚ solutions w start count;
  scan_refuses w start count : range_ok start count = false →
    @scan B w start count = Throw (runtime_error "nonce range overflow");
}.

(** The sixteen message words of an 80-byte header. *)
Definition header_words (h : Bytes) : list Z := load_words 10 h ++ replicate 6 0.

(** Word [i] of the BLAKE2b-256 digest of an 80-byte message with words [m]. *)
Definition hash_word (m : list Z) (i : nat) : Z :=
  let v := fold_left (scalar_round m) (seq 0 12) (initial_v 80) in
  Z.lxor (Z.lxor (initial_h !!! i) (v !!! i)) (v !!! (i + 8)%nat).

(** Word [i] of the digest of header [h] with nonce [n]. *)
Definition nonce_word (h : Bytes) (n : Z) (i : nat) : Z :=
  hash_word (<[4%nat := n]> (header_words h)) i.

(** ** Layout lemmas *)

Lemma blake2b256_total b : (length b ≤ 128)%nat → ∃ d, blake2b256 b = Ok d ∧ length d = 32%nat.
Proof.
  intros H. rewrite blake2b256_one_block by done. eexists. split; [done|apply digest_length].
Qed.

Lemma zero80 : replicate 80 x00 =
  [] ++ replicate 32 x00 ++ (replicate 8 x00 ++ replicate 8 x00 ++ replicate 32 x00).
Proof. done. Qed.

Lemma header_layout p t root : length p = 32%nat → length t = 8%nat → length root = 32%nat →
  copy_at (copy_at (copy_at (replicate 80 x00) 0 p) 40 t) 48 root =
  p ++ replicate 8 x00 ++ t ++ root.
Proof.
  intros Hp Ht Hr. rewrite zero80, copy_at_app by done. cbn [app].
  rewrite (app_assoc p (replicate 8 x00)), copy_at_app
    by (rewrite ?length_app, ?length_replicate; lia).
  rewrite (app_assoc _ t), <- (app_nil_r (replicate 32 x00)), copy_at_app
    by (rewrite ?length_app, ?length_replicate; lia).
  by rewrite app_nil_r, <- !app_assoc.
Qed.

Lemma work_header_layout hidden root t : length hidden = 32%nat → length root = 32%nat →
  work_header hidden root t = hidden ++ replicate 8 x00 ++ le_bytes 8 t ++ root.
Proof.
  intros Hh Hr. unfold work_header. rewrite zero80, copy_at_app by done. cbn [app].
  rewrite (app_assoc hidden), store_le_app by (rewrite ?length_app, ?length_replicate; lia).
  rewrite (app_assoc _ (le_bytes 8 t)), <- (app_nil_r (replicate 32 x00)), copy_at_app
    by (rewrite ?length_app, ?length_replicate, ?le_bytes_length; lia).
  by rewrite app_nil_r, <- !app_assoc.
Qed.

Lemma sia_work_layout prev c1 c2 en1 en2 time p a e1 e2 t :
  unhex prev = Ok p → unhex c1 = Ok a → unhex c2 = Ok [] →
  unhex en1 = Ok e1 → unhex en2 = Ok e2 → unhex time = Ok t →
  length p = 32%nat → length a = 39%nat → (length e1 + length e2 = 12)%nat → length t = 8%nat →
  ∃ root, blake2b256 ([x00] ++ a ++ e1 ++ e2) = Ok root ∧
    sia_work prev c1 c2 en1 en2 time = Ok (p ++ replicate 8 x00 ++ t ++ root).
Proof.
  intros Hp Ha Hb H1 H2 Ht Lp La Le Lt. unfold sia_work.
  rewrite Hp, Ha, Hb, H1, H2, Ht, !bind_Ok_eq. rewrite Lp, La, Le, Lt. cbn [length Nat.eqb negb orb].
  rewrite throw_if_false, bind_Ok_eq. cbn zeta.
  destruct (blake2b256_total ([x00] ++ a ++ e1 ++ e2)) as (root & Hr & Lr).
  { rewrite !length_app. cbn [length]. lia. }
  exists root. split; [done|]. by rewrite Hr, bind_Ok_eq, header_layout.
Qed.

(** A header has 80 bytes. *)
Lemma copy_at_80 w off src : length w = 80%nat → (off + length src ≤ 80)%nat →
  length (copy_at w off src) = 80%nat.
Proof. intros Hw Ho. rewrite <- Hw in Ho. by rewrite copy_at_length. Qed.

Lemma sia_work_length prev c1 c2 en1 en2 time h :
  sia_work prev c1 c2 en1 en2 time = Ok h → length h = 80%nat.
Proof.
  unfold sia_work. intros H. inv_ok.
  repeat match goal with
  | H : _ || _ = false |- _ => apply orb_false_iff in H as [? ?]
  | H : negb (_ =? _)%nat = false |- _ => apply negb_false_iff, Nat.eqb_eq in H
  | H : blake2b256 _ = Ok _ |- _ => apply blake2b256_length in H
  end.
  repeat (apply copy_at_80; [|lia]). reflexivity.
Qed.
Lemma standard_work_length hidden commitment extranonce ntime h : length hidden = 32%nat →
  standard_work hidden commitment extranonce ntime = Ok h → length h = 80%nat.
Proof.
  unfold standard_work. intros Hh H. inv_ok.
  match goal with H : blake2b256 _ = Ok _ |- _ => apply blake2b256_length in H end.
  unfold work_header. apply copy_at_80; [|lia]. rewrite store_le_length.
  apply copy_at_80; [reflexivity|lia].
Qed.

(** [sia_work] on decoded fields: a wrong field length throws, and otherwise
    the header is hidden previous hash, zero nonce, time, then the digest of
    0x00, coinb1, extranonce1, extranonce2. *)
Theorem sia_work_spec prev c1 c2 en1 en2 time p a b e1 e2 t :
  unhex prev = Ok p → unhex c1 = Ok a → unhex c2 = Ok b →
  unhex en1 = Ok e1 → unhex en2 = Ok e2 → unhex time = Ok t →
  if bool_decide (length p = 32 ∧ length a = 39 ∧ length b = 0 ∧
                  length e1 + length e2 = 12 ∧ length t = 8)%nat
  then ∃ root, blake2b256 ([x00] ++ a ++ e1 ++ e2) = Ok root ∧
    sia_work prev c1 c2 en1 en2 time = Ok (p ++ replicate 8 x00 ++ t ++ root)
  else sia_work prev c1 c2 en1 en2 time = Throw (runtime_error "unsupported BTCB2 Sia job layout").
Proof.
  intros Hp Ha Hb H1 H2 Ht. case_bool_decide as Hc.
  - destruct Hc as (Lp & La & Lb & Le & Lt). apply nil_length_inv in Lb as ->.
    by apply sia_work_layout.
  - unfold sia_work. rewrite Hp, Ha, Hb, H1, H2, Ht, !bind_Ok_eq.
    destruct (Nat.eqb_spec (length p) 32), (Nat.eqb_spec (length a) 39),
      (Nat.eqb_spec (length b) 0), (Nat.eqb_spec (length e1 + length e2) 12),
      (Nat.eqb_spec (length t) 8); try done. exfalso. auto 10.
Qed.

Lemma sia_work_spec_witness :
  let z32 := replicate 32 x00 in
  let a := replicate 39 x01 in
  if bool_decide (length z32 = 32 ∧ length a = 39 ∧ length (@nil byte) = 0 ∧
                  length [x01;x02;x03;x04] + length (replicate 8 x05) = 12 ∧
                  length (replicate 8 x09) = 8)%nat
  then ∃ root, blake2b256 ([x00] ++ a ++ [x01;x02;x03;x04] ++ replicate 8 x05) = Ok root ∧
    sia_work (hex z32) (hex a) (hex []) (hex [x01;x02;x03;x04]) (hex (replicate 8 x05))
      (hex (replicate 8 x09)) = Ok (z32 ++ replicate 8 x00 ++ replicate 8 x09 ++ root)
  else sia_work (hex z32) (hex a) (hex []) (hex [x01;x02;x03;x04]) (hex (replicate 8 x05))
      (hex (replicate 8 x09)) = Throw (runtime_error "unsupported BTCB2 Sia job layout").
Proof.
  intros z32 a.
  apply (sia_work_spec (hex z32) (hex a) (hex []) (hex [x01;x02;x03;x04]) (hex (replicate 8 x05))
    (hex (replicate 8 x09)) z32 a [] [x01;x02;x03;x04] (replicate 8 x05) (replicate 8 x09));
    vm_compute; reflexivity.
Defined.

Lemma hidden_prefix_zero hidden : take 6 hidden = replicate 6 x00 →
  forallb (λ b, b2z b =? 0) (take 6 hidden) = true.
Proof. intros ->. done. Qed.

(** the two protocols build the same header.  For a hidden previous hash
    (six leading zero bytes), a commitment and a 12-byte extranonce, the SV2
    header is the one [sia_work] builds from the SV1 job whose coinb1 is three
    zero bytes, the commitment and four zero bytes. *)
Theorem sv1_sv2_same_header hidden commitment e1 e2 ntime :
  length hidden = 32%nat → take 6 hidden = replicate 6 x00 → length commitment = 32%nat →
  (length e1 + length e2 = 12)%nat →
  standard_work hidden commitment (e1 ++ e2) ntime =
  sia_work (hex hidden) (hex (replicate 3 x00 ++ commitment ++ replicate 4 x00)) EmptyString
    (hex e1) (hex e2) (hex (le_bytes 8 ntime)).
Proof.
  intros Lh Hz Lc Le.
  destruct (sia_work_layout (hex hidden) (hex (replicate 3 x00 ++ commitment ++ replicate 4 x00))
    EmptyString (hex e1) (hex e2) (hex (le_bytes 8 ntime)) hidden
    (replicate 3 x00 ++ commitment ++ replicate 4 x00) e1 e2 (le_bytes 8 ntime))
    as (root & Hr & ->); try apply unhex_of_hex; try done.
  { rewrite !length_app, !length_replicate, Lc. done. }
  unfold standard_work. rewrite length_app, Le, hidden_prefix_zero by done.
  cbn [Nat.eqb negb orb]. rewrite throw_if_false, bind_Ok_eq. cbn zeta.
  replace (((replicate 4 x00 ++ commitment) ++ replicate 4 x00) ++ e1 ++ e2)
    with ([x00] ++ (replicate 3 x00 ++ commitment ++ replicate 4 x00) ++ e1 ++ e2)
    by (rewrite <- !app_assoc; done).
  rewrite Hr, bind_Ok_eq.
  assert (length root = 32%nat) as Lr by by apply blake2b256_length in Hr.
  by rewrite work_header_layout.
Qed.

Lemma sv1_sv2_same_header_witness :
  standard_work (replicate 32 x00) (replicate 32 x07) ([x01;x02;x03;x04] ++ replicate 8 x05) 99 =
  sia_work (hex (replicate 32 x00)) (hex (replicate 3 x00 ++ replicate 32 x07 ++ replicate 4 x00))
    EmptyString (hex [x01;x02;x03;x04]) (hex (replicate 8 x05)) (hex (le_bytes 8 99)).
Proof.
  apply (sv1_sv2_same_header (replicate 32 x00) (replicate 32 x07) [x01;x02;x03;x04]
    (replicate 8 x05) 99); reflexivity.
Defined.

(** ** Digest words of an 80-byte header *)

Lemma blake2b256_80 h : length h = 80%nat →
  blake2b256 h = Ok (flat_map (λ i, le_bytes 8 (hash_word (header_words h) i)) (seq 0 4)).
Proof.
  intros Hl. rewrite blake2b256_one_block by lia. f_equal.
  unfold digest. rewrite store_words_splice by (rewrite length_replicate; lia).
  rewrite drop_replicate, app_nil_r. rewrite Hl. change (Z.of_nat 80) with 80.
  assert (load_words 16 (Rfc7693.pad h) = header_words h) as ->; [|done].
  unfold header_words, Rfc7693.pad.
  rewrite !load_words_value by (rewrite ?length_app, ?length_replicate, ?Hl; lia).
  change 16%nat with (10 + 6)%nat. rewrite seq_app, fmap_app. f_equal.
  - apply list_fmap_ext. intros i x Hi. apply lookup_seq in Hi as [-> Hi].
    rewrite drop_app_le, take_app_le by (rewrite ?length_drop; lia). done.
  - rewrite Hl. apply list_eq. intros i. rewrite list_lookup_fmap.
    destruct (decide (i < 6)%nat) as [Hi|Hi].
    + rewrite lookup_seq_lt, lookup_replicate_2 by done. cbn [fmap option_fmap option_map].
      rewrite drop_app_ge, drop_replicate, take_replicate by lia. by rewrite le_value_repeat0.
    + rewrite lookup_seq_ge by lia. rewrite lookup_ge_None_2; [done|]. rewrite length_replicate. lia.
Qed.

Lemma nonce_header_length h n : length (nonce_header h n) = length h.
Proof. apply store_le_length. Qed.

Lemma header_words_nonce h n : length h = 80%nat → is_u64 n →
  header_words (nonce_header h n) = <[4%nat := n]> (header_words h).
Proof.
  intros Hl Hn. unfold header_words, nonce_header.
  assert (load_words 10 (store_le h 32 n) = <[4%nat := n]> (load_words 10 h)) as ->.
  2:{ by rewrite insert_app_l by (unfold load_words; rewrite length_fmap, length_seq; lia). }
  apply list_eq. intros i. unfold load_words.
  destruct (decide (i = 4%nat)) as [->|Hi4].
  { rewrite list_lookup_insert_eq by (rewrite length_fmap, length_seq; lia).
    rewrite list_lookup_fmap, lookup_seq_lt by lia. cbn [fmap option_fmap option_map].
    change (8 * (0 + 4))%nat with 32%nat. rewrite load_store_le by lia. by rewrite u64_small. }
  rewrite list_lookup_insert_ne, !list_lookup_fmap by done.
  destruct (decide (i < 10)%nat) as [Hi|Hi]; [|by rewrite lookup_seq_ge by lia].
  rewrite lookup_seq_lt by done. cbn [fmap option_fmap option_map Nat.add]. f_equal.
  rewrite !load_le_value by (rewrite length_drop, ?store_le_length; lia). f_equal.
  rewrite store_le_splice by lia.
  destruct (decide (i < 4)%nat).
  - rewrite drop_app_le, take_app_le by (rewrite ?length_drop, length_take; lia).
    rewrite skipn_firstn_comm, take_take. f_equal. lia.
  - rewrite app_assoc, drop_app_ge by (rewrite length_app, length_take, le_bytes_length; lia).
    rewrite drop_drop, length_app, length_take, le_bytes_length. do 2 f_equal. lia.
Qed.

Lemma nonce_hash_words h n : length h = 80%nat → is_u64 n →
  nonce_hash h n = flat_map (λ i, le_bytes 8 (nonce_word h n i)) (seq 0 4).
Proof.
  intros Hl Hn. unfold nonce_hash. rewrite blake2b256_80 by (by rewrite nonce_header_length).
  by rewrite header_words_nonce.
Qed.

Lemma nonce_hash_ok h n : length h = 80%nat →
  blake2b256 (nonce_header h n) = Ok (nonce_hash h n) ∧ length (nonce_hash h n) = 32%nat.
Proof.
  intros Hl. unfold nonce_hash.
  destruct (blake2b256_total (nonce_header h n)) as (d & -> & Hd); [|done].
  rewrite nonce_header_length. lia.
Qed.

(** ** The 64-bit pre-filter of the vector and GPU back ends *)

(** The first eight bytes of a digest or target as a big-endian word. *)
Definition top64 (d : Bytes) : Z := be_value (take 8 d).

Lemma meets_top64 d t : length d = 32%nat → length t = 32%nat →
  meets d t = true → top64 d ≤ top64 t.
Proof.
  intros Hd Ht Hm. rewrite meets_be in Hm by congruence.
  rewrite <- (take_drop 8 d), <- (take_drop 8 t), !be_value_app in Hm.
  pose proof (be_value_bound (drop 8 d)) as Hbd. pose proof (be_value_bound (drop 8 t)) as Hbt.
  rewrite !length_drop, ?Hd, ?Ht in *. unfold top64. nia.
Qed.

(** [__builtin_bswap64], and the byte swaps of the GPU kernels. *)
Definition bswap64 (x : Z) : Z := le_value (reverse (le_bytes 8 x)).

Lemma top64_word0 h n : length h = 80%nat → is_u64 n →
  top64 (nonce_hash h n) = bswap64 (nonce_word h n 0).
Proof.
  intros Hl Hn. unfold top64, be_value, bswap64. rewrite nonce_hash_words by done.
  cbn [seq flat_map]. rewrite take_app_length' by (by rewrite le_bytes_length). reflexivity.
Qed.

Lemma top64_load t : (8 ≤ length t)%nat → bswap64 (load_le t) = top64 t.
Proof.
  intros Ht. unfold bswap64, top64, be_value. rewrite load_le_value by done.
  rewrite le_bytes_value' by (rewrite length_take; lia). done.
Qed.

Lemma hash_word_range m i : is_u64 (hash_word m i).
Proof.
  unfold hash_word. cbn zeta.
  pose proof (scalar_rounds_words_ok m (seq 0 12) (initial_v 80) eq_refl
    (initial_v_words_ok 80 ltac:(by_compute))).
  apply lxor_u64; [apply lxor_u64|]; apply words_ok_lookup; try assumption.
  apply initial_h_words_ok.
Qed.

(** The first stored word of a digest is its word 0. *)
Lemma load_nonce_hash h n : length h = 80%nat → is_u64 n →
  load_le (nonce_hash h n) = nonce_word h n 0.
Proof.
  intros Hl Hn. rewrite load_le_value by (rewrite (proj2 (nonce_hash_ok h n Hl)); lia).
  rewrite nonce_hash_words by done. cbn [seq flat_map].
  rewrite take_app_length' by (by rewrite le_bytes_length).
  apply le_bytes_small, hash_word_range.
Qed.
