(* ===== verification/Cpu.v ===== *)
(** * The scalar CPU back end

    [Cpu::scan] and [cpu_backend] of src/src/cpu.cpp.  Time measurement is left
    out. *)
From S2P Require Import Prelude Words Hex Blake Targets Work.

(** The loop [for (i = 0; i < count; ++i)] with [n] iterations left. *)
Fixpoint cpu_loop (n : nat) (i start : Z) (target h : Bytes) (nonces : list Z)
    : result (list Z) :=
  match n with
  | O => Ok nonces
  | S n' =>
      let nonce := u64 (start + i) in
      let h := store_le h 32 nonce in
      d ← blake2b256 h;
      cpu_loop n' (i + 1) start target h (if meets d target then nonces ++ [nonce] else nonces)
  end.

(** The guard at the head of every scan. *)
Definition range_guard (start count : Z) : result unit :=
  throw_if ((count =? 0) || (2 ^ 64 - 1 - (count - 1) <? start)) "nonce range overflow".

Definition cpu_scan (w : Work) (start count : Z) : result Scan :=
  _ ← range_guard start count;
  ns ← cpu_loop (Z.to_nat count) 0 start (target w) (header w) [];
  Ok {| hashes := count; nonces := ns |}.

(** Which back end [cpu_backend] builds; [avx2] is [cpu_avx2_available()]. *)
Inductive cpu_kind := CpuScalar | CpuAvx2.
Definition cpu_backend (avx2 : bool) (variant : string) : result cpu_kind :=
  if bool_decide (variant = "avx2") || (bool_decide (variant = "auto") && avx2) then
    if avx2 then Ok CpuAvx2 else Throw (runtime_error "AVX2 unavailable on this CPU")
  else if bool_decide (variant = "scalar") || bool_decide (variant = "auto") then Ok CpuScalar
  else Throw (runtime_error "CPU variant must be auto, scalar or avx2").

(** ** Correctness *)

Lemma range_guard_ok start count u :
  range_guard start count = Ok u ↔ range_ok start count = true.
Proof. unfold range_guard, range_ok. rewrite throw_if_Ok. by rewrite negb_true_iff. Qed.

Lemma range_guard_cases start count :
  range_guard start count =
  if range_ok start count then Ok tt else Throw (runtime_error "nonce range overflow").
Proof. unfold range_guard, range_ok, throw_if. by destruct (_ || _). Qed.

Lemma range_ok_bounds start count : range_ok start count = true → 0 ≤ count →
  0 < count ∧ start + count ≤ 2 ^ 64.
Proof. unfold range_ok. intros H ?. bool_lia. Qed.

(** Storing a second nonce overwrites the first. *)
Lemma store_store_le h n1 n2 : (40 ≤ length h)%nat →
  store_le (store_le h 32 n1) 32 n2 = store_le h 32 n2.
Proof.
  intros Hl. rewrite (store_le_splice h 32 n1) by lia.
  rewrite store_le_app; rewrite ?length_take, ?le_bytes_length; [|lia..].
  by rewrite store_le_splice by lia.
Qed.

Lemma cpu_loop_ok n i start t h h0 ns : length h0 = 80%nat →
  (∀ x, store_le h 32 x = store_le h0 32 x) →
  0 ≤ i → is_u64 start → start + i + Z.of_nat n ≤ 2 ^ 64 →
  cpu_loop n i start t h ns =
  Ok (ns ++ filter (λ x, meets (nonce_hash h0 x) t = true) (seqZ (start + i) (Z.of_nat n))).
Proof.
  intros Hl. revert i h ns. induction n as [|n IH]; intros i h ns Hh Hi Hs Hb.
  { simpl. by rewrite app_nil_r. }
  cbn [cpu_loop]. unfold is_u64 in Hs. rewrite u64_small by (unfold is_u64; lia).
  rewrite Hh. destruct (nonce_hash_ok h0 (start + i) Hl) as [Hok _].
  unfold nonce_header in Hok. rewrite Hok, bind_Ok_eq.
  rewrite IH; [|intros; by rewrite store_store_le by lia|lia|done|lia].
  rewrite (seqZ_cons (start + i)) by lia. rewrite filter_cons.
  replace (Z.pred (Z.of_nat (S n))) with (Z.of_nat n) by lia.
  replace (Z.succ (start + i)) with (start + (i + 1)) by lia.
  destruct (meets _ t) eqn:Hm; case_decide; try done. by rewrite <- app_assoc.
Qed.

(** C33: the scalar scan refuses an empty or wrapping range and otherwise always
    returns, reporting exactly the nonces of the range whose digest meets the
    target, in increasing order. *)
Theorem cpu_scan_exact w start count : length (header w) = 80%nat →
  is_u64 start → is_u32 count →
  cpu_scan w start count =
  if range_ok start count then Ok {| hashes := count; nonces := solutions w start count |}
  else Throw (runtime_error "nonce range overflow").
Proof.
  intros Hl Hs Hc. unfold cpu_scan. rewrite range_guard_cases.
  destruct (range_ok start count) eqn:Hr; [|done]. rewrite bind_Ok_eq.
  apply range_ok_bounds in Hr; [|apply Hc]. unfold is_u32 in Hc.
  rewrite (cpu_loop_ok _ _ _ _ _ (header w)) by (done || lia).
  rewrite bind_Ok_eq, app_nil_l, Z.add_0_r, Z2Nat.id by lia. done.
Qed.

Lemma cpu_scan_exact_witness :
  cpu_scan {| header := replicate 80 x00; target := replicate 32 xff |} (2 ^ 64 - 3) 3 =
  if range_ok (2 ^ 64 - 3) 3
  then Ok {| hashes := 3;
             nonces := solutions {| header := replicate 80 x00; target := replicate 32 xff |} (2 ^ 64 - 3) 3 |}
  else Throw (runtime_error "nonce range overflow").
Proof.
  apply (cpu_scan_exact {| header := replicate 80 x00; target := replicate 32 xff |} (2 ^ 64 - 3) 3);
    [reflexivity|unfold is_u64; lia|unfold is_u32; lia].
Defined.

(** The scalar back end keeps the contract of [Backend]. *)
#[export] Instance cpu_laws : @BackendLaws cpu_scan.
Proof.
  split.
  - intros w start count Hh _ Hs Hc s Hok. unfold scan in Hok.
    unfold cpu_scan in Hok. rewrite range_guard_cases in Hok.
    destruct (range_ok start count) eqn:Hr; [|discriminate Hok]. rewrite bind_Ok_eq in Hok.
    apply range_ok_bounds in Hr; [|apply Hc]. unfold is_u32 in Hc.
    rewrite (cpu_loop_ok _ _ _ _ _ (header w)) in Hok by (done || lia).
    rewrite bind_Ok_eq in Hok. apply Ok_inj in Hok as <-.
    rewrite app_nil_l, Z.add_0_r, Z2Nat.id by lia. done.
  - intros w start count Hr. unfold scan, cpu_scan. by rewrite range_guard_cases, Hr.
Qed.
