(* ===== verification/Avx2.v ===== *)
(** * The AVX2 CPU back end

    src/src/cpu_avx2.cpp: four nonces per pass in the lanes of 256-bit
    vectors, with a scalar validation of every candidate.  The intrinsics are
    modelled from the vendor's documentation of their lanes and bytes. *)
From S2P Require Import Prelude Words Hex Blake Targets Work Cpu.

(** ** Vectors and intrinsics *)

(** [__m256i] as four 64-bit lanes, lane 0 lowest. *)
Record V := { lane0 : Z; lane1 : Z; lane2 : Z; lane3 : Z }.

Definition lane (j : nat) (v : V) : Z :=
  match j with
  | 0%nat => lane0 v | 1%nat => lane1 v | 2%nat => lane2 v | _ => lane3 v
  end.
Definition v_map (f : Z → Z) (a : V) : V :=
  {| lane0 := f (lane0 a); lane1 := f (lane1 a); lane2 := f (lane2 a); lane3 := f (lane3 a) |}.
Definition v_zip (f : Z → Z → Z) (a b : V) : V :=
  {| lane0 := f (lane0 a) (lane0 b); lane1 := f (lane1 a) (lane1 b);
     lane2 := f (lane2 a) (lane2 b); lane3 := f (lane3 a) (lane3 b) |}.

(** The 32 bytes of a vector in memory order, and back. *)
Definition v_bytes (a : V) : Bytes :=
  le_bytes 8 (lane0 a) ++ le_bytes 8 (lane1 a) ++ le_bytes 8 (lane2 a) ++ le_bytes 8 (lane3 a).
Definition v_of_bytes (l : Bytes) : V :=
  {| lane0 := le_value (take 8 l); lane1 := le_value (take 8 (drop 8 l));
     lane2 := le_value (take 8 (drop 16 l)); lane3 := le_value (take 8 (drop 24 l)) |}.

(** [_mm256_set1_epi64x] *)
Definition splat (x : Z) : V := {| lane0 := x; lane1 := x; lane2 := x; lane3 := x |}.
(** [_mm256_set_epi64x], highest lane first *)
Definition set_epi64x (e3 e2 e1 e0 : Z) : V :=
  {| lane0 := e0; lane1 := e1; lane2 := e2; lane3 := e3 |}.
Definition add_epi64 : V → V → V := v_zip (λ x y, u64 (x + y)).
Definition xor_si256 : V → V → V := v_zip Z.lxor.
Definition or_si256 : V → V → V := v_zip Z.lor.
Definition slli_epi64 (a : V) (n : Z) : V := v_map (λ x, u64 (Z.shiftl x n)) a.
Definition srli_epi64 (a : V) (n : Z) : V := v_map (λ x, Z.shiftr x n) a.

(** [_mm256_shuffle_epi8]: byte [j] is byte [ctl[j] & 15] of its own 128-bit
    half, or zero when bit 7 of [ctl[j]] is set. *)
Definition shuffle_epi8 (a : V) (ctl : list Z) : V :=
  let src := v_bytes a in
  v_of_bytes ((λ j, let c := ctl !!! j in
                    if Z.testbit c 7 then x00
                    else src !!! (16 * (j `div` 16) + Z.to_nat (Z.land c 15))%nat) <$> seq 0 32).

(** [_mm256_shuffle_epi32]: 32-bit element [k] of each half is the element of
    that half named by bits [2k+1..2k] of the immediate. *)
Definition shuffle_epi32 (a : V) (imm : Z) : V :=
  let src := v_bytes a in
  v_of_bytes ((λ j, let k := ((j `mod` 16) `div` 4)%nat in
                    let e := Z.to_nat (Z.land (Z.shiftr imm (2 * Z.of_nat k)) 3) in
                    src !!! (16 * (j `div` 16) + 4 * e + j `mod` 4)%nat) <$> seq 0 32).
(** [_MM_SHUFFLE(z, y, x, w)] *)
Definition mm_shuffle (z y x w : Z) : Z :=
  Z.lor (Z.lor (Z.shiftl z 6) (Z.shiftl y 4)) (Z.lor (Z.shiftl x 2) w).

#[export] Instance V_inhabited : Inhabited V := populate (splat inhabitant).

(** ** The kernel *)

Definition avx2_iv : list Z :=
  [0x6a09e667f3bcc908; 0xbb67ae8584caa73b; 0x3c6ef372fe94f82b; 0xa54ff53a5f1d36f1;
   0x510e527fade682d1; 0x9b05688c2b3e6c1f; 0x1f83d9abfb41bd6b; 0x5be0cd19137e2179].

Definition avx2_sigma : list (list nat) :=
  [[0; 1; 2; 3; 4; 5; 6; 7; 8; 9; 10; 11; 12; 13; 14; 15];
   [14; 10; 4; 8; 9; 15; 13; 6; 1; 12; 0; 2; 11; 7; 5; 3];
   [11; 8; 12; 0; 5; 2; 15; 13; 10; 14; 3; 6; 7; 1; 9; 4];
   [7; 9; 3; 1; 13; 12; 11; 14; 2; 6; 5; 10; 4; 0; 15; 8];
   [9; 0; 5; 7; 2; 4; 10; 15; 14; 1; 11; 12; 6; 8; 3; 13];
   [2; 12; 6; 10; 0; 11; 8; 3; 4; 13; 7; 5; 15; 14; 1; 9];
   [12; 5; 1; 15; 14; 13; 4; 10; 0; 7; 6; 3; 9; 2; 8; 11];
   [13; 11; 7; 14; 12; 1; 3; 9; 5; 0; 15; 4; 8; 6; 2; 10];
   [6; 15; 14; 9; 11; 3; 0; 8; 12; 2; 13; 7; 1; 4; 10; 5];
   [10; 2; 8; 4; 7; 6; 1; 5; 15; 11; 9; 14; 3; 12; 13; 0]]%nat.

Definition r24 : list Z :=
  [3; 4; 5; 6; 7; 0; 1; 2; 11; 12; 13; 14; 15; 8; 9; 10;
   3; 4; 5; 6; 7; 0; 1; 2; 11; 12; 13; 14; 15; 8; 9; 10].
Definition r16 : list Z :=
  [2; 3; 4; 5; 6; 7; 0; 1; 10; 11; 12; 13; 14; 15; 8; 9;
   2; 3; 4; 5; 6; 7; 0; 1; 10; 11; 12; 13; 14; 15; 8; 9].

(** [g(a, b, c, d, x, y)] on vectors; the four references are returned. *)
Definition v_g (a b c d x y : V) : V * V * V * V :=
  let a := add_epi64 (add_epi64 a b) x in
  let d := shuffle_epi32 (xor_si256 d a) (mm_shuffle 2 3 0 1) in
  let c := add_epi64 c d in
  let b := shuffle_epi8 (xor_si256 b c) r24 in
  let a := add_epi64 (add_epi64 a b) y in
  let d := shuffle_epi8 (xor_si256 d a) r16 in
  let c := add_epi64 c d in
  let b := xor_si256 b c in
  let b := or_si256 (slli_epi64 b 1) (srli_epi64 b 63) in
  (a, b, c, d).

(** [round<R>(v, m)]: eight calls of [g] on elements of the array [v]. *)
Definition v_round (m : list V) (v : list V) (R : nat) : list V :=
  mix_round v_g (avx2_sigma !!! (R `mod` 10)%nat) m v.

Definition compress_init : list V :=
  let v := fold_left (λ v i, <[i := splat (avx2_iv !!! i)]>
                               (<[(i + 8)%nat := splat (avx2_iv !!! i)]> v))
             (seq 0 8) (replicate 16 (splat 0)) in
  let v := <[0%nat := splat (Z.lxor (avx2_iv !!! 0%nat) 0x01010020)]> v in
  let v := <[12%nat := splat (Z.lxor (avx2_iv !!! 4%nat) 80)]> v in
  <[14%nat := splat (not64 (avx2_iv !!! 6%nat))]> v.

Definition compress (base : list V) (nonce : Z) : list V :=
  let m := <[4%nat := set_epi64x (u64 (nonce + 3)) (u64 (nonce + 2)) (u64 (nonce + 1)) nonce]> base in
  let v := fold_left (v_round m) (seq 0 12) compress_init in
  (λ i : nat, xor_si256
       (splat (Z.lxor (avx2_iv !!! i) (if (i =? 0)%nat then 0x01010020 else 0)))
       (xor_si256 (v !!! i) (v !!! (i + 8)%nat))) <$> seq 0 4.

Definition prepare (h : Bytes) : list V :=
  (λ i : nat, splat (if (i <? 10)%nat then load_le (drop (8 * i) h) else 0)) <$> seq 0 16.

(** ** [hashes] and [cpu_avx2_hashes] *)

(** [for (lane = 0; lane < 4 && i + lane < count; ++lane)
      store_le(result[i + lane].data() + 8 * word, lanes[lane])] *)
Definition store_lanes (i count : Z) (out : list V) (result : list Bytes) (word : nat) : list Bytes :=
  fold_left (λ result j,
      if i + Z.of_nat j <? count
      then alter (λ h, store_le h (8 * word) (lane j (out !!! word))) (Z.to_nat i + j)%nat result
      else result) (seq 0 4) result.

Fixpoint hashes_loop (fuel : nat) (m : list V) (start i count : Z) (result : list Bytes)
    : list Bytes :=
  match fuel with
  | O => result
  | S fuel' =>
      if i <? count then
        let out := compress m (u64 (start + i)) in
        hashes_loop fuel' m start (i + 4) count
          (fold_left (store_lanes i count out) (seq 0 4) result)
      else result
  end.

Definition avx2_hashes (h : Bytes) (start count : Z) : list Bytes :=
  hashes_loop (Z.to_nat count) (prepare h) start 0 count
    (replicate (Z.to_nat count) (replicate 32 x00)).

(** [available] is [cpu_avx2_available()]. *)
Definition cpu_avx2_hashes (available : bool) (h : Bytes) (start count : Z) : result (list Bytes) :=
  _ ← throw_if (negb available) "AVX2 unavailable on this CPU";
  _ ← range_guard start count;
  Ok (avx2_hashes h start count).

(** ** [CpuAvx2::scan] *)

(** The body of the lane loop, with its [continue]. *)
Definition check_lane (w : Work) (limit nonce word0 : Z) (nonces : list Z) : result (list Z) :=
  if limit <? bswap64 word0 then Ok nonces
  else
    let h := store_le (header w) 32 nonce in
    hash ← blake2b256 h;
    _ ← throw_if (negb (load_le hash =? word0)) "AVX2 candidate failed scalar validation";
    Ok (if meets hash (target w) then nonces ++ [nonce] else nonces).

Fixpoint lane_loop (js : list nat) (w : Work) (limit start i count : Z) (out0 : V)
    (nonces : list Z) : result (list Z) :=
  match js with
  | [] => Ok nonces
  | j :: js' =>
      if i + Z.of_nat j <? count then
        nonces ← check_lane w limit (u64 (start + i + Z.of_nat j)) (lane j out0) nonces;
        lane_loop js' w limit start i count out0 nonces
      else Ok nonces
  end.

Fixpoint scan_loop (fuel : nat) (w : Work) (m : list V) (limit start i count : Z)
    (nonces : list Z) : result (list Z) :=
  match fuel with
  | O => Ok nonces
  | S fuel' =>
      if i <? count then
        let out := compress m (u64 (start + i)) in
        nonces ← lane_loop [0; 1; 2; 3]%nat w limit start i count (out !!! 0%nat) nonces;
        scan_loop fuel' w m limit start (i + 4) count nonces
      else Ok nonces
  end.

Definition avx2_scan (w : Work) (start count : Z) : result Scan :=
  _ ← range_guard start count;
  let limit := bswap64 (load_le (target w)) in
  ns ← scan_loop (Z.to_nat count) w (prepare (header w)) limit start 0 count [];
  Ok {| hashes := count; nonces := ns |}.

(** ** Lanes *)

Definition v_ok (v : V) : Prop :=
  is_u64 (lane0 v) ∧ is_u64 (lane1 v) ∧ is_u64 (lane2 v) ∧ is_u64 (lane3 v).

Lemma lane_map f a j : lane j (v_map f a) = f (lane j a).
Proof. by destruct j as [|[|[|]]]. Qed.
Lemma lane_zip f a b j : lane j (v_zip f a b) = f (lane j a) (lane j b).
Proof. by destruct j as [|[|[|]]]. Qed.
Lemma lane_splat x j : lane j (splat x) = x.
Proof. by destruct j as [|[|[|]]]. Qed.
Lemma lane_ok v j : v_ok v → is_u64 (lane j v).
Proof. intros (?&?&?&?). by destruct j as [|[|[|]]]. Qed.
Lemma v_ok_splat x : is_u64 x → v_ok (splat x).
Proof. done. Qed.

Lemma v_ok_zip f a b : (∀ x y, is_u64 x → is_u64 y → is_u64 (f x y)) →
  v_ok a → v_ok b → v_ok (v_zip f a b).
Proof. intros Hf (?&?&?&?) (?&?&?&?). split_and!; apply Hf; done. Qed.

(** The three shuffles of [v_g] are rotations of every lane. *)
Ltac lane_bytes a :=
  let s := fresh "s" in
  destruct (list8_inv (le_bytes 8 (lane0 a)) (le_bytes_length _ _)) as (?&?&?&?&?&?&?&?&E0);
  destruct (list8_inv (le_bytes 8 (lane1 a)) (le_bytes_length _ _)) as (?&?&?&?&?&?&?&?&E1);
  destruct (list8_inv (le_bytes 8 (lane2 a)) (le_bytes_length _ _)) as (?&?&?&?&?&?&?&?&E2);
  destruct (list8_inv (le_bytes 8 (lane3 a)) (le_bytes_length _ _)) as (?&?&?&?&?&?&?&?&E3).

Lemma shuffle_rotation (sh : V) (a : V) k : v_ok a → (0 < k < 8)%nat →
  sh = v_of_bytes (flat_map (λ x, drop k (le_bytes 8 x) ++ take k (le_bytes 8 x))
         [lane0 a; lane1 a; lane2 a; lane3 a]) →
  sh = v_map (λ x, rotr x (8 * Z.of_nat k)) a.
Proof.
  intros (?&?&?&?) Hk ->. unfold v_map. rewrite <- !rotr_bytes by done.
  cbn [flat_map]. lane_bytes a. rewrite E0, E1, E2, E3. unfold v_of_bytes.
  do 8 (destruct k as [|k]; [first [lia|reflexivity]|]). lia.
Qed.

Lemma shuffle_r24 a : v_ok a → shuffle_epi8 a r24 = v_map (λ x, rotr x 24) a.
Proof.
  intros Ha. apply (shuffle_rotation _ a 3 Ha); [lia|]. unfold shuffle_epi8, v_bytes.
  lane_bytes a. rewrite E0, E1, E2, E3. cbn [flat_map]. rewrite E0, E1, E2, E3. reflexivity.
Qed.

Lemma shuffle_r16 a : v_ok a → shuffle_epi8 a r16 = v_map (λ x, rotr x 16) a.
Proof.
  intros Ha. apply (shuffle_rotation _ a 2 Ha); [lia|]. unfold shuffle_epi8, v_bytes.
  lane_bytes a. rewrite E0, E1, E2, E3. cbn [flat_map]. rewrite E0, E1, E2, E3. reflexivity.
Qed.

Lemma shuffle_r32 a : v_ok a →
  shuffle_epi32 a (mm_shuffle 2 3 0 1) = v_map (λ x, rotr x 32) a.
Proof.
  intros Ha. apply (shuffle_rotation _ a 4 Ha); [lia|]. unfold shuffle_epi32, v_bytes.
  lane_bytes a. rewrite E0, E1, E2, E3. cbn [flat_map]. rewrite E0, E1, E2, E3. reflexivity.
Qed.

(** [(b << 1) | (b >> 63)] *)
Lemma rotr63 x : Z.lor (u64 (Z.shiftl x 1)) (Z.shiftr x 63) = rotr x 63.
Proof. unfold rotr. by rewrite Z.lor_comm. Qed.

Lemma u64_add_assoc a b x : u64 (u64 (a + b) + x) = u64 (a + u64 (b + x)).
Proof. unfold u64. rewrite Zplus_mod_idemp_l, Zplus_mod_idemp_r. f_equal. lia. Qed.

Lemma v_ok_add a b : v_ok (add_epi64 a b).
Proof. split_and!; apply u64_range. Qed.
Lemma v_ok_xor a b : v_ok a → v_ok b → v_ok (xor_si256 a b).
Proof. apply v_ok_zip. apply lxor_u64. Qed.
Lemma v_ok_rotr a r : v_ok a → 0 < r < 64 → v_ok (v_map (λ x, rotr x r) a).
Proof. intros (?&?&?&?) ?. split_and!; by apply rotr_u64. Qed.

Lemma v_rotr63 a : or_si256 (slli_epi64 a 1) (srli_epi64 a 63) = v_map (λ x, rotr x 63) a.
Proof.
  unfold or_si256, slli_epi64, srli_epi64, v_zip, v_map. cbn [lane0 lane1 lane2 lane3].
  by rewrite !rotr63.
Qed.

Lemma add_add_epi64 a b x :
  add_epi64 (add_epi64 a b) x = v_zip (λ a y, u64 (a + y)) a (add_epi64 b x).
Proof. unfold add_epi64, v_zip. cbn [lane0 lane1 lane2 lane3]. by rewrite !u64_add_assoc. Qed.

(** [v_g] is the scalar mixing function on every lane. *)
Lemma v_g_lane j a b c d x y :
  v_ok a → v_ok b → v_ok c → v_ok d → v_ok x → v_ok y →
  let '(a', b', c', d') := v_g a b c d x y in
  (v_ok a' ∧ v_ok b' ∧ v_ok c' ∧ v_ok d') ∧
  (lane j a', lane j b', lane j c', lane j d') =
    mix64 (lane j a) (lane j b) (lane j c) (lane j d) (lane j x) (lane j y).
Proof.
  intros Ha Hb Hc Hd _ _. unfold v_g. cbn zeta. rewrite v_rotr63.
  rewrite shuffle_r32 by (by apply v_ok_xor; [|apply v_ok_add]).
  rewrite shuffle_r24 by (by apply v_ok_xor; [|apply v_ok_add]).
  rewrite shuffle_r16 by
    (apply v_ok_xor; [apply v_ok_rotr; [apply v_ok_xor; [done|apply v_ok_add]|lia]|apply v_ok_add]).
  split.
  - split_and!; try apply v_ok_add; apply v_ok_rotr; try lia; apply v_ok_xor; try apply v_ok_add;
      apply v_ok_rotr; try lia; apply v_ok_xor; try apply v_ok_add; done.
  - rewrite (add_add_epi64 a b x), (add_add_epi64 _ _ y). unfold add_epi64, xor_si256.
    repeat (rewrite lane_map || rewrite lane_zip). reflexivity.
Qed.

(** ** [compress] *)

Lemma prepare_lane h j : lane j <$> prepare h = header_words h.
Proof.
  unfold prepare, header_words, load_words. change 16%nat with (10 + 6)%nat.
  rewrite seq_app, !fmap_app. f_equal.
  - rewrite <- list_fmap_compose. apply list_fmap_ext. intros i x Hi.
    apply lookup_seq in Hi as [-> Hi]. unfold compose. rewrite lane_splat.
    by destruct (Nat.ltb_spec (0 + i) 10); [|lia].
  - cbn. by rewrite !lane_splat.
Qed.

Lemma prepare_ok h : length h = 80%nat → Forall v_ok (prepare h).
Proof.
  intros Hl. unfold prepare. apply Forall_fmap, Forall_forall. intros i Hi.
  apply v_ok_splat. destruct (Nat.ltb_spec i 10); [|done].
  apply load_le_range. rewrite length_drop. lia.
Qed.

Lemma compress_init_lane j : lane j <$> compress_init = initial_v 80.
Proof. destruct j as [|[|[|]]]; vm_compute; reflexivity. Qed.

Lemma compress_init_ok : Forall v_ok compress_init.
Proof. unfold v_ok. by_compute. Qed.

Lemma set_lane j nonce : (j < 4)%nat → is_u64 nonce →
  lane j (set_epi64x (u64 (nonce + 3)) (u64 (nonce + 2)) (u64 (nonce + 1)) nonce) =
  u64 (nonce + Z.of_nat j).
Proof.
  intros Hj Hn. destruct j as [|[|[|[|]]]]; [|done..|lia].
  cbn. by rewrite Z.add_0_r, u64_small.
Qed.

Lemma lane_inhabitant j : lane j inhabitant = inhabitant.
Proof. apply lane_splat. Qed.
Lemma v_ok_inhabitant : v_ok inhabitant.
Proof. unfold v_ok. by_compute. Qed.

Lemma v_rounds_lane j m rs v : Forall v_ok v → Forall v_ok m → length v = 16%nat →
  lane j <$> fold_left (v_round m) rs v = fold_left (scalar_round (lane j <$> m)) rs (lane j <$> v).
Proof.
  intros Hv Hm Hl. unfold v_round. change avx2_sigma with sigma.
  exact (proj2 (rounds_sim v_g (lane j) v_ok (lane_inhabitant j) v_ok_inhabitant
    (v_g_lane j) m rs v Hv Hm Hl)).
Qed.

Lemma lookup_words4 {A} `{Inhabited A} (f : nat → A) i : (i < 4)%nat → (f <$> seq 0 4) !!! i = f i.
Proof. intros Hi. destruct i as [|[|[|[|]]]]; [reflexivity..|lia]. Qed.

Lemma compress_lane h nonce j i : length h = 80%nat → is_u64 nonce → (j < 4)%nat → (i < 4)%nat →
  lane j (compress (prepare h) nonce !!! i) = nonce_word h (u64 (nonce + Z.of_nat j)) i.
Proof.
  intros Hl Hn Hj Hi. unfold compress. cbn zeta.
  set (m := <[4%nat := _]> (prepare h)).
  assert (Forall v_ok m) as Hm.
  { apply Forall_insert; [by apply prepare_ok|]. split_and!; first [done|apply u64_range]. }
  pose proof (v_rounds_lane j m (seq 0 12) compress_init compress_init_ok Hm eq_refl) as Hv.
  rewrite compress_init_lane in Hv.
  assert (lane j <$> m = <[4%nat := u64 (nonce + Z.of_nat j)]> (header_words h)) as Hmj.
  { unfold m. by rewrite list_fmap_insert, prepare_lane, set_lane. }
  rewrite Hmj in Hv. set (v := fold_left (v_round m) _ _) in *. clearbody v m.
  rewrite lookup_words4 by done. unfold xor_si256. rewrite !lane_zip, lane_splat. unfold nonce_word, hash_word. rewrite <- Hv.
  rewrite !(view_lookup (lane j) (lane_inhabitant j)), (Z.lxor_assoc (initial_h !!! i)).
  f_equal.
  destruct i as [|[|[|[|]]]]; [..|lia]; vm_compute; reflexivity.
Qed.

(** ** The scan *)

Section scan.
Context (w : Work) (start count : Z).
Hypothesis Hheader : length (header w) = 80%nat.
Hypothesis Htarget : length (target w) = 32%nat.
Hypothesis Hstart : is_u64 start.
Hypothesis Hfit : start + count ≤ 2 ^ 64.

Let found n : Prop := meets (nonce_hash (header w) n) (target w) = true.

Lemma check_lane_ok n ns : is_u64 n →
  check_lane w (top64 (target w)) n (nonce_word (header w) n 0) ns =
  Ok (ns ++ filter found [n]).
Proof.
  intros Hn. unfold check_lane. rewrite <- top64_word0 by done. rewrite filter_cons, filter_nil.
  destruct (nonce_hash_ok (header w) n Hheader) as [Hok Hlen].
  destruct (Z.ltb_spec (top64 (target w)) (top64 (nonce_hash (header w) n))) as [Hlt|_].
  - case_decide as Hm; [|by rewrite app_nil_r].
    apply meets_top64 in Hm; [lia|done|done].
  - cbn zeta. fold (nonce_header (header w) n). rewrite Hok, bind_Ok_eq.
    rewrite load_nonce_hash, Z.eqb_refl by done. cbn [negb]. rewrite throw_if_false, bind_Ok_eq.
    f_equal. unfold found. destruct (meets _ _); case_decide; (done || by rewrite app_nil_r).
Qed.

(** The output vector of the group at offset [i] carries its lanes' digests. *)
Definition group_out (i : Z) (out0 : V) : Prop :=
  ∀ j, (j < 4)%nat → lane j out0 = nonce_word (header w) (u64 (start + i + Z.of_nat j)) 0.

Lemma lane_loop_ok i out0 n j ns : group_out i out0 → 0 ≤ i → (j + n = 4)%nat →
  lane_loop (seq j n) w (top64 (target w)) start i count out0 ns =
  Ok (ns ++ filter found (seqZ (start + i + Z.of_nat j) (Z.of_nat n `min` (count - i - Z.of_nat j)))).
Proof.
  intros Hout Hi. revert j ns. induction n as [|n IH]; intros j ns Hj.
  { rewrite seqZ_nil by lia. by rewrite filter_nil, app_nil_r. }
  cbn [seq lane_loop]. unfold is_u64 in Hstart. destruct (Z.ltb_spec (i + Z.of_nat j) count).
  2:{ rewrite seqZ_nil by lia. by rewrite filter_nil, app_nil_r. }
  rewrite Hout by lia. rewrite u64_small by (unfold is_u64; lia).
  rewrite check_lane_ok by (unfold is_u64; lia). rewrite bind_Ok_eq, IH by lia.
  rewrite (seqZ_cons (start + i + Z.of_nat j)) by lia.
  rewrite <- app_assoc, <- filter_app. cbn [app].
  replace (start + i + Z.of_nat (S j)) with (Z.succ (start + i + Z.of_nat j)) by lia.
  replace (Z.of_nat n `min` _) with (Z.pred (Z.of_nat (S n) `min` (count - i - Z.of_nat j))) by lia.
  done.
Qed.

Lemma compress_group i : 0 ≤ i → i < count →
  group_out i (compress (prepare (header w)) (u64 (start + i)) !!! 0%nat).
Proof.
  intros Hi Hc j Hj. rewrite compress_lane; [|done|apply u64_range|done|lia].
  assert (u64 (u64 (start + i) + Z.of_nat j) = u64 (start + i + Z.of_nat j)) as ->; [|done].
  apply Zplus_mod_idemp_l.
Qed.

Lemma scan_loop_ok fuel i ns : 0 ≤ i → (Z.to_nat (count - i) ≤ fuel)%nat →
  scan_loop fuel w (prepare (header w)) (top64 (target w)) start i count ns =
  Ok (ns ++ filter found (seqZ (start + i) (count - i))).
Proof.
  revert i ns. induction fuel as [|fuel IH]; intros i ns Hi Hf; cbn [scan_loop].
  { rewrite seqZ_nil by lia. by rewrite filter_nil, app_nil_r. }
  destruct (Z.ltb_spec i count).
  2:{ rewrite seqZ_nil by lia. by rewrite filter_nil, app_nil_r. }
  cbn zeta. change [0; 1; 2; 3]%nat with (seq 0 4).
  rewrite lane_loop_ok by (apply compress_group || lia; lia). rewrite bind_Ok_eq, IH by lia.
  rewrite <- app_assoc, <- filter_app. do 3 f_equal.
  change (Z.of_nat 0) with 0. change (Z.of_nat 4) with 4. rewrite Z.add_0_r, Z.sub_0_r.
  destruct (decide (4 ≤ count - i)).
  - rewrite Z.min_l by lia. replace (start + (i + 4)) with (start + i + 4) by lia.
    rewrite <- seqZ_app by lia. f_equal. lia.
  - rewrite Z.min_r by lia. rewrite (seqZ_nil _ (count - (i + 4))) by lia. apply app_nil_r.
Qed.
End scan.

Lemma scan_loop_scalar w start count :
  length (header w) = 80%nat → length (target w) = 32%nat → is_u64 start →
  0 < count → start + count ≤ 2 ^ 64 →
  scan_loop (Z.to_nat count) w (prepare (header w)) (bswap64 (load_le (target w))) start 0 count [] =
  cpu_loop (Z.to_nat count) 0 start (target w) (header w) [].
Proof.
  intros Hh Ht Hs Hc Hf. rewrite top64_load by lia. rewrite scan_loop_ok by (done || lia).
  rewrite (cpu_loop_ok _ _ _ _ _ (header w)) by (done || lia).
  replace (Z.of_nat (Z.to_nat count)) with (count - 0) by lia. done.
Qed.

(** C7: the AVX2 scan is the scalar scan on every valid header, target and
    range: same nonces in the same order whatever the number of lanes left in
    the last group, and the scalar validation never fails. *)
Theorem avx2_scan_scalar w start count :
  length (header w) = 80%nat → length (target w) = 32%nat → is_u64 start → is_u32 count →
  avx2_scan w start count = cpu_scan w start count.
Proof.
  intros Hh Ht Hs Hc. unfold avx2_scan, cpu_scan. rewrite range_guard_cases.
  destruct (range_ok start count) eqn:Hr; [|done]. rewrite !bind_Ok_eq. cbn zeta.
  apply range_ok_bounds in Hr; [|apply Hc]. by rewrite scan_loop_scalar by (done || lia).
Qed.

Lemma avx2_scan_scalar_witness :
  let w := {| header := replicate 80 x07; target := x40 :: replicate 31 xff |} in
  avx2_scan w (2 ^ 64 - 3) 3 = cpu_scan w (2 ^ 64 - 3) 3 ∧
  avx2_scan w 0 6 = Ok {| hashes := 6; nonces := [0; 1; 2] |}.
Proof.
  intros w. split; [|vm_compute; reflexivity].
  apply (avx2_scan_scalar w (2 ^ 64 - 3) 3); [reflexivity..|unfold is_u64; lia|unfold is_u32; lia].
Defined.

(** ** [hashes] *)

Section hashes.
Context (h : Bytes) (start count : Z).
Hypothesis Hheader : length h = 80%nat.
Hypothesis Hstart : is_u64 start.
Hypothesis Hfit : start + count ≤ 2 ^ 64.

(** Entry [k] after the stores of [word] for the group at [i]. *)
Lemma store_lanes_lookup i out res word k : 0 ≤ i →
  store_lanes i count out res word !! k =
  if decide (i ≤ Z.of_nat k < i + 4 ∧ Z.of_nat k < count)
  then (λ b, store_le b (8 * word) (lane (k - Z.to_nat i) (out !!! word))) <$> res !! k
  else res !! k.
Proof.
  intros Hi. unfold store_lanes. cbn [seq fold_left].
  assert (∀ j f (r : list Bytes), (j < 4)%nat →
    (if i + Z.of_nat j <? count then alter f (Z.to_nat i + j)%nat r else r) !! k =
    if decide (Z.of_nat k = i + Z.of_nat j ∧ Z.of_nat k < count) then f <$> r !! k else r !! k) as Hstep.
  { intros j f r Hj. destruct (Z.ltb_spec (i + Z.of_nat j) count).
    - case_decide as Hd.
      + replace (Z.to_nat i + j)%nat with k by lia. by rewrite list_lookup_alter_eq.
      + rewrite list_lookup_alter_ne by lia. done.
    - rewrite decide_False by lia. done. }
  rewrite !Hstep by lia.
  destruct (decide (i ≤ Z.of_nat k < i + 4 ∧ Z.of_nat k < count)) as [Hd|Hd].
  - assert (∃ j, (j < 4)%nat ∧ k = (Z.to_nat i + j)%nat) as (j & Hj & ->).
    { exists (k - Z.to_nat i)%nat. lia. }
    replace (Z.to_nat i + j - Z.to_nat i)%nat with j by lia.
    destruct j as [|[|[|[|]]]]; [..|lia]; by repeat case_decide; try lia.
  - by repeat case_decide; try lia.
Qed.

Lemma store_lanes_length i out res word : length (store_lanes i count out res word) = length res.
Proof.
  unfold store_lanes. generalize (seq 0 4). intros js. revert res.
  induction js as [|j js IH]; intros res; [done|]. rewrite fold_left_cons, IH.
  destruct (_ <? _); [apply length_alter|done].
Qed.

Lemma group_lookup i out res k : 0 ≤ i →
  fold_left (store_lanes i count out) (seq 0 4) res !! k =
  if decide (i ≤ Z.of_nat k < i + 4 ∧ Z.of_nat k < count)
  then (λ b, fold_left (λ b word, store_le b (8 * word) (lane (k - Z.to_nat i) (out !!! word)))
               (seq 0 4) b) <$> res !! k
  else res !! k.
Proof.
  intros Hi. cbn [seq fold_left]. rewrite !store_lanes_lookup by done.
  case_decide; [|done]. by destruct (res !! k).
Qed.

Lemma stored_digest i k b : 0 ≤ i → i ≤ Z.of_nat k < i + 4 → Z.of_nat k < count →
  length b = 32%nat →
  fold_left (λ b word, store_le b (8 * word)
      (lane (k - Z.to_nat i) (compress (prepare h) (u64 (start + i)) !!! word))) (seq 0 4) b =
  nonce_hash h (start + Z.of_nat k).
Proof.
  intros Hi Hk Hc Hb. rewrite store_words_splice by lia.
  rewrite drop_ge, app_nil_r by lia. unfold is_u64 in Hstart.
  rewrite nonce_hash_words by (done || unfold is_u64; lia).
  assert (∀ word, (word < 4)%nat →
    lane (k - Z.to_nat i) (compress (prepare h) (u64 (start + i)) !!! word) =
    nonce_word h (start + Z.of_nat k) word) as Hl.
  { intros word Hw. rewrite compress_lane by (apply u64_range || lia).
    assert (u64 (u64 (start + i) + Z.of_nat (k - Z.to_nat i)) = start + Z.of_nat k) as ->; [|done].
    unfold u64. rewrite Zplus_mod_idemp_l. rewrite Z.mod_small; lia. }
  cbn [seq flat_map]. by rewrite !Hl by lia.
Qed.

Lemma hashes_loop_lookup fuel i res k : 0 ≤ i → (Z.to_nat (count - i) ≤ fuel)%nat →
  (∀ b, b ∈ res → length b = 32%nat) → length res = Z.to_nat count →
  hashes_loop fuel (prepare h) start i count res !! k =
  if decide (i ≤ Z.of_nat k < count) then Some (nonce_hash h (start + Z.of_nat k)) else res !! k.
Proof.
  revert i res. induction fuel as [|fuel IH]; intros i res Hi Hf Hb Hl; cbn [hashes_loop].
  { rewrite decide_False by lia. done. }
  destruct (Z.ltb_spec i count); [|rewrite decide_False by lia; done].
  set (out := compress _ _).
  set (res' := fold_left _ _ _). assert (length res' = length res) as Hl'.
  { unfold res'. clearbody out. cbn [seq fold_left]. by rewrite !store_lanes_length. }
  assert (∀ b, b ∈ res' → length b = 32%nat) as Hb'.
  { intros b Hin. apply list_elem_of_lookup in Hin as [p Hp].
    unfold res' in Hp. rewrite group_lookup in Hp by done. case_decide.
    - clearbody out. destruct (res !! p) as [b0|] eqn:E; [|discriminate Hp]. injection Hp as <-.
      rewrite !store_le_length. by eapply Hb, list_elem_of_lookup_2.
    - by eapply Hb, list_elem_of_lookup_2. }
  rewrite IH; [|lia|lia|exact Hb'|congruence].
  destruct (decide (i + 4 ≤ Z.of_nat k < count)) as [H1|H1]; [rewrite decide_True by lia; done|].
  unfold res'. rewrite group_lookup by done.
  destruct (decide (i ≤ Z.of_nat k < i + 4 ∧ Z.of_nat k < count)) as [H2|H2].
  - rewrite decide_True by lia. destruct (lookup_lt_is_Some_2 res k) as [b0 E]; [lia|].
    rewrite E. cbn [fmap option_fmap option_map]. f_equal. unfold out.
    apply stored_digest; [lia..|]. by eapply Hb, list_elem_of_lookup_2.
  - rewrite decide_False by lia. done.
Qed.
End hashes.

(** [cpu_avx2_hashes] returns, for every nonce of a valid range in order,
    the scalar digest of the header with that nonce; it refuses an empty or
    wrapping range and a processor without AVX2. *)
Theorem cpu_avx2_hashes_spec available h start count :
  length h = 80%nat → is_u64 start → is_u32 count →
  cpu_avx2_hashes available h start count =
  if available then
    if range_ok start count then Ok (nonce_hash h <$> seqZ start count)
    else Throw (runtime_error "nonce range overflow")
  else Throw (runtime_error "AVX2 unavailable on this CPU").
Proof.
  intros Hl Hs Hc. unfold cpu_avx2_hashes. destruct available; [|done].
  cbn [negb]. rewrite throw_if_false, bind_Ok_eq, range_guard_cases.
  destruct (range_ok start count) eqn:Hr; [|done]. rewrite bind_Ok_eq. f_equal.
  apply range_ok_bounds in Hr; [|apply Hc]. unfold avx2_hashes.
  apply list_eq. intros k. rewrite hashes_loop_lookup; [|done|done|lia|lia|lia| |].
  2:{ intros b Hin. apply elem_of_replicate in Hin as [-> _]. by rewrite length_replicate. }
  2:{ by rewrite length_replicate. }
  rewrite list_lookup_fmap. case_decide.
  - rewrite lookup_seqZ_lt by lia. done.
  - rewrite lookup_ge_None_2 by (rewrite length_replicate; lia).
    by rewrite lookup_seqZ_ge by lia.
Qed.

Lemma cpu_avx2_hashes_spec_witness :
  cpu_avx2_hashes true (replicate 80 x07) (2 ^ 64 - 5) 5 =
  if range_ok (2 ^ 64 - 5) 5 then Ok (nonce_hash (replicate 80 x07) <$> seqZ (2 ^ 64 - 5) 5)
  else Throw (runtime_error "nonce range overflow").
Proof.
  apply (cpu_avx2_hashes_spec true (replicate 80 x07) (2 ^ 64 - 5) 5);
    [reflexivity|unfold is_u64; lia|unfold is_u32; lia].
Defined.

(** The AVX2 back end keeps the contract of [Backend]. *)
#[export] Instance avx2_laws : @BackendLaws avx2_scan.
Proof.
  split.
  - intros w start count Hh Ht Hs Hc s Hok. apply (scan_exact (B := cpu_scan)); [done..|].
    unfold scan in *. rewrite <- Hok. unfold avx2_scan, cpu_scan. rewrite range_guard_cases.
    destruct (range_ok start count) eqn:Hr; [|done]. rewrite !bind_Ok_eq. cbn zeta.
    apply range_ok_bounds in Hr; [|apply Hc].
    by rewrite scan_loop_scalar by (done || lia).
  - intros w start count Hr. unfold scan, avx2_scan. by rewrite range_guard_cases, Hr.
Qed.
