(* ===== verification/Gpu.v ===== *)
(** * What the GPU back ends share

    The kernel of src/src/cuda/blake2b.cu and of src/src/opencl/blake2b.cl is one
    hash with a choice of rotation and of a precomputed first round, and both
    collect candidates in a buffer with an atomic counter.  This file holds the
    hash, the buffer as a transition system of concurrent threads, and the host
    code that validates candidates. *)
From S2P Require Import Prelude Words Hex Blake Targets Work Cpu.

(** ** The hash *)

(** [v[i] = iv[i % 8]; v[0] ^= 0x01010020; v[12] ^= 80; v[14] = ~v[14]]. *)
Definition gpu_initial : list Z :=
  let v := (λ i, iv !!! (i `mod` 8)%nat) <$> seq 0 16 in
  let v := alter (λ x, Z.lxor x 0x01010020) 0%nat v in
  let v := alter (λ x, Z.lxor x 80) 12%nat v in
  alter not64 14%nat v.

(** The host's part of round 0: the columns that do not depend on the nonce. *)
Definition precompute (m : list Z) : list Z :=
  let v := gpu_initial in
  let v := g 0 4 8 12 (m !!! 0%nat) (m !!! 1%nat) v in
  let v := g 1 5 9 13 (m !!! 2%nat) (m !!! 3%nat) v in
  g 3 7 11 15 (m !!! 6%nat) (m !!! 7%nat) v.

Section kernel.
(** The rotation the kernel was compiled with. *)
Variable ror : Z → Z → Z.

Definition gpu_mix (a b c d x y : Z) : Z * Z * Z * Z :=
  let a := u64 (a + u64 (b + x)) in
  let d := ror (Z.lxor d a) 32 in
  let c := u64 (c + d) in
  let b := ror (Z.lxor b c) 24 in
  let a := u64 (a + u64 (b + y)) in
  let d := ror (Z.lxor d a) 16 in
  let c := u64 (c + d) in
  let b := ror (Z.lxor b c) 63 in
  (a, b, c, d).

(** One round; [skip] leaves out the three columns already computed. *)
Definition gpu_round (s : list nat) (m : list Z) (skip : bool) (v : list Z) : list Z :=
  let col (a b c d i j : nat) (v : list Z) := mix_at gpu_mix a b c d (m !!! (s !!! i)) (m !!! (s !!! j)) v in
  let v := (if skip then v else col 1 5 9 13 2 3 (col 0 4 8 12 0 1 v))%nat in
  let v := (col 2 6 10 14 4 5 v)%nat in
  let v := if skip then v else (col 3 7 11 15 6 7 v)%nat in
  let v := (col 0 5 10 15 8 9 v)%nat in
  let v := (col 1 6 11 12 10 11 v)%nat in
  let v := (col 2 7 8 13 12 13 v)%nat in
  (col 3 4 9 14 14 15 v)%nat.

(** [hash80]: [words] are the ten header words and [initial] the precomputed
    state, used when [pre] is set. *)
Definition hash80 (pre : bool) (words initial : list Z) (nonce : Z) : list Z :=
  let m := (λ i : nat, if (i <? 10)%nat then words !!! i else 0) <$> seq 0 16 in
  let m := <[4%nat := nonce]> m in
  let v := if pre then initial else gpu_initial in
  let v := fold_left (λ v r, gpu_round (sigma !!! (r `mod` 10)%nat) m (pre && (r =? 0)%nat) v)
             (seq 0 12) v in
  (λ i : nat, Z.lxor (Z.lxor (Z.lxor (iv !!! i) (v !!! i)) (v !!! (i + 8)%nat))
                (if (i =? 0)%nat then 0x01010020 else 0)) <$> seq 0 4.
End kernel.

(** ** The candidate buffer

    Each thread tests its nonces in turn; for a candidate it takes a slot with an
    atomic increment and then writes the nonce into that slot.  Threads
    interleave freely. *)
Definition capacity : Z := 4096.

(** A thread with candidates left to report, and possibly a slot it holds. *)
Record thread := { todo : list Z; holding : option (Z * Z) }.
Record device := { hits : Z; slots : gmap Z Z; threads : list thread }.

Inductive device_step : device → device → Prop :=
| step_take d i n ns : threads d !! i = Some {| todo := n :: ns; holding := None |} →
    device_step d {| hits := u32 (hits d + 1); slots := slots d;
      threads := <[i := {| todo := ns; holding := Some (hits d, n) |}]> (threads d) |}
| step_write d i ns slot n : threads d !! i = Some {| todo := ns; holding := Some (slot, n) |} →
    device_step d {| hits := hits d;
      slots := if slot <? capacity then <[slot := n]> (slots d) else slots d;
      threads := <[i := {| todo := ns; holding := None |}]> (threads d) |}.

(** The launch: a zeroed counter and one list of candidates per thread. *)
Definition launched (work : list (list Z)) : device :=
  {| hits := 0; slots := ∅; threads := (λ ns, {| todo := ns; holding := None |}) <$> work |}.
Definition finished (d : device) : Prop :=
  Forall (λ t, t = {| todo := []; holding := None |}) (threads d).

(** What the host copies back: the counter and the first [hits] entries. *)
Definition read_back (d : device) : list Z := (λ i, default 0 (slots d !! i)) <$> seqZ 0 (hits d).

(** ** The hash is the scalar digest *)

Section kernel_correct.
Context (ror : Z → Z → Z).
Hypothesis ror_ok : ∀ x n, is_u64 x → n ∈ [32; 24; 16; 63] → ror x n = rotr x n.

Lemma gpu_mix_eq a b c d x y : is_u64 a → is_u64 b → is_u64 c → is_u64 d →
  gpu_mix ror a b c d x y = mix64 a b c d x y.
Proof.
  intros. unfold gpu_mix, mix64. cbn zeta.
  repeat (rewrite ror_ok; [|solve [word_range]|set_solver]). done.
Qed.

Lemma gpu_mix_at a b c d x y v : words_ok v →
  mix_at (gpu_mix ror) a b c d x y v = mix_at mix64 a b c d x y v.
Proof. intros Hv. unfold mix_at. by rewrite gpu_mix_eq by by apply words_ok_lookup. Qed.

(** Replace the kernel's mixing by [mix64], innermost call first. *)
Ltac scalar_mix a b c d :=
  rewrite (gpu_mix_at a b c d) by (repeat apply mix_at_words_ok; assumption).

Lemma gpu_round_full s m v : words_ok v → gpu_round ror s m false v = mix_round mix64 s m v.
Proof.
  intros Hv. unfold gpu_round, mix_round. cbn zeta.
  scalar_mix 0%nat 4%nat 8%nat 12%nat. scalar_mix 1%nat 5%nat 9%nat 13%nat.
  scalar_mix 2%nat 6%nat 10%nat 14%nat. scalar_mix 3%nat 7%nat 11%nat 15%nat.
  scalar_mix 0%nat 5%nat 10%nat 15%nat. scalar_mix 1%nat 6%nat 11%nat 12%nat.
  scalar_mix 2%nat 7%nat 8%nat 13%nat. scalar_mix 3%nat 4%nat 9%nat 14%nat. done.
Qed.

(** Columns 2 and 3 touch disjoint words. *)
Lemma columns_commute (f : Z → Z → Z → Z → Z → Z → Z * Z * Z * Z) x2 y2 x3 y3 v : length v = 16%nat →
  mix_at f 3 7 11 15 x3 y3 (mix_at f 2 6 10 14 x2 y2 v) =
  mix_at f 2 6 10 14 x2 y2 (mix_at f 3 7 11 15 x3 y3 v).
Proof.
  intros Hv. destruct (list16_inv v Hv) as (a0&a1&a2&a3&b0&b1&b2&b3&c0&c1&c2&c3&d0&d1&d2&d3&->).
  unfold mix_at at 2. cbn [lookup_total list_lookup_total insert list_insert].
  unfold mix_at at 3. cbn [lookup_total list_lookup_total insert list_insert].
  destruct (f a2 b2 c2 d2 x2 y2) as [[[a2' b2'] c2'] d2'] eqn:E2.
  destruct (f a3 b3 c3 d3 x3 y3) as [[[a3' b3'] c3'] d3'] eqn:E3.
  unfold mix_at. cbn [lookup_total list_lookup_total insert list_insert]. by rewrite E2, E3.
Qed.

(** Round 0 on the precomputed state is round 0 on the initial one. *)
Lemma gpu_round_skip m : length m = 16%nat → let s := sigma !!! 0%nat in
  gpu_round ror s m true (precompute m) = mix_round mix64 s m gpu_initial.
Proof.
  intros Hm s. assert (length gpu_initial = 16%nat) as Hl by done.
  assert (words_ok gpu_initial) as Hok by (unfold words_ok; by_compute).
  unfold precompute. cbn zeta. rewrite (g_mix16 0 4 8 12) by length16.
  rewrite (g_mix16 1 5 9 13) by length16. rewrite (g_mix16 3 7 11 15) by length16.
  unfold gpu_round, mix_round. cbn zeta.
  scalar_mix 2%nat 6%nat 10%nat 14%nat. scalar_mix 0%nat 5%nat 10%nat 15%nat.
  scalar_mix 1%nat 6%nat 11%nat 12%nat. scalar_mix 2%nat 7%nat 8%nat 13%nat.
  scalar_mix 3%nat 4%nat 9%nat 14%nat.
  cbn [s sigma lookup_total list_lookup_total].
  by rewrite (columns_commute mix64) by (by rewrite !length_mix_at).
Qed.

Lemma gpu_initial_v : gpu_initial = initial_v 80.
Proof. vm_compute. reflexivity. Qed.

Lemma gpu_rounds m rs v : words_ok v → length v = 16%nat → 0%nat ∉ rs → ∀ pre,
  fold_left (λ v r, gpu_round ror (sigma !!! (r `mod` 10)%nat) m (pre && (r =? 0)%nat) v) rs v =
  fold_left (scalar_round m) rs v.
Proof.
  revert v. induction rs as [|r rs IH]; intros v Hv Hl Hr pre; [done|]. rewrite !fold_left_cons.
  rewrite (proj2 (Nat.eqb_neq r 0)), andb_false_r by set_solver.
  rewrite gpu_round_full, scalar_round_mix by done.
  apply IH; [by apply mix_round_words_ok|by rewrite length_mix_round|set_solver].
Qed.

(** The message words of a kernel call. *)
Lemma kernel_words h nonce : length h = 80%nat →
  <[4%nat := nonce]> ((λ i : nat, if (i <? 10)%nat then load_words 10 h !!! i else 0) <$> seq 0 16) =
  <[4%nat := nonce]> (header_words h).
Proof. intros _. reflexivity. Qed.

Lemma precompute_nonce m nonce : length m = 16%nat →
  precompute (<[4%nat := nonce]> m) = precompute m.
Proof.
  intros Hm. unfold precompute. cbn zeta.
  by rewrite !list_lookup_total_insert_ne by lia.
Qed.

(** [hash80] of either kernel, with or without precomputation, gives the words
    of the scalar digest. *)
Lemma hash80_words pre h nonce i : length h = 80%nat → (i < 4)%nat →
  hash80 ror pre (load_words 10 h) (precompute (load_words 10 h)) nonce !!! i = nonce_word h nonce i.
Proof.
  intros Hl Hi. unfold hash80. cbn zeta. rewrite kernel_words by done.
  set (m := <[4%nat := nonce]> (header_words h)).
  assert (length m = 16%nat) as Hm by (unfold m; rewrite length_insert; done).
  assert (precompute (load_words 10 h) = precompute m) as ->.
  { unfold m. rewrite precompute_nonce by done. unfold precompute, header_words. cbn zeta.
    by rewrite !lookup_total_app_l by (unfold load_words; rewrite length_fmap, length_seq; lia). }
  assert (words_ok gpu_initial) as Hok by (unfold words_ok; by_compute).
  assert (fold_left (λ v r, gpu_round ror (sigma !!! (r `mod` 10)%nat) m (pre && (r =? 0)%nat) v)
    (seq 0 12) (if pre then precompute m else gpu_initial) =
    fold_left (scalar_round m) (seq 0 12) gpu_initial) as ->.
  { change (seq 0 12) with (0%nat :: seq 1 11). rewrite !fold_left_cons.
    rewrite (scalar_round_mix m gpu_initial) by done. change (0 `mod` 10)%nat with 0%nat.
    assert (gpu_round ror (sigma !!! 0%nat) m (pre && (0 =? 0)%nat)
      (if pre then precompute m else gpu_initial) = mix_round mix64 (sigma !!! 0%nat) m gpu_initial) as ->.
    { destruct pre; cbn [andb Nat.eqb]; [by apply gpu_round_skip|by apply gpu_round_full]. }
    apply gpu_rounds; [by apply mix_round_words_ok|by rewrite length_mix_round|].
    intros Hin%elem_of_seq. lia. }
  unfold nonce_word, hash_word. fold m. rewrite <- gpu_initial_v. cbn zeta.
  set (v := fold_left (scalar_round m) _ _). clearbody v m.
  assert (∀ f : nat → Z, (f <$> seq 0 4) !!! i = f i) as ->.
  { intros f. destruct i as [|[|[|[|]]]]; [reflexivity..|lia]. }
  destruct i as [|[|[|[|]]]]; [..|lia]; cbn [Nat.eqb]; rewrite ?Z.lxor_0_r; [|reflexivity..].
  change (initial_h !!! 0%nat) with (Z.lxor (iv !!! 0%nat) 0x01010020).
  rewrite !Z.lxor_assoc. apply (f_equal (Z.lxor (iv !!! 0%nat))).
  by rewrite <- Z.lxor_assoc, Z.lxor_comm.
Qed.
End kernel_correct.

(** ** Every interleaving reports every candidate *)

Definition unreported (d : device) : list Z := concat (todo <$> threads d).

Lemma unreported_update (ts : list thread) i t t' : ts !! i = Some t →
  ∃ rest, concat (todo <$> ts) ≡ₚ todo t ++ rest ∧
    concat (todo <$> <[i := t']> ts) ≡ₚ todo t' ++ rest.
Proof.
  intros Hi. exists (concat (todo <$> take i ts) ++ concat (todo <$> drop (S i) ts)).
  rewrite <- (take_drop_middle _ _ _ Hi) at 1. rewrite insert_take_drop by (by eapply lookup_lt_Some).
  rewrite !fmap_app, !concat_app, !fmap_cons. cbn [concat].
  split; rewrite !app_assoc; f_equiv; apply Permutation_app_comm.
Qed.

(** The counter hands out the positions of a log of candidates; every logged
    candidate below the capacity is stored or about to be. *)
Definition device_inv (work : list Z) (d : device) : Prop :=
  ∃ log : list Z, hits d = Z.of_nat (length log) ∧ log ++ unreported d ≡ₚ work ∧
    (∀ i t slot n, threads d !! i = Some t → holding t = Some (slot, n) →
      ∃ k, slot = Z.of_nat k ∧ log !! k = Some n) ∧
    (∀ k n, log !! k = Some n → Z.of_nat k < capacity →
      slots d !! Z.of_nat k = Some n ∨
      ∃ i t, threads d !! i = Some t ∧ holding t = Some (Z.of_nat k, n)).

Lemma device_inv_launched work : device_inv (concat work) (launched work).
Proof.
  exists []. split_and!; cbn; [done| | |done].
  - unfold unreported. cbn. rewrite <- list_fmap_compose. by rewrite list_fmap_id.
  - intros i t slot n Hi. apply list_lookup_fmap_Some in Hi as (ns & -> & _). done.
Qed.

Lemma device_inv_step work d d' : Z.of_nat (length work) < 2 ^ 32 →
  device_step d d' → device_inv work d → device_inv work d'.
Proof.
  intros Hw Hs (log & Hh & Hperm & Hhold & Hst).
  destruct Hs as [d i n ns Hi|d i ns slot n Hi].
  - (* a slot is taken *)
    destruct (unreported_update (threads d) i _ {| todo := ns; holding := Some (hits d, n) |} Hi)
      as (rest & H1 & H2). cbn [todo] in H1, H2.
    assert (log ++ n :: ns ++ rest ≡ₚ work) as Hp.
    { rewrite <- Hperm. unfold unreported. by rewrite H1. }
    exists (log ++ [n]). split_and!; cbn [hits slots threads].
    + pose proof (Permutation_length Hp) as Hl. rewrite !length_app in Hl. cbn in Hl.
      rewrite length_app, Hh. cbn [length]. rewrite u32_small; unfold is_u32; lia.
    + unfold unreported. cbn [threads]. rewrite H2, <- app_assoc. exact Hp.
    + intros i' t slot m Hi'. destruct (decide (i = i')) as [<-|].
      * rewrite list_lookup_insert_eq in Hi' by (by eapply lookup_lt_Some). injection Hi' as <-.
        cbn. intros [= <- <-]. exists (length log). split; [done|]. by rewrite lookup_app_r, Nat.sub_diag.
      * rewrite list_lookup_insert_ne in Hi' by done. intros Hh'.
        destruct (Hhold i' t slot m Hi' Hh') as (k & -> & Hk). exists k. split; [done|].
        by apply lookup_app_l_Some.
    + intros k m Hk Hcap. apply lookup_app_Some in Hk as [Hk|[Hge Hk]].
      * destruct (Hst k m Hk Hcap) as [|(i' & t & Hi' & Ht)]; [by left|]. right.
        destruct (decide (i = i')) as [<-|]; [rewrite Hi in Hi'; by simplify_eq|].
        exists i', t. by rewrite list_lookup_insert_ne.
      * right. apply list_lookup_singleton_Some in Hk as [Hk <-].
        eexists i, _. rewrite list_lookup_insert_eq by (by eapply lookup_lt_Some). split; [done|].
        cbn. do 2 f_equal. lia.
  - (* a candidate is written *)
    destruct (unreported_update (threads d) i _ {| todo := ns; holding := None |} Hi) as (rest & H1 & H2).
    destruct (Hhold i _ slot n Hi eq_refl) as (k0 & -> & Hk0).
    exists log. split_and!; cbn [hits slots threads].
    + done.
    + rewrite <- Hperm. unfold unreported. cbn [threads]. by rewrite H1, H2.
    + intros i' t slot m Hi'. destruct (decide (i = i')) as [<-|].
      * rewrite list_lookup_insert_eq in Hi' by (by eapply lookup_lt_Some). by injection Hi' as <-.
      * rewrite list_lookup_insert_ne in Hi' by done. by apply (Hhold i').
    + intros k m Hk Hcap. destruct (decide (k = k0)) as [->|Hne].
      * left. rewrite (proj2 (Z.ltb_lt _ _) Hcap), lookup_insert_eq. congruence.
      * destruct (Hst k m Hk Hcap) as [Hsl|(i' & t & Hi' & Ht)].
        { left. destruct (_ <? _); [|done]. by rewrite lookup_insert_ne by lia. }
        right. destruct (decide (i = i')) as [<-|].
        { rewrite Hi in Hi'. injection Hi' as <-. injection Ht as ?. lia. }
        exists i', t. by rewrite list_lookup_insert_ne.
Qed.

Lemma device_inv_reachable work d : Z.of_nat (length (concat work)) < 2 ^ 32 →
  rtc device_step (launched work) d → device_inv (concat work) d.
Proof.
  intros Hw Hr. pose proof (device_inv_launched work) as Hi. revert Hi.
  induction Hr as [|d1 d2 d3 Hs _ IH]; [done|]. intros Hi. apply IH. by eapply device_inv_step.
Qed.

Lemma finished_report work d : Z.of_nat (length (concat work)) < 2 ^ 32 →
  rtc device_step (launched work) d → finished d →
  hits d = Z.of_nat (length (concat work)) ∧ (hits d ≤ capacity → read_back d ≡ₚ concat work).
Proof.
  intros Hw Hr Hf. destruct (device_inv_reachable work d Hw Hr) as (log & Hh & Hperm & _ & Hst).
  assert (unreported d = []) as Hu.
  { unfold unreported. clear -Hf. unfold finished in Hf. induction Hf as [|t ts -> _ IH]; [done|]. exact IH. }
  rewrite Hu, app_nil_r in Hperm. split; [by rewrite Hh, Hperm|]. intros Hcap.
  assert (read_back d = log) as ->; [|done]. unfold read_back. apply list_eq. intros k.
  rewrite list_lookup_fmap. destruct (decide (k < length log)%nat) as [Hk|Hk].
  - rewrite lookup_seqZ_lt by lia. cbn [fmap option_fmap option_map].
    destruct (lookup_lt_is_Some_2 log k Hk) as [n Hn]. rewrite Hn, Z.add_0_l.
    destruct (Hst k n Hn ltac:(lia)) as [->|(i & t & Hi & Ht)]; [done|].
    unfold finished in Hf. rewrite Forall_lookup in Hf. specialize (Hf i t Hi). by subst t.
  - rewrite lookup_seqZ_ge by lia. symmetry. apply lookup_ge_None_2. lia.
Qed.

(** Work left on the device; every step decreases it. *)
Definition device_work (d : device) : nat :=
  sum_list ((λ t, 2 * length (todo t) + (if holding t is Some _ then 1 else 0))%nat <$> threads d).

Lemma device_step_decreases d d' : device_step d d' → (device_work d' < device_work d)%nat.
Proof.
  assert (∀ (ts : list thread) i t t' (f : thread → nat), ts !! i = Some t → (f t' < f t)%nat →
    (sum_list (f <$> <[i := t']> ts) < sum_list (f <$> ts))%nat) as Hupd.
  { induction ts as [|t0 ts IH]; intros [|i] t t' f Hi Hlt; try done; cbn in *.
    - injection Hi as ->. lia.
    - by apply Nat.add_lt_mono_l, (IH i t t'). }
  intros Hs. destruct Hs; unfold device_work; cbn [threads]; eapply Hupd; try done; cbn; lia.
Qed.

Lemma device_progress d : finished d ∨ ∃ d', device_step d d'.
Proof.
  destruct (decide (Forall (λ t, todo t = [] ∧ holding t = None) (threads d))) as [Hf|Hf].
  - left. eapply Forall_impl; [exact Hf|]. intros [td hd] [? ?]. cbn in *. by subst.
  - right. apply not_Forall_Exists in Hf; [|apply _]. apply Exists_exists in Hf as (t & Hi & Ht). apply list_elem_of_lookup in Hi as [i Hi].
    destruct t as [[|n ns] [[slot m]|]]; [| |eexists; by eapply step_write|eexists; by eapply step_take].
    + eexists. by eapply step_write.
    + by exfalso; apply Ht.
Qed.

(** ** Funnel shifts

    The vendor instructions select 32 bits of a 64-bit pair; both rotations are
    built from them. *)
Definition funnel (hi lo n : Z) : Z := u32 (Z.shiftr (Z.lor (Z.shiftl hi 32) lo) n).

Lemma rotr_testbit x r i : is_u64 x → 0 < r < 64 → 0 ≤ i < 64 →
  Z.testbit (rotr x r) i = Z.testbit x ((i + r) mod 64).
Proof.
  intros Hx Hr Hi. unfold rotr, u64. rewrite Z.lor_spec, Z.shiftr_spec, Z.mod_pow2_bits_low by lia.
  rewrite Z.shiftl_spec by lia. destruct (decide (i + r < 64)).
  - rewrite (Z.mod_small (i + r)) by lia. rewrite (Z.testbit_neg_r x (_ - _)) by lia. apply orb_false_r.
  - rewrite (testbit_high x 64) by (done || lia). rewrite orb_false_l. f_equal.
    apply (Z.mod_unique _ _ 1); lia.
Qed.

Lemma rotr_testbit_high x r i : is_u64 x → 0 < r < 64 → 64 ≤ i → Z.testbit (rotr x r) i = false.
Proof. intros Hx Hr Hi. apply (testbit_high _ 64); [by apply rotr_u64|done]. Qed.

Lemma halves_rotr32 x : is_u64 x → Z.lor (Z.shiftl (u32 x) 32) (Z.shiftr x 32) = rotr x 32.
Proof.
  intros Hx. unfold rotr. rewrite Z.lor_comm. f_equal. unfold u64, u32.
  rewrite !Z.shiftl_mul_pow2 by lia. change (2 ^ 64) with (2 ^ 32 * 2 ^ 32).
  by rewrite Z.mul_mod_distr_r.
Qed.

Lemma halves_id x : is_u64 x → Z.lor (Z.shiftl (Z.shiftr x 32) 32) (u32 x) = x.
Proof.
  intros Hx. unfold u32. rewrite Z.shiftl_mul_pow2, Z.shiftr_div_pow2 by lia.
  rewrite lor_mul_pow2 by lia. lia.
Qed.

Lemma funnel_testbit hi lo n i : 0 ≤ n → 0 ≤ i →
  Z.testbit (funnel hi lo n) i = (i <? 32) && Z.testbit (Z.lor (Z.shiftl hi 32) lo) (i + n).
Proof.
  intros Hn Hi. unfold funnel, u32. destruct (Z.ltb_spec i 32).
  - by rewrite Z.mod_pow2_bits_low, Z.shiftr_spec by lia.
  - by rewrite Z.mod_pow2_bits_high by lia.
Qed.

(** Two funnel shifts by less than a half rotate the pair. *)
Lemma funnel_rotr x n : is_u64 x → 0 < n < 32 →
  Z.lor (Z.shiftl (funnel (u32 x) (Z.shiftr x 32) n) 32) (funnel (Z.shiftr x 32) (u32 x) n) = rotr x n.
Proof.
  intros Hx Hn. apply Z.bits_inj'. intros i Hi. rewrite Z.lor_spec, Z.shiftl_spec by lia.
  rewrite (funnel_testbit (Z.shiftr x 32)), halves_id by (done || lia).
  destruct (decide (i < 64)).
  2:{ rewrite rotr_testbit_high by (done || lia).
      rewrite funnel_testbit by lia. by rewrite !(proj2 (Z.ltb_ge _ _)) by lia. }
  rewrite rotr_testbit by (done || lia). destruct (decide (i < 32)).
  - rewrite (Z.testbit_neg_r _ (i - 32)), orb_false_l, (proj2 (Z.ltb_lt _ _)) by lia.
    by rewrite Z.mod_small by lia.
  - rewrite funnel_testbit, halves_rotr32 by (done || lia).
    rewrite (proj2 (Z.ltb_ge i 32)), orb_false_r, (proj2 (Z.ltb_lt (i - 32) 32)) by lia.
    rewrite rotr_testbit by (done || lia). cbn [andb]. do 2 f_equal. lia.
Qed.

Lemma rotr_rotr x a b : is_u64 x → 0 < a < 64 → 0 < b < 64 → a + b < 64 →
  rotr (rotr x a) b = rotr x (a + b).
Proof.
  intros Hx Ha Hb Hab. pose proof (rotr_u64 x a Hx Ha) as Hxa. apply Z.bits_inj'. intros i Hi.
  destruct (decide (i < 64)).
  - rewrite !rotr_testbit by (done || lia || apply Z.mod_pos_bound; lia).
    f_equal. rewrite Zplus_mod_idemp_l. f_equal. lia.
  - by rewrite !rotr_testbit_high by (done || lia).
Qed.

(** The same with the halves exchanged rotates by 32 more. *)
Lemma funnel_rotr_swapped x n : is_u64 x → 0 < n < 32 →
  Z.lor (Z.shiftl (funnel (Z.shiftr x 32) (u32 x) n) 32) (funnel (u32 x) (Z.shiftr x 32) n) =
  rotr x (32 + n).
Proof.
  intros Hx Hn. pose proof (rotr_u64 x 32 Hx ltac:(lia)) as H32.
  rewrite <- rotr_rotr, <- (funnel_rotr (rotr x 32)) by (done || lia).
  assert (u32 (rotr x 32) = Z.shiftr x 32 ∧ Z.shiftr (rotr x 32) 32 = u32 x) as [-> ->]; [|done].
  unfold is_u64 in Hx. rewrite rotr_eq by (done || lia). unfold u32.
  rewrite !Z.shiftr_div_pow2 by lia. change (64 - 32) with 32.
  rewrite Z.mod_add, Z.div_add by lia. split; [apply Z.mod_small; lia|].
  rewrite (Z.div_small (x / _)) by lia. lia.
Qed.

(** Every launch runs to the end. *)
Lemma device_terminates d : ∃ d', rtc device_step d d' ∧ finished d'.
Proof.
  induction d as [d IH] using (induction_ltof1 _ device_work). destruct (device_progress d) as [Hf|[d1 Hs]].
  - by exists d.
  - destruct (IH d1 (device_step_decreases _ _ Hs)) as (d' & Hr & Hf). exists d'. split; [|done].
    by eapply rtc_l.
Qed.

(** ** Thread indices cover the batch *)

Section grid.
Context {A : Type}.

(** All threads of a launch of [grid] blocks of [block] threads. *)
Definition grid_threads (grid block : Z) (thread : Z → Z → A) : list A :=
  concat ((λ bid, thread bid <$> seqZ 0 block) <$> seqZ 0 grid).
End grid.

Lemma concat_cons_split {A B} (f : B → A) (g : B → list A) (l : list B) :
  concat ((λ b, f b :: g b) <$> l) ≡ₚ (f <$> l) ++ concat (g <$> l).
Proof.
  induction l as [|b l IH]; [done|]. cbn. constructor. rewrite IH.
  rewrite !app_assoc. f_equiv. apply Permutation_app_comm.
Qed.

Lemma concat_fmap_swap {A B C} (f : A → B → C) (la : list A) (lb : list B) :
  concat ((λ a, f a <$> lb) <$> la) ≡ₚ concat ((λ b, flip f b <$> la) <$> lb).
Proof.
  induction la as [|a la IH].
  - induction lb; [done|]. done.
  - cbn [fmap list_fmap concat]. rewrite IH. symmetry. apply (concat_cons_split (f a)).
Qed.

Lemma seqZ_chunks n r b : 0 ≤ n → 0 ≤ r →
  concat ((λ k, (λ t, b + t + k * n) <$> seqZ 0 n) <$> seqZ 0 r) = seqZ b (n * r).
Proof.
  intros Hn Hr. pattern r. apply natlike_ind; [|clear r Hr; intros r Hr IH|done].
  { by rewrite Z.mul_0_r. }
  replace (Z.succ r) with (r + 1) by lia. rewrite seqZ_app by lia. rewrite fmap_app, concat_app, IH.
  replace (n * (r + 1)) with (n * r + n) by lia. rewrite seqZ_app by lia. f_equal.
  rewrite (seqZ_cons (0 + r) 1), (seqZ_nil _ (Z.pred 1)) by lia. cbn [fmap list_fmap concat]. rewrite app_nil_r.
  replace (b + n * r) with ((b + n * r) + 0) by lia. rewrite <- fmap_add_seqZ.
  apply list_fmap_ext. intros i t _. lia.
Qed.

(** The indices a grid of [grid] blocks of [n] threads of [r] steps visits. *)
Lemma grid_indices n r grid : 0 ≤ n → 0 ≤ r → 0 ≤ grid →
  concat (grid_threads grid n (λ bid tid, (λ k, bid * (n * r) + tid + k * n) <$> seqZ 0 r)) ≡ₚ
  seqZ 0 (n * r * grid).
Proof.
  intros Hn Hr Hg. rewrite <- (seqZ_chunks (n * r) grid 0) by lia. unfold grid_threads.
  induction (seqZ 0 grid) as [|bid l IH]; [done|]. cbn [fmap list_fmap concat].
  rewrite concat_app, IH. f_equiv. etrans; [apply concat_fmap_swap|]. apply reflexive_eq.
  etrans; [apply (seqZ_chunks n r (bid * (n * r))); lia|].
  replace (bid * (n * r)) with (bid * (n * r) + 0) at 1 by lia. rewrite <- fmap_add_seqZ.
  apply list_fmap_ext. intros. lia.
Qed.

Lemma concat_grid_omap {B} (f : Z → option B) (idx : Z → Z → list Z) grid n :
  concat (grid_threads grid n (λ bid tid, omap f (idx bid tid))) =
  omap f (concat (grid_threads grid n idx)).
Proof.
  unfold grid_threads. induction (seqZ 0 grid) as [|bid l IH]; [done|]. cbn [fmap list_fmap concat].
  rewrite !concat_app, omap_app, IH. f_equal. clear.
  induction (seqZ 0 n) as [|t l IH]; [done|]. cbn [fmap list_fmap concat]. by rewrite omap_app, IH.
Qed.

(** A per-index test that ignores the indices past the batch. *)
Lemma omap_batch {B} (f : Z → option B) count n : 0 ≤ count ≤ n →
  omap (λ i, if count <=? i then None else f i) (seqZ 0 n) = omap f (seqZ 0 count).
Proof.
  intros Hc. replace n with (count + (n - count)) by lia. rewrite seqZ_app by lia. rewrite omap_app.
  assert (∀ l, Forall (λ i, 0 ≤ i < count) l →
    omap (λ i, if count <=? i then None else f i) l = omap f l) as ->.
  { induction 1 as [|i l Hi _ IH]; [done|]. cbn. rewrite (proj2 (Z.leb_gt _ _)) by lia. by rewrite IH. }
  2:{ apply Forall_forall. intros i Hi%elem_of_seqZ. lia. }
  assert (∀ l, Forall (λ i, count ≤ i) l →
    omap (λ i, if count <=? i then None else f i) l = []) as ->; [|apply app_nil_r|].
  { induction 1 as [|i l Hi _ IH]; [done|]. cbn. by rewrite (proj2 (Z.leb_le _ _)). }
  apply Forall_forall. intros i Hi%elem_of_seqZ. lia.
Qed.

(** ** Candidates and solutions *)

(** [top = (top << 8) | digest[j]] for the first eight bytes. *)
Definition top_word (d : Bytes) : Z :=
  fold_left (λ top j, Z.lor (u64 (Z.shiftl top 8)) (b2z (d !!! j))) (seq 0 8) 0.

Lemma top_word_eq d : (8 ≤ length d)%nat → top_word d = top64 d.
Proof.
  intros Hd. unfold top64. rewrite <- be_fold_value by (rewrite length_take; lia).
  unfold top_word. rewrite (fold_left_fmap (λ j, d !!! j) (λ top b, Z.lor (u64 (Z.shiftl top 8)) (b2z b))).
  f_equal. destruct d as [|b0 [|b1 [|b2 [|b3 [|b4 [|b5 [|b6 [|b7 d]]]]]]]]; try (cbn in Hd; lia).
  reflexivity.
Qed.

(** A nonce whose digest passes the 64-bit comparison of the kernels. *)
Definition is_candidate (w : Work) (n : Z) : Prop :=
  top64 (nonce_hash (header w) n) ≤ top64 (target w).
#[export] Instance is_candidate_dec w n : Decision (is_candidate w n) := ltac:(unfold is_candidate; apply _).
Definition candidates (w : Work) (start count : Z) : list Z := filter (is_candidate w) (seqZ start count).

Lemma candidates_solutions w start count :
  length (header w) = 80%nat → length (target w) = 32%nat →
  filter (λ n, meets (nonce_hash (header w) n) (target w) = true) (candidates w start count) =
  solutions w start count.
Proof.
  intros Hh Ht. unfold candidates, solutions. rewrite list_filter_filter. apply list_filter_iff.
  intros n. split; [intros [Hm _]; exact Hm|]. intros Hm. split; [exact Hm|].
  exact (meets_top64 _ _ (proj2 (nonce_hash_ok _ n Hh)) Ht Hm).
Qed.

(** A kernel's test of one nonce, over all the nonces of a batch. *)
Lemma omap_candidates w start count :
  omap (λ i, if decide (is_candidate w (start + i)) then Some (start + i) else None) (seqZ 0 count) =
  candidates w start count.
Proof.
  unfold candidates.
  trans (filter (is_candidate w) (Z.add start <$> seqZ 0 count)); [|by rewrite fmap_add_seqZ, Z.add_0_r].
  induction (seqZ 0 count) as [|i l IH]; [done|].
  rewrite fmap_cons, filter_cons. cbn [omap list_omap]. by case_decide; rewrite <- IH.
Qed.

(** ** The diagnostic kernels *)

(** Device memory after the stores [ws], in the order they happen. *)
Definition store_all (ws : list (Z * Z)) : gmap Z Z :=
  fold_left (λ mem w, <[w.1 := w.2]> mem) ws ∅.
(** Hash [i] of the buffer copied to the host: words 4i..4i+3, little endian. *)
Definition read_hash (mem : gmap Z Z) (i : Z) : Bytes :=
  flat_map (λ j, le_bytes 8 (default 0 (mem !! (4 * i + j)))) (seqZ 0 4).

Lemma store_all_lookup ws a v : NoDup ws.*1 → (a, v) ∈ ws → store_all ws !! a = Some v.
Proof.
  unfold store_all. generalize (∅ : gmap Z Z). induction ws as [|[b x] ws IH]; intros mem Hnd Hin.
  { set_solver. }
  rewrite fmap_cons in Hnd. apply NoDup_cons in Hnd as [Hb Hnd]. rewrite fold_left_cons. cbn [fst snd].
  apply elem_of_cons in Hin as [[= -> ->]|Hin]; [|by apply IH].
  clear IH Hnd. cbn [fst] in Hb.
  assert (∀ mem' : gmap Z Z, mem' !! b = Some x →
    fold_left (λ mem w, <[w.1 := w.2]> mem) ws mem' !! b = Some x) as Hk.
  { induction ws as [|[c y] ws IHw]; intros mem' Hm; [done|]. rewrite fold_left_cons. cbn [fst snd].
    apply IHw; [set_solver|]. rewrite lookup_insert_ne by set_solver. done. }
  apply Hk. by rewrite lookup_insert_eq.
Qed.

(** The stores of a kernel that writes four words per index, in any order. *)
Definition dump_stores (word : Z → Z → Z) (l : list Z) : list (Z * Z) :=
  concat ((λ i, (λ j, (4 * i + j, word i j)) <$> seqZ 0 4) <$> l).

Lemma elem_of_dump word l a v :
  (a, v) ∈ dump_stores word l ↔ ∃ i j, i ∈ l ∧ 0 ≤ j < 4 ∧ a = 4 * i + j ∧ v = word i j.
Proof.
  unfold dump_stores. rewrite list_elem_of_In, in_concat. setoid_rewrite <- list_elem_of_In.
  setoid_rewrite list_elem_of_fmap. split.
  - intros (? & (i & -> & Hi) & (j & [= -> ->] & Hj%elem_of_seqZ)%list_elem_of_fmap). exists i, j. split_and!; (done || lia).
  - intros (i & j & Hi & Hj & -> & ->). eexists. split; [by exists i|]. apply list_elem_of_fmap.
    exists j. split; [done|]. apply elem_of_seqZ. lia.
Qed.

Lemma dump_nodup word l : NoDup l → NoDup (dump_stores word l).*1.
Proof.
  induction 1 as [|i l Hi Hl IH]; [constructor|]. unfold dump_stores in *. cbn [fmap list_fmap concat].
  rewrite fmap_app. apply NoDup_app. split_and!; [| |exact IH].
  - rewrite <- list_fmap_compose. apply NoDup_fmap_2; [intros x y Hxy; cbn in Hxy; lia|apply NoDup_seqZ].
  - intros a Ha Hb. rewrite <- list_fmap_compose in Ha.
    apply list_elem_of_fmap in Ha as (j & -> & Hj%elem_of_seqZ). cbn in Hb.
    apply list_elem_of_fmap in Hb as ([a v] & Ha & Hb%elem_of_dump).
    destruct Hb as (i' & j' & Hi' & Hj' & -> & _). cbn in Ha.
    assert (i = i') as <- by lia. done.
Qed.

Lemma dump_hash ws word l i : ws ≡ₚ dump_stores word l → NoDup l → i ∈ l →
  read_hash (store_all ws) i = flat_map (λ j, le_bytes 8 (word i j)) (seqZ 0 4).
Proof.
  intros Hp Hl Hi. unfold read_hash. rewrite !flat_map_concat_map. f_equal. apply map_ext_in.
  intros j Hj%list_elem_of_In%elem_of_seqZ.
  rewrite (store_all_lookup ws _ (word i j)); [done| |].
  - rewrite Hp. by apply dump_nodup.
  - rewrite Hp. apply elem_of_dump. exists i, j. split_and!; (done || lia).
Qed.

(** ** Shared by the two back ends *)

Lemma u32_high x : is_u64 x → u32 (Z.shiftr x 32) = Z.shiftr x 32.
Proof.
  intros Hx. apply u32_small. rewrite Z.shiftr_div_pow2 by lia. unfold is_u64, is_u32 in *. lia.
Qed.

Lemma u64_low x : is_u32 x → u64 (Z.shiftl x 32) = Z.shiftl x 32.
Proof.
  intros Hx. apply u64_small. rewrite Z.shiftl_mul_pow2 by lia. unfold is_u64, is_u32 in *. lia.
Qed.

Lemma funnel_range hi lo n : is_u32 (funnel hi lo n).
Proof. apply u32_range. Qed.

Lemma omap_ext_in {A B} (f g : A → option B) (l : list A) : (∀ x, x ∈ l → f x = g x) → omap f l = omap g l.
Proof.
  induction l as [|x l IH]; intros H; [done|]. cbn. rewrite H by set_solver.
  rewrite IH by set_solver. done.
Qed.

Lemma omap_fmap {A B C} (f : B → option C) (g : A → B) (l : list A) : omap f (g <$> l) = omap (f ∘ g) l.
Proof. induction l as [|x l IH]; [done|]. cbn. by rewrite IH. Qed.

Lemma grid_threads_ext {A} (f g : Z → Z → A) grid block :
  (∀ bid tid, 0 ≤ bid < grid → 0 ≤ tid < block → f bid tid = g bid tid) →
  grid_threads grid block f = grid_threads grid block g.
Proof.
  intros H. unfold grid_threads. f_equal. apply list_fmap_ext. intros ? bid Hb.
  apply list_fmap_ext. intros ? tid Ht. apply lookup_seqZ in Hb, Ht. apply H; lia.
Qed.

Lemma concat_grid_concat {B} (f : Z → Z → list (list B)) grid block :
  concat (grid_threads grid block (λ bid tid, concat (f bid tid))) =
  concat (concat (grid_threads grid block f)).
Proof.
  unfold grid_threads. induction (seqZ 0 grid) as [|bid l IH]; [done|]. cbn [fmap list_fmap concat].
  rewrite !concat_app, IH. f_equal. clear.
  induction (seqZ 0 block) as [|t l IH]; [done|]. cbn [fmap list_fmap concat]. by rewrite concat_app, IH.
Qed.

Lemma omap_Some {A B} (f : A → B) (l : list A) : omap (λ x, Some (f x)) l = f <$> l.
Proof. induction l as [|x l IH]; [done|]. cbn. by rewrite IH. Qed.

#[export] Instance concat_perm {A} : Proper ((≡ₚ) ==> (≡ₚ)) (@concat A).
Proof.
  induction 1 as [|x l l' _ IH|x y l|l1 l2 l3 _ IH1 _ IH2]; cbn; [done|by f_equiv| |by etrans].
  rewrite !app_assoc. f_equiv. apply Permutation_app_comm.
Qed.
