(* ===== verification/Cuda.v ===== *)
(** * The CUDA back end

    src/src/cuda/blake2b.cu: the kernel, its launch, the host side of a scan and
    the diagnostic hashes.  The CUDA driver is a parameter; the device runs as
    the transition system of Gpu. *)
From S2P Require Import Prelude Words Hex Blake Targets Work Cpu Gpu.

(** ** Device code *)

(** PTX [shf.r.wrap.b32 d, a, b, c]. *)
Definition shf_r_wrap (a b c : Z) : Z := funnel b a (Z.land c 31).

(** [rotate<R, Mode>]. *)
Definition rotate (mode x R : Z) : Z :=
  if Z.land mode 1 =? 0 then Z.lor (Z.shiftr x R) (u64 (Z.shiftl x (64 - R)))
  else
    let lo := u32 x in
    let hi := u32 (Z.shiftr x 32) in
    if R =? 32 then Z.lor (u64 (Z.shiftl lo 32)) hi
    else
      let '(a, b) := if R <? 32 then (shf_r_wrap lo hi R, shf_r_wrap hi lo R)
                     else (shf_r_wrap hi lo (R - 32), shf_r_wrap lo hi (R - 32)) in
      Z.lor (u64 (Z.shiftl b 32)) a.

(** [__byte_perm(x, y, s)]: byte k of the result is selected by nibble k of
    [s] among the eight bytes of [y:x]. *)
Definition byte_perm (x y s : Z) : Z :=
  le_value ((λ k, (le_bytes 4 x ++ le_bytes 4 y) !!! Z.to_nat (Z.land (Z.shiftr s (4 * k)) 7))
              <$> [0; 1; 2; 3]).
Definition swap (x : Z) : Z :=
  let lo := byte_perm (u32 x) 0 0x0123 in
  let hi := byte_perm (u32 (Z.shiftr x 32)) 0 0x0123 in
  Z.lor (u64 (Z.shiftl lo 32)) hi.

Record Params := { p_m : list Z; p_target : Z; p_initial : list Z }.
Definition params (w : Work) : Params :=
  {| p_m := load_words 10 (header w); p_target := top_word (target w);
     p_initial := precompute (load_words 10 (header w)) |}.

(** [hash80<Mode>]; rows 10 and 11 of the kernel's [s] are rows 0 and 1. *)
Definition cuda_hash80 (mode : Z) (p : Params) (nonce : Z) : list Z :=
  hash80 (rotate mode) (2 <=? mode) (p_m p) (p_initial p) nonce.

(** The nonce of index [i]; modes 4 and up keep the high word when the batch
    stays inside it. *)
Definition kernel_nonce (mode start count i : Z) : Z :=
  if (4 <=? mode) && (u32 start <=? 2 ^ 32 - 1 - u32 (count - 1))
  then Z.lor (Z.land start 0xffffffff00000000) (u32 (u32 start + u32 i))
  else u64 (start + i).

(** The loop over the [roll] indices of one thread, for one index [body]. *)
Definition kernel_loop {A} (roll count bdim bid tid : Z) (body : Z → option A) : list A :=
  let base := u64 (u64 (u64 (bid * bdim) * roll) + tid) in
  omap (λ k, let i := u64 (base + u64 (k * bdim)) in if count <=? i then None else body i)
    (seqZ 0 roll).

(** [kernel<Mode, false, Roll>]: the nonces a thread reports. *)
Definition scan_thread (mode roll : Z) (p : Params) (start count bdim bid tid : Z) : list Z :=
  kernel_loop roll count bdim bid tid (λ i,
    let nonce := kernel_nonce mode start count i in
    if swap (cuda_hash80 mode p nonce !!! 0%nat) <=? p_target p then Some nonce else None).

(** [kernel<Mode, true, Roll>]: the stores a thread makes into [hashes]. *)
Definition dump_thread (mode roll : Z) (p : Params) (start count bdim bid tid : Z) : list (Z * Z) :=
  concat (kernel_loop roll count bdim bid tid (λ i,
    let h := cuda_hash80 mode p (kernel_nonce mode start count i) in
    Some ((λ j, (u64 (u64 (4 * i) + j), h !!! Z.to_nat j)) <$> seqZ 0 4))).

(** [launch]: the kernel instance of a variant and its grid, as (mode, roll). *)
Definition kernel_of (variant : Z) : result (Z * Z) :=
  match variant with
  | 0 => Ok (0, 1) | 1 => Ok (1, 1) | 2 => Ok (2, 1) | 3 => Ok (3, 1) | 4 => Ok (5, 1)
  | 5 => Ok (5, 2) | 6 => Ok (5, 4)
  | _ => Throw (runtime_error "invalid kernel variant")
  end.
Definition launch {A} (variant count block : Z) (thread : Z → Z → Z → Z → A) : result (list A) :=
  k ← kernel_of variant;
  let '(mode, roll) := k in
  let grid := u32 ((count + roll * block - 1) / (roll * block)) in
  Ok (grid_threads grid block (thread mode roll)).

(** ** Host code *)

(** The constructor's check. *)
Definition check_config (b v : Z) : result unit :=
  throw_if ((b <? 32) || (1024 <? b) || negb (b mod 32 =? 0) || (v <? 0) || (6 <? v))
    "invalid CUDA configuration".

(** The loop over the candidates read back. *)
Fixpoint validate (w : Work) (limit : Z) (h : Bytes) (ns found : list Z) : result (list Z) :=
  match ns with
  | [] => Ok found
  | n :: ns =>
      let h := store_le h 32 n in
      digest ← blake2b256 h;
      _ ← throw_if (limit <? top_word digest) "CUDA hash validation failed";
      validate w limit h ns (if meets digest (target w) then found ++ [n] else found)
  end.

Section host.
(** The outcome of each runtime call: [check] turns an error code into an
    exception. *)
Variable api : string → result unit.

(** Resources of the constructor, and what its handler frees. *)
Record handles := { has_stream : bool; has_hits : bool; has_host : bool }.
Definition set_stream b (s : handles) := {| has_stream := b; has_hits := has_hits s; has_host := has_host s |}.
Definition set_hits b (s : handles) := {| has_stream := has_stream s; has_hits := b; has_host := has_host s |}.
Definition set_host b (s : handles) := {| has_stream := has_stream s; has_hits := has_hits s; has_host := b |}.
Definition no_handles : handles := {| has_stream := false; has_hits := false; has_host := false |}.
Definition acquire (call : string) (f : handles → handles) : stM handles unit :=
  _ ← st_lift (api call); st_modify f.
Definition release : stM handles unit :=
  _ ← st_modify (λ s, if has_host s then set_host false s else s);
  _ ← st_modify (λ s, if has_hits s then set_hits false s else s);
  st_modify (λ s, if has_stream s then set_stream false s else s).
Definition new_cuda (b v : Z) : stM handles unit :=
  _ ← st_lift (check_config b v);
  _ ← st_lift (api "cudaSetDevice");
  _ ← st_lift (api "cudaGetDeviceProperties");
  st_catch (_ ← acquire "cudaStreamCreateWithFlags" (set_stream true);
            _ ← acquire "cudaMalloc" (set_hits true);
            acquire "cudaMallocHost" (set_host true)) release.

Definition scan_setup (variant block : Z) (w : Work) (start count : Z) : result device :=
  _ ← range_guard start count;
  _ ← api "cudaSetDevice";
  _ ← api "cudaMemsetAsync";
  work ← launch variant count block (λ mode roll, scan_thread mode roll (params w) start count block);
  _ ← api "cudaGetLastError";
  Ok (launched work).

Definition scan_collect (w : Work) (count : Z) (d : device) : result Scan :=
  _ ← api "cudaMemcpyAsync";
  _ ← api "cudaStreamSynchronize";
  _ ← throw_if (capacity <? hits d) "CUDA candidate buffer overflow; reduce batch size";
  ns ← validate w (p_target (params w)) (header w) (read_back d) [];
  Ok {| hashes := count; nonces := ns |}.

(** [Cuda::scan]: any result that some interleaving of the threads can give. *)
Definition cuda_scan (variant block : Z) (w : Work) (start count : Z) (r : result Scan) : Prop :=
  match scan_setup variant block w start count with
  | Throw e => r = Throw e
  | Ok d0 => ∃ d, rtc device_step d0 d ∧ finished d ∧ r = scan_collect w count d
  end.

(** [cuda_hashes]: any result that some order of the stores can give. *)
Definition cuda_hashes (header : Bytes) (start count variant : Z) (r : result (list Bytes)) : Prop :=
  match (_ ← throw_if ((count =? 0) || (65536 <? count) || (2 ^ 64 - 1 - (count - 1) <? start)
                       || (variant <? 0) || (6 <? variant)) "invalid hash test range";
         _ ← api "cudaSetDevice";
         _ ← api "cudaMalloc";
         let w := {| header := header; target := replicate 32 x00 |} in
         stores ← launch variant count 128
                    (λ mode roll, dump_thread mode roll (params w) start count 128);
         _ ← api "cudaGetLastError";
         _ ← api "cudaMemcpy";
         Ok stores) with
  | Throw e => r = Throw e
  | Ok stores => ∃ ws, ws ≡ₚ concat stores ∧ r = Ok (read_hash (store_all ws) <$> seqZ 0 count)
  end.
End host.

(** ** Correctness *)

(** Both implementations of [rotate] rotate right. *)
Lemma rotate_rotr mode x n : is_u64 x → n ∈ [32; 24; 16; 63] → rotate mode x n = rotr x n.
Proof.
  intros Hx Hn. unfold rotate. destruct (Z.land mode 1 =? 0); [done|]. cbn zeta.
  rewrite u32_high by done. unfold shf_r_wrap.
  repeat (apply elem_of_cons in Hn as [->|Hn]; [cbn [Z.eqb Z.ltb Z.compare Pos.eqb Pos.compare Pos.compare_cont]|]).
  - rewrite u64_low by apply u32_range. by apply halves_rotr32.
  - rewrite u64_low by apply funnel_range. by apply (funnel_rotr x 24).
  - rewrite u64_low by apply funnel_range. by apply (funnel_rotr x 16).
  - rewrite u64_low by apply funnel_range. by apply (funnel_rotr_swapped x 31).
  - by apply elem_of_nil in Hn.
Qed.

Lemma byte_perm_reverse x : byte_perm x 0 0x0123 = le_value (reverse (le_bytes 4 x)).
Proof. reflexivity. Qed.

Lemma swap_bswap64 x : is_u64 x → swap x = bswap64 x.
Proof.
  intros Hx. unfold swap, bswap64. cbn zeta. rewrite u32_high, !byte_perm_reverse by done.
  rewrite (le_bytes_app 4 4), reverse_app, le_value_app. rewrite length_reverse, le_bytes_length.
  assert (le_bytes 4 (u32 x) = le_bytes 4 x) as ->.
  { apply le_bytes_eq. unfold u32. by rewrite Z.mod_mod by lia. }
  rewrite Z.shiftr_div_pow2 by lia. change (256 ^ Z.of_nat 4) with (2 ^ 32).
  pose proof (le_value_bound (reverse (le_bytes 4 x))) as H1.
  pose proof (le_value_bound (reverse (le_bytes 4 (x / 2 ^ 32)))) as H2.
  rewrite length_reverse, le_bytes_length in H1, H2. change (256 ^ Z.of_nat 4) with (2 ^ 32) in H1, H2.
  rewrite u64_low by done. rewrite Z.shiftl_mul_pow2, lor_mul_pow2 by lia. lia.
Qed.

(** The nonce arithmetic of modes 4 and up is the plain sum. *)
Lemma kernel_nonce_sum mode start count i : is_u64 start → start + count ≤ 2 ^ 64 →
  0 ≤ i < count → is_u32 count → kernel_nonce mode start count i = start + i.
Proof.
  unfold is_u64, is_u32. intros Hs Hf Hi Hc. unfold kernel_nonce.
  destruct ((4 <=? mode) && _) eqn:E; [|apply u64_small; unfold is_u64; lia].
  apply andb_prop in E as [_ E%Z.leb_le]. rewrite (u32_small (count - 1)) in E by (unfold is_u32; lia).
  rewrite (u32_small i) by (unfold is_u32; lia).
  assert (Z.land start 0xffffffff00000000 = start / 2 ^ 32 * 2 ^ 32) as ->.
  { change 0xffffffff00000000 with (Z.shiftl (Z.ones 32) 32).
    apply Z.bits_inj'. intros k Hk. rewrite Z.land_spec, Z.shiftl_spec by lia.
    rewrite Z.testbit_ones by lia. destruct (decide (k < 32)).
    - rewrite Z.mul_pow2_bits_low by lia. rewrite (proj2 (Z.leb_gt 0 _)) by lia. apply andb_false_r.
    - rewrite Z.mul_pow2_bits by lia. rewrite Z.div_pow2_bits by lia. replace (k - 32 + 32) with k by lia.
      rewrite (proj2 (Z.leb_le 0 _)) by lia. destruct (Z.ltb_spec (k - 32) 32); [apply andb_true_r|].
      rewrite (testbit_high start 64) by lia. done. }
  unfold u32 in *. rewrite (Z.mod_small (start mod 2 ^ 32 + i)) by lia.
  rewrite lor_mul_pow2 by lia. lia.
Qed.

Lemma kernel_of_roll v mode roll : kernel_of v = Ok (mode, roll) → 1 ≤ roll ≤ 4.
Proof.
  unfold kernel_of. intros H. repeat case_match; try discriminate; injection H as <- <-; lia.
Qed.

Lemma kernel_of_valid v : 0 ≤ v ≤ 6 → ∃ mode roll, kernel_of v = Ok (mode, roll).
Proof.
  intros Hv. assert (v ∈ seqZ 0 7) as Hin by (apply elem_of_seqZ; lia). clear Hv.
  vm_compute in Hin. repeat (apply elem_of_cons in Hin as [->|Hin]; [by do 2 eexists|]).
  by apply elem_of_nil in Hin.
Qed.

(** Every index of the batch is visited exactly once. *)
Lemma launch_covers {B} (body : Z → Z → option B) v count block mode roll :
  kernel_of v = Ok (mode, roll) → is_u32 count → 32 ≤ block ≤ 1024 →
  ∃ ts, launch v count block (λ mode roll bid tid, kernel_loop roll count block bid tid (body mode)) = Ok ts ∧
    concat ts ≡ₚ omap (body mode) (seqZ 0 count).
Proof.
  unfold is_u32. intros Hk Hc Hb. pose proof (kernel_of_roll v mode roll Hk) as Hr. unfold launch. rewrite Hk, bind_Ok_eq.
  set (n := roll * block). assert (32 ≤ n ≤ 4096) as Hn by (unfold n; nia).
  set (grid := (count + n - 1) / n). assert (count ≤ grid * n ∧ 0 ≤ grid ≤ 2 ^ 27) as [Hg1 Hg2].
  { pose proof (Z.div_mod (count + n - 1) n ltac:(lia)) as Hd.
    pose proof (Z.mod_pos_bound (count + n - 1) n ltac:(lia)) as Hm. fold grid in Hd.
    assert (0 ≤ grid) by (apply Z.div_pos; lia). split; [nia|]. split; [done|].
    apply Z.lt_succ_r, Z.div_lt_upper_bound; [lia|]. nia. }
  rewrite (u32_small grid) by (unfold is_u32; lia). eexists. split; [reflexivity|].
  rewrite (grid_threads_ext _ (λ bid tid,
    omap (λ i, if count <=? i then None else body mode i)
      ((λ k, bid * (block * roll) + tid + k * block) <$> seqZ 0 roll))).
  2:{ intros bid tid Hbid Htid. unfold kernel_loop. cbn zeta. rewrite omap_fmap.
    apply omap_ext_in. intros k Hk'%elem_of_seqZ. cbn.
    assert (0 ≤ bid * block ≤ 2 ^ 37) by nia. assert (0 ≤ bid * block * roll ≤ 2 ^ 39) by nia.
    assert (0 ≤ k * block ≤ 4096) by nia.
    rewrite (u64_small (bid * block)) by (unfold is_u64; lia).
    rewrite (u64_small (bid * block * roll)) by (unfold is_u64; lia).
    rewrite (u64_small (bid * block * roll + tid)) by (unfold is_u64; lia).
    rewrite (u64_small (k * block)) by (unfold is_u64; lia).
    rewrite (u64_small (_ + k * block)) by (unfold is_u64; lia).
    by replace (bid * (block * roll)) with (bid * block * roll) by lia. }
  rewrite concat_grid_omap, grid_indices by lia.
  rewrite omap_batch by (unfold n in *; nia). done.
Qed.

Section scan_correct.
Context (w : Work) (start count : Z).
Hypothesis Hheader : length (header w) = 80%nat.
Hypothesis Htarget : length (target w) = 32%nat.
Hypothesis Hstart : is_u64 start.
Hypothesis Hcount : is_u32 count.
Hypothesis Hfit : start + count ≤ 2 ^ 64.

Lemma hash80_word mode i j : 0 ≤ i < count → (j < 4)%nat →
  cuda_hash80 mode (params w) (kernel_nonce mode start count i) !!! j =
  nonce_word (header w) (start + i) j.
Proof.
  intros Hi Hj. rewrite kernel_nonce_sum by done. unfold cuda_hash80, params. cbn [p_m p_initial].
  apply hash80_words; [intros; by apply rotate_rotr|done|done].
Qed.

Lemma scan_body mode i : 0 ≤ i < count →
  (if swap (cuda_hash80 mode (params w) (kernel_nonce mode start count i) !!! 0%nat) <=? p_target (params w)
   then Some (kernel_nonce mode start count i) else None) =
  (if decide (is_candidate w (start + i)) then Some (start + i) else None).
Proof.
  intros Hi. rewrite hash80_word by lia. rewrite swap_bswap64 by apply hash_word_range.
  assert (is_u64 (start + i)) as Hn by (unfold is_u64 in *; lia).
  rewrite <- top64_word0 by done. unfold params. cbn [p_target]. rewrite top_word_eq by lia.
  rewrite kernel_nonce_sum by done. unfold is_candidate.
  destruct (Z.leb_spec (top64 (nonce_hash (header w) (start + i))) (top64 (target w))) as [Hle|Hgt];
    case_decide as Hd; (reflexivity || lia).
Qed.

Lemma launch_scan v block : check_config block v = Ok tt →
  ∃ ts, launch v count block (λ mode roll, scan_thread mode roll (params w) start count block) = Ok ts ∧
    concat ts ≡ₚ candidates w start count.
Proof.
  intros Hcfg%throw_if_Ok. assert (32 ≤ block ≤ 1024 ∧ 0 ≤ v ≤ 6) as [Hb Hv] by bool_lia.
  destruct (kernel_of_valid v Hv) as (mode & roll & Hk).
  destruct (launch_covers (λ mode i,
    if swap (cuda_hash80 mode (params w) (kernel_nonce mode start count i) !!! 0%nat) <=? p_target (params w)
    then Some (kernel_nonce mode start count i) else None) v count block mode roll Hk Hcount Hb)
    as (ts & Hl & Hp). exists ts. split; [exact Hl|]. rewrite Hp, <- omap_candidates.
  apply reflexive_eq, omap_ext_in. intros i Hi%elem_of_seqZ. apply scan_body. lia.
Qed.

Lemma validate_ok h ns found : (∀ n, store_le h 32 n = nonce_header (header w) n) →
  Forall (λ n, is_candidate w n) ns →
  validate w (top64 (target w)) h ns found =
  Ok (found ++ filter (λ n, meets (nonce_hash (header w) n) (target w) = true) ns).
Proof.
  revert h found. induction ns as [|n ns IH]; intros h found Hh Hc; cbn [validate].
  { by rewrite filter_nil, app_nil_r. }
  apply Forall_cons in Hc as [Hn Hc]. cbn zeta. rewrite Hh.
  destruct (nonce_hash_ok (header w) n Hheader) as [Hok Hlen]. rewrite Hok, bind_Ok_eq.
  rewrite top_word_eq by (rewrite Hlen; lia). unfold is_candidate in Hn.
  rewrite (proj2 (Z.ltb_ge _ _) Hn), throw_if_false, bind_Ok_eq.
  rewrite IH; [|intros; unfold nonce_header; by rewrite store_store_le by lia|exact Hc].
  rewrite filter_cons. destruct (meets _ _) eqn:Hm; case_decide; [|congruence|congruence|reflexivity].
  by rewrite <- app_assoc.
Qed.

Context (api : string → result unit).

(** A finished device leaves the host with all the solutions or an overflow. *)
Lemma scan_collect_ok v block d0 d : check_config block v = Ok tt → (∀ c, api c = Ok tt) →
  scan_setup api v block w start count = Ok d0 → rtc device_step d0 d → finished d →
  if capacity <? Z.of_nat (length (candidates w start count))
  then scan_collect api w count d = Throw (runtime_error "CUDA candidate buffer overflow; reduce batch size")
  else ∃ ns, scan_collect api w count d = Ok {| hashes := count; nonces := ns |} ∧
    ns ≡ₚ solutions w start count.
Proof.
  intros Hcfg Hapi Hset Hr Hf. destruct (launch_scan v block Hcfg) as (ts & Hl & Hp).
  unfold scan_setup in Hset. apply bind_Ok in Hset as (? & _ & Hset).
  rewrite !Hapi, !bind_Ok_eq, Hl, !bind_Ok_eq in Hset. apply Ok_inj in Hset as <-.
  assert (Z.of_nat (length (concat ts)) < 2 ^ 32) as Hlen.
  { rewrite Hp. unfold candidates. pose proof (length_filter (is_candidate w) (seqZ start count)) as Hle.
    rewrite length_seqZ in Hle. unfold is_u32 in Hcount. lia. }
  destruct (finished_report ts d Hlen Hr Hf) as [Hh Hread]. rewrite <- (Permutation_length Hp).
  unfold scan_collect. rewrite !Hapi, !bind_Ok_eq, Hh.
  destruct (Z.ltb_spec capacity (Z.of_nat (length (concat ts)))) as [Hover|Hfits]; [reflexivity|].
  rewrite throw_if_false, bind_Ok_eq. cbn [params p_target]. rewrite top_word_eq by lia.
  specialize (Hread ltac:(lia)). rewrite validate_ok; [|reflexivity|].
  2:{ rewrite Hread, Hp. apply Forall_forall. intros n [Hn _]%list_elem_of_filter. exact Hn. }
  rewrite bind_Ok_eq. eexists. split; [reflexivity|]. cbn [app].
  rewrite <- (candidates_solutions w start count Hheader Htarget), <- Hp, Hread. done.
Qed.
End scan_correct.

(** C18: on a valid configuration, range and job the CUDA scan has an outcome,
    and under every interleaving of the device threads the outcome is the same:
    the overflow error when more than 4096 nonces pass the 64-bit comparison,
    otherwise exactly the solutions of the range, with every nonce counted and
    no scalar validation failing. *)
Theorem cuda_scan_exact api v block w start count :
  check_config block v = Ok tt → (∀ c, api c = Ok tt) →
  length (header w) = 80%nat → length (target w) = 32%nat →
  is_u64 start → is_u32 count → range_ok start count = true →
  (∃ r, cuda_scan api v block w start count r) ∧
  ∀ r, cuda_scan api v block w start count r →
    if capacity <? Z.of_nat (length (candidates w start count))
    then r = Throw (runtime_error "CUDA candidate buffer overflow; reduce batch size")
    else ∃ ns, r = Ok {| hashes := count; nonces := ns |} ∧ ns ≡ₚ solutions w start count.
Proof.
  intros Hcfg Hapi Hh Ht Hs Hc Hr. destruct (range_ok_bounds _ _ Hr (proj1 Hc)) as [Hpos Hfit].
  destruct (scan_setup api v block w start count) as [d0|e] eqn:Hset.
  2:{ destruct (launch_scan w start count Hh Ht Hs Hc Hfit v block Hcfg) as (ts & Hl & _).
      unfold scan_setup in Hset. rewrite range_guard_cases, Hr, !Hapi, !bind_Ok_eq, Hl in Hset. discriminate Hset. }
  unfold cuda_scan. rewrite Hset. split.
  - destruct (device_terminates d0) as (d & Hd & Hf). by exists (scan_collect api w count d), d.
  - intros r (d & Hd & Hf & ->).
    pose proof (scan_collect_ok w start count Hh Ht Hs Hc Hfit api v block d0 d Hcfg Hapi Hset Hd Hf) as Hok.
    destruct (_ <? _); exact Hok.
Qed.

Lemma cuda_scan_exact_witness :
  let w := {| header := replicate 80 x00; target := replicate 32 xff |} in
  ∃ r, cuda_scan (λ _, Ok tt) 5 256 w (2 ^ 64 - 1000) 1000 r.
Proof.
  intros w. refine (proj1 (cuda_scan_exact (λ _, Ok tt) 5 256 w (2 ^ 64 - 1000) 1000 _ _ _ _ _ _ _));
    [reflexivity|intros; reflexivity|reflexivity|reflexivity|unfold is_u64; lia|unfold is_u32; lia|reflexivity].
Defined.

(** A scan that returns saw no driver error. *)
Lemma cuda_scan_driver api v block w start count s :
  cuda_scan api v block w start count (Ok s) → cuda_scan (λ _, Ok tt) v block w start count (Ok s).
Proof.
  unfold cuda_scan, scan_setup, scan_collect.
  destruct (range_guard start count); [|done]. rewrite !bind_Ok_eq.
  destruct (api "cudaSetDevice"); [|done]. destruct (api "cudaMemsetAsync"); [|done]. rewrite !bind_Ok_eq.
  destruct (launch _ _ _ _) as [ts|]; [|done]. rewrite !bind_Ok_eq.
  destruct (api "cudaGetLastError"); [|done]. rewrite !bind_Ok_eq.
  intros (d & Hd & Hf & Hs). exists d. split; [exact Hd|]. split; [exact Hf|].
  destruct (api "cudaMemcpyAsync"); [|discriminate Hs].
  destruct (api "cudaStreamSynchronize"); [|discriminate Hs]. exact Hs.
Qed.

(** A CUDA back end, whatever its driver does and however its threads are
    scheduled, keeps the contract of [Backend]. *)
Lemma cuda_laws (B : Backend) api v block : check_config block v = Ok tt →
  (∀ w start count, cuda_scan api v block w start count (@scan B w start count)) → BackendLaws B.
Proof.
  intros Hcfg Hb. split.
  - intros w start count Hh Ht Hs Hc s Hok. pose proof (Hb w start count) as Hscan. rewrite Hok in Hscan.
    apply cuda_scan_driver in Hscan. destruct (range_ok start count) eqn:Hr.
    2:{ unfold cuda_scan, scan_setup in Hscan. rewrite range_guard_cases, Hr, bind_Throw_eq in Hscan. discriminate Hscan. }
    destruct (range_ok_bounds _ _ Hr (proj1 Hc)) as [Hpos Hfit]. split; [done|].
    unfold cuda_scan in Hscan. destruct (scan_setup _ v block w start count) as [d0|e] eqn:Hset; [|discriminate Hscan].
    destruct Hscan as (d & Hd & Hf & Hscan).
    pose proof (scan_collect_ok w start count Hh Ht Hs Hc Hfit _ v block d0 d Hcfg (λ _, eq_refl) Hset Hd Hf) as Hcol.
    rewrite <- Hscan in Hcol. destruct (_ <? _); [discriminate Hcol|].
    destruct Hcol as (ns & Hns & Hp). apply Ok_inj in Hns as ->. split; [reflexivity|exact Hp].
  - intros w start count Hr. pose proof (Hb w start count) as Hscan.
    unfold cuda_scan, scan_setup in Hscan. rewrite range_guard_cases, Hr, bind_Throw_eq in Hscan. exact Hscan.
Qed.

(** the constructor leaks nothing: it ends with all three resources or, when
    any call fails, with none and the failure rethrown. *)
Theorem new_cuda_no_leak api b v :
  match new_cuda api b v no_handles with
  | (s, Ok _) => check_config b v = Ok tt ∧ s = {| has_stream := true; has_hits := true; has_host := true |}
  | (s, Throw e) => s = no_handles ∧
      (check_config b v = Throw e ∨ ∃ call, api call = Throw e)
  end.
Proof.
  unfold new_cuda, acquire, st_lift, st_modify, st_catch, release, mbind, stM_bind.
  destruct (check_config b v) as [[]|e]; [|by eauto].
  destruct (api "cudaSetDevice") as [[]|] eqn:E1; [|by eauto].
  destruct (api "cudaGetDeviceProperties") as [[]|] eqn:E2; [|by eauto].
  destruct (api "cudaStreamCreateWithFlags") as [[]|] eqn:E3; [|by eauto].
  destruct (api "cudaMalloc") as [[]|] eqn:E4; [|by eauto].
  destruct (api "cudaMallocHost") as [[]|] eqn:E5; by eauto.
Qed.

(** ** The diagnostic hashes *)

Lemma launch_dump h start count v mode roll : length h = 80%nat → is_u64 start →
  is_u32 count → start + count ≤ 2 ^ 64 → kernel_of v = Ok (mode, roll) →
  ∃ ts, launch v count 128 (λ mode roll, dump_thread mode roll
      (params {| header := h; target := replicate 32 x00 |}) start count 128) = Ok ts ∧
    concat ts ≡ₚ dump_stores (λ i j, nonce_word h (start + i) (Z.to_nat j)) (seqZ 0 count).
Proof.
  intros Hh Hs Hc Hf Hk. set (w := {| header := h; target := replicate 32 x00 |}).
  destruct (launch_covers (λ mode i,
    let hs := cuda_hash80 mode (params w) (kernel_nonce mode start count i) in
    Some ((λ j, (u64 (u64 (4 * i) + j), hs !!! Z.to_nat j)) <$> seqZ 0 4)) v count 128 mode roll Hk Hc
    ltac:(lia)) as (ts & Hl & Hp).
  unfold launch in Hl. rewrite Hk, bind_Ok_eq in Hl. apply Ok_inj in Hl as <-.
  eexists. split; [unfold launch; rewrite Hk, bind_Ok_eq; reflexivity|].
  unfold dump_thread. rewrite concat_grid_concat, Hp. cbn zeta. rewrite omap_Some. unfold dump_stores.
  apply reflexive_eq. f_equal. apply list_fmap_ext. intros ? i Hi%lookup_seqZ.
  apply list_fmap_ext. intros ? j Hj%lookup_seqZ. unfold is_u32 in Hc.
  rewrite (u64_small (4 * i)) by (unfold is_u64; lia). rewrite u64_small by (unfold is_u64; lia).
  by rewrite (hash80_word w start count) by (done || lia).
Qed.

(** the diagnostic kernel: on a valid request every order of the device's
    stores leaves the scalar digests of the whole range, in order; other
    requests are refused. *)
Theorem cuda_hashes_spec api h start count v r :
  (∀ c, api c = Ok tt) → length h = 80%nat → is_u64 start → is_u32 count →
  cuda_hashes api h start count v r ↔
  r = if range_ok start count && (count <=? 65536) && (0 <=? v) && (v <=? 6)
      then Ok ((λ i, nonce_hash h (start + i)) <$> seqZ 0 count)
      else Throw (runtime_error "invalid hash test range").
Proof.
  intros Hapi Hh Hs Hc. unfold cuda_hashes. cbn zeta.
  destruct (range_ok start count && _ && _ && _) eqn:Hg.
  2:{ assert ((count =? 0) || (65536 <? count) || (2 ^ 64 - 1 - (count - 1) <? start) || (v <? 0) || (6 <? v) = true)
        as -> by (unfold range_ok in Hg; bool_lia). done. }
  assert ((count =? 0) || (65536 <? count) || (2 ^ 64 - 1 - (count - 1) <? start) || (v <? 0) || (6 <? v) = false)
    as -> by (unfold range_ok in Hg; bool_lia).
  rewrite throw_if_false, !Hapi, !bind_Ok_eq.
  apply andb_prop in Hg as [[[Hr Hc2]%andb_prop Hv1]%andb_prop Hv2].
  destruct (range_ok_bounds _ _ Hr (proj1 Hc)) as [Hpos Hfit].
  assert (∃ mode roll, kernel_of v = Ok (mode, roll)) as (mode & roll & Hk) by (apply kernel_of_valid; bool_lia).
  destruct (launch_dump h start count v mode roll Hh Hs Hc Hfit Hk) as (ts & Hl & Hp).
  rewrite Hl, !bind_Ok_eq.
  assert (∀ ws, ws ≡ₚ concat ts →
    read_hash (store_all ws) <$> seqZ 0 count = (λ i, nonce_hash h (start + i)) <$> seqZ 0 count) as Hread.
  { intros ws Hws. apply list_fmap_ext. intros k i Hi. apply lookup_seqZ in Hi as Hi'.
    rewrite Hp in Hws. rewrite (dump_hash _ _ _ i Hws) by (apply NoDup_seqZ || by eapply list_elem_of_lookup_2).
    by rewrite nonce_hash_words by (done || unfold is_u64 in *; lia). }
  split.
  - intros (ws & Hws & ->). by rewrite Hread.
  - intros ->. exists (concat ts). by rewrite Hread.
Qed.

Lemma cuda_hashes_spec_witness :
  cuda_hashes (λ _, Ok tt) (replicate 80 x00) (2 ^ 64 - 2) 2 6
    (Ok ((λ i, nonce_hash (replicate 80 x00) (2 ^ 64 - 2 + i)) <$> seqZ 0 2)).
Proof.
  refine (proj2 (cuda_hashes_spec (λ _, Ok tt) (replicate 80 x00) (2 ^ 64 - 2) 2 6 _ _ _ _ _) _);
    [intros; reflexivity|reflexivity|unfold is_u64; lia|unfold is_u32; lia|].
  assert (range_ok (2 ^ 64 - 2) 2 && (2 <=? 65536) && (0 <=? 6) && (6 <=? 6) = true) as -> by reflexivity.
  exact eq_refl.
Defined.
