(* ===== verification/OpenCl.v ===== *)
(** * The OpenCL back end

    src/src/opencl/blake2b.cl (the kernels) and the scans and diagnostic hashes of
    src/src/opencl/runtime.cpp; its enumeration and construction are in Devices.
    The OpenCL runtime is a parameter; the device runs as the transition system
    of Gpu. *)
From stdpp Require Import sorting.
From S2P Require Import Prelude Words Hex Blake Targets Work Cpu Gpu.

(** ** Device code *)

(** [amd_bitalign(src0, src1, src2)]. *)
Definition amd_bitalign (a b c : Z) : Z := funnel a b (Z.land c 31).
(** [as_ulong] of a [uint2]. *)
Definition as_ulong (s0 s1 : Z) : Z := Z.lor (u64 (Z.shiftl s1 32)) s0.
Definition amd_ror (x n : Z) : Z :=
  let s0 := u32 x in
  let s1 := u32 (Z.shiftr x 32) in
  if n =? 32 then as_ulong s1 s0
  else if n <? 32 then as_ulong (amd_bitalign s1 s0 n) (amd_bitalign s0 s1 n)
  else as_ulong (amd_bitalign s0 s1 (n - 32)) (amd_bitalign s1 s0 (n - 32)).
(** OpenCL [rotate(x, s)] for 0 < s < 64, to the left. *)
Definition rotate_left (x s : Z) : Z := Z.lor (u64 (Z.shiftl x s)) (Z.shiftr x (64 - s)).
(** [ROR], by the [AMD_ROTATE] option. *)
Definition ROR (amd_rotate : bool) (x n : Z) : Z := if amd_rotate then amd_ror x n else rotate_left x (64 - n).

(** [hash80] on the 26 input words, by the [PRECOMPUTE] option. *)
Definition cl_hash80 (pre amd : bool) (input : list Z) (nonce : Z) : list Z :=
  hash80 (ROR amd) pre (take 10 input) (drop 10 input) nonce.

(** [as_ulong(as_uchar8(x).s76543210)]. *)
Definition swap64 (x : Z) : Z :=
  le_value ((λ k : nat, le_bytes 8 x !!! k) <$> [7; 6; 5; 4; 3; 2; 1; 0]%nat).

(** [scan]: the nonce one work item reports. *)
Definition scan_item (pre amd : bool) (input : list Z) (start count target i : Z) : option Z :=
  if count <=? i then None
  else
    let h := cl_hash80 pre amd input (u64 (start + i)) in
    if swap64 (h !!! 0%nat) <=? target then Some (u64 (start + i)) else None.
(** [hashes]: the stores of one work item. *)
Definition hashes_item (pre amd : bool) (input : list Z) (start count i : Z) : option (list (Z * Z)) :=
  if count <=? i then None
  else
    let h := cl_hash80 pre amd input (u64 (start + i)) in
    Some ((λ j, (u64 (u64 (i * 4) + j), h !!! Z.to_nat j)) <$> seqZ 0 4).

(** ** Host code of a scan *)

(** [prepare]: the ten header words and the precomputed state. *)
Definition prepare_input (h : Bytes) : list Z := load_words 10 h ++ precompute (load_words 10 h).
(** [launch]: the number of work items. *)
Definition global_size (count block : Z) : Z := (count + block - 1) / block * block.

(** The kernels of a variant: [-DPRECOMPUTE=(variant & 1) -DAMD_ROTATE=(variant >> 1)]. *)
Definition variant_precompute (v : Z) : bool := negb (Z.land v 1 =? 0).
Definition variant_amd_rotate (v : Z) : bool := negb (Z.shiftr v 1 =? 0).

(** The validation of the candidates read back. *)
Fixpoint cl_validate (w : Work) (start count limit : Z) (ns found : list Z) : result (list Z) :=
  match ns with
  | [] => Ok found
  | n :: ns =>
      _ ← throw_if ((n <? start) || (count <=? n - start)) "OpenCL nonce out of range";
      hash ← blake2b256 (store_le (header w) 32 n);
      _ ← throw_if (limit <? top_word hash) "OpenCL candidate failed scalar validation";
      cl_validate w start count limit ns (if meets hash (target w) then found ++ [n] else found)
  end.

(** [std::adjacent_find] finds a pair. *)
Fixpoint adjacent_equal (l : list Z) : bool :=
  match l with
  | x :: (y :: _) as r => (x =? y) || adjacent_equal r
  | _ => false
  end.

Section host.
(** The outcome of each runtime call, named as in [check]. *)
Variable api : string → result unit.
Variables (v block : Z).

Definition arg : result unit := api "kernel argument".
(** [prepare]: the upload, and the arguments 0 to 2. *)
Definition upload (w : Work) : result (list Z) :=
  _ ← api "header upload";
  _ ← arg; _ ← arg; _ ← arg;
  Ok (prepare_input (header w)).
(** [launch]: one work item per index up to the rounded size. *)
Definition launch {A} (item : Z → A) (count : Z) : result (list A) :=
  let global := global_size count block in
  _ ← api "kernel launch";
  Ok (item <$> seqZ 0 global).

Definition cl_setup (w : Work) (start count : Z) : result device :=
  _ ← range_guard start count;
  input ← upload w;
  let limit := top_word (target w) in
  _ ← arg; _ ← arg; _ ← arg;
  _ ← api "reset hits";
  items ← launch (scan_item (variant_precompute v) (variant_amd_rotate v) input start count limit) count;
  Ok (launched (option_list <$> items)).

Definition cl_collect (w : Work) (start count : Z) (d : device) : result Scan :=
  _ ← api "read hits";
  let n := hits d in
  _ ← throw_if (4096 <? n) "OpenCL candidate buffer overflow; reduce batch or increase difficulty";
  _ ← (if n =? 0 then Ok tt else api "read candidates");
  ns ← cl_validate w start count (top_word (target w)) (read_back d) [];
  let sorted := merge_sort Z.le ns in
  _ ← throw_if (adjacent_equal sorted) "duplicate OpenCL candidate";
  Ok {| hashes := count; nonces := sorted |}.

(** [OpenCl::scan]: any result that some interleaving of the work items gives. *)
Definition cl_scan (w : Work) (start count : Z) (r : result Scan) : Prop :=
  match cl_setup w start count with
  | Throw e => r = Throw e
  | Ok d0 => ∃ d, rtc device_step d0 d ∧ finished d ∧ r = cl_collect w start count d
  end.

(** [OpenCl::hashes]: the buffer is created first and released on every path. *)
Definition cl_hashes (h : Bytes) (start count : Z) (r : result (list Bytes)) : Prop :=
  match (_ ← throw_if ((count =? 0) || (65536 <? count) || (2 ^ 64 - 1 - (count - 1) <? start))
               "invalid OpenCL diagnostic range";
         _ ← api "hash buffer";
         input ← upload {| header := h; target := [] |};
         _ ← arg;
         items ← launch (hashes_item (variant_precompute v) (variant_amd_rotate v) input start count) count;
         _ ← api "hash readback";
         Ok (omap id (items : list (option (list (Z * Z)))))) with
  | Throw e => r = Throw e
  | Ok stores => ∃ ws, ws ≡ₚ concat stores ∧ r = Ok (read_hash (store_all ws) <$> seqZ 0 count)
  end.
End host.

(** ** Correctness of the kernels *)

Lemma as_ulong_funnels hi lo n hi' lo' :
  as_ulong (funnel hi lo n) (funnel hi' lo' n) = Z.lor (Z.shiftl (funnel hi' lo' n) 32) (funnel hi lo n).
Proof. unfold as_ulong. by rewrite u64_low by apply funnel_range. Qed.

Lemma ROR_rotr amd x n : is_u64 x → n ∈ [32; 24; 16; 63] → ROR amd x n = rotr x n.
Proof.
  intros Hx Hn. unfold ROR. destruct amd.
  2:{ unfold rotate_left, rotr. rewrite Z.lor_comm. do 2 f_equal; lia. }
  unfold amd_ror, amd_bitalign. cbn zeta. rewrite u32_high by done.
  repeat (apply elem_of_cons in Hn as [->|Hn]; [cbn [Z.eqb Z.ltb Z.compare Pos.eqb Pos.compare Pos.compare_cont]|]).
  - unfold as_ulong. rewrite u64_low by apply u32_range. by apply halves_rotr32.
  - rewrite as_ulong_funnels. by apply (funnel_rotr x 24).
  - rewrite as_ulong_funnels. by apply (funnel_rotr x 16).
  - rewrite as_ulong_funnels. by apply (funnel_rotr_swapped x 31).
  - by apply elem_of_nil in Hn.
Qed.

Lemma swap64_bswap64 x : swap64 x = bswap64 x.
Proof. reflexivity. Qed.

Lemma cl_hash80_word pre amd h n i : length h = 80%nat → (i < 4)%nat →
  cl_hash80 pre amd (prepare_input h) n !!! i = nonce_word h n i.
Proof.
  intros Hh Hi. unfold cl_hash80, prepare_input.
  assert (length (load_words 10 h) = 10%nat) as Hl by (unfold load_words; by rewrite length_fmap, length_seq).
  rewrite take_app_length', drop_app_length' by done.
  apply hash80_words; [intros; by apply ROR_rotr|done|done].
Qed.

Lemma global_size_covers count block : 0 ≤ count → 32 ≤ block → count ≤ global_size count block.
Proof.
  intros Hc Hb. unfold global_size.
  pose proof (Z.div_mod (count + block - 1) block ltac:(lia)) as Hd.
  pose proof (Z.mod_pos_bound (count + block - 1) block ltac:(lia)) as Hm. lia.
Qed.

Lemma concat_option_list {A B} (f : A → option B) (l : list A) : concat ((λ x, option_list (f x)) <$> l) = omap f l.
Proof. induction l as [|x l IH]; [done|]. cbn. rewrite IH. by destruct (f x). Qed.

Lemma omap_id_fmap {A B} (f : A → option B) (l : list A) : omap id (f <$> l) = omap f l.
Proof. induction l as [|x l IH]; [done|]. cbn. by rewrite IH. Qed.

Lemma StronglySorted_filter {A} (R : relation A) (P : A → Prop) `{∀ x, Decision (P x)} l :
  StronglySorted R l → StronglySorted R (filter P l).
Proof.
  induction 1 as [|x l Hl IH Hx]; [constructor|]. rewrite filter_cons. case_decide; [|done].
  constructor; [done|]. rewrite Forall_forall in *. intros y [_ Hy]%list_elem_of_filter. by apply Hx.
Qed.

Section scan_correct.
Context (w : Work) (start count : Z).
Hypothesis Hheader : length (header w) = 80%nat.
Hypothesis Htarget : length (target w) = 32%nat.
Hypothesis Hstart : is_u64 start.
Hypothesis Hcount : is_u32 count.
Hypothesis Hfit : start + count ≤ 2 ^ 64.

Lemma scan_items pre amd n : count ≤ n →
  omap (scan_item pre amd (prepare_input (header w)) start count (top_word (target w))) (seqZ 0 n) =
  candidates w start count.
Proof.
  intros Hn. unfold scan_item. rewrite omap_batch by (unfold is_u32 in *; lia). rewrite <- omap_candidates.
  apply omap_ext_in. intros i Hi%elem_of_seqZ. cbn zeta.
  rewrite (u64_small (start + i)) by (unfold is_u64 in *; lia).
  rewrite cl_hash80_word by (done || lia). rewrite swap64_bswap64, <- top64_word0 by (done || unfold is_u64 in *; lia).
  rewrite top_word_eq by lia. unfold is_candidate.
  destruct (Z.leb_spec (top64 (nonce_hash (header w) (start + i))) (top64 (target w)));
    case_decide; (reflexivity || lia).
Qed.

Lemma cl_validate_ok ns found : Forall (λ n, start ≤ n < start + count ∧ is_candidate w n) ns →
  cl_validate w start count (top64 (target w)) ns found =
  Ok (found ++ filter (λ n, meets (nonce_hash (header w) n) (target w) = true) ns).
Proof.
  revert found. induction ns as [|n ns IH]; intros found Hc; cbn [cl_validate].
  { by rewrite filter_nil, app_nil_r. }
  apply Forall_cons in Hc as [[Hr Hn] Hc]. fold (nonce_header (header w) n).
  rewrite (proj2 (Z.ltb_ge n start)), (proj2 (Z.leb_gt count (n - start))) by lia.
  rewrite throw_if_false, bind_Ok_eq.
  destruct (nonce_hash_ok (header w) n Hheader) as [Hok Hlen]. rewrite Hok, bind_Ok_eq.
  rewrite top_word_eq by (rewrite Hlen; lia). unfold is_candidate in Hn.
  rewrite (proj2 (Z.ltb_ge _ _) Hn), throw_if_false, bind_Ok_eq.
  rewrite IH by exact Hc. rewrite filter_cons. destruct (meets _ _) eqn:Hm; case_decide; [|congruence|congruence|reflexivity].
  by rewrite <- app_assoc.
Qed.

Lemma solutions_sorted : StronglySorted Z.le (solutions w start count).
Proof.
  unfold solutions. apply StronglySorted_filter. clear. remember (Z.to_nat count) as n eqn:Hn.
  revert start count Hn. induction n as [|n IH]; intros s c Hn; [rewrite seqZ_nil by lia; constructor|].
  rewrite seqZ_cons by lia. constructor; [apply IH; lia|]. apply Forall_forall. intros k ?%elem_of_seqZ. lia.
Qed.

Lemma adjacent_equal_nodup l : NoDup l → adjacent_equal l = false.
Proof.
  induction l as [|x l IH]; intros Hnd; [done|]. apply NoDup_cons in Hnd as [Hx Hl].
  destruct l as [|y l]; [done|]. apply orb_false_iff. split; [|by apply IH].
  apply Z.eqb_neq. intros ->. set_solver.
Qed.

Lemma sort_solutions ns : ns ≡ₚ solutions w start count → merge_sort Z.le ns = solutions w start count.
Proof.
  intros Hp. apply (StronglySorted_unique Z.le).
  - apply StronglySorted_merge_sort; apply _.
  - apply solutions_sorted.
  - by rewrite merge_sort_Permutation.
Qed.

Context (api : string → result unit) (v block : Z).
Hypothesis Hblock : 32 ≤ block.

Lemma cl_collect_ok d0 d : (∀ c, api c = Ok tt) → cl_setup api v block w start count = Ok d0 →
  rtc device_step d0 d → finished d →
  cl_collect api w start count d =
  if 4096 <? Z.of_nat (length (candidates w start count))
  then Throw (runtime_error "OpenCL candidate buffer overflow; reduce batch or increase difficulty")
  else Ok {| hashes := count; nonces := solutions w start count |}.
Proof.
  intros Hapi Hset Hr Hf. unfold cl_setup, upload, launch, arg in Hset. apply bind_Ok in Hset as (? & _ & Hset).
  rewrite !Hapi, !bind_Ok_eq in Hset. cbn zeta in Hset. apply Ok_inj in Hset as <-.
  rewrite <- list_fmap_compose in Hr. set (ts := _ <$> seqZ 0 (global_size count block)) in Hr.
  assert (concat ts = candidates w start count) as Hts.
  { unfold ts, compose. rewrite concat_option_list. apply scan_items, global_size_covers; [apply Hcount|done]. }
  assert (Z.of_nat (length (concat ts)) < 2 ^ 32) as Hlen.
  { rewrite Hts. unfold candidates. pose proof (length_filter (is_candidate w) (seqZ start count)) as Hle.
    rewrite length_seqZ in Hle. unfold is_u32 in Hcount. lia. }
  clearbody ts. destruct (finished_report ts d Hlen Hr Hf) as [Hh Hread]. rewrite Hts in *.
  unfold cl_collect. rewrite !Hapi, bind_Ok_eq, Hh. cbn zeta.
  destruct (Z.ltb_spec 4096 (Z.of_nat (length (candidates w start count)))) as [Hover|Hfits]; [reflexivity|].
  rewrite throw_if_false, bind_Ok_eq.
  assert ((if Z.of_nat (length (candidates w start count)) =? 0 then Ok tt else Ok tt) = Ok tt) as -> by by destruct (_ =? _).
  rewrite bind_Ok_eq, top_word_eq by lia. specialize (Hread ltac:(unfold capacity; lia)).
  rewrite cl_validate_ok.
  2:{ rewrite Hread. apply Forall_forall. intros n [Hn Hin%elem_of_seqZ]%list_elem_of_filter. split; [lia|exact Hn]. }
  rewrite bind_Ok_eq, app_nil_l. rewrite sort_solutions.
  2:{ rewrite Hread. by rewrite candidates_solutions. }
  rewrite adjacent_equal_nodup; [by rewrite throw_if_false, bind_Ok_eq|].
  unfold solutions. apply NoDup_filter, NoDup_seqZ.
Qed.
End scan_correct.

(** C19: on a valid range and job the OpenCL scan has an outcome, and under every
    interleaving of the work items it is the overflow error when more than 4096
    nonces pass the 64-bit comparison, and otherwise the solutions of the range
    in increasing order: neither the range check, the scalar validation nor the
    duplicate check can fire, whatever the kernel variant. *)
Theorem cl_scan_exact api v block w start count :
  32 ≤ block → (∀ c, api c = Ok tt) → length (header w) = 80%nat → length (target w) = 32%nat →
  is_u64 start → is_u32 count → range_ok start count = true →
  (∃ r, cl_scan api v block w start count r) ∧
  ∀ r, cl_scan api v block w start count r →
    r = if 4096 <? Z.of_nat (length (candidates w start count))
        then Throw (runtime_error "OpenCL candidate buffer overflow; reduce batch or increase difficulty")
        else Ok {| hashes := count; nonces := solutions w start count |}.
Proof.
  intros Hb Hapi Hh Ht Hs Hc Hr. destruct (range_ok_bounds _ _ Hr (proj1 Hc)) as [Hpos Hfit].
  unfold cl_scan. destruct (cl_setup api v block w start count) as [d0|e] eqn:Hset.
  2:{ unfold cl_setup, upload, launch, arg in Hset. rewrite range_guard_cases, Hr, !Hapi, !bind_Ok_eq in Hset. discriminate Hset. }
  split.
  - destruct (device_terminates d0) as (d & Hd & Hf). by exists (cl_collect api w start count d), d.
  - intros r (d & Hd & Hf & ->).
    exact (cl_collect_ok w start count Hh Ht Hs Hc Hfit api v block Hb d0 d Hapi Hset Hd Hf).
Qed.

Lemma cl_scan_exact_witness :
  let w := {| header := replicate 80 x00; target := replicate 32 xff |} in
  ∃ r, cl_scan (λ _, Ok tt) 3 64 w (2 ^ 64 - 1000) 1000 r.
Proof.
  intros w. refine (proj1 (cl_scan_exact (λ _, Ok tt) 3 64 w (2 ^ 64 - 1000) 1000 _ _ _ _ _ _ _));
    [lia|intros; reflexivity|reflexivity|reflexivity|unfold is_u64; lia|unfold is_u32; lia|reflexivity].
Defined.

(** A scan that returns saw no runtime error. *)
Lemma cl_scan_driver api v block w start count s :
  cl_scan api v block w start count (Ok s) → cl_scan (λ _, Ok tt) v block w start count (Ok s).
Proof.
  unfold cl_scan, cl_setup, cl_collect, upload, launch, arg.
  destruct (range_guard start count); [|done]. rewrite !bind_Ok_eq.
  destruct (api "header upload"); [|done]. destruct (api "kernel argument"); [|done]. rewrite !bind_Ok_eq.
  destruct (api "reset hits"); [|done]. destruct (api "kernel launch"); [|done]. rewrite !bind_Ok_eq.
  intros (d & Hd & Hf & Hs). exists d. split; [exact Hd|]. split; [exact Hf|].
  destruct (api "read hits"); [|discriminate Hs]. rewrite !bind_Ok_eq in *. cbn zeta in *.
  destruct (throw_if _ _); [|discriminate Hs]. rewrite !bind_Ok_eq in *.
  destruct (hits d =? 0); [exact Hs|]. destruct (api "read candidates"); [|discriminate Hs]. exact Hs.
Qed.

(** An OpenCL back end keeps the contract of [Backend]. *)
Lemma cl_laws (B : Backend) api v block : 32 ≤ block →
  (∀ w start count, cl_scan api v block w start count (@scan B w start count)) → BackendLaws B.
Proof.
  intros Hb Hscans. split.
  - intros w start count Hh Ht Hs Hc s Hok. pose proof (Hscans w start count) as Hscan. rewrite Hok in Hscan.
    apply cl_scan_driver in Hscan. unfold cl_scan in Hscan. destruct (range_ok start count) eqn:Hr.
    2:{ unfold cl_setup in Hscan. rewrite range_guard_cases, Hr, bind_Throw_eq in Hscan. discriminate Hscan. }
    destruct (range_ok_bounds _ _ Hr (proj1 Hc)) as [Hpos Hfit]. split; [done|].
    destruct (cl_setup _ v block w start count) as [d0|e] eqn:Hset; [|discriminate Hscan].
    destruct Hscan as (d & Hd & Hf & Hscan).
    pose proof (cl_collect_ok w start count Hh Ht Hs Hc Hfit _ v block Hb d0 d (λ _, eq_refl) Hset Hd Hf) as Hcol.
    rewrite <- Hscan in Hcol. destruct (_ <? _); [discriminate Hcol|]. apply Ok_inj in Hcol as ->.
    split; [reflexivity|]. cbn [nonces]. exact (reflexivity _).
  - intros w start count Hr. pose proof (Hscans w start count) as Hscan.
    unfold cl_scan, cl_setup in Hscan. rewrite range_guard_cases, Hr, bind_Throw_eq in Hscan. exact Hscan.
Qed.

(** ** The diagnostic hashes *)

Lemma hashes_items h pre amd start count n : length h = 80%nat → is_u64 start → 0 ≤ count ≤ 65536 →
  start + count ≤ 2 ^ 64 → count ≤ n →
  concat (omap (hashes_item pre amd (prepare_input h) start count) (seqZ 0 n)) =
  dump_stores (λ i j, nonce_word h (start + i) (Z.to_nat j)) (seqZ 0 count).
Proof.
  intros Hh Hs Hc Hf Hn. unfold hashes_item. rewrite omap_batch by lia. cbn zeta. rewrite omap_Some.
  unfold dump_stores. f_equal. apply list_fmap_ext. intros ? i Hi%lookup_seqZ.
  apply list_fmap_ext. intros ? j Hj%lookup_seqZ.
  rewrite (u64_small (i * 4)) by (unfold is_u64; lia). rewrite (u64_small (_ + j)) by (unfold is_u64; lia).
  rewrite (u64_small (start + i)) by (unfold is_u64 in *; lia).
  rewrite cl_hash80_word by (done || lia). f_equal. lia.
Qed.

(** the OpenCL diagnostic: on a valid request every order of the stores
    leaves the scalar digests of the range, in order; other requests are
    refused. *)
Theorem cl_hashes_spec api v block h start count r :
  32 ≤ block → (∀ c, api c = Ok tt) → length h = 80%nat → is_u64 start → is_u32 count →
  cl_hashes api v block h start count r ↔
  r = if range_ok start count && (count <=? 65536)
      then Ok ((λ i, nonce_hash h (start + i)) <$> seqZ 0 count)
      else Throw (runtime_error "invalid OpenCL diagnostic range").
Proof.
  intros Hb Hapi Hh Hs Hc. unfold cl_hashes, upload, launch, arg. cbn [header].
  destruct (range_ok start count && _) eqn:Hg.
  2:{ assert ((count =? 0) || (65536 <? count) || (2 ^ 64 - 1 - (count - 1) <? start) = true)
        as -> by (unfold range_ok in Hg; bool_lia). done. }
  assert ((count =? 0) || (65536 <? count) || (2 ^ 64 - 1 - (count - 1) <? start) = false)
    as -> by (unfold range_ok in Hg; bool_lia).
  rewrite throw_if_false, !Hapi, !bind_Ok_eq. apply andb_prop in Hg as [Hr Hc2].
  destruct (range_ok_bounds _ _ Hr (proj1 Hc)) as [Hpos Hfit].
  rewrite omap_id_fmap, hashes_items by first [done|apply global_size_covers; [apply Hc|done]|bool_lia].
  assert (∀ ws, ws ≡ₚ dump_stores (λ i j, nonce_word h (start + i) (Z.to_nat j)) (seqZ 0 count) →
    read_hash (store_all ws) <$> seqZ 0 count = (λ i, nonce_hash h (start + i)) <$> seqZ 0 count) as Hread.
  { intros ws Hws. apply list_fmap_ext. intros k i Hi. apply lookup_seqZ in Hi as Hi'.
    rewrite (dump_hash _ _ _ i Hws) by (apply NoDup_seqZ || by eapply list_elem_of_lookup_2).
    by rewrite nonce_hash_words by (done || unfold is_u64 in *; lia). }
  split.
  - intros (ws & Hws & ->). by rewrite Hread.
  - intros ->. eexists. split; [reflexivity|]. by rewrite Hread.
Qed.

Lemma cl_hashes_spec_witness :
  cl_hashes (λ _, Ok tt) 1 128 (replicate 80 x00) (2 ^ 64 - 2) 2
    (Ok ((λ i, nonce_hash (replicate 80 x00) (2 ^ 64 - 2 + i)) <$> seqZ 0 2)).
Proof.
  refine (proj2 (cl_hashes_spec (λ _, Ok tt) 1 128 (replicate 80 x00) (2 ^ 64 - 2) 2 _ _ _ _ _ _) _);
    [lia|intros; reflexivity|reflexivity|unfold is_u64; lia|unfold is_u32; lia|].
  assert (range_ok (2 ^ 64 - 2) 2 && (2 <=? 65536) = true) as -> by reflexivity. exact eq_refl.
Defined.
