(* ===== verification/Devices.v ===== *)
(** * Device enumeration and selection of a GPU back end

    [enumerate] and the constructor of src/src/opencl/runtime.cpp, [cuda_devices]
    of src/src/cuda/blake2b.cu, and src/src/devices.cpp.  What a driver reports
    about its devices is a parameter. *)
From S2P Require Import Prelude Words Hex Targets Work Cuda OpenCl.

Inductive GpuApi := cuda | opencl.
#[export] Instance GpuApi_eq_dec : EqDecision GpuApi.
Proof. solve_decision. Defined.

Record GpuInfo := {
  index : Z; name : string; pci_bus : string;
  api : GpuApi; backend_index : Z; amd : bool
}.
#[export] Instance GpuInfo_eq_dec : EqDecision GpuInfo.
Proof. solve_decision. Defined.

Definition set_index i (d : GpuInfo) :=
  {| index := i; name := name d; pci_bus := pci_bus d; api := api d; backend_index := backend_index d; amd := amd d |}.
Definition set_backend_index i (d : GpuInfo) :=
  {| index := index d; name := name d; pci_bus := pci_bus d; api := api d; backend_index := i; amd := amd d |}.

(** ** Formatting *)

(** [%0wx] of an unsigned value. *)
Fixpoint hex_text (fuel : nat) (z : Z) : Bytes :=
  match fuel with
  | O => []
  | S fuel => (if z / 16 =? 0 then [] else hex_text fuel (z / 16)) ++ [hex_digit (z mod 16)]
  end.
Definition format_hex (w : nat) (z : Z) : string :=
  let s := hex_text 16 z in
  String.string_of_list_byte (replicate (w - length s) x30 ++ s).
Definition format_pci (domain bus device function : Z) : string :=
  (format_hex 4 domain +:+ ":" +:+ format_hex 2 bus +:+ ":" +:+ format_hex 2 device +:+ "."
     +:+ format_hex 1 function)%string.

(** ** OpenCL *)

(** [check]. *)
Definition check (code : Z) (operation : string) : result unit :=
  throw_if (negb (code =? 0)) (operation +:+ ": OpenCL error " +:+ pretty code).

(** The answers of [clGetDeviceInfo] for one device: [None] when a query fails,
    strings as the driver stores them, possibly with a final NUL. *)
Record ClDevice := {
  handle : Z;
  q_available : option bool; q_compiler : option bool; q_little : option bool;
  q_vendor : option Z; q_pci : option (Z * Z * Z * Z); q_topology : option (Z * Z * Z * Z);
  q_name : result Bytes; q_board : result Bytes; q_extensions : result Bytes
}.

Definition string_info (q : result Bytes) : result string :=
  s ← q;
  _ ← throw_if ((length s =? 0)%nat || (65536 <? Z.of_nat (length s))) "invalid OpenCL device string";
  Ok (String.string_of_list_byte (if bool_decide (last s = Some x00) then take (length s - 1) s else s)).

(** The PCI address of a device, empty when unknown. *)
Definition device_pci (d : ClDevice) (vendor : Z) : string :=
  match q_pci d with
  | Some (domain, bus, dev, fn) => format_pci domain bus dev fn
  | None =>
      if vendor =? 0x1002 then
        match q_topology d with
        | Some (ty, bus, dev, fn) => if ty =? 1 then format_pci 0 bus dev fn else EmptyString
        | None => EmptyString
        end
      else EmptyString
  end.

(** The name shown, with the board name of an AMD card when it has one. *)
Definition device_name (d : ClDevice) (vendor : Z) : result string :=
  name ← string_info (q_name d);
  if vendor =? 0x1002 then
    match string_info (q_board d) with
    | Ok board => Ok (if bool_decide (board = EmptyString) then name else (board +:+ " (" +:+ name +:+ ")")%string)
    | Throw (runtime_error _) => Ok name
    | Throw e => Throw e
    end
  else Ok name.

(** One iteration of the device loop of [enumerate] on [out] and [seen]. *)
Definition enumerate_device (st : list (ClDevice * GpuInfo) * gset string) (d : ClDevice)
    : result (list (ClDevice * GpuInfo) * gset string) :=
  let '(out, seen) := st in
  if negb (default false (q_available d)) || negb (default false (q_compiler d))
     || negb (default false (q_little d)) then Ok (out, seen)
  else
    let vendor := default 0 (q_vendor d) in
    let pci := device_pci d vendor in
    if negb (bool_decide (pci = EmptyString)) && bool_decide (pci ∈ seen) then Ok (out, seen)
    else
      let seen := if bool_decide (pci = EmptyString) then seen else {[pci]} ∪ seen in
      name ← device_name d vendor;
      let idx := Z.of_nat (length out) in
      Ok (out ++ [(d, {| index := idx; name := name; pci_bus := pci; api := opencl;
                         backend_index := idx; amd := vendor =? 0x1002 |})], seen).

Fixpoint enumerate_devices (ds : list ClDevice) (st : list (ClDevice * GpuInfo) * gset string) :=
  match ds with
  | [] => Ok st
  | d :: ds => st ← enumerate_device st d; enumerate_devices ds st
  end.

(** The platform loop; each platform answers a code and its GPU devices. *)
Fixpoint enumerate_platforms (ps : list (Z * list ClDevice)) (st : list (ClDevice * GpuInfo) * gset string) :=
  match ps with
  | [] => Ok st
  | (code, ds) :: ps =>
      if code =? -1 then enumerate_platforms ps st
      else
        _ ← check code "device enumeration";
        st ← enumerate_devices ds st;
        enumerate_platforms ps st
  end.

(** What the installed OpenCL runtime answers: none, or the code of
    [clGetPlatformIDs] and the platforms. *)
Definition runtime : Type := option (Z * list (Z * list ClDevice)).

Definition enumerate (rt : runtime) : result (list (ClDevice * GpuInfo)) :=
  match rt with
  | None => Ok []
  | Some (code, platforms) =>
      if code =? -1001 then Ok []
      else
        _ ← check code "platform enumeration";
        st ← enumerate_platforms platforms ([], ∅);
        Ok (fst st)
  end.

Definition opencl_devices (rt : runtime) (amd_only : bool) : result (list GpuInfo) :=
  ds ← enumerate rt;
  Ok (filter (λ d : GpuInfo, (negb amd_only || amd d) = true) (ds.*2)).

(** ** CUDA *)

(** [cuda_devices] on the code of [cudaGetDeviceCount] and each device's name and
    PCI address. *)
Fixpoint cuda_device_list (i : Z) (ds : list (result (string * string))) : result (list GpuInfo) :=
  match ds with
  | [] => Ok []
  | q :: ds =>
      p ← q;
      rest ← cuda_device_list (i + 1) ds;
      Ok ({| index := i; name := fst p; pci_bus := snd p; api := cuda; backend_index := -1; amd := false |} :: rest)
  end.
Definition cuda_devices (code : Z) (ds : list (result (string * string))) (error_string : string) : result (list GpuInfo) :=
  if (code =? 100) || (code =? 35) then Ok []
  else
    _ ← throw_if (negb (code =? 0)) error_string;
    cuda_device_list 0 ds.

(** ** [gpu_devices] *)

(** The loop that renumbers the OpenCL devices after the CUDA ones. *)
Definition append_devices (out ds : list GpuInfo) : list GpuInfo :=
  fold_left (λ out d, out ++ [set_index (Z.of_nat (length out)) d]) ds out.

Definition gpu_devices (mode : string) (cuda_list : result (list GpuInfo)) (rt : runtime) : result (list GpuInfo) :=
  _ ← throw_if (negb (bool_decide (mode = "auto")) && negb (bool_decide (mode = "cuda"))
                && negb (bool_decide (mode = "opencl"))) "GPU backend must be auto, cuda or opencl";
  out ← (if bool_decide (mode = "opencl") then Ok [] else cuda_list);
  let out := (λ d, set_backend_index (index d) d) <$> out in
  if bool_decide (mode = "cuda") then Ok out
  else
    ds ← opencl_devices rt (bool_decide (mode = "auto") && negb (length out =? 0)%nat);
    Ok (append_devices out ds).

Definition gpu_block (d : GpuInfo) (configured : Z) : Z :=
  if negb (configured =? 0) then configured else if decide (api d = cuda) then 256 else 64.

(** The back end [gpu_backend] builds, with the arguments it passes. *)
Inductive gpu_kind :=
| CudaBackend (device block variant : Z)
| OpenClBackend (device block variant : Z).
Definition gpu_backend (d : GpuInfo) (block variant opencl_variant : Z) : gpu_kind :=
  let block := gpu_block d block in
  if decide (api d = cuda) then CudaBackend (backend_index d) block variant
  else OpenClBackend (backend_index d) block opencl_variant.

(** ** Construction of an OpenCL back end *)

(** [s.find("cl_amd_media_ops") != npos]. *)
Fixpoint contains (sub s : Bytes) : bool :=
  bool_decide (take (length sub) s = sub) || match s with [] => false | _ :: s => contains sub s end.
Definition has_media_ops (q : result Bytes) : result bool :=
  s ← string_info q;
  Ok (contains (String.list_byte_of_string "cl_amd_media_ops") (String.list_byte_of_string s)).

(** The device, the variant resolved from -1, and the label. *)
Definition select_device (rt : runtime) (idx group variant : Z) : result (ClDevice * Z * string) :=
  _ ← throw_if ((variant <? -1) || (3 <? variant)) "OpenCL variant must be 0..3";
  _ ← throw_if ((group <? 32) || (1024 <? group) || negb (group mod 32 =? 0)) "invalid OpenCL workgroup size";
  ds ← enumerate rt;
  match (if idx <? 0 then None else ds !! Z.to_nat idx) with
  | None => Throw (runtime_error "OpenCL device unavailable")
  | Some (d, info) =>
      v ← (if variant =? -1 then
             if amd info then ok ← has_media_ops (q_extensions d); Ok (if ok : bool then 3 else 0) else Ok 0
           else Ok variant);
      _ ← (if 2 <=? v then
             ok ← has_media_ops (q_extensions d);
             throw_if (negb ok) "This OpenCL variant requires cl_amd_media_ops"
           else Ok tt);
      Ok (d, v, (name info +:+ " OpenCL v" +:+ pretty v)%string)
  end.

Section construct.
(** The outcome of each creation call, and the work group limit of each kernel. *)
Variable create : string → result unit.
Variable maximum : string → result Z.

(** The objects held are named after the members of the class. *)
Definition obtain (member call : string) : stM (gset string) unit :=
  _ ← st_lift (create call); st_modify (λ held, {[member]} ∪ held).
Definition release_member (held : gset string) (member : string) : gset string :=
  if bool_decide (member ∈ held) then held ∖ {[member]} else held.
Definition release : stM (gset string) unit :=
  st_modify (λ held, fold_left release_member
    ["nonces"; "hits"; "input"; "diagnostic"; "scanner"; "program"; "queue"; "context"] held).
Definition check_group (block : Z) (k : string) : stM (gset string) unit :=
  m ← st_lift (maximum k);
  st_require (block <=? m) ("OpenCL workgroup exceeds kernel limit " +:+ pretty m).
Definition open_objects (block : Z) : stM (gset string) unit :=
  st_catch (_ ← obtain "context" "create context";
            _ ← obtain "queue" "create queue";
            _ ← obtain "program" "create program";
            _ ← st_lift (create "build program");
            _ ← obtain "scanner" "scan kernel";
            _ ← obtain "diagnostic" "diagnostic kernel";
            _ ← check_group block "scan";
            _ ← check_group block "hashes";
            _ ← obtain "input" "input buffer";
            _ ← obtain "hits" "counter buffer";
            obtain "nonces" "nonce buffer") release.
Definition new_opencl (rt : runtime) (idx group variant : Z) : stM (gset string) (ClDevice * Z * string) :=
  s ← st_lift (select_device rt idx group variant);
  _ ← open_objects group;
  mret s.

(** [opencl_hashes]: a back end with groups of 128 made for one request. *)
Definition opencl_hashes (rt : runtime) (api : string → result unit) (h : Bytes) (start count idx variant : Z)
    (r : result (list Bytes)) : Prop :=
  match (new_opencl rt idx 128 variant ∅).2 with
  | Throw e => r = Throw e
  | Ok (_, v, _) => OpenCl.cl_hashes api v 128 h start count r
  end.

(** On a valid request a back end that can be built returns the scalar digests, whatever
    the device's variant. *)
Lemma opencl_hashes_spec rt api h start count idx variant r : (∀ c, api c = Ok tt) → length h = 80%nat →
  is_u64 start → is_u32 count → range_ok start count && (count <=? 65536) = true →
  is_ok (new_opencl rt idx 128 variant ∅).2 = true →
  opencl_hashes rt api h start count idx variant r ↔
  r = Ok ((λ i, nonce_hash h (start + i)) <$> seqZ 0 count).
Proof.
  intros Hapi Hh Hs Hc Hr Hn. unfold opencl_hashes. destruct (new_opencl _ _ _ _ _).2 as [[[cd v] name]|e]; [|done].
  rewrite OpenCl.cl_hashes_spec by (done || lia). by rewrite Hr.
Qed.
End construct.

(** ** Enumeration *)

Lemma sublist_filter_mono {A} (P : A → Prop) `{∀ x, Decision (P x)} l k :
  l `sublist_of` k → filter P l `sublist_of` filter P k.
Proof.
  induction 1 as [|x l k _ IH|x l k _ IH]; [done| |]; rewrite ?filter_cons; case_decide; try done;
    by constructor.
Qed.

Definition pcis (ds : list GpuInfo) : list string := filter (λ s, s ≠ EmptyString) (pci_bus <$> ds).

(** What an enumerated OpenCL device [g] at position [i], from runtime device
    [d], satisfies. *)
Definition enumerated (i : nat) (d : ClDevice) (g : GpuInfo) : Prop :=
  index g = Z.of_nat i ∧ backend_index g = Z.of_nat i ∧ api g = opencl ∧
  q_available d = Some true ∧ q_compiler d = Some true ∧ q_little d = Some true ∧
  amd g = (default 0 (q_vendor d) =? 0x1002) ∧ pci_bus g = device_pci d (default 0 (q_vendor d)).

Definition enumerate_inv (st : list (ClDevice * GpuInfo) * gset string) : Prop :=
  (∀ i d g, st.1 !! i = Some (d, g) → enumerated i d g) ∧
  (∀ s, s ∈ pcis st.1.*2 → s ∈ st.2) ∧ NoDup (pcis st.1.*2).

Lemma default_false_true (o : option bool) : negb (default false o) = false → o = Some true.
Proof. by destruct o as [[]|]. Qed.

Lemma enumerate_device_inv st d st' : enumerate_inv st → enumerate_device st d = Ok st' → enumerate_inv st'.
Proof.
  destruct st as [out seen]. intros (Hout & Hseen & Hnd). unfold enumerate_device.
  destruct (negb (default false (q_available d)) || _ || _) eqn:Hq; [by intros [= <-]|].
  apply orb_false_iff in Hq as [[Ha Hc]%orb_false_iff Hl].
  set (pci := device_pci d (default 0 (q_vendor d))).
  destruct (negb (bool_decide (pci = EmptyString)) && bool_decide (pci ∈ seen)) eqn:Hdup; [by intros [= <-]|].
  intros (name & _ & [= <-])%bind_Ok. cbn [fst snd] in *.
  assert (∀ g, pci_bus g = pci → pcis ((out ++ [(d, g)]).*2) =
    pcis out.*2 ++ (if bool_decide (pci = EmptyString) then [] else [pci])) as Hpcis.
  { intros g Hg. unfold pcis. rewrite !fmap_app, filter_app. cbn [fmap list_fmap snd]. rewrite Hg, filter_cons, filter_nil.
    f_equal. destruct (decide (pci = EmptyString)) as [E|E].
    - rewrite decide_False, bool_decide_eq_true_2 by (try done; intros H; by apply H). done.
    - by rewrite decide_True, bool_decide_eq_false_2 by done. }
  split_and!; cbn [fst snd].
  - intros i d' g Hi. apply lookup_app_Some in Hi as [Hi|[Hge Hi]]; [by apply Hout|].
    apply list_lookup_singleton_Some in Hi as [Hi [= <- <-]].
    unfold enumerated. cbn. split_and!; try done; try (by apply default_false_true); lia.
  - rewrite Hpcis by done. intros s [Hs|Hs]%elem_of_app.
    + case_bool_decide; [by apply Hseen|]. apply elem_of_union. right. by apply Hseen.
    + case_bool_decide; [by apply elem_of_nil in Hs|]. apply list_elem_of_singleton in Hs as ->. set_solver.
  - rewrite Hpcis by done. apply NoDup_app. split_and!; [exact Hnd| |case_bool_decide; [constructor|apply NoDup_singleton]].
    intros s Hs Hin. case_bool_decide; [by apply elem_of_nil in Hin|].
    apply list_elem_of_singleton in Hin as ->. cbn [negb andb] in Hdup. case_bool_decide; [done|]. by apply Hseen in Hs.
Qed.

Lemma enumerate_devices_inv ds st st' : enumerate_inv st → enumerate_devices ds st = Ok st' → enumerate_inv st'.
Proof.
  revert st. induction ds as [|d ds IH]; cbn [enumerate_devices]; intros st Hi; [by intros [= <-]|].
  intros (st1 & H1 & H2)%bind_Ok. eapply IH; [|exact H2]. by eapply enumerate_device_inv.
Qed.

Lemma enumerate_platforms_inv ps st st' : enumerate_inv st → enumerate_platforms ps st = Ok st' → enumerate_inv st'.
Proof.
  revert st. induction ps as [|[code ds] ps IH]; cbn [enumerate_platforms]; intros st Hi; [by intros [= <-]|].
  destruct (code =? -1); [by apply IH|]. intros (? & _ & (st1 & H1 & H2)%bind_Ok)%bind_Ok.
  eapply IH; [|exact H2]. by eapply enumerate_devices_inv.
Qed.

Lemma enumerate_spec rt ds : enumerate rt = Ok ds → enumerate_inv (ds, list_to_set (pcis ds.*2)).
Proof.
  intros He. assert (enumerate_inv ([], ∅)) as H0.
  { split_and!; [done|intros s Hs; by apply elem_of_nil in Hs|constructor]. }
  assert (∃ seen, enumerate_inv (ds, seen)) as (seen & H1 & _ & H3).
  { destruct rt as [[code ps]|]; cbn in He; [|apply Ok_inj in He as <-; by eexists].
    destruct (code =? -1001); [apply Ok_inj in He as <-; by eexists|].
    apply bind_Ok in He as (? & _ & ([out seen] & Hp & [= <-])%bind_Ok).
    exists seen. by eapply enumerate_platforms_inv. }
  split_and!; [exact H1| |exact H3]. intros s Hs. by apply elem_of_list_to_set.
Qed.

(** ** Merging the lists *)

Lemma append_devices_spec ds out :
  append_devices out ds = out ++ imap (λ i d, set_index (Z.of_nat (length out + i)) d) ds.
Proof.
  unfold append_devices. revert out. induction ds as [|d ds IH]; intros out; [by rewrite app_nil_r|].
  rewrite fold_left_cons, IH, <- app_assoc. f_equal. cbn [app imap]. rewrite Nat.add_0_r. f_equal.
  apply imap_ext. intros i x _. cbn. f_equal. rewrite length_app. cbn. lia.
Qed.

Lemma cuda_device_list_spec ds i out : cuda_device_list i ds = Ok out →
  ∀ k g, out !! k = Some g → index g = i + Z.of_nat k ∧ api g = cuda.
Proof.
  revert i out. induction ds as [|q ds IH]; intros i out; cbn [cuda_device_list]; [by intros [= <-]|].
  intros (p & _ & (rest & Hr & [= <-])%bind_Ok)%bind_Ok [|k] g Hk; cbn in Hk.
  - injection Hk as <-. cbn. split; [lia|done].
  - destruct (IH _ _ Hr k g Hk). split; [lia|done].
Qed.

Lemma cuda_devices_spec code ds err out : cuda_devices code ds err = Ok out →
  ∀ k g, out !! k = Some g → index g = Z.of_nat k ∧ api g = cuda.
Proof.
  unfold cuda_devices. destruct (_ || _); [by intros [= <-]|]. intros (? & _ & H)%bind_Ok k g Hk.
  destruct (cuda_device_list_spec _ _ _ H k g Hk). split; [lia|done].
Qed.

Lemma lookup_append out ds i g : append_devices out ds !! i = Some g →
  out !! i = Some g ∨ ∃ k d, ds !! k = Some d ∧ i = (length out + k)%nat ∧ g = set_index (Z.of_nat i) d.
Proof.
  rewrite append_devices_spec. intros [H|[Hge H]]%lookup_app_Some; [by left|right].
  rewrite list_lookup_imap in H. destruct (ds !! (i - length out)%nat) as [d|] eqn:Hd; [|done].
  injection H as <-. exists (i - length out)%nat, d. split_and!; [done|lia|]. do 2 f_equal. lia.
Qed.

Lemma pci_renumbered (f : nat → Z) l :
  pci_bus <$> filter (λ g, api g = opencl) (imap (λ i d, set_index (f i) d) l) `sublist_of` pci_bus <$> l.
Proof.
  revert f. induction l as [|e l IH]; intros f; [constructor|]. cbn [imap]. rewrite filter_cons.
  case_decide; cbn [fmap list_fmap]; constructor; apply (IH (f ∘ S)).
Qed.

(** The CUDA part of the list. *)
Lemma cuda_part mode code ds err cs i g :
  (if bool_decide (mode = "opencl") then Ok [] else cuda_devices code ds err) = Ok cs →
  ((λ d, set_backend_index (index d) d) <$> cs) !! i = Some g →
  mode ≠ "opencl" ∧ index g = Z.of_nat i ∧ backend_index g = index g ∧ api g = cuda.
Proof.
  intros Hcs (g0 & -> & Hg0)%list_lookup_fmap_Some. case_bool_decide; [by apply Ok_inj in Hcs as <-|].
  destruct (cuda_devices_spec _ _ _ _ Hcs i g0 Hg0). by split_and!.
Qed.

Lemma no_opencl_pcis l : (∀ g, g ∈ l → api g = cuda) → pcis (filter (λ g, api g = opencl) l) = [].
Proof.
  intros Ha. assert (filter (λ g, api g = opencl) l = []) as ->; [|done].
  induction l as [|g l IH]; [done|]. rewrite filter_cons.
  rewrite decide_False by (rewrite Ha by set_solver; done). apply IH. set_solver.
Qed.

(** What [opencl_devices] lists. *)
Lemma opencl_part rt es (P : GpuInfo → Prop) `{∀ g, Decision (P g)} k e : enumerate rt = Ok es →
  filter P es.*2 !! k = Some e →
  P e ∧ api e = opencl ∧ ∃ d (j : nat), es !! j = Some (d, e) ∧ backend_index e = Z.of_nat j.
Proof.
  intros Hes Hk. destruct (enumerate_spec rt es Hes) as (He & _ & _).
  apply list_elem_of_lookup_2, list_elem_of_filter in Hk as [HP Hin].
  apply list_elem_of_fmap in Hin as ([d e'] & -> & [j Hj]%list_elem_of_lookup).
  destruct (He j d e' Hj) as (_ & Hb & Ha & _). split_and!; [done|done|by exists d, j].
Qed.

(** the list [gpu_devices] hands to the miner: every device's index is its
    position; a CUDA device keeps its CUDA number and an OpenCL device the number
    [opencl_backend] finds it under; no PCI address is listed twice among the
    OpenCL devices; and when CUDA devices are present in automatic mode only AMD
    devices are taken from OpenCL, so an NVIDIA card is not mined twice. *)
Theorem gpu_devices_spec mode code ds err rt out :
  gpu_devices mode (cuda_devices code ds err) rt = Ok out →
  (∀ i g, out !! i = Some g → index g = Z.of_nat i) ∧
  (∀ g, g ∈ out → api g = cuda → mode ≠ "opencl" ∧ backend_index g = index g) ∧
  (∀ g, g ∈ out → api g = opencl → mode ≠ "cuda" ∧ ∃ es d e, enumerate rt = Ok es ∧
     es !! Z.to_nat (backend_index g) = Some (d, e) ∧ 0 ≤ backend_index g ∧
     name g = name e ∧ pci_bus g = pci_bus e ∧ amd g = amd e) ∧
  NoDup (pcis (filter (λ g, api g = opencl) out)) ∧
  (mode = "auto" → (∃ g, g ∈ out ∧ api g = cuda) → ∀ g, g ∈ out → api g = opencl → amd g = true).
Proof.
  unfold gpu_devices. intros (? & Hmode%throw_if_Ok & Hrun)%bind_Ok.
  apply bind_Ok in Hrun as (cs & Hcs & Hrun).
  pose proof (λ i g, cuda_part mode code ds err cs i g Hcs) as H0.
  set (out0 := (λ d, set_backend_index (index d) d) <$> cs) in *. clearbody out0.
  assert (pcis (filter (λ g, api g = opencl) out0) = []) as H1.
  { apply no_opencl_pcis. intros g [i Hi]%list_elem_of_lookup. by apply (H0 i). }
  destruct (decide (mode = "cuda")) as [Hm|Hm].
  { rewrite bool_decide_eq_true_2 in Hrun by done. apply Ok_inj in Hrun as <-. rewrite H1.
    split_and!; [naive_solver| | |constructor|by intros ->];
      intros g [i Hi]%list_elem_of_lookup; destruct (H0 i g Hi) as (? & ? & ? & ?); naive_solver congruence. }
  rewrite bool_decide_eq_false_2 in Hrun by done. apply bind_Ok in Hrun as (os & Hos & [= <-]).
  unfold opencl_devices in Hos. apply bind_Ok in Hos as (es & Hes & [= <-]).
  set (P := λ d : GpuInfo, _ = true) in *. pose proof (λ k e, opencl_part rt es P k e Hes) as Hcl.
  split_and!.
  - intros i g [Hi|(k & e & Hk & -> & ->)]%lookup_append; [by apply (H0 i)|done].
  - intros g [i [Hi|(k & e & Hk & -> & ->)]%lookup_append]%list_elem_of_lookup Hc; [by destruct (H0 i g Hi) as (? & ? & ? & ?)|].
    destruct (Hcl k e Hk) as (_ & Ha & _). cbn in Hc. congruence.
  - intros g [i [Hi|(k & e & Hk & -> & ->)]%lookup_append]%list_elem_of_lookup Ho.
    { destruct (H0 i g Hi) as (_ & _ & _ & ?). congruence. }
    destruct (Hcl k e Hk) as (_ & _ & d & j & Hj & Hb). split; [done|]. exists es, d, e. cbn. rewrite Hb, Nat2Z.id.
    by split_and!; [..|lia| | |].
  - rewrite append_devices_spec, filter_app. unfold pcis in *. rewrite fmap_app, filter_app, H1. cbn [app].
    eapply sublist_NoDup; [apply (enumerate_spec rt es Hes)|]. apply sublist_filter_mono.
    etrans; [apply (pci_renumbered (λ i, Z.of_nat (length out0 + i)))|]. apply fmap_sublist, sublist_filter.
  - intros -> (g0 & [j [Hj|(k & e & Hk & -> & ->)]%lookup_append]%list_elem_of_lookup & Hc)
      g [i [Hi|(k' & e' & Hk' & -> & ->)]%lookup_append]%list_elem_of_lookup Ho.
    1, 3: destruct (H0 i g Hi) as (_ & _ & _ & ?); congruence.
    + destruct (Hcl k' e' Hk') as (HP & _). unfold P in HP. cbn. by destruct out0.
    + destruct (Hcl k e Hk) as (_ & Ha & _). cbn in Hc. congruence.
Qed.

(** Two cards visible twice: through CUDA and OpenCL, and through two OpenCL
    drivers. *)
Definition sample_device (vendor bus : Z) : ClDevice :=
  {| handle := bus; q_available := Some true; q_compiler := Some true; q_little := Some true;
     q_vendor := Some vendor; q_pci := Some (0, bus, 0, 0); q_topology := None;
     q_name := Ok [x67; x66; x78; x00]; q_board := Throw (runtime_error "none"); q_extensions := Ok [x20] |}.
Definition sample_runtime : runtime :=
  Some (0, [(0, [sample_device 0x10de 1; sample_device 0x1002 2]); (-1, []); (0, [sample_device 0x1002 2])]).

Lemma gpu_devices_spec_witness :
  ∃ out, gpu_devices "auto" (cuda_devices 0 [Ok ("RTX", "0000:01:00.0")] "error") sample_runtime = Ok out ∧
    (backend_index <$> out) = [0; 1] ∧ (pci_bus <$> out) = ["0000:01:00.0"; "0000:02:00.0"] ∧
    (∀ i g, out !! i = Some g → index g = Z.of_nat i).
Proof.
  eexists. split; [vm_compute; reflexivity|]. split; [reflexivity|]. split; [reflexivity|].
  exact (proj1 (gpu_devices_spec "auto" 0 [Ok ("RTX", "0000:01:00.0")] "error" sample_runtime _
    ltac:(vm_compute; reflexivity))).
Defined.

(** ** Construction *)

Lemma release_members ms held : fold_left release_member ms held = held ∖ list_to_set ms.
Proof.
  revert held. induction ms as [|m ms IH]; intros held; [set_solver|]. rewrite fold_left_cons, IH.
  unfold release_member. case_bool_decide; set_solver.
Qed.

Definition members : gset string :=
  {["context"; "queue"; "program"; "scanner"; "diagnostic"; "input"; "hits"; "nonces"]}.

Section construct_correct.
Context (create : string → result unit) (maximum : string → result Z).

Ltac leak_case :=
  unfold throw_if, release, st_modify; cbn [negb fst snd]; rewrite release_members; set_solver.

Lemma open_objects_no_leak group :
  wp (open_objects create maximum group) (λ held res, match res with
    | Ok _ => held = members ∧ ∀ k, k ∈ ["scan"; "hashes"] → ∃ m, maximum k = Ok m ∧ group ≤ m
    | Throw _ => held = ∅ end) ∅.
Proof.
  unfold wp, open_objects, st_catch, throw_if, obtain, check_group, st_require, st_lift, st_modify, mbind, stM_bind.
  destruct (create "create context") as [[]|]; [|leak_case].
  destruct (create "create queue") as [[]|]; [|leak_case].
  destruct (create "create program") as [[]|]; [|leak_case].
  destruct (create "build program") as [[]|]; [|leak_case].
  destruct (create "scan kernel") as [[]|]; [|leak_case].
  destruct (create "diagnostic kernel") as [[]|]; [|leak_case].
  destruct (maximum "scan") as [m1|] eqn:E1; [|leak_case].
  destruct (group <=? m1) eqn:L1; [|leak_case].
  destruct (maximum "hashes") as [m2|] eqn:E2; [|leak_case].
  destruct (group <=? m2) eqn:L2; [|leak_case].
  destruct (create "input buffer") as [[]|]; [|leak_case].
  destruct (create "counter buffer") as [[]|]; [|leak_case].
  destruct (create "nonce buffer") as [[]|]; [|leak_case].
  cbn [fst snd negb]. split; [unfold members; set_solver|]. bool_lia.
  intros k [->|[->|Hk%elem_of_nil]%elem_of_cons]%elem_of_cons; [by exists m1|by exists m2|done].
Qed.

(** the OpenCL constructor leaks nothing: it ends holding its eight objects,
    with a work group no larger than either kernel allows, or throws holding
    none of them. *)
Theorem new_opencl_no_leak rt idx group variant :
  match new_opencl create maximum rt idx group variant ∅ with
  | (held, Ok r) => held = members ∧ select_device rt idx group variant = Ok r ∧
      ∀ k, k ∈ ["scan"; "hashes"] → ∃ m, maximum k = Ok m ∧ group ≤ m
  | (held, Throw _) => held = ∅
  end.
Proof.
  unfold new_opencl, st_lift, mbind, stM_bind.
  destruct (select_device rt idx group variant) as [r|e]; [|done].
  pose proof (open_objects_no_leak group) as H. unfold wp in H.
  destruct (open_objects create maximum group ∅) as [held [[]|e]]; cbn in *; naive_solver.
Qed.
End construct_correct.
