(* ===== verification/Amd.v ===== *)
(** * AMD management through sysfs

    src/src/hardware/amd.cpp: telemetry, the control plan and its application.
    The sysfs tree below the PCI device directory root is a parameter: its files
    and directory listings when reading, and which writes it accepts.  Errors of
    advancing a directory iterator are not modelled. *)
From Stdlib Require Import SpecFloat.
From S2P Require Import Prelude Words Hex Targets Devices.

(** ** Text input *)

(** [in >> n] for a [w]-bit unsigned [n]: the value and the rest of the stream;
    [None] when the stream fails.  A minus sign negates modulo 2^w. *)
Definition read_unsigned (w : Z) (s : Bytes) : option (Z * Bytes) :=
  let s := drop_while is_space s in
  let '(neg, s) := match s with
    | c :: r => if b2z c =? 45 then (true, r) else if b2z c =? 43 then (false, r) else (false, s)
    | [] => (false, s) end in
  let ds := take_while is_digit s in
  let v := dec_value ds in
  if bool_decide (ds = []) || (2 ^ w <=? v) then None
  else Some (if neg : bool then (- v) mod 2 ^ w else v, drop_while is_digit s).
(** [in >> c] for a [char]. *)
Definition read_char (s : Bytes) : option (byte * Bytes) :=
  match drop_while is_space s with c :: r => Some (c, r) | [] => None end.
(** [in >> word] for a [std::string]. *)
Definition read_word (s : Bytes) : Bytes := take_while (negb ∘ is_space) (drop_while is_space s).
(** The lines [std::getline] returns. *)
Fixpoint lines_from (line s : Bytes) : list Bytes :=
  match s with
  | [] => match line with [] => [] | _ => [line] end
  | c :: s => if b2z c =? 10 then line :: lines_from [] s else lines_from (line ++ [c]) s
  end.
Definition lines (s : Bytes) : list Bytes := lines_from [] s.

(** ** The file system *)

Definition path : Type := list string.
Record sysfs := {
  content : path → option Bytes;
  present : path → bool;
  entries : path → list string
}.
Definition filename (p : path) : string := default EmptyString (last p).

Section readings.
Context (fs : sysfs).

(** An [std::ifstream] that does not open reads as empty. *)
Definition stream (p : path) : Bytes := default [] (content fs p).
Definition number (p : path) : option Z := fst <$> read_unsigned 64 (stream p).

(** [in >> index >> colon >> value && colon == ':']. *)
Definition read_level (line : Bytes) : option (Z * Z) :=
  '(level, s) ← read_unsigned 32 line;
  '(colon, s) ← read_char s;
  '(mhz, _) ← read_unsigned 32 s;
  if b2z colon =? 58 then Some (level, mhz) else None.

Fixpoint clock_lines (ls : list Bytes) : option Z :=
  match ls with
  | [] => None
  | l :: ls =>
      if existsb (λ c, b2z c =? 42) l then
        match read_level l with Some (_, mhz) => Some mhz | None => clock_lines ls end
      else clock_lines ls
  end.
Definition clock (p : path) : option Z := clock_lines (lines (stream p)).

(** The regular expression of a PCI address. *)
Definition valid_pci (s : string) : bool :=
  match String.list_byte_of_string s with
  | [a; b; c; d; c1; e; f; c2; g; h; dot; k] =>
      forallb is_hex_digit [a; b; c; d; e; f; g; h] && (b2z c1 =? 58) && (b2z c2 =? 58) && (b2z dot =? 46)
      && (48 <=? b2z k) && (b2z k <=? 55)
  | _ => false
  end.
Definition is_amd_vendor (p : path) : bool :=
  bool_decide (read_word (stream (p ++ ["vendor"])) = String.list_byte_of_string "0x1002").

(** The first hwmon directory whose driver is amdgpu. *)
Definition hwmon (device : path) : option path :=
  (λ e, device ++ ["hwmon"; e]) <$> (snd <$> list_find (λ e,
    read_word (stream (device ++ ["hwmon"; e; "name"])) = String.list_byte_of_string "amdgpu")
    (entries fs (device ++ ["hwmon"]))).

Definition f64_of_Z (z : Z) : spec_float := binary_normalize 53 1024 z 0 false.
(** [n / 1e6] on a [uint64_t]. *)
Definition micro (n : Z) : spec_float := SFdiv 53 1024 (f64_of_Z n) (f64_of_Z 1000000).

Record GpuReadings := {
  temperature : option Z; fan_percent : option Z; core_mhz : option Z; memory_mhz : option Z;
  utilization : option Z; watts : option spec_float; power_limit : option spec_float; error : string
}.
Definition no_readings (e : string) : GpuReadings :=
  {| temperature := None; fan_percent := None; core_mhz := None; memory_mhz := None;
     utilization := None; watts := None; power_limit := None; error := e |}.

Definition or_else {A} (o p : option A) : option A := match o with Some _ => o | None => p end.

Definition amd_readings (d : GpuInfo) : GpuReadings :=
  if negb (valid_pci (pci_bus d)) then no_readings "AMD PCI mapping unavailable"
  else
    let device := [pci_bus d] in
    if negb (is_amd_vendor device) then no_readings "AMD PCI device not found in sysfs"
    else
      let hw := hwmon device in
      let of_hw {A} (f : path → option A) : option A := hw ≫= f in
      let temp := of_hw (λ hw, (λ n, u32 (n / 1000)) <$> number (hw ++ ["temp1_input"])) in
      let fan := of_hw (λ hw,
        match number (hw ++ ["pwm1"]), number (hw ++ ["pwm1_max"]) with
        | Some fan, Some maximum => if maximum =? 0 then None else Some (u32 (u64 (fan * 100) / maximum))
        | _, _ => None
        end) in
      let power := of_hw (λ hw, micro <$>
        or_else (number (hw ++ ["power1_average"])) (number (hw ++ ["power1_input"]))) in
      let limit := of_hw (λ hw, micro <$> number (hw ++ ["power1_cap"])) in
      let freq (f : string) := of_hw (λ hw, (λ n, u32 (n / 1000000)) <$> number (hw ++ [f])) in
      {| temperature := temp; fan_percent := fan;
         core_mhz := or_else (freq "freq1_input") (clock (device ++ ["pp_dpm_sclk"]));
         memory_mhz := or_else (freq "freq2_input") (clock (device ++ ["pp_dpm_mclk"]));
         utilization := u32 <$> number (device ++ ["gpu_busy_percent"]);
         watts := power; power_limit := limit;
         error := match temp, power with None, None => "AMD hwmon telemetry unavailable" | _, _ => EmptyString end |}.
End readings.

(** ** The control plan *)

Record AmdWrite := { w_path : path; w_value : string }.
#[export] Instance AmdWrite_eq_dec : EqDecision AmdWrite.
Proof. solve_decision. Defined.
Record AmdPlan := { writes : list AmdWrite; events : list string; fan_restore : option AmdWrite }.
Definition empty_plan : AmdPlan := {| writes := []; events := []; fan_restore := None |}.

Section plan.
Context (fs : sysfs).

(** The lambda [add]: the plan [p] grows by one write. *)
Definition add (file : path) (value : string) : stM AmdPlan unit :=
  _ ← st_require (present fs file) ("AMD driver does not expose " +:+ filename file);
  st_modify (λ p, {| writes := writes p ++ [{| w_path := file; w_value := value |}];
                     events := events p; fan_restore := fan_restore p |}).
Definition event (e : string) : stM AmdPlan unit :=
  st_modify (λ p, {| writes := writes p; events := events p ++ [e]; fan_restore := fan_restore p |}).
Definition set_restore (w : AmdWrite) : stM AmdPlan unit :=
  st_modify (λ p, {| writes := writes p; events := events p; fan_restore := Some w |}).

Definition plan_power (hw : option path) (power : Z) : stM AmdPlan unit :=
  match hw with
  | None => st_throw "AMD hwmon unavailable for power control"
  | Some hw =>
      let requested := if power =? 0 then number fs (hw ++ ["power1_cap_default"]) else Some (power * 1000000) in
      match number fs (hw ++ ["power1_cap_min"]), number fs (hw ++ ["power1_cap_max"]), requested with
      | Some lo, Some hi, Some requested =>
          _ ← st_require (negb ((requested <? lo) || (hi <? requested))) "AMD power limit outside driver range";
          _ ← add (hw ++ ["power1_cap"]) (pretty requested);
          event ("power limit " +:+ pretty (requested / 1000000) +:+ " W applied")
      | _, _, _ => st_throw "AMD power limits/default unavailable"
      end
  end.

(** The lambda [level]: the index of the first advertised level of [mhz]. *)
Fixpoint find_level (ls : list Bytes) (mhz : Z) : option Z :=
  match ls with
  | [] => None
  | l :: ls =>
      match read_level l with
      | Some (idx, value) => if value =? mhz then Some idx else find_level ls mhz
      | None => find_level ls mhz
      end
  end.
Definition level (file : path) (mhz : Z) : stM AmdPlan string :=
  match find_level (lines (stream fs file)) mhz with
  | Some idx => mret (pretty idx)
  | None => st_throw ("AMD clock must match a driver-advertised MHz level in " +:+ filename file)
  end.

Definition is_zero (o : option Z) : bool := match o with Some v => v =? 0 | None => false end.
Definition is_nonzero (o : option Z) : bool := match o with Some v => negb (v =? 0) | None => false end.

(** One clock domain of the locked branch, after the level was looked up. *)
Definition plan_level (device : path) (file domain : string) (sel : option (Z * string)) : stM AmdPlan unit :=
  match sel with
  | None => mret tt
  | Some (mhz, idx) =>
      _ ← add (device ++ [file]) idx;
      event (domain +:+ " clock DPM level " +:+ pretty mhz +:+ " MHz applied")
  end.
Definition lookup_level (device : path) (file : string) (mhz : option Z) : stM AmdPlan (option (Z * string)) :=
  match mhz with
  | None => mret None
  | Some mhz => idx ← level (device ++ [file]) mhz; mret (Some (mhz, idx))
  end.

Definition plan_clocks (device : path) (core memory : option Z) : stM AmdPlan unit :=
  let reset := is_zero core || is_zero memory in
  _ ← st_require (negb (reset && (is_nonzero core || is_nonzero memory)))
        "AMD clock reset applies to both domains; cannot combine reset and locked clocks";
  if reset then
    _ ← add (device ++ ["power_dpm_force_performance_level"]) "auto";
    event "core and memory clock policy automatic applied"
  else
    sc ← lookup_level device "pp_dpm_sclk" core;
    mc ← lookup_level device "pp_dpm_mclk" memory;
    _ ← add (device ++ ["power_dpm_force_performance_level"]) "manual";
    _ ← plan_level device "pp_dpm_sclk" "core" sc;
    plan_level device "pp_dpm_mclk" "memory" mc.

Definition plan_fan (hw : option path) (fan : Z) : stM AmdPlan unit :=
  match (if 100 <? fan then None else hw) with
  | None => st_throw "AMD fan control unavailable or invalid percentage"
  | Some hw =>
      _ ← (if fan =? 0 then add (hw ++ ["pwm1_enable"]) "2"
           else
             match number fs (hw ++ ["pwm1_max"]) with
             | None => st_throw "AMD fan PWM range unavailable"
             | Some maximum =>
                 _ ← st_require (negb (maximum =? 0)) "AMD fan PWM range unavailable";
                 match number fs (hw ++ ["pwm1_enable"]) with
                 | None => st_throw "AMD current fan policy unavailable"
                 | Some policy =>
                     _ ← st_require (policy <=? 2) "AMD current fan policy unavailable";
                     _ ← set_restore {| w_path := hw ++ ["pwm1_enable"]; w_value := pretty policy |};
                     _ ← add (hw ++ ["pwm1_enable"]) "1";
                     add (hw ++ ["pwm1"]) (pretty (u64 (u64 (maximum * fan) + 50) / 100))
                 end
             end);
      event (if fan =? 0 then "automatic fan control applied" else "fan " +:+ pretty fan +:+ "% applied")
  end.

Definition when {S} (o : option Z) (f : Z → stM S unit) : stM S unit :=
  match o with Some v => f v | None => mret tt end.

Definition amd_control_plan (d : GpuInfo) (core memory power fan : option Z) : result AmdPlan :=
  _ ← throw_if (negb (valid_pci (pci_bus d))) "AMD PCI mapping unavailable";
  let device := [pci_bus d] in
  _ ← throw_if (negb (is_amd_vendor fs device)) "AMD PCI vendor mismatch";
  let hw := hwmon fs device in
  let run : stM AmdPlan unit :=
    _ ← when power (plan_power hw);
    _ ← match core, memory with None, None => mret tt | _, _ => plan_clocks device core memory end;
    when fan (plan_fan hw) in
  match run empty_plan with
  | (p, Ok _) => Ok p
  | (_, Throw e) => Throw e
  end.
End plan.

(** ** Applying a plan *)

Section apply.
(** Whether the tree accepts a write after the writes made so far, and the
    message of a refusal. *)
Variable accepts : list AmdWrite → AmdWrite → bool.
Variable refusal : AmdWrite → string.

(** The state is the list of writes that reached the tree. *)
Definition write (w : AmdWrite) : stM (list AmdWrite) unit := fun log =>
  if accepts log w then (log ++ [w], Ok tt)
  else (log, Throw (runtime_error ("AMD write failed for " +:+ filename (w_path w) +:+ ": " +:+ refusal w))).

(** The write loop, with the flag [fan_changed]. *)
Fixpoint write_all (restore : option AmdWrite) (ws : list AmdWrite) (fan_changed : bool)
    (log : list AmdWrite) : list AmdWrite * result unit * bool :=
  match ws with
  | [] => (log, Ok tt, fan_changed)
  | w :: ws =>
      match write w log with
      | (log, Throw e) => (log, Throw e, fan_changed)
      | (log, Ok _) =>
          let changed := match restore with Some r => bool_decide (w_path w = w_path r) | None => false end in
          write_all restore ws (fan_changed || changed) log
      end
  end.

Definition amd_apply (p : AmdPlan) : stM (list AmdWrite) unit := fun log =>
  match write_all (fan_restore p) (writes p) false log with
  | (log, Ok _, _) => (log, Ok tt)
  | (log, Throw e, false) => (log, Throw e)
  | (log, Throw e, true) =>
      match fan_restore p with
      | None => (log, Throw e)
      | Some r =>
          match write r log with
          | (log, Ok _) => (log, Throw e)
          | (log, Throw e') =>
              (log, Throw (runtime_error (what e +:+ "; previous fan policy could not be restored: " +:+ what e')))
          end
      end
  end.
End apply.

(** ** Plans are safe *)

(** The writes a plan may contain, for the device directory [device] and the
    requested settings. *)
Inductive safe_write (fs : sysfs) (device : path) (core memory power fan : option Z) : AmdWrite → Prop :=
| safe_power hw lo hi v : hwmon fs device = Some hw →
    number fs (hw ++ ["power1_cap_min"]) = Some lo → number fs (hw ++ ["power1_cap_max"]) = Some hi →
    lo ≤ v ≤ hi →
    (power = Some 0 ∧ number fs (hw ++ ["power1_cap_default"]) = Some v ∨
     ∃ p, power = Some p ∧ p ≠ 0 ∧ v = p * 1000000) →
    safe_write fs device core memory power fan {| w_path := hw ++ ["power1_cap"]; w_value := pretty v |}
| safe_policy v : v ∈ ["auto"; "manual"] →
    safe_write fs device core memory power fan
      {| w_path := device ++ ["power_dpm_force_performance_level"]; w_value := v |}
| safe_level file mhz idx line :
    (file = "pp_dpm_sclk" ∧ core = Some mhz ∨ file = "pp_dpm_mclk" ∧ memory = Some mhz) →
    line ∈ lines (stream fs (device ++ [file])) → read_level line = Some (idx, mhz) →
    safe_write fs device core memory power fan {| w_path := device ++ [file]; w_value := pretty idx |}
| safe_fan_policy hw v : hwmon fs device = Some hw → v ∈ ["1"; "2"] →
    safe_write fs device core memory power fan {| w_path := hw ++ ["pwm1_enable"]; w_value := v |}
| safe_pwm hw maximum f duty : hwmon fs device = Some hw →
    number fs (hw ++ ["pwm1_max"]) = Some maximum → fan = Some f → 1 ≤ f ≤ 100 →
    (maximum < 2 ^ 57 → duty = (maximum * f + 50) / 100 ∧ duty ≤ maximum) →
    safe_write fs device core memory power fan {| w_path := hw ++ ["pwm1"]; w_value := pretty duty |}.

Section plan_correct.
Context (fs : sysfs) (device : path) (core memory power fan : option Z).
Let hw := hwmon fs device.

Definition plan_ok (p : AmdPlan) : Prop :=
  Forall (λ w, present fs (w_path w) = true ∧ safe_write fs device core memory power fan w) (writes p) ∧
  ∀ r, fan_restore p = Some r → ∃ dir policy, hw = Some dir ∧
    number fs (dir ++ ["pwm1_enable"]) = Some policy ∧ policy ≤ 2 ∧
    r = {| w_path := dir ++ ["pwm1_enable"]; w_value := pretty policy |}.

(** [keeps m]: [m] preserves [plan_ok] whatever its outcome. *)
Definition keeps {A} (m : stM AmdPlan A) : Prop := ∀ p, plan_ok p → wp m (λ p' _, plan_ok p') p.

Lemma keeps_bind {A B} (m : stM AmdPlan A) (f : A → stM AmdPlan B) :
  keeps m → (∀ a, keeps (f a)) → keeps (m ≫= f).
Proof.
  intros Hm Hf p Hp. apply wp_bind. eapply wp_mono; [by apply Hm|].
  intros p' [a|e] Hp'; [by apply Hf|exact Hp'].
Qed.

Lemma keeps_ret {A} (a : A) : keeps (mret a).
Proof. intros p Hp. exact Hp. Qed.
Lemma keeps_throw {A} msg : keeps (@st_throw _ A msg).
Proof. intros p Hp. exact Hp. Qed.
Lemma keeps_require b msg : keeps (st_require b msg).
Proof. intros p Hp. exact Hp. Qed.
Lemma keeps_require_then {A} b msg (m : stM AmdPlan A) : (b = true → keeps m) → keeps (_ ← st_require b msg; m).
Proof.
  intros Hm p Hp. apply wp_bind, wp_require; intros E; [by apply Hm|exact Hp].
Qed.
Lemma keeps_event e : keeps (event e).
Proof. intros p Hp. exact Hp. Qed.
Lemma keeps_add file value :
  safe_write fs device core memory power fan {| w_path := file; w_value := value |} → keeps (add fs file value).
Proof.
  intros Hs p [Hw Hr]. unfold add. apply wp_bind, wp_require; intros E; [|by split].
  apply wp_modify. split; [|exact Hr]. apply Forall_app. split; [exact Hw|]. by apply Forall_singleton.
Qed.
Lemma keeps_restore dir policy : hw = Some dir → number fs (dir ++ ["pwm1_enable"]) = Some policy → policy ≤ 2 →
  keeps (set_restore {| w_path := dir ++ ["pwm1_enable"]; w_value := pretty policy |}).
Proof. intros Hd Hn Hp p [Hw _]. split; [exact Hw|]. intros r [= <-]. by exists dir, policy. Qed.

Hint Resolve keeps_ret keeps_throw keeps_require keeps_event : core.

Lemma keeps_power p : power = Some p → keeps (plan_power fs hw p).
Proof.
  intros Hp. unfold plan_power. destruct hw as [dir|] eqn:Hhw; [|auto].
  destruct (number fs (dir ++ ["power1_cap_min"])) as [lo|] eqn:Hlo; [|auto].
  destruct (number fs (dir ++ ["power1_cap_max"])) as [hi|] eqn:Hhi; [|auto].
  destruct (if p =? 0 then _ else _) as [v|] eqn:Hv; [|auto].
  apply keeps_require_then. intros Hr. apply keeps_bind; [|auto]. apply keeps_add.
  eapply safe_power; [done..|bool_lia|]. destruct (Z.eqb_spec p 0) as [->|Hne]; [by left|].
  right. exists p. by simplify_eq.
Qed.

Lemma find_level_spec ls mhz idx : find_level ls mhz = Some idx → ∃ line, line ∈ ls ∧ read_level line = Some (idx, mhz).
Proof.
  induction ls as [|l ls IH]; cbn [find_level]; [done|]. destruct (read_level l) as [[i v]|] eqn:Hl.
  - destruct (Z.eqb_spec v mhz) as [->|]; [intros [= ->]; exists l; split; [left|done]|].
    intros H. destruct (IH H) as (line & ? & ?). exists line. split; [by right|done].
  - intros H. destruct (IH H) as (line & ? & ?). exists line. split; [by right|done].
Qed.

(** Looking a level up keeps the plan, and what follows may rely on it. *)
Lemma keeps_lookup {A} file mhz (k : option (Z * string) → stM AmdPlan A) :
  (∀ sel, (∀ m s, sel = Some (m, s) → mhz = Some m ∧ ∃ idx line, s = pretty idx ∧
     line ∈ lines (stream fs (device ++ [file])) ∧ read_level line = Some (idx, m)) → keeps (k sel)) →
  keeps (sel ← lookup_level fs device file mhz; k sel).
Proof.
  intros Hk p Hp. unfold lookup_level, level. destruct mhz as [m|]; [|exact (Hk None ltac:(done) p Hp)].
  destruct (find_level (lines (stream fs (device ++ [file]))) m) as [idx|] eqn:Hf; [|exact Hp].
  apply find_level_spec in Hf as (line & Hl & Hr).
  refine (Hk (Some (m, pretty idx)) _ p Hp). intros m' s [= <- <-]. split; [done|]. by exists idx, line.
Qed.

Lemma keeps_level file domain sel mhz :
  (file = "pp_dpm_sclk" ∧ core = mhz ∨ file = "pp_dpm_mclk" ∧ memory = mhz) →
  (∀ m s, sel = Some (m, s) → mhz = Some m ∧ ∃ idx line, s = pretty idx ∧
     line ∈ lines (stream fs (device ++ [file])) ∧ read_level line = Some (idx, m)) →
  keeps (plan_level fs device file domain sel).
Proof.
  intros Hfile Hsel. unfold plan_level. destruct sel as [[m s]|]; [|auto].
  destruct (Hsel m s eq_refl) as (-> & idx & line & -> & Hl & Hr).
  apply keeps_bind; [|auto]. apply keeps_add. by eapply safe_level.
Qed.

Lemma keeps_clocks : keeps (plan_clocks fs device core memory).
Proof.
  unfold plan_clocks. apply keeps_require_then. intros _. destruct (is_zero core || is_zero memory).
  { apply keeps_bind; [|auto]. apply keeps_add, safe_policy. set_solver. }
  apply keeps_lookup. intros sc Hsc. apply keeps_lookup. intros mc Hmc.
  apply keeps_bind; [apply keeps_add, safe_policy; set_solver|]. intros _.
  apply keeps_bind; [|intros _]; [by eapply keeps_level; [left|]|by eapply keeps_level; [right|]].
Qed.

Lemma pwm_duty maximum f : 0 ≤ maximum → 1 ≤ f ≤ 100 → maximum < 2 ^ 57 →
  u64 (u64 (maximum * f) + 50) / 100 = (maximum * f + 50) / 100 ∧ u64 (u64 (maximum * f) + 50) / 100 ≤ maximum.
Proof.
  intros Hm Hf Hb. rewrite (u64_small (maximum * f)) by (unfold is_u64; nia).
  rewrite u64_small by (unfold is_u64; nia). split; [done|].
  apply Z.lt_succ_r, Z.div_lt_upper_bound; nia.
Qed.

Lemma read_unsigned_range w s v r : 0 < w → read_unsigned w s = Some (v, r) → 0 ≤ v < 2 ^ w.
Proof.
  intros Hw. unfold read_unsigned. destruct (match drop_while is_space s with [] => _ | _ => _ end) as [neg s'].
  destruct (bool_decide _ || _) eqn:E; [done|]. intros [= <- _]. apply orb_false_iff in E as [_ E%Z.leb_gt].
  pose proof (Z.pow_pos_nonneg 2 w ltac:(lia) ltac:(lia)).
  assert (0 ≤ dec_value (take_while is_digit s')).
  { apply dec_value_nonneg. clear. induction s' as [|c s IH]; [done|]. cbn. destruct (is_digit c) eqn:Ec; [|done].
    cbn. by rewrite Ec, IH. }
  destruct neg; [apply Z.mod_pos_bound; lia|lia].
Qed.

Lemma number_range p v : number fs p = Some v → is_u64 v.
Proof.
  unfold number. destruct (read_unsigned 64 (stream fs p)) as [[n r]|] eqn:E; [|done].
  intros [= <-]. by eapply read_unsigned_range.
Qed.

Lemma keeps_fan f : fan = Some f → 0 ≤ f → keeps (plan_fan fs hw f).
Proof.
  intros Hfan Hf. unfold plan_fan. destruct (Z.ltb_spec 100 f); [auto|].
  destruct hw as [dir|] eqn:Hhw; [|auto]. apply keeps_bind; [|auto].
  destruct (Z.eqb_spec f 0); [apply keeps_add; eapply safe_fan_policy; [done|set_solver]|].
  destruct (number fs (dir ++ ["pwm1_max"])) as [maximum|] eqn:Hm; [|auto].
  apply keeps_require_then. intros _.
  destruct (number fs (dir ++ ["pwm1_enable"])) as [policy|] eqn:Hp; [|auto].
  apply keeps_require_then. intros Hpol. apply keeps_bind; [apply keeps_restore; [done..|bool_lia]|]. intros _.
  apply keeps_bind; [apply keeps_add; eapply safe_fan_policy; [done|set_solver]|]. intros _.
  apply keeps_add. eapply safe_pwm; [done..|lia|].
  intros Hb. apply pwm_duty; [apply (number_range _ _ Hm)|lia|done].
Qed.
End plan_correct.

(** C40: every plan is safe: it only writes files the driver exposes under the
    device, a power cap inside the driver's limits, a clock level the driver
    advertises for the requested frequency, a fan policy or a PWM duty not above
    the maximum; and it remembers the fan policy the driver reported. *)
Theorem amd_plan_safe fs d core memory power fan p :
  (∀ f, fan = Some f → 0 ≤ f) → amd_control_plan fs d core memory power fan = Ok p →
  valid_pci (pci_bus d) = true ∧
  Forall (λ w, present fs (w_path w) = true ∧ safe_write fs [pci_bus d] core memory power fan w) (writes p) ∧
  (∀ r, fan_restore p = Some r → ∃ dir policy, hwmon fs [pci_bus d] = Some dir ∧
    number fs (dir ++ ["pwm1_enable"]) = Some policy ∧ policy ≤ 2 ∧
    r = {| w_path := dir ++ ["pwm1_enable"]; w_value := pretty policy |}).
Proof.
  intros Hfan. unfold amd_control_plan. intros (? & Hpci%throw_if_Ok & (? & _ & Hrun)%bind_Ok)%bind_Ok.
  split; [by apply negb_false_iff in Hpci|].
  set (run := when power _ ≫= _) in Hrun.
  assert (keeps fs [pci_bus d] core memory power fan run) as Hk.
  { unfold run. apply keeps_bind; [destruct power; [by apply keeps_power|apply keeps_ret]|]. intros _.
    apply keeps_bind; [destruct core, memory; (apply keeps_ret || apply keeps_clocks)|]. intros _.
    destruct fan as [f|]; [by apply keeps_fan; [|apply Hfan]|apply keeps_ret]. }
  assert (plan_ok fs [pci_bus d] core memory power fan empty_plan) as H0 by (split; [constructor|done]).
  specialize (Hk empty_plan H0). unfold wp in Hk. clearbody run.
  destruct (run empty_plan) as [p' [[]|e]]; [|discriminate Hrun]. apply Ok_inj in Hrun as <-. exact Hk.
Qed.

(** A card with a fan, a power limit and two memory levels. *)
Definition file (s : string) : option Bytes := Some (String.list_byte_of_string s).
Definition sample_content (p : path) : option Bytes :=
  match p with
  | [_; "vendor"] => file "0x1002"
  | [_; "hwmon"; "hwmon3"; f] =>
      if bool_decide (f = "name") then file "amdgpu"
      else if bool_decide (f = "power1_cap_min") then file "90000000"
      else if bool_decide (f = "power1_cap_max") then file "300000000"
      else if bool_decide (f = "pwm1_max") then file "255"
      else if bool_decide (f = "pwm1_enable") then file "2"
      else if bool_decide (f ∈ ["power1_cap"; "pwm1"]) then file "0" else None
  | [_; "pp_dpm_mclk"] => Some (String.list_byte_of_string "0: 96Mhz *" ++ [x0a] ++ String.list_byte_of_string "1: 1124Mhz")
  | [_; "power_dpm_force_performance_level"] => file "auto"
  | _ => None
  end.
Definition sample_fs : sysfs :=
  {| content := sample_content; present := λ p, bool_decide (is_Some (sample_content p));
     entries := λ p, ["hwmon3"] |}.
Definition sample_amd : GpuInfo :=
  {| index := 0; name := "gfx"; pci_bus := "0000:03:00.0"; api := opencl; backend_index := 0; amd := true |}.

Definition sample_plan : AmdPlan :=
  let dev := ["0000:03:00.0"] in let hw := ["0000:03:00.0"; "hwmon"; "hwmon3"] in
  {| writes := [{| w_path := hw ++ ["power1_cap"]; w_value := "150000000" |};
                {| w_path := dev ++ ["power_dpm_force_performance_level"]; w_value := "manual" |};
                {| w_path := dev ++ ["pp_dpm_mclk"]; w_value := "1" |};
                {| w_path := hw ++ ["pwm1_enable"]; w_value := "1" |};
                {| w_path := hw ++ ["pwm1"]; w_value := "153" |}];
     events := ["power limit 150 W applied"; "memory clock DPM level 1124 MHz applied"; "fan 60% applied"];
     fan_restore := Some {| w_path := hw ++ ["pwm1_enable"]; w_value := "2" |} |}.

Lemma amd_plan_safe_witness :
  amd_control_plan sample_fs sample_amd None (Some 1124) (Some 150) (Some 60) = Ok sample_plan ∧
  valid_pci (pci_bus sample_amd) = true.
Proof.
  assert (amd_control_plan sample_fs sample_amd None (Some 1124) (Some 150) (Some 60) = Ok sample_plan) as E
    by (vm_compute; reflexivity).
  split; [exact E|].
  refine (proj1 (amd_plan_safe sample_fs sample_amd None (Some 1124) (Some 150) (Some 60) sample_plan _ E)).
  intros f Hf. injection Hf as <-. lia.
Defined.

(** ** Application and roll-back *)

Section apply_correct.
Context (accepts : list AmdWrite → AmdWrite → bool) (refusal : AmdWrite → string).

(** The writes that switch the fan policy. *)
Definition switches_fan (p : AmdPlan) (done : list AmdWrite) : bool :=
  match fan_restore p with
  | Some r => existsb (λ w, bool_decide (w_path w = w_path r)) done
  | None => false
  end.

Definition write_error (w : AmdWrite) : string :=
  "AMD write failed for " +:+ filename (w_path w) +:+ ": " +:+ refusal w.

Lemma write_all_spec restore ws changed log :
  (write_all accepts refusal restore ws changed log =
     (log ++ ws, Ok tt, changed || match restore with
        | Some r => existsb (λ w, bool_decide (w_path w = w_path r)) ws | None => false end)) ∨
  ∃ done w rest, ws = done ++ w :: rest ∧ accepts (log ++ done) w = false ∧
    write_all accepts refusal restore ws changed log =
      (log ++ done, Throw (runtime_error (write_error w)), changed || match restore with
        | Some r => existsb (λ w, bool_decide (w_path w = w_path r)) done | None => false end).
Proof.
  revert changed log. induction ws as [|w ws IH]; intros changed log; cbn [write_all].
  { left. rewrite app_nil_r. by destruct restore; rewrite orb_false_r. }
  unfold write. destruct (accepts log w) eqn:Ha.
  2:{ right. exists [], w, ws. rewrite app_nil_r. split_and!; [done|done|]. unfold write_error.
      by destruct restore; rewrite orb_false_r. }
  destruct (IH (changed || match restore with Some r => bool_decide (w_path w = w_path r) | None => false end)
    (log ++ [w])) as [->|(done & w' & rest & -> & Hacc & ->)].
  - left. rewrite <- app_assoc. by destruct restore; [rewrite <- orb_assoc|rewrite !orb_false_r].
  - right. exists (w :: done), w', rest. rewrite <- app_assoc in *. split_and!; [done|done|].
    by destruct restore; [rewrite <- orb_assoc|rewrite !orb_false_r].
Qed.

Lemma amd_apply_outcome p log :
  amd_apply accepts refusal p log = (log ++ writes p, Ok tt) ∨
  ∃ done w rest, writes p = done ++ w :: rest ∧ accepts (log ++ done) w = false ∧
    amd_apply accepts refusal p log =
      if switches_fan p done then
        match fan_restore p with
        | Some r =>
            if accepts (log ++ done) r
            then (log ++ done ++ [r], Throw (runtime_error (write_error w)))
            else (log ++ done, Throw (runtime_error (write_error w +:+
                    "; previous fan policy could not be restored: " +:+ write_error r)))
        | None => (log ++ done, Throw (runtime_error (write_error w)))
        end
      else (log ++ done, Throw (runtime_error (write_error w))).
Proof.
  unfold amd_apply, switches_fan.
  destruct (write_all_spec (fan_restore p) (writes p) false log) as [->|(done & w & rest & Hw & Hacc & ->)];
    [by left|right]. exists done, w, rest. split; [exact Hw|]. split; [exact Hacc|]. cbn [orb].
  destruct (fan_restore p) as [r|]; [|done]. destruct (existsb _ done); [|done].
  unfold write. destruct (accepts (log ++ done) r); [by rewrite <- app_assoc|done].
Qed.

(** applying a plan either makes all its writes in order, or stops at the
    first refused one; then, if the fan policy had already been switched, the
    previous policy is written back last and the original error is rethrown, and
    only when that write is refused too does the error say so. *)
Theorem amd_apply_spec p log :
  amd_apply accepts refusal p log = (log ++ writes p, Ok tt) ∨
  ∃ done w rest, writes p = done ++ w :: rest ∧ accepts (log ++ done) w = false ∧
    amd_apply accepts refusal p log =
      if switches_fan p done then
        match fan_restore p with
        | Some r =>
            if accepts (log ++ done) r
            then (log ++ done ++ [r], Throw (runtime_error (write_error w)))
            else (log ++ done, Throw (runtime_error (write_error w +:+
                    "; previous fan policy could not be restored: " +:+ write_error r)))
        | None => (log ++ done, Throw (runtime_error (write_error w)))
        end
      else (log ++ done, Throw (runtime_error (write_error w))).
Proof. exact (amd_apply_outcome p log). Qed.
End apply_correct.
