(* ===== verification/Nvml.v ===== *)
(** * GPU management

    [broadcast_values] and [GpuManagement] of src/src/hardware/nvml.cpp.  The NVML
    library is a record of its answers; a call whose symbol is missing answers
    [None], any other call its return code (zero is success).  Hardware writes are
    recorded in the order they take effect. *)
From Stdlib Require Import SpecFloat.
From S2P Require Import Prelude Words Hex Targets Devices Amd.

Definition broadcast_values (v : list Z) (count : nat) : result (list Z) :=
  match v with
  | [] => Ok []
  | [x] => Ok (replicate count x)
  | _ =>
      _ ← throw_if (negb (length v =? count)%nat)
            "GPU control list must contain one value or one per selected GPU";
      Ok v
  end.

Record GpuControls := {
  c_core : list Z; c_memory : list Z; c_power : list Z; c_fan : list Z
}.
Definition requested (c : GpuControls) : bool :=
  negb (bool_decide (c_core c = [])) || negb (bool_decide (c_memory c = []))
  || negb (bool_decide (c_power c = [])) || negb (bool_decide (c_fan c = [])).

(** ** The driver *)

Inductive action :=
| SetPower (h mw : Z)
| LockClocks (h lo hi : Z) | ResetClocks (h : Z)
| LockMemory (h lo hi : Z) | ResetMemory (h : Z)
| SetFan (h fan percent : Z) | DefaultFan (h fan : Z)
| Sysfs (w : AmdWrite).
#[export] Instance action_eq_dec : EqDecision action.
Proof. solve_decision. Defined.

Definition action_name (a : action) : string :=
  match a with
  | SetPower _ _ => "nvmlDeviceSetPowerManagementLimit"
  | LockClocks _ _ _ => "nvmlDeviceSetGpuLockedClocks"
  | ResetClocks _ => "nvmlDeviceResetGpuLockedClocks"
  | LockMemory _ _ _ => "nvmlDeviceSetMemoryLockedClocks"
  | ResetMemory _ => "nvmlDeviceResetMemoryLockedClocks"
  | SetFan _ _ _ => "nvmlDeviceSetFanSpeed_v2"
  | DefaultFan _ _ => "nvmlDeviceSetDefaultFanSpeed_v2"
  | Sysfs _ => "sysfs"
  end.

Record nvml := {
  library : bool;                              (** the library loads *)
  init : option Z;
  error_string : option (Z → string);
  by_pci : option (string → option Z);         (** a device's handle *)
  get : string → Z → option Z;                 (** successful unsigned queries *)
  clock_info : Z → Z → option Z;
  limits : Z → option (Z * (Z * Z));           (** return code and both limits *)
  num_fans : Z → option (Z * Z);
  set : list action → action → option Z        (** writes, after those made *)
}.

Section management.
Context (nv : nvml) (fs : sysfs) (accepts : list action → AmdWrite → bool) (refusal : AmdWrite → string).

Definition error_text (code : Z) : string :=
  match error_string nv with Some f => f code | None => "NVML unavailable" end.
Definition checked (code : Z) (operation : string) : result unit :=
  throw_if (negb (code =? 0)) (operation +:+ ": " +:+ error_text code).
(** [call]. *)
Definition call {A} (nm : string) (answer : option (Z * A)) : result A :=
  match answer with
  | None => Throw (runtime_error (nm +:+ ": driver does not provide this operation"))
  | Some (code, a) => _ ← checked code nm; Ok a
  end.

(** ** Construction and telemetry *)

Record Impl := { devices : list GpuInfo; handles : list (option Z); unavailable : string }.
Definition new_impl (ds : list GpuInfo) : Impl :=
  let none u := {| devices := ds; handles := replicate (length ds) None; unavailable := u |} in
  if negb (library nv) then none "NVML library unavailable"
  else
    let code := default (-1) (init nv) in
    if negb (code =? 0) then none (error_text code)
    else
      match by_pci nv with
      | None => none "NVML PCI lookup unavailable"
      | Some get =>
          {| devices := ds; handles := (λ d, if amd d then None else get (pci_bus d)) <$> ds;
             unavailable := EmptyString |}
      end.

(** [w / 1000.0] on an unsigned. *)
Definition milli (w : Z) : spec_float := SFdiv 53 1024 (f64_of_Z w) (f64_of_Z 1000).

Definition sample (p : Impl) (position : nat) : GpuReadings :=
  match devices p !! position with
  | Some d =>
      if amd d then amd_readings fs d
      else
        match handles p !! position with
        | Some (Some h) =>
            let temp := get nv "nvmlDeviceGetTemperature" h in
            let w := milli <$> get nv "nvmlDeviceGetPowerUsage" h in
            {| temperature := temp; fan_percent := get nv "nvmlDeviceGetFanSpeed" h;
               core_mhz := clock_info nv h 0; memory_mhz := clock_info nv h 2;
               utilization := get nv "nvmlDeviceGetUtilizationRates" h; watts := w;
               power_limit := milli <$> get nv "nvmlDeviceGetPowerManagementLimit" h;
               error := match temp, w with None, None => "Driver telemetry unavailable" | _, _ => EmptyString end |}
        | _ => no_readings (if bool_decide (unavailable p = EmptyString) then "GPU telemetry unavailable" else unavailable p)
        end
  | None => no_readings (if bool_decide (unavailable p = EmptyString) then "GPU telemetry unavailable" else unavailable p)
  end.

(** ** Validation of all devices *)

(** One device's share of the requested settings. *)
Record settings := { s_core : option Z; s_memory : option Z; s_power : option Z; s_fan : option Z }.

Inductive device_plan :=
| AmdPlanned (p : AmdPlan)
| NvPlanned (h : Z) (mw fans : Z).

Definition resolve_power (idx h power : Z) : result Z :=
  '(lo, hi) ← call "nvmlDeviceGetPowerManagementLimitConstraints" (limits nv h);
  _ ← throw_if (4294967295 / 1000 <? power) "GPU power limit overflow";
  mw ← (if power =? 0 then
          match get nv "nvmlDeviceGetPowerManagementDefaultLimit" h with
          | Some d => Ok d
          | None => Throw (runtime_error "Default GPU power limit unavailable")
          end
        else Ok (u32 (power * 1000)));
  _ ← throw_if ((mw <? lo) || (hi <? mw)) ("GPU " +:+ pretty idx +:+ " power limit outside driver range "
        +:+ pretty (lo / 1000) +:+ ".." +:+ pretty (hi / 1000) +:+ " W");
  Ok mw.

Definition above (o : option Z) (bound : Z) : bool := match o with Some v => bound <? v | None => false end.

Definition validate_device (d : GpuInfo) (hd : option Z) (s : settings) : result device_plan :=
  if amd d then
    p ← amd_control_plan fs d (s_core s) (s_memory s) (s_power s) (s_fan s);
    Ok (AmdPlanned p)
  else
    match hd with
    | None => Throw (runtime_error ("Cannot configure GPU " +:+ pretty (index d) +:+ ": NVML device unavailable"))
    | Some h =>
        _ ← throw_if (above (s_core s) 10000) "GPU core clock out of range (MHz)";
        _ ← throw_if (above (s_memory s) 100000) "GPU memory clock out of range (MHz)";
        mw ← match s_power s with None => Ok 0 | Some power => resolve_power (index d) h power end;
        fans ← match s_fan s with
          | None => Ok 0
          | Some f =>
              _ ← throw_if (100 <? f) "GPU fan speed must be 0 (automatic) or 1..100 percent";
              n ← call "nvmlDeviceGetNumFans" (num_fans nv h);
              _ ← throw_if (n =? 0) "GPU fan control unsupported on this device";
              Ok n
          end;
        Ok (NvPlanned h mw fans)
    end.

(** [v.empty() ? nullopt : v[i]]. *)
Definition at_device (v : list Z) (i : nat) : option Z := v !! i.

Fixpoint validate_all (ds : list (GpuInfo * option Z * settings)) : result (list device_plan) :=
  match ds with
  | [] => Ok []
  | (d, h, s) :: ds =>
      p ← validate_device d h s;
      ps ← validate_all ds;
      Ok (p :: ps)
  end.

(** ** Application *)

Definition issue (a : action) : stM (list action) unit := fun log =>
  match call (action_name a) ((λ code, (code, tt)) <$> set nv log a) with
  | Ok _ => (log ++ [a], Ok tt)
  | Throw e => (log, Throw e)
  end.
Fixpoint issue_all (l : list action) : stM (list action) unit :=
  match l with [] => mret tt | a :: l => _ ← issue a; issue_all l end.

(** [amd_apply] inside the log of all hardware writes. *)
Definition issue_amd (p : AmdPlan) : stM (list action) unit := fun log =>
  match amd_apply (λ ws w, accepts (log ++ (Sysfs <$> ws)) w) refusal p [] with
  | (ws, r) => (log ++ (Sysfs <$> ws), r)
  end.

(** The writes for each kind of setting, with the event each pushes. *)
Definition clock_text (v : Z) : string := if v =? 0 then "automatic" else pretty v +:+ " MHz".
Definition power_part (h mw : Z) (o : option Z) : list action * list string :=
  match o with None => ([], [])
  | Some _ => ([SetPower h mw], ["power limit " +:+ pretty (mw / 1000) +:+ " W applied"]) end.
Definition core_part (h : Z) (o : option Z) : list action * list string :=
  match o with None => ([], [])
  | Some c => ([if c =? 0 then ResetClocks h else LockClocks h c c],
               ["core clock " +:+ clock_text c +:+ " applied"]) end.
Definition memory_part (h : Z) (o : option Z) : list action * list string :=
  match o with None => ([], [])
  | Some c => ([if c =? 0 then ResetMemory h else LockMemory h c c],
               ["memory clock " +:+ clock_text c +:+ " applied"]) end.
Definition fan_part (h fans : Z) (o : option Z) : list action * list string :=
  match o with None => ([], [])
  | Some f => ((λ i, if f =? 0 then DefaultFan h i else SetFan h i f) <$> seqZ 0 fans,
               ["fan " +:+ (if f =? 0 then "automatic" else pretty f +:+ "%") +:+ " applied"]) end.
Definition nv_parts (h mw fans : Z) (s : settings) : list (list action * list string) :=
  [power_part h mw (s_power s); core_part h (s_core s); memory_part h (s_memory s); fan_part h fans (s_fan s)].

Fixpoint run_parts (label : string) (parts : list (list action * list string)) : stM (list action) (list string) :=
  match parts with
  | [] => mret []
  | (acts, evs) :: parts =>
      _ ← issue_all acts;
      rest ← run_parts label parts;
      mret (((λ e, label +:+ " " +:+ e) <$> evs) ++ rest)
  end.

Definition failed (label : string) (e : exn) : exn :=
  runtime_error (label +:+ " control failed: " +:+ what e +:+
    ". Earlier successfully applied settings remain active; check device settings. Root permission may be required.").

(** [try { ... } catch (const std::exception &e) { throw ...; }] of one device. *)
Definition apply_device (d : GpuInfo) (p : device_plan) (s : settings) : stM (list action) (list string) := fun log =>
  let label := "GPU" +:+ pretty (index d) in
  let run : stM (list action) (list string) :=
    match p with
    | AmdPlanned p => _ ← issue_amd p; mret ((λ e, label +:+ " " +:+ e) <$> events p)
    | NvPlanned h mw fans => run_parts label (nv_parts h mw fans s)
    end in
  match run log with
  | (log, Ok evs) => (log, Ok evs)
  | (log, Throw e) => (log, Throw (failed label e))
  end.

Fixpoint apply_all (ds : list (GpuInfo * device_plan * settings)) : stM (list action) (list string) :=
  match ds with
  | [] => mret []
  | (d, p, s) :: ds =>
      evs ← apply_device d p s;
      rest ← apply_all ds;
      mret (evs ++ rest)
  end.

(** The settings of each device after broadcasting. *)
Definition device_settings (c : GpuControls) (n : nat) : result (list settings) :=
  core ← broadcast_values (c_core c) n;
  mem ← broadcast_values (c_memory c) n;
  power ← broadcast_values (c_power c) n;
  fan ← broadcast_values (c_fan c) n;
  Ok ((λ i, {| s_core := at_device core i; s_memory := at_device mem i;
               s_power := at_device power i; s_fan := at_device fan i |}) <$> seq 0 n).

(** [GpuManagement::apply] up to the first hardware write. *)
Definition validate (p : Impl) (c : GpuControls) : result (list (GpuInfo * device_plan * settings)) :=
  _ ← throw_if (length (devices p) =? 0)%nat "GPU controls supplied with no selected GPU";
  ss ← device_settings c (length (devices p));
  plans ← validate_all (zip (zip (devices p) (handles p)) ss);
  Ok (zip (zip (devices p) plans) ss).

Definition apply (p : Impl) (c : GpuControls) : stM (list action) (list string) :=
  if negb (requested c) then mret []
  else
    ds ← st_lift (validate p c);
    apply_all ds.
End management.

(** ** Correctness *)

(** What a validated device is to receive. *)
Definition planned (p : device_plan) (s : settings) : list action :=
  match p with
  | AmdPlanned p => Sysfs <$> writes p
  | NvPlanned h mw fans => concat (nv_parts h mw fans s).*1
  end.

(** What a device may have received when its configuration failed: a prefix of
    its plan, followed on an AMD card by the previous fan policy if that had been
    switched. *)
Definition partial (p : device_plan) (s : settings) (part : list action) : Prop :=
  part `prefix_of` planned p s ∨
  ∃ q r pre, p = AmdPlanned q ∧ fan_restore q = Some r ∧ pre `prefix_of` planned p s ∧ part = pre ++ [Sysfs r].

Section management_correct.
Context (nv : nvml) (fs : sysfs) (accepts : list action → AmdWrite → bool) (refusal : AmdWrite → string).

Lemma issue_all_outcome l log :
  issue_all nv l log = (log ++ l, Ok tt) ∨
  ∃ pre e, pre `prefix_of` l ∧ issue_all nv l log = (log ++ pre, Throw e).
Proof.
  revert log. induction l as [|a l IH]; intros log; cbn [issue_all]; [left; by rewrite app_nil_r|].
  unfold mbind, stM_bind, issue. destruct (call _ _ _) as [u|e].
  - destruct (IH (log ++ [a])) as [->|(pre & e & Hpre & ->)]; rewrite <- app_assoc.
    + by left.
    + right. exists (a :: pre), e. split; [by apply prefix_cons|done].
  - right. exists [], e. split; [apply prefix_nil|by rewrite app_nil_r].
Qed.

Lemma run_parts_outcome label parts log :
  (∃ evs, run_parts nv label parts log = (log ++ concat parts.*1, Ok evs)) ∨
  ∃ pre e, pre `prefix_of` concat parts.*1 ∧ run_parts nv label parts log = (log ++ pre, Throw e).
Proof.
  revert log. induction parts as [|[acts evs] parts IH]; intros log; cbn [run_parts].
  { left. eexists. by rewrite app_nil_r. }
  unfold mbind, stM_bind. cbn [fmap list_fmap fst concat].
  destruct (issue_all_outcome acts log) as [->|(pre & e & Hpre & ->)].
  - destruct (IH (log ++ acts)) as [[evs' ->]|(pre & e & Hpre & ->)]; rewrite <- app_assoc.
    + left. by eexists.
    + right. exists (acts ++ pre), e. split; [by apply prefix_app|done].
  - right. exists pre, e. split; [by apply prefix_app_r|done].
Qed.

Lemma issue_amd_outcome p log :
  issue_amd accepts refusal p log = (log ++ (Sysfs <$> writes p), Ok tt) ∨
  ∃ part e, partial (AmdPlanned p) {| s_core := None; s_memory := None; s_power := None; s_fan := None |} part ∧
    issue_amd accepts refusal p log = (log ++ part, Throw e).
Proof.
  unfold issue_amd.
  destruct (amd_apply_outcome (λ ws w, accepts (log ++ (Sysfs <$> ws)) w) refusal p [])
    as [->|(done & w & rest & Hw & _ & ->)]; [by left|right]. cbn [app].
  assert ((Sysfs <$> done) `prefix_of` (Sysfs <$> writes p)) as Hpre.
  { rewrite Hw, fmap_app. apply prefix_app_r. done. }
  destruct (switches_fan p done); [|by do 2 eexists; split; [left|]].
  destruct (fan_restore p) as [r|] eqn:Hr; [|by do 2 eexists; split; [left|]].
  destruct (accepts _ r); [|by do 2 eexists; split; [left|]].
  do 2 eexists. split; [|by rewrite fmap_app]. right. by exists p, r, (Sysfs <$> done).
Qed.

Lemma apply_device_outcome d p s log :
  (∃ evs, apply_device nv accepts refusal d p s log = (log ++ planned p s, Ok evs)) ∨
  ∃ part e, partial p s part ∧
    apply_device nv accepts refusal d p s log = (log ++ part, Throw (failed ("GPU" +:+ pretty (index d)) e)).
Proof.
  unfold apply_device. destruct p as [p|h mw fans].
  - unfold mbind, stM_bind. destruct (issue_amd_outcome p log) as [->|(part & e & Hp & ->)].
    + left. by eexists.
    + right. exists part, e. split; [exact Hp|done].
  - destruct (run_parts_outcome ("GPU" +:+ pretty (index d)) (nv_parts h mw fans s) log)
      as [[evs ->]|(pre & e & Hpre & ->)]; [left; by eexists|].
    right. exists pre, e. split; [by left|done].
Qed.

Lemma apply_all_outcome ds log :
  (∃ evs, apply_all nv accepts refusal ds log =
     (log ++ concat ((λ x, planned x.1.2 x.2) <$> ds), Ok evs)) ∨
  ∃ done d p s rest part e, ds = done ++ (d, p, s) :: rest ∧ partial p s part ∧
    apply_all nv accepts refusal ds log =
      (log ++ concat ((λ x, planned x.1.2 x.2) <$> done) ++ part, Throw (failed ("GPU" +:+ pretty (index d)) e)).
Proof.
  revert log. induction ds as [|[[d p] s] ds IH]; intros log; cbn [apply_all].
  { left. eexists. by rewrite app_nil_r. }
  unfold mbind, stM_bind. destruct (apply_device_outcome d p s log) as [[evs ->]|(part & e & Hp & ->)].
  - destruct (IH (log ++ planned p s)) as [[evs' ->]|(done & d' & p' & s' & rest & part & e & -> & Hp & ->)].
    + left. eexists. by rewrite <- app_assoc.
    + right. exists ((d, p, s) :: done), d', p', s', rest, part, e. split_and!; [done|done|].
      cbn [fmap list_fmap concat fst snd]. by rewrite <- !app_assoc.
  - right. by exists [], d, p, s, ds, part, e.
Qed.

(** C30: hardware is configured only after every device and limit has been
    validated: a validation error writes nothing at all; otherwise the devices
    receive their plans in order, completely when the call returns, and when a
    write fails the devices before it are complete, the failing one has a prefix
    of its plan (and its fan policy restored), and the later ones are untouched. *)
Theorem management_apply p c log :
  if requested c then
    match validate nv fs p c with
    | Throw e => apply nv fs accepts refusal p c log = (log, Throw e)
    | Ok ds =>
        (∃ evs, apply nv fs accepts refusal p c log =
           (log ++ concat ((λ x, planned x.1.2 x.2) <$> ds), Ok evs)) ∨
        ∃ done d q s rest part e, ds = done ++ (d, q, s) :: rest ∧ partial q s part ∧
          apply nv fs accepts refusal p c log =
            (log ++ concat ((λ x, planned x.1.2 x.2) <$> done) ++ part,
             Throw (failed ("GPU" +:+ pretty (index d)) e))
    end
  else apply nv fs accepts refusal p c log = (log, Ok []).
Proof.
  unfold apply. destruct (requested c); [|done]. cbn [negb].
  unfold mbind, stM_bind, st_lift. destruct (validate nv fs p c) as [ds|e]; [|done].
  apply apply_all_outcome.
Qed.
End management_correct.

(** ** Validated plans are safe *)

Section safety.
Context (nv : nvml) (fs : sysfs).

(** A write to the NVIDIA device [h] within the limits its driver reports and the
    requested settings. *)
Definition safe_action (h : Z) (s : settings) (a : action) : Prop :=
  match a with
  | SetPower h' mw => h' = h ∧ ∃ lo hi, limits nv h = Some (0, (lo, hi)) ∧ lo ≤ mw ≤ hi ∧
      ∃ p, s_power s = Some p ∧ (p ≠ 0 ∧ mw = p * 1000 ∨
        p = 0 ∧ get nv "nvmlDeviceGetPowerManagementDefaultLimit" h = Some mw)
  | LockClocks h' lo hi => h' = h ∧ lo = hi ∧ s_core s = Some lo ∧ 0 < lo ≤ 10000
  | ResetClocks h' => h' = h ∧ s_core s = Some 0
  | LockMemory h' lo hi => h' = h ∧ lo = hi ∧ s_memory s = Some lo ∧ 0 < lo ≤ 100000
  | ResetMemory h' => h' = h ∧ s_memory s = Some 0
  | SetFan h' i pct => h' = h ∧ s_fan s = Some pct ∧ 0 < pct ≤ 100 ∧
      ∃ n, num_fans nv h = Some (0, n) ∧ 0 ≤ i < n
  | DefaultFan h' i => h' = h ∧ s_fan s = Some 0 ∧ ∃ n, num_fans nv h = Some (0, n) ∧ 0 ≤ i < n
  | Sysfs _ => False
  end.

Definition nonneg (o : option Z) : Prop := ∀ v, o = Some v → 0 ≤ v.
Definition settings_ok (s : settings) : Prop :=
  nonneg (s_core s) ∧ nonneg (s_memory s) ∧ nonneg (s_power s) ∧ nonneg (s_fan s).

Lemma call_Ok {A} nm (answer : option (Z * A)) a : call nv nm answer = Ok a → answer = Some (0, a).
Proof.
  unfold call, checked. destruct answer as [[code a']|]; [|done].
  intros (? & Hc%throw_if_Ok & [= <-])%bind_Ok. apply negb_false_iff, Z.eqb_eq in Hc. by subst.
Qed.

Lemma resolve_power_safe idx h p mw : 0 ≤ p → resolve_power nv idx h p = Ok mw →
  ∃ lo hi, limits nv h = Some (0, (lo, hi)) ∧ lo ≤ mw ≤ hi ∧
    (p ≠ 0 ∧ mw = p * 1000 ∨ p = 0 ∧ get nv "nvmlDeviceGetPowerManagementDefaultLimit" h = Some mw).
Proof.
  intros Hp. unfold resolve_power.
  intros ([lo hi] & Hl%call_Ok & (? & Ho%throw_if_Ok & (v & Hv & (? & Hr%throw_if_Ok & [= <-])%bind_Ok)%bind_Ok)%bind_Ok)%bind_Ok.
  exists lo, hi. split; [exact Hl|]. split; [bool_lia|]. destruct (Z.eqb_spec p 0).
  - right. split; [done|]. destruct (get nv _ h); [by injection Hv as ->|done].
  - left. split; [done|]. injection Hv as <-. apply u32_small. unfold is_u32.
    apply Z.ltb_ge in Ho. change (4294967295 / 1000) with 4294967 in Ho. lia.
Qed.

Lemma above_bound o bound v : above o bound = false → o = Some v → v ≤ bound.
Proof. intros Ha ->. cbn in Ha. bool_lia. Qed.

Lemma validate_device_safe d hd s q : settings_ok s → validate_device nv fs d hd s = Ok q →
  match q with
  | AmdPlanned p => amd d = true ∧ amd_control_plan fs d (s_core s) (s_memory s) (s_power s) (s_fan s) = Ok p
  | NvPlanned h mw fans => amd d = false ∧ hd = Some h ∧ Forall (safe_action h s) (planned q s)
  end.
Proof.
  intros (Hnc & Hnm & Hnp & Hnf). unfold validate_device. destruct (amd d); [by intros (p & Hp & [= <-])%bind_Ok|].
  destruct hd as [h|]; [|done].
  intros (? & Hcore%throw_if_Ok & (? & Hmem%throw_if_Ok & (mw & Hmw & (fans & Hfans & [= <-])%bind_Ok)%bind_Ok)%bind_Ok)%bind_Ok.
  split; [done|]. split; [done|]. unfold planned, nv_parts. cbn [fmap list_fmap concat].
  rewrite app_nil_r, !Forall_app. split_and!.
  - unfold power_part. destruct (s_power s) as [p|] eqn:Hs; [|constructor]. apply Forall_singleton.
    destruct (resolve_power_safe (index d) h p mw (Hnp p eq_refl) Hmw) as (lo & hi & Hl & Hr & Hv).
    cbn. split; [done|]. exists lo, hi. split_and!; [exact Hl|lia|lia|]. by exists p.
  - unfold core_part. destruct (s_core s) as [c|] eqn:Hs; [|constructor]. apply Forall_singleton.
    pose proof (above_bound _ _ c Hcore eq_refl). specialize (Hnc c eq_refl).
    destruct (Z.eqb_spec c 0) as [->|]; cbn; rewrite Hs; split_and!; (done || lia).
  - unfold memory_part. destruct (s_memory s) as [c|] eqn:Hs; [|constructor]. apply Forall_singleton.
    pose proof (above_bound _ _ c Hmem eq_refl). specialize (Hnm c eq_refl).
    destruct (Z.eqb_spec c 0) as [->|]; cbn; rewrite Hs; split_and!; (done || lia).
  - unfold fan_part. destruct (s_fan s) as [f|] eqn:Hs; [|constructor].
    apply bind_Ok in Hfans as (? & Hf%throw_if_Ok & (n & Hn%call_Ok & (? & _ & [= <-])%bind_Ok)%bind_Ok).
    specialize (Hnf f eq_refl). apply Forall_fmap, Forall_forall. intros i Hi%elem_of_seqZ.
    unfold compose. destruct (Z.eqb_spec f 0) as [->|]; cbn; rewrite Hs; split_and!; try (done || bool_lia); exists n; (split; [done|lia]).
Qed.

Lemma validate_all_safe ds ps : Forall (λ x, settings_ok x.2) ds → validate_all nv fs ds = Ok ps →
  Forall2 (λ x q, validate_device nv fs x.1.1 x.1.2 x.2 = Ok q) ds ps.
Proof.
  revert ps. induction ds as [|[[d h] s] ds IH]; intros ps Hs; cbn [validate_all]; [by intros [= <-]|].
  apply Forall_cons in Hs as [Hs Hds].
  intros (q & Hq & (ps' & Hps & [= <-])%bind_Ok)%bind_Ok. constructor; [exact Hq|]. by apply IH.
Qed.

Lemma broadcast_spec v n l : broadcast_values v n = Ok l →
  (v = [] ∧ l = []) ∨ (length l = n ∧ ∀ x, x ∈ l → x ∈ v).
Proof.
  destruct v as [|x [|y v]]; cbn [broadcast_values].
  - intros [= <-]. by left.
  - intros [= <-]. right. rewrite length_replicate. split; [done|]. intros z ->%elem_of_replicate_inv. by left.
  - intros (? & Hl%throw_if_Ok & [= <-])%bind_Ok. right. split; [|done]. by apply negb_false_iff, Nat.eqb_eq in Hl.
Qed.

Lemma broadcast_nonneg v n l i : (∀ x, x ∈ v → 0 ≤ x) → broadcast_values v n = Ok l → nonneg (at_device l i).
Proof.
  intros Hv Hl x Hx%list_elem_of_lookup_2.
  destruct (broadcast_spec v n l Hl) as [[-> ->]|[_ Hin]]; [by apply elem_of_nil in Hx|]. by apply Hv, Hin.
Qed.

Definition controls_ok (c : GpuControls) : Prop :=
  ∀ x, x ∈ c_core c ++ c_memory c ++ c_power c ++ c_fan c → 0 ≤ x.

Lemma device_settings_ok c n ss : controls_ok c → device_settings c n = Ok ss →
  length ss = n ∧ Forall settings_ok ss.
Proof.
  intros Hc. unfold device_settings.
  intros (core & H1 & (mem & H2 & (power & H3 & (fan & H4 & [= <-])%bind_Ok)%bind_Ok)%bind_Ok)%bind_Ok.
  split; [by rewrite length_fmap, length_seq|]. apply Forall_fmap, Forall_forall. intros i _.
  split_and!; cbn; (eapply broadcast_nonneg; [|eassumption]); intros x Hx; apply Hc; rewrite !elem_of_app; auto.
Qed.

Lemma validate_rows p c ds : length (handles p) = length (devices p) → controls_ok c →
  validate nv fs p c = Ok ds →
  ds.*1.*1 = devices p ∧
  ∀ i d q s, ds !! i = Some (d, q, s) → ∃ hd, handles p !! i = Some hd ∧ settings_ok s ∧
    validate_device nv fs d hd s = Ok q.
Proof.
  intros Hlen Hc. unfold validate.
  intros (? & _ & (ss & Hss & (plans & Hplans & [= <-])%bind_Ok)%bind_Ok)%bind_Ok.
  destruct (device_settings_ok c _ ss Hc Hss) as [Hls Hok].
  apply validate_all_safe in Hplans.
  2:{ apply Forall_forall. intros [[d h] s] Hin. apply list_elem_of_lookup in Hin as [i Hi].
      apply lookup_zip_with_Some in Hi as ([d' h'] & s' & [= -> -> ->] & _ & Hs).
      rewrite Forall_forall in Hok. cbn. apply Hok. by eapply list_elem_of_lookup_2. }
  pose proof (Forall2_length _ _ _ Hplans) as Hlp. rewrite !length_zip_with in Hlp.
  split.
  - rewrite fst_zip by (rewrite length_zip_with; lia). apply fst_zip. lia.
  - intros i d q s Hi. apply lookup_zip_with_Some in Hi as ([d' q'] & s' & [= -> -> ->] & Hdq & Hs).
    apply lookup_zip_with_Some in Hdq as (d'' & q'' & [= -> ->] & Hd & Hq).
    destruct (lookup_lt_is_Some_2 (handles p) i) as [hd Hh]; [rewrite Hlen; by eapply lookup_lt_Some|].
    exists hd. split; [done|]. split; [rewrite Forall_forall in Hok; apply Hok; by eapply list_elem_of_lookup_2|].
    rewrite Forall2_lookup in Hplans. specialize (Hplans i).
    assert (zip (zip (devices p) (handles p)) ss !! i = Some (d'', hd, s')) as Hz.
    { apply lookup_zip_with_Some. exists (d'', hd), s'. split_and!; [done| |done].
      apply lookup_zip_with_Some. by exists d'', hd. }
    rewrite Hz, Hq in Hplans. by inversion Hplans.
Qed.

(** C39: what validation lets through is safe: every selected device has a plan,
    an AMD card the plan of [amd_control_plan], and every NVIDIA write goes to the
    device's own handle with a power limit inside the driver's range, clocks and
    fan percentages inside the accepted bounds and an existing fan. *)
Theorem validate_safe p c ds : length (handles p) = length (devices p) → controls_ok c →
  validate nv fs p c = Ok ds →
  ds.*1.*1 = devices p ∧
  ∀ i d q s, ds !! i = Some (d, q, s) →
    match q with
    | AmdPlanned pl => amd d = true ∧
        amd_control_plan fs d (s_core s) (s_memory s) (s_power s) (s_fan s) = Ok pl
    | NvPlanned h mw fans => amd d = false ∧ handles p !! i = Some (Some h) ∧
        Forall (safe_action h s) (planned q s)
    end.
Proof.
  intros Hlen Hc Hv. destruct (validate_rows p c ds Hlen Hc Hv) as [Hd Hrows]. split; [exact Hd|].
  intros i d q s Hi. destruct (Hrows i d q s Hi) as (hd & Hh & Hs & Hq).
  apply validate_device_safe in Hq; [|exact Hs]. destruct q; [exact Hq|].
  destruct Hq as (Ha & -> & Hf). by split_and!.
Qed.
End safety.

(** One NVIDIA card with two fans and a 100 to 300 W range. *)
Definition sample_nvml : nvml :=
  {| library := true; init := Some 0; error_string := None; by_pci := Some (λ _, Some 7);
     get := λ _ _, Some 200000; clock_info := λ _ _, None; limits := λ _, Some (0, (100000, 300000));
     num_fans := λ _, Some (0, 2); set := λ _ _, Some 0 |}.
Definition sample_gpu : GpuInfo :=
  {| index := 0; name := "RTX"; pci_bus := "0000:01:00.0"; api := cuda; backend_index := 0; amd := false |}.
Definition sample_impl : Impl := new_impl sample_nvml [sample_gpu].
Definition sample_controls : GpuControls :=
  {| c_core := [1500]; c_memory := []; c_power := [250]; c_fan := [60] |}.

Lemma validate_safe_witness :
  ∃ ds, validate sample_nvml sample_fs sample_impl sample_controls = Ok ds ∧ ds.*1.*1 = devices sample_impl ∧
    concat ((λ x, planned x.1.2 x.2) <$> ds) =
      [SetPower 7 250000; LockClocks 7 1500 1500; SetFan 7 0 60; SetFan 7 1 60].
Proof.
  eexists. split; [vm_compute; reflexivity|]. split; [|vm_compute; reflexivity].
  refine (proj1 (validate_safe sample_nvml sample_fs sample_impl sample_controls _ eq_refl _ _));
    [|vm_compute; reflexivity].
  intros x Hx. repeat (apply elem_of_cons in Hx as [->|Hx]; [lia|]). by apply elem_of_nil in Hx.
Defined.
