(* ===== verification/Drivers.v ===== *)
(** * Driver libraries and builds without them

    How the OpenCL and NVML libraries are loaded, used and given back
    (src/include/yolo/dynamic.hpp, the [Api] object of src/src/opencl/runtime.cpp,
    the lifetime of [GpuManagement::Impl] in src/src/hardware/nvml.cpp), the end of
    a CUDA back end, and the stubs of builds without a GPU back end
    (src/src/cuda_stub.cpp, src/src/opencl_stub.cpp) or without AVX2. *)
From S2P Require Import Prelude Words Hex Work Cpu Cuda Devices Nvml.

(** ** Shared libraries *)

(** The libraries that can be opened, with the symbols they export. *)
Definition linker : Type := string → option (list string).
Inductive dl_op := Dlopen (lib : string) | Dlsym (name : string) | Dlclose.
#[export] Instance dl_op_eq_dec : EqDecision dl_op.
Proof. solve_decision. Defined.

(** A handle and the calls made so far. *)
Record Loader := { exported : option (list string); dl_calls : list dl_op }.
Definition no_loader : Loader := {| exported := None; dl_calls := [] |}.
Definition load_library (ld : linker) (lib : string) : stM Loader bool :=
  _ ← st_modify (λ s, {| exported := ld lib; dl_calls := dl_calls s ++ [Dlopen lib] |});
  s ← st_get; mret (bool_decide (is_Some (exported s))).
(** Whether the symbol is there. *)
Definition library_symbol (n : string) : stM Loader bool :=
  _ ← st_modify (λ s, {| exported := exported s; dl_calls := dl_calls s ++ [Dlsym n] |});
  s ← st_get; mret (bool_decide (n ∈ default [] (exported s))).
Definition unload_library : stM Loader unit :=
  st_modify (λ s, {| exported := None; dl_calls := dl_calls s ++ [Dlclose] |}).

(** Libraries opened and not closed. *)
Definition open_libraries (ld : linker) (l : list dl_op) : Z :=
  fold_left (λ n o, match o with
    | Dlopen lib => if bool_decide (is_Some (ld lib)) then n + 1 else n
    | Dlclose => n - 1
    | Dlsym _ => n
    end) l 0.

(** ** The OpenCL functions *)

(** The members of [Api] in the order they are loaded. *)
Definition opencl_symbols : list string :=
  ["clGetPlatformIDs"; "clGetDeviceIDs"; "clGetDeviceInfo"; "clCreateContext"; "clReleaseContext";
   "clCreateCommandQueue"; "clReleaseCommandQueue"; "clCreateProgramWithSource"; "clBuildProgram";
   "clGetProgramBuildInfo"; "clReleaseProgram"; "clCreateKernel"; "clReleaseKernel";
   "clGetKernelWorkGroupInfo"; "clSetKernelArg"; "clCreateBuffer"; "clReleaseMemObject";
   "clEnqueueWriteBuffer"; "clEnqueueReadBuffer"; "clEnqueueNDRangeKernel"; "clFinish"]%string.

(** [library] and the functions that are not null. *)
Record Api := { loaded : bool; functions : list string }.
Fixpoint load_all (names : list string) (a : Api) : stM Loader Api :=
  match names with
  | [] => mret a
  | n :: names =>
      found ← library_symbol n;
      if (found : bool) then load_all names {| loaded := loaded a; functions := functions a ++ [n] |}
      else _ ← unload_library; mret {| loaded := false; functions := functions a |}
  end.
Definition new_api (ld : linker) : stM Loader Api :=
  ok ← load_library ld "libOpenCL.so.1";
  if (ok : bool) then load_all opencl_symbols {| loaded := true; functions := [] |}
  else mret {| loaded := false; functions := [] |}.
Definition end_api (a : Api) : stM Loader unit := if loaded a then unload_library else mret tt.

(** What [enumerate] sees: nothing without the library. *)
Definition runtime_of (a : Api) (code : Z) (platforms : list (Z * list ClDevice)) : runtime :=
  if loaded a then Some (code, platforms) else None.

(** [query]: the value asked for replaces [out] when the call succeeds. *)
Definition query {T} (code : Z) (answer out : T) : bool * T :=
  if code =? 0 then (true, answer) else (false, out).

(** ** NVML *)

(** [initialized], beside the loader. *)
Definition has_symbol (n : string) : stM Loader bool :=
  s ← st_get;
  if bool_decide (is_Some (exported s)) then library_symbol n else mret false.
(** [init] is what [nvmlInit_v2] returns. *)
Definition open_nvml (ld : linker) (init : Z) : stM Loader bool :=
  ok ← load_library ld "libnvidia-ml.so.1";
  if (ok : bool) then
    found ← has_symbol "nvmlInit_v2";
    mret ((found : bool) && (init =? 0))
  else mret false.
(** [~Impl]; true when [nvmlShutdown] was called. *)
Definition close_nvml (initialized : bool) : stM Loader bool :=
  down ← (if initialized then has_symbol "nvmlShutdown" else mret false);
  s ← st_get;
  _ ← (if bool_decide (is_Some (exported s)) then unload_library else mret tt);
  mret (down : bool).
(** [read]: an unsigned the driver answers; [answer] is its code and value. *)
Definition read (answer : option (Z * Z)) : option Z :=
  match answer with Some (code, x) => if code =? 0 then Some x else None | None => None end.

(** ** CUDA *)

(** [~Cuda]: what is called, in order. *)
Definition end_cuda (h : Cuda.handles) : list string :=
  ["cudaSetDevice"%string] ++ (if has_stream h then ["cudaStreamSynchronize"%string] else []) ++
  (if has_host h then ["cudaFreeHost"%string] else []) ++ (if has_hits h then ["cudaFree"%string] else []) ++
  (if has_stream h then ["cudaStreamDestroy"%string] else []).
(** [check]: zero is success. *)
Definition cuda_check (code : Z) (text : string) : result unit := throw_if (negb (code =? 0)) text.

(** ** Builds without a back end *)

Definition stub_cuda_devices : list GpuInfo := [].
Definition stub_cuda_backend : result Cuda.handles := Throw (runtime_error "CUDA backend not built; use --cpu").
Definition stub_cuda_hashes : result (list Bytes) := Throw (runtime_error "CUDA backend not built").
Definition stub_opencl_devices (amd_only : bool) : list GpuInfo := [].
Definition stub_opencl_backend : result Cuda.handles := Throw (runtime_error "OpenCL backend not built").
Definition stub_opencl_hashes : result (list Bytes) := Throw (runtime_error "OpenCL backend not built").

(** [cpu_avx2_backend] with and without the processor's support, and of a build for
    another processor. *)
Definition cpu_avx2_backend (available : bool) : result cpu_kind :=
  _ ← throw_if (negb available) "AVX2 unavailable on this CPU"; Ok CpuAvx2.
Definition other_avx2_available : bool := false.
Definition other_avx2_backend : result cpu_kind := Throw (runtime_error "AVX2 unavailable in this build").
Definition other_avx2_hashes : result (list Bytes) := Throw (runtime_error "AVX2 unavailable in this build").

(** ** Libraries are given back *)

Arguments open_libraries : simpl never.

Lemma open_libraries_snoc ld l o : open_libraries ld (l ++ [o]) =
  open_libraries ld l + match o with
    | Dlopen lib => if bool_decide (is_Some (ld lib)) then 1 else 0 | Dlclose => -1 | Dlsym _ => 0 end.
Proof. unfold open_libraries. rewrite fold_left_app. cbn. destruct o; [case_bool_decide|..]; lia. Qed.

Lemma load_all_wp ld ex names a s : exported s = Some ex → loaded a = true → open_libraries ld (dl_calls s) = 1 →
  wp (load_all names a) (λ s' r, ∃ a', r = Ok a' ∧
    (loaded a' = true ↔ Forall (.∈ ex) names) ∧ (loaded a' = true → functions a' = functions a ++ names) ∧
    exported s' = (if loaded a' then Some ex else None) ∧
    open_libraries ld (dl_calls s') = Z.b2z (loaded a')) s.
Proof.
  revert a s. induction names as [|n names IH]; intros a s Hs Ha Ho; cbn [load_all].
  { apply wp_ret. exists a. rewrite Ha, app_nil_r. by split_and!. }
  apply wp_bind. unfold library_symbol. apply wp_bind, wp_modify. cbn [wp_next]. apply wp_bind, wp_get. cbn [wp_next].
  apply wp_ret. cbn [wp_next exported]. rewrite Hs. cbn [default]. case_bool_decide as Hin.
  - eapply wp_mono; [apply IH; cbn; [done|done|by rewrite open_libraries_snoc, Ho]|].
    intros s' r (a' & -> & Hiff & Hf & Hex & Hop). exists a'. split_and!; try done.
    + rewrite Hiff, Forall_cons. tauto.
    + intros Hl. rewrite (Hf Hl). cbn. by rewrite <- app_assoc.
  - unfold unload_library. apply wp_bind, wp_modify. cbn [wp_next]. apply wp_ret. eexists. split; [done|].
    cbn [loaded dl_calls exported]. split_and!; try done.
    + split; [done|]. intros [? _]%Forall_cons. done.
    + by rewrite !open_libraries_snoc, Ho.
Qed.

(** The OpenCL library is used whole or not at all: the object holds the library
    exactly when it can be opened and exports all twenty-one functions, and then
    every function is set; otherwise the library is closed again, no device is
    listed and no back end can be built on it, so no function is ever called; and
    the destructor closes what is open. *)
Theorem opencl_library ld :
  let '(s, r) := new_api ld no_loader in
  ∃ a, r = Ok a ∧
    (loaded a = true ↔ ∃ ex, ld "libOpenCL.so.1"%string = Some ex ∧ Forall (.∈ ex) opencl_symbols) ∧
    (loaded a = true → functions a = opencl_symbols) ∧
    open_libraries ld (dl_calls s) = Z.b2z (loaded a) ∧
    open_libraries ld (dl_calls (end_api a s).1) = 0 ∧
    (loaded a = false → ∀ code platforms, enumerate (runtime_of a code platforms) = Ok [] ∧
      ∀ create maximum idx group variant,
        ∃ e, new_opencl create maximum (runtime_of a code platforms) idx group variant ∅ = (∅, Throw e)).
Proof.
  assert (∀ a, loaded a = false → ∀ code platforms, enumerate (runtime_of a code platforms) = Ok [] ∧
    ∀ create maximum idx group variant,
      ∃ e, new_opencl create maximum (runtime_of a code platforms) idx group variant ∅ = (∅, Throw e)) as Hnone.
  { intros a Ha code platforms. unfold runtime_of. rewrite Ha. split; [done|]. intros create maximum idx group variant.
    unfold new_opencl, select_device, st_lift, mbind, stM_bind, throw_if. cbn.
    destruct ((variant <? -1) || (3 <? variant)); [by eexists|]. cbn.
    destruct (_ || negb (group mod 32 =? 0)); [by eexists|]. cbn. destruct (idx <? 0); by eexists. }
  assert (wp (new_api ld) (λ s r, ∃ a, r = Ok a ∧
    (loaded a = true ↔ ∃ ex, ld "libOpenCL.so.1"%string = Some ex ∧ Forall (.∈ ex) opencl_symbols) ∧
    (loaded a = true → functions a = opencl_symbols) ∧ open_libraries ld (dl_calls s) = Z.b2z (loaded a)) no_loader) as Hw.
  { unfold new_api. apply wp_bind. unfold load_library. apply wp_bind, wp_modify. cbn [wp_next].
    apply wp_bind, wp_get. cbn [wp_next]. apply wp_ret. cbn [wp_next exported].
    destruct (ld "libOpenCL.so.1"%string) as [ex|] eqn:Hld.
    - rewrite bool_decide_eq_true_2 by by eexists. eapply wp_mono.
      + apply (load_all_wp ld ex); [done|done|]. cbn [dl_calls]. rewrite open_libraries_snoc, Hld.
        by rewrite bool_decide_eq_true_2 by by eexists.
      + intros s r (a & -> & Hiff & Hf & _ & Hop). exists a. split_and!; try done. rewrite Hiff. split.
        * intros. by exists ex.
        * by intros (ex' & [= ->] & ?).
    - rewrite bool_decide_eq_false_2 by (by intros [? ?]). apply wp_ret. eexists. split; [done|].
      cbn [loaded dl_calls]. split_and!; [|done|].
      + split; [done|]. by intros (? & ? & _).
      + rewrite open_libraries_snoc, Hld. by rewrite bool_decide_eq_false_2 by (by intros [? ?]). }
  unfold wp in Hw. destruct (new_api ld no_loader) as [s r]. destruct Hw as (a & Hr & Hiff & Hf & Ho).
  exists a. split_and!; try done; [|by apply Hnone]. unfold end_api.
  cbn [fst snd] in Ho. destruct (loaded a); [|exact Ho]. unfold unload_library, st_modify. cbn [fst dl_calls].
  by rewrite open_libraries_snoc, Ho.
Qed.

(** NVML is shut down only after it was initialized, and its library is closed on
    every path. *)
Lemma nvml_library ld init :
  let '(s, r) := open_nvml ld init no_loader in
  ∃ up, r = Ok up ∧ (up = true → init = 0) ∧
    open_libraries ld (dl_calls (close_nvml up s).1) = 0 ∧
    ((close_nvml up s).2 = Ok true → up = true).
Proof.
  unfold open_nvml, close_nvml, load_library, has_symbol, library_symbol, unload_library,
    mbind, stM_bind, st_modify, st_get, mret, stM_ret. cbn [exported no_loader dl_calls fst snd].
  assert (∀ l, open_libraries ld (l ++ [Dlopen "libnvidia-ml.so.1"]) = open_libraries ld l +
    if bool_decide (is_Some (ld "libnvidia-ml.so.1"%string)) then 1 else 0) as Hopen by (intros; apply open_libraries_snoc).
  destruct (bool_decide (is_Some (ld "libnvidia-ml.so.1"%string))) eqn:Hb; cbn [exported].
  - rewrite Hb. cbn [exported]. destruct (bool_decide ("nvmlInit_v2"%string ∈ _)); cbn [andb].
    + eexists. split; [done|]. split; [apply Z.eqb_eq|]. destruct (init =? 0); cbn [exported fst snd]; rewrite ?Hb;
        cbn [exported fst snd dl_calls]; rewrite ?Hb; cbn [fst snd dl_calls]; split;
        try done; by rewrite !open_libraries_snoc, Hb.
    + eexists. split; [done|]. split; [done|]. cbn [exported fst snd]. rewrite Hb. cbn [fst snd dl_calls].
      split; [|done]. by rewrite !open_libraries_snoc, Hb.
  - eexists. split; [done|]. split; [done|]. cbn [exported fst snd]. rewrite Hb. cbn [fst snd dl_calls].
    split; [|done]. by rewrite Hopen.
Qed.

(** A build without GPU back ends lists no device in any mode. *)
Lemma no_gpu_build mode : mode ∈ ["auto"; "cuda"; "opencl"]%string →
  gpu_devices mode (Ok stub_cuda_devices) None = Ok [].
Proof. intros Hm. repeat (apply elem_of_cons in Hm as [->|Hm]; [done|]). by apply elem_of_nil in Hm. Qed.

(** The AVX2 back end is only asked for where it exists. *)
Lemma avx2_asked available variant : cpu_backend available variant = Ok CpuAvx2 →
  cpu_avx2_backend available = Ok CpuAvx2.
Proof.
  unfold cpu_backend, cpu_avx2_backend. destruct available; [done|]. rewrite andb_false_r, orb_false_r.
  destruct (bool_decide (variant = "avx2")); [done|]. by destruct (_ || _).
Qed.
