(* ===== verification/Sv2.v ===== *)
(** * Stratum V2 messages

    src/src/sv2.cpp and the wire types of src/include/yolo/sv2.hpp: the payload
    reader and writer, [decode], the client's messages and the nonce/time
    [partition].  ([work_header] and [standard_work] are in Work.v.)  A
    [std::string] read from the wire is a [string] of the same bytes. *)
From S2P Require Import Prelude Words Hex Targets.

(** ** Wire types *)

Record Frame := { extension : Z; type : Z; payload : Bytes }.

Record SetupSuccess := { ss_version : Z; ss_flags : Z }.
Record OpenSuccess := { os_request : Z; os_channel : Z; os_target : Bytes; os_prefix : Bytes; os_group : Z }.
Record NewJob := { nj_channel : Z; nj_job : Z; nj_ntime : option Z; nj_version : Z; nj_root : Bytes }.
Record PrevHash := { ph_channel : Z; ph_job : Z; ph_hash : Bytes; ph_ntime : Z; ph_nbits : Z }.
Record Target := { tg_channel : Z; tg_target : Bytes }.
Record Accepted := { ac_channel : Z; ac_last_sequence : Z; ac_count : Z; ac_difficulty_sum : Z }.
Record Rejected := { rj_channel : Z; rj_sequence : Z; rj_reason : string }.
Record Error := { er_type : Z; er_reference : Z; er_reason : string }.

Inductive Message :=
| MSetupSuccess (m : SetupSuccess)
| MOpenSuccess (m : OpenSuccess)
| MNewJob (m : NewJob)
| MPrevHash (m : PrevHash)
| MTarget (m : Target)
| MAccepted (m : Accepted)
| MRejected (m : Rejected)
| MError (m : Error).

(** ** [Reader] *)

(** The state is the unread part [b] of the payload. *)
Abbreviation Reader := (stM Bytes).

(** [for (i = 0; i < n; ++i) v |= uint64_t(b[i]) << (8 * i)] *)
Definition integer_value (n : nat) (b : Bytes) : Z :=
  fold_left (λ v i, Z.lor v (u64 (Z.shiftl (b2z (b !!! i)) (8 * Z.of_nat i)))) (seq 0 n) 0.

Definition r_integer (n : nat) : Reader Z :=
  b ← st_get;
  _ ← st_require (negb (length b <? n)%nat) "truncated SV2 message";
  _ ← st_modify (drop n);
  mret (integer_value n b).

Definition r_u32 : Reader Z := v ← r_integer 4; mret (u32 v).

Definition r_bytes (n : nat) : Reader Bytes :=
  b ← st_get;
  _ ← st_require (negb (length b <? n)%nat) "truncated SV2 bytes";
  _ ← st_modify (drop n);
  mret (take n b).

Definition r_hash (target : bool) : Reader Bytes :=
  h ← r_bytes 32;
  if target then
    let h := reverse h in
    _ ← st_require (negb (forallb (λ x, b2z x =? 0) h)) "zero SV2 target";
    mret h
  else mret h.

Definition r_short_bytes (max : Z) : Reader Bytes :=
  n ← r_integer 1;
  _ ← st_require (negb (max <? n)) "invalid SV2 byte string length";
  r_bytes (Z.to_nat n).

Definition r_string : Reader string :=
  v ← r_short_bytes 255;
  mret (String.string_of_list_byte v).

Definition r_end : Reader unit :=
  b ← st_get;
  st_require (length b =? 0)%nat "unexpected trailing SV2 bytes".

(** ** [decode] *)

Definition is_channel_type (t : Z) : bool := (0x15 <=? t) && (t <=? 0x24).

(** The lambda [value] of [decode]: the switch on the message type. *)
Definition decode_value (t : Z) : Reader Message :=
  if t =? 1 then
    version ← r_integer 2; flags ← r_u32;
    mret (MSetupSuccess {| ss_version := u16 version; ss_flags := flags |})
  else if t =? 0x11 then
    request ← r_u32; c ← r_u32; t ← r_hash true; p ← r_short_bytes 32; g ← r_u32;
    mret (MOpenSuccess {| os_request := request; os_channel := c; os_target := t;
                          os_prefix := p; os_group := g |})
  else if t =? 0x15 then
    c ← r_u32; j ← r_u32; present ← r_integer 1;
    _ ← st_require (negb (1 <? present)) "invalid SV2 optional ntime";
    t ← (if present =? 0 then mret None else t ← r_u32; mret (Some t));
    v ← r_u32; h ← r_hash false;
    mret (MNewJob {| nj_channel := c; nj_job := j; nj_ntime := t; nj_version := v; nj_root := h |})
  else if t =? 0x20 then
    c ← r_u32; j ← r_u32; h ← r_hash false; t ← r_u32; n ← r_u32;
    mret (MPrevHash {| ph_channel := c; ph_job := j; ph_hash := h; ph_ntime := t; ph_nbits := n |})
  else if t =? 0x21 then
    c ← r_u32; h ← r_hash true;
    mret (MTarget {| tg_channel := c; tg_target := h |})
  else if t =? 0x1c then
    c ← r_u32; s ← r_u32; n ← r_u32; d ← r_integer 8;
    mret (MAccepted {| ac_channel := c; ac_last_sequence := s; ac_count := n; ac_difficulty_sum := d |})
  else if t =? 0x1d then
    c ← r_u32; s ← r_u32; reason ← r_string;
    mret (MRejected {| rj_channel := c; rj_sequence := s; rj_reason := reason |})
  else if (t =? 2) || (t =? 0x12) || (t =? 0x18) then
    ref ← r_u32; reason ← r_string;
    mret (MError {| er_type := t; er_reference := ref; er_reason := reason |})
  else st_throw ("unsupported SV2 message type " +:+ pretty t).

(** [auto value = ...; r.end(); return value;] *)
Definition decode_payload (t : Z) : Reader Message :=
  m ← decode_value t; _ ← r_end; mret m.

Definition decode (f : Frame) : result Message :=
  _ ← throw_if (negb (extension f =? (if is_channel_type (type f) then 0x8000 else 0)))
        "unsupported SV2 extension or channel bit";
  (decode_payload (type f) (payload f)).2.

(** ** [Writer] *)

(** The state is the output buffer [b]. *)
Abbreviation Writer := (stM Bytes).

(** [for (i = 0; i < n; ++i) b.push_back(uint8_t(v >> (8 * i)))] *)
Definition w_integer (v : Z) (n : nat) : Writer unit :=
  st_modify (λ b, fold_left (λ b i, b ++ [u8 (Z.shiftr v (8 * Z.of_nat i))]) (seq 0 n) b).

Definition w_string (s : string) : Writer unit :=
  let l := String.list_byte_of_string s in
  _ ← st_require (negb (255 <? length l)%nat) "SV2 string exceeds 255 bytes";
  _ ← w_integer (Z.of_nat (length l)) 1;
  st_modify (λ b, b ++ l).

(** Run a writer from an empty buffer and take the buffer as the payload. *)
Definition written (extension type : Z) (w : Writer unit) : result Frame :=
  match w [] with
  | (b, Ok _) => Ok {| extension := extension; type := type; payload := b |}
  | (_, Throw e) => Throw e
  end.

Definition setup (host : string) (port : Z) (agent : string) : result Frame :=
  written 0 0
    (_ ← w_integer 0 1;
     _ ← w_integer 2 2;
     _ ← w_integer 2 2;
     _ ← w_integer 1 4;
     _ ← w_string host;
     _ ← w_integer port 2;
     _ ← w_string "ocminer";
     _ ← w_string "supryolo";
     _ ← w_string agent;
     w_string EmptyString).

(** A [float] is its IEEE 754 bit pattern. *)
Definition float_isfinite (bits : Z) : bool := negb ((bits / 2 ^ 23) mod 256 =? 255).
(** [rate < 0] for a finite [rate]: the sign bit is set and it is not -0. *)
Definition float_negative (bits : Z) : bool :=
  Z.testbit bits 31 && negb (bits mod 2 ^ 31 =? 0).

Definition open_standard (request : Z) (user : string) (rate : Z) (max_target : Bytes)
    : result Frame :=
  _ ← throw_if (negb (float_isfinite rate) || float_negative rate)
        "invalid SV2 nominal hashrate";
  written 0 0x10
    (_ ← w_integer request 4;
     _ ← w_string user;
     _ ← w_integer rate 4;
     st_modify (λ b, b ++ reverse max_target)).

Definition submit_standard (c s j n t v : Z) : result Frame :=
  written 0x8000 0x1a
    (fold_left (λ w x, _ ← w; w_integer x 4) [c; s; j; n; t; v] (mret tt)).

(** ** [partition] *)

Record Partition := { p_nonce : Z; p_ntime : Z; p_count : Z }.

Definition partition (base slot cursor batch : Z) : result Partition :=
  _ ← throw_if ((256 <=? slot) || (u64 (Z.shiftl 1 56) <=? cursor) || (batch =? 0))
        "SV2 nonce partition exhausted or invalid";
  let nonce := u32 cursor in
  Ok {| p_nonce := nonce;
        p_ntime := u32 (base + u32 (Z.shiftl slot 24) + u32 (Z.shiftr cursor 32));
        p_count := u32 (Z.min batch (2 ^ 32 - nonce)) |}.

(** ** The wire format

    The reference encoder of every message the pool may send: fixed-width
    little-endian integers, length-prefixed byte strings, targets reversed. *)
Module Wire.

Definition int (n : nat) (v : Z) : Bytes := le_bytes n v.
Definition short (b : Bytes) : Bytes := u8 (Z.of_nat (length b)) :: b.
Definition str (s : string) : Bytes := short (String.list_byte_of_string s).

Definition encode (m : Message) : Frame :=
  match m with
  | MSetupSuccess m =>
      {| extension := 0; type := 1; payload := int 2 (ss_version m) ++ int 4 (ss_flags m) |}
  | MOpenSuccess m =>
      {| extension := 0; type := 0x11;
         payload := int 4 (os_request m) ++ int 4 (os_channel m) ++ reverse (os_target m) ++
                    short (os_prefix m) ++ int 4 (os_group m) |}
  | MNewJob m =>
      {| extension := 0x8000; type := 0x15;
         payload := int 4 (nj_channel m) ++ int 4 (nj_job m) ++
                    (match nj_ntime m with None => [x00] | Some t => x01 :: int 4 t end) ++
                    int 4 (nj_version m) ++ nj_root m |}
  | MPrevHash m =>
      {| extension := 0x8000; type := 0x20;
         payload := int 4 (ph_channel m) ++ int 4 (ph_job m) ++ ph_hash m ++
                    int 4 (ph_ntime m) ++ int 4 (ph_nbits m) |}
  | MTarget m =>
      {| extension := 0x8000; type := 0x21;
         payload := int 4 (tg_channel m) ++ reverse (tg_target m) |}
  | MAccepted m =>
      {| extension := 0x8000; type := 0x1c;
         payload := int 4 (ac_channel m) ++ int 4 (ac_last_sequence m) ++ int 4 (ac_count m) ++
                    int 8 (ac_difficulty_sum m) |}
  | MRejected m =>
      {| extension := 0x8000; type := 0x1d;
         payload := int 4 (rj_channel m) ++ int 4 (rj_sequence m) ++ str (rj_reason m) |}
  | MError m =>
      {| extension := if er_type m =? 0x18 then 0x8000 else 0; type := er_type m;
         payload := int 4 (er_reference m) ++ str (er_reason m) |}
  end.

Definition hash_ok (h : Bytes) : Prop := length h = 32%nat.
Definition target_ok (h : Bytes) : Prop := length h = 32%nat ∧ be_value h ≠ 0.
Definition str_ok (s : string) : Prop := (String.length s ≤ 255)%nat.

Definition message_ok (m : Message) : Prop :=
  match m with
  | MSetupSuccess m => is_u16 (ss_version m) ∧ is_u32 (ss_flags m)
  | MOpenSuccess m =>
      is_u32 (os_request m) ∧ is_u32 (os_channel m) ∧ target_ok (os_target m) ∧
      (length (os_prefix m) ≤ 32)%nat ∧ is_u32 (os_group m)
  | MNewJob m =>
      is_u32 (nj_channel m) ∧ is_u32 (nj_job m) ∧
      (match nj_ntime m with None => True | Some t => is_u32 t end) ∧
      is_u32 (nj_version m) ∧ hash_ok (nj_root m)
  | MPrevHash m =>
      is_u32 (ph_channel m) ∧ is_u32 (ph_job m) ∧ hash_ok (ph_hash m) ∧
      is_u32 (ph_ntime m) ∧ is_u32 (ph_nbits m)
  | MTarget m => is_u32 (tg_channel m) ∧ target_ok (tg_target m)
  | MAccepted m =>
      is_u32 (ac_channel m) ∧ is_u32 (ac_last_sequence m) ∧ is_u32 (ac_count m) ∧
      is_u64 (ac_difficulty_sum m)
  | MRejected m => is_u32 (rj_channel m) ∧ is_u32 (rj_sequence m) ∧ str_ok (rj_reason m)
  | MError m =>
      er_type m ∈ [2; 0x12; 0x18] ∧ is_u32 (er_reference m) ∧ str_ok (er_reason m)
  end.

End Wire.

(** ** Readers as codecs *)

(** [r] accepts exactly the encodings [enc v] of values with [P v], and leaves
    the rest of the buffer. *)
Class Reads {A} (r : Reader A) (enc : A → Bytes) (P : A → Prop) : Prop :=
  reads_iff b v rest : r b = (rest, Ok v) ↔ P v ∧ b = enc v ++ rest.

Section peel.
Context {A : Type} (r : Reader A) (enc : A → Bytes) (P : A → Prop) `{!Reads r enc P}.

Lemma reads_run {B} (k : A → Reader B) v rest : P v → (r ≫= k) (enc v ++ rest) = k v rest.
Proof.
  intros HP. unfold mbind, stM_bind. by rewrite (proj2 (reads_iff _ v rest) (conj HP eq_refl)).
Qed.

Lemma reads_inv {B} (k : A → Reader B) b rest w :
  (r ≫= k) b = (rest, Ok w) → ∃ v b', P v ∧ b = enc v ++ b' ∧ k v b' = (rest, Ok w).
Proof.
  unfold mbind, stM_bind. destruct (r b) as [b' [v|e]] eqn:E; [|discriminate].
  apply reads_iff in E as [HP ->]. eauto 10.
Qed.
End peel.

Lemma st_require_bind {S B} c msg (k : unit → stM S B) (s : S) :
  (st_require c msg ≫= k) s = if c then k tt s else (s, Throw (runtime_error msg)).
Proof. by destruct c. Qed.

Lemma integer_value_le n b : (n ≤ 8)%nat → (n ≤ length b)%nat →
  integer_value n b = le_value (take n b).
Proof.
  unfold integer_value. induction n as [|n IH]; intros H8 Hb; [done|].
  rewrite seq_S, fold_left_app. cbn [fold_left Nat.add]. rewrite IH by lia.
  destruct (lookup_lt_is_Some_2 b n) as [x Hx]; [lia|].
  rewrite (take_S_r _ _ _ Hx), (list_lookup_total_correct _ _ _ Hx), le_value_app.
  pose proof (le_value_bound (take n b)) as Hv. rewrite length_take, Nat.min_l in * by lia.
  pose proof (b2z_range x). rewrite Z.shiftl_mul_pow2, Z.pow_mul_r by lia. change (2 ^ 8) with 256.
  assert (256 ^ Z.of_nat n * 256 ≤ 2 ^ 64).
  { rewrite Z.mul_comm, <- Z.pow_succ_r by lia. change (2 ^ 64) with (256 ^ 8).
    apply Z.pow_le_mono_r; lia. }
  unfold u64. rewrite Z.mod_small by nia. rewrite Z.lor_comm.
  change 256 with (2 ^ 8) in *. rewrite <- !Z.pow_mul_r in * by lia.
  rewrite lor_mul_pow2 by lia. cbn [le_value]. lia.
Qed.

#[export] Instance reads_integer n : (n ≤ 8)%nat →
  Reads (r_integer n) (le_bytes n) (λ v, 0 ≤ v < 256 ^ Z.of_nat n).
Proof.
  intros H8 b v rest. unfold r_integer, st_get, st_modify, mbind, stM_bind, st_require.
  destruct (Nat.ltb_spec (length b) n) as [Hlt|Hge]; cbn.
  - split; [discriminate|]. intros [_ ->]. rewrite length_app, le_bytes_length in Hlt. lia.
  - rewrite integer_value_le by done. split.
    + intros [= <- <-]. pose proof (le_value_bound (take n b)) as Hb.
      rewrite length_take, Nat.min_l in Hb by done. split; [done|].
      rewrite le_bytes_value' by (rewrite length_take; lia). by rewrite take_drop.
    + intros [Hv ->]. rewrite drop_app_length', take_app_length' by (by rewrite le_bytes_length).
      by rewrite le_bytes_small.
Qed.

#[export] Instance reads_u32 : Reads r_u32 (le_bytes 4) is_u32.
Proof.
  intros b v rest. unfold r_u32, mbind, stM_bind.
  pose proof (reads_iff (r := r_integer 4) (Reads := reads_integer 4 ltac:(lia)) b) as H.
  destruct (r_integer 4 b) as [b' [x|e]] eqn:E.
  - destruct (proj1 (H x b') eq_refl) as [Hx _]. unfold mret, stM_ret.
    rewrite u32_small by done. rewrite <- (H v rest). split; congruence.
  - rewrite <- (H v rest). split; congruence.
Qed.

#[export] Instance reads_bytes n : Reads (r_bytes n) id (λ v, length v = n).
Proof.
  intros b v rest. unfold r_bytes, st_get, st_modify, mbind, stM_bind, st_require.
  destruct (Nat.ltb_spec (length b) n) as [Hlt|Hge]; cbn.
  - split; [discriminate|]. intros [? ->]. rewrite length_app in Hlt. lia.
  - split.
    + intros [= <- <-]. by rewrite length_take, Nat.min_l, take_drop.
    + intros [<- ->]. by rewrite drop_app_length, take_app_length.
Qed.

#[export] Instance reads_hash : Reads (r_hash false) id Wire.hash_ok.
Proof.
  intros b v rest. unfold r_hash. rewrite <- (reads_iff (r := r_bytes 32) b v rest).
  unfold mbind, stM_bind. by destruct (r_bytes 32 b) as [? [?|?]].
Qed.

#[export] Instance reads_target : Reads (r_hash true) reverse Wire.target_ok.
Proof.
  intros b v rest. unfold r_hash, Wire.target_ok. split.
  - intros (h & b' & Hl & -> & H)%(reads_inv _ id (λ v, length v = 32%nat)). cbn beta iota zeta in H.
    rewrite st_require_bind in H. destruct (forallb _ _) eqn:Hz; [discriminate H|].
    injection H as <- <-. rewrite length_reverse, reverse_involutive. split_and!; [done| |done].
    intros Hv%be_value_zero_iff. congruence.
  - intros [[Hl Hz] ->].
    rewrite (reads_run _ id (λ v, length v = 32%nat) _ (reverse v)) by (by rewrite length_reverse).
    cbn beta iota zeta. rewrite reverse_involutive, st_require_bind.
    destruct (forallb _ _) eqn:Hf; [|done]. by apply be_value_zero_iff in Hf.
Qed.

Lemma short_prefix (l : Bytes) : (length l ≤ 255)%nat →
  Wire.short l = le_bytes 1 (Z.of_nat (length l)) ++ l.
Proof. done. Qed.

Lemma reads_short max : 0 ≤ max ≤ 255 →
  Reads (r_short_bytes max) Wire.short (λ v, Z.of_nat (length v) ≤ max).
Proof.
  intros Hmax b v rest. unfold r_short_bytes. split.
  - intros (n & b' & Hn & -> & H)%(reads_inv _ _ _ (Reads0 := reads_integer 1 ltac:(lia))).
    rewrite st_require_bind in H. destruct (Z.ltb_spec max n); [discriminate H|].
    apply reads_iff in H as [Hl ->]. unfold Wire.short. rewrite Hl, Z2Nat.id by lia.
    split; [lia|]. done.
  - intros [Hl ->]. rewrite short_prefix, <- app_assoc by lia.
    rewrite (reads_run _ _ _ (Reads0 := reads_integer 1 ltac:(lia))) by lia.
    rewrite st_require_bind. destruct (Z.ltb_spec max (Z.of_nat (length v))); [lia|].
    cbn [negb]. apply reads_iff. rewrite Nat2Z.id. done.
Qed.

#[export] Instance reads_prefix : Reads (r_short_bytes 32) Wire.short (λ v, (length v ≤ 32)%nat).
Proof.
  intros b v rest. rewrite (reads_iff (Reads := reads_short 32 ltac:(lia)) b v rest).
  apply and_iff_compat_r. lia.
Qed.

#[export] Instance reads_string : Reads r_string Wire.str Wire.str_ok.
Proof.
  intros b v rest. unfold r_string, Wire.str, Wire.str_ok. rewrite <- length_list_byte. split.
  - intros (l & b' & Hl & -> & H)%(reads_inv _ _ _ (Reads0 := reads_short 255 ltac:(lia))).
    injection H as <- <-. rewrite String.list_byte_of_string_of_list_byte. split; [lia|done].
  - intros [Hl ->]. rewrite (reads_run _ _ _ (Reads0 := reads_short 255 ltac:(lia))) by lia.
    unfold mret, stM_ret. by rewrite String.string_of_list_byte_of_string.
Qed.

#[export] Instance reads_int1 : Reads (r_integer 1) (le_bytes 1) (λ v, 0 ≤ v < 2 ^ 8) :=
  reads_integer 1 ltac:(lia).
#[export] Instance reads_int2 : Reads (r_integer 2) (le_bytes 2) is_u16 := reads_integer 2 ltac:(lia).
#[export] Instance reads_int8 : Reads (r_integer 8) (le_bytes 8) is_u64 := reads_integer 8 ltac:(lia).

(** ** [decode] accepts exactly the wire format *)

(** Peel the reads of a successful decoding. *)
Ltac peel_reads H :=
  repeat (cbn beta iota in H;
    first
    [ apply (reads_inv r_u32 _ _) in H as (? & ? & ? & -> & H)
    | apply (reads_inv (r_hash false) _ _) in H as (? & ? & ? & -> & H)
    | apply (reads_inv (r_hash true) _ _) in H as (? & ? & ? & -> & H)
    | apply (reads_inv r_string _ _) in H as (? & ? & ? & -> & H)
    | apply (reads_inv (r_short_bytes 32) _ _) in H as (? & ? & ? & -> & H)
    | apply (reads_inv (r_integer 1) _ _) in H as (? & ? & ? & -> & H)
    | apply (reads_inv (r_integer 2) _ _) in H as (? & ? & ? & -> & H)
    | apply (reads_inv (r_integer 8) _ _) in H as (? & ? & ? & -> & H) ]).

Lemma hash_run {B} (k : Bytes → Reader B) h rest : Wire.hash_ok h →
  (r_hash false ≫= k) (h ++ rest) = k h rest.
Proof. exact (reads_run (r_hash false) id _ k h rest). Qed.

(** Run the reads on an encoding, leftmost field first. *)
Ltac run_reads :=
  rewrite <- ?app_assoc;
  repeat first
    [ rewrite (reads_run r_u32 _ _) by done
    | rewrite hash_run by done
    | rewrite (reads_run (r_hash true) reverse _) by done
    | rewrite (reads_run r_string _ _) by done
    | rewrite (reads_run (r_short_bytes 32) _ _) by done
    | rewrite (reads_run (r_integer 1) _ _) by lia
    | rewrite (reads_run (r_integer 2) _ _) by done
    | rewrite (reads_run (r_integer 8) _ _) by done ].

Lemma payload_ok t b m :
  (decode_payload t b).2 = Ok m ↔ decode_value t b = ([], Ok m).
Proof.
  unfold decode_payload, mbind, stM_bind.
  destruct (decode_value t b) as [rest [v|e]]; [|naive_solver].
  unfold r_end, st_get, st_require, mbind, stM_bind, mret, stM_ret.
  destruct rest; cbn; naive_solver.
Qed.

Lemma decode_cases f m :
  decode f = Ok m ↔
  extension f = (if is_channel_type (type f) then 0x8000 else 0) ∧
  decode_value (type f) (payload f) = ([], Ok m).
Proof.
  unfold decode. set (e := if is_channel_type _ then _ else _). clearbody e.
  destruct (Z.eqb_spec (extension f) e); cbn [negb].
  - rewrite throw_if_false, bind_Ok_eq, payload_ok. tauto.
  - rewrite throw_if_true, bind_Throw_eq. naive_solver.
Qed.

(** Close [message_ok m ∧ b = payload ++ rest ∧ t = type] of a concrete message. *)
Ltac wire :=
  cbn [Wire.message_ok Wire.encode payload type ss_version ss_flags os_request os_channel
    os_target os_prefix os_group nj_channel nj_job nj_ntime nj_version nj_root ph_channel ph_job
    ph_hash ph_ntime ph_nbits tg_channel tg_target ac_channel ac_last_sequence ac_count
    ac_difficulty_sum rj_channel rj_sequence rj_reason er_type er_reference er_reason];
  unfold Wire.int; rewrite <- ?app_assoc; split_and!; first [assumption | reflexivity | lia].

Lemma ret_bind {S A B} (a : A) (k : A → stM S B) s : (mret a ≫= k) s = k a s.
Proof. done. Qed.

Lemma optional_inv {B} (k : option Z → Reader B) b :
  ((t ← r_u32; mret (Some t)) ≫= k) b = (r_u32 ≫= λ t, k (Some t)) b.
Proof. unfold mbind, stM_bind. by destruct (r_u32 b) as [? [?|?]]. Qed.

Lemma decode_value_sound t b rest m : decode_value t b = (rest, Ok m) →
  Wire.message_ok m ∧ b = payload (Wire.encode m) ++ rest ∧ t = type (Wire.encode m).
Proof.
  unfold decode_value. intros H.
  repeat match type of H with
  | (if ?c then _ else _) _ = _ => destruct c eqn:?; bool_lia
  end.
  - peel_reads H. injection H as <- <-. unfold u16. rewrite Z.mod_small by done. wire.
  - peel_reads H. injection H as <- <-. wire.
  - peel_reads H. rewrite st_require_bind in H. destruct (negb _) eqn:Hp in H; [|discriminate H].
    bool_lia. match type of H with context [?x =? 0] => rename x into present end.
    destruct (Z.eqb_spec present 0) as [->|].
    + rewrite ret_bind in H.
      peel_reads H. injection H as <- <-. wire.
    + assert (present = 1) as -> by lia.
      rewrite optional_inv in H. peel_reads H. injection H as <- <-. wire.
  - peel_reads H. injection H as <- <-. wire.
  - peel_reads H. injection H as <- <-. wire.
  - peel_reads H. injection H as <- <-. wire.
  - peel_reads H. injection H as <- <-. wire.
  - peel_reads H. injection H as <- <-.
    match goal with H : _ = true |- _ => rename H into Ht end.
    assert (t ∈ [2; 0x12; 0x18]) as Hin.
    { rewrite !orb_true_iff, !Z.eqb_eq in Ht. set_solver. }
    wire.
  - discriminate H.
Qed.

Lemma u16_small z : is_u16 z → u16 z = z.
Proof. apply Z.mod_small. Qed.

Lemma decode_value_complete m rest : Wire.message_ok m →
  decode_value (type (Wire.encode m)) (payload (Wire.encode m) ++ rest) = (rest, Ok m).
Proof.
  intros Hm. destruct m as [[]|[]|[?? o ??]|[]|[]|[]|[]|[]];
    cbn [Wire.message_ok ss_version ss_flags os_request os_channel os_target os_prefix os_group
      nj_channel nj_job nj_ntime nj_version nj_root ph_channel ph_job ph_hash ph_ntime ph_nbits
      tg_channel tg_target ac_channel ac_last_sequence ac_count ac_difficulty_sum rj_channel
      rj_sequence rj_reason er_type er_reference er_reason] in Hm; destruct_and? Hm;
    unfold decode_value; cbn [Wire.encode type payload ss_version ss_flags os_request os_channel
      os_target os_prefix os_group nj_channel nj_job nj_ntime nj_version nj_root ph_channel ph_job
      ph_hash ph_ntime ph_nbits tg_channel tg_target ac_channel ac_last_sequence ac_count
      ac_difficulty_sum rj_channel rj_sequence rj_reason er_type er_reference er_reason];
    unfold Wire.int.
  3:{ change (0x15 =? 1) with false. change (0x15 =? 0x11) with false.
      change (0x15 =? 0x15) with true. cbn iota.
      destruct o as [t|].
      - change (x01 :: le_bytes 4 t) with (le_bytes 1 1 ++ le_bytes 4 t). run_reads.
        rewrite st_require_bind. cbn [Z.ltb Z.compare Pos.compare Pos.compare_cont negb Z.eqb Pos.eqb].
        rewrite optional_inv. by run_reads.
      - change [x00] with (le_bytes 1 0). run_reads.
        rewrite st_require_bind. cbn [Z.ltb Z.compare negb Z.eqb]. rewrite ret_bind. by run_reads. }
  7:{ match goal with H : _ ∈ _ |- _ => apply list_elem_of_In in H as [<-|[<-|[<-|[]]]] end;
        cbn [Z.eqb Pos.eqb orb]; by run_reads. }
  all: cbn [Z.eqb Pos.eqb orb]; run_reads; rewrite ?u16_small by done; done.
Qed.

Lemma encode_extension m : Wire.message_ok m →
  extension (Wire.encode m) = (if is_channel_type (type (Wire.encode m)) then 0x8000 else 0).
Proof.
  destruct m as [[]|[]|[]|[]|[]|[]|[]|[]]; try done. intros (Ht & _). cbn [er_type] in Ht.
  apply list_elem_of_In in Ht as [<-|[<-|[<-|[]]]]; done.
Qed.

(** C17: [decode] accepts a frame exactly when it is the wire encoding of a
    well-formed message, with the right extension field, in-range fields, a
    nonzero target, an optional time flag of 0 or 1 and no trailing byte, and
    returns that message. *)
Theorem decode_exact f m :
  decode f = Ok m ↔ Wire.message_ok m ∧ f = Wire.encode m.
Proof.
  rewrite decode_cases. split.
  - intros [He Hd]. apply decode_value_sound in Hd as (Hm & Hp & Ht). split; [done|].
    rewrite Ht, <- encode_extension in He by done. rewrite app_nil_r in Hp.
    destruct f, (Wire.encode m); cbn in *; congruence.
  - intros [Hm ->]. split; [by apply encode_extension|].
    rewrite <- (app_nil_r (payload _)). by apply decode_value_complete.
Qed.

(** ** The client's messages *)

Lemma fold_push {A} (f : nat → A) l (b : list A) :
  fold_left (λ b i, b ++ [f i]) l b = b ++ (f <$> l).
Proof.
  revert b. induction l as [|i l IH]; intros b; [by rewrite app_nil_r|].
  rewrite fold_left_cons, IH, <- app_assoc. done.
Qed.

Lemma le_bytes_shifts n v :
  (λ i, u8 (Z.shiftr v (8 * Z.of_nat i))) <$> seq 0 n = le_bytes n v.
Proof.
  revert v. induction n as [|n IH]; intros v; [done|]. rewrite <- cons_seq, <- fmap_S_seq, fmap_cons.
  cbn [le_bytes]. f_equal. rewrite <- IH, <- list_fmap_compose. apply list_fmap_ext.
  intros _ i _. unfold compose. f_equal. rewrite !Z.shiftr_div_pow2 by lia.
  change 256 with (2 ^ 8). rewrite Z.div_div, <- Z.pow_add_r by lia. do 2 f_equal. lia.
Qed.

Lemma w_integer_run {B} v n (k : unit → Writer B) b :
  (w_integer v n ≫= k) b = k tt (b ++ le_bytes n v).
Proof.
  unfold w_integer, st_modify, mbind, stM_bind.
  by rewrite (fold_push (λ i, u8 (Z.shiftr v (8 * Z.of_nat i)))), le_bytes_shifts.
Qed.

Lemma w_string_run {B} s (k : unit → Writer B) b : Wire.str_ok s →
  (w_string s ≫= k) b = k tt (b ++ Wire.str s).
Proof.
  unfold Wire.str_ok. intros Hs. rewrite <- length_list_byte in Hs.
  unfold w_string. cbn zeta. unfold mbind at 1, stM_bind at 1. rewrite st_require_bind.
  destruct (Nat.ltb_spec 255 (length (String.list_byte_of_string s))); [lia|]. cbn [negb].
  rewrite w_integer_run. unfold st_modify. by rewrite <- app_assoc.
Qed.

Lemma w_string_long {B} s (k : unit → Writer B) b : ¬ Wire.str_ok s →
  (w_string s ≫= k) b = (b, Throw (runtime_error "SV2 string exceeds 255 bytes")).
Proof.
  unfold Wire.str_ok. intros Hs. rewrite <- length_list_byte in Hs.
  unfold w_string. cbn zeta. unfold mbind at 1, stM_bind at 1. rewrite st_require_bind.
  destruct (Nat.ltb_spec 255 (length (String.list_byte_of_string s))); [done|lia].
Qed.

(** How a pool reads the client's messages. *)
Definition parse_open : Reader (Z * string * Z * Bytes) :=
  request ← r_u32; user ← r_string; rate ← r_u32; target ← r_hash true; _ ← r_end;
  mret (request, user, rate, target).
Definition parse_submit : Reader (Z * Z * Z * Z * Z * Z) :=
  c ← r_u32; s ← r_u32; j ← r_u32; n ← r_u32; t ← r_u32; v ← r_u32; _ ← r_end;
  mret (c, s, j, n, t, v).

Lemma submit_writes l (w : Writer unit) b b' : w b = (b', Ok tt) →
  fold_left (λ w x, _ ← w; w_integer x 4) l w b = (b' ++ flat_map (le_bytes 4) l, Ok tt).
Proof.
  revert w b b'. induction l as [|x l IH]; intros w b b' Hw.
  { cbn [fold_left flat_map]. by rewrite app_nil_r. }
  rewrite fold_left_cons. rewrite (IH _ b (b' ++ le_bytes 4 x)).
  - cbn [flat_map]. by rewrite app_assoc.
  - unfold mbind, stM_bind. rewrite Hw. unfold w_integer, st_modify.
    by rewrite (fold_push (λ i, u8 (Z.shiftr x (8 * Z.of_nat i)))), le_bytes_shifts.
Qed.

Lemma r_end_nil {B} (k : unit → Reader B) : (r_end ≫= k) [] = k tt [].
Proof. done. Qed.

Lemma submit_frame c s j n t v : is_u32 c → is_u32 s → is_u32 j → is_u32 n → is_u32 t → is_u32 v →
  ∃ f, submit_standard c s j n t v = Ok f ∧ extension f = 0x8000 ∧ type f = 0x1a ∧
    parse_submit (payload f) = ([], Ok (c, s, j, n, t, v)).
Proof.
  intros. unfold submit_standard, written. rewrite (submit_writes _ _ _ []) by done.
  eexists. split_and!; [done..|]. cbn [payload flat_map]. rewrite app_nil_l.
  unfold parse_submit. by run_reads.
Qed.

(** a channel opening with a finite non-negative rate and a user name of
    at most 255 bytes is sent and reads back as the same request, user, rate
    and target with nothing left over; a longer user name throws; a share
    submission reads back as its six fields. *)
Theorem client_frames_roundtrip request user rate target c s j n t v :
  is_u32 request → is_u32 rate → float_isfinite rate = true → float_negative rate = false →
  Wire.target_ok target →
  is_u32 c → is_u32 s → is_u32 j → is_u32 n → is_u32 t → is_u32 v →
  (if (String.length user <=? 255)%nat then
     ∃ f, open_standard request user rate target = Ok f ∧ extension f = 0 ∧ type f = 0x10 ∧
       parse_open (payload f) = ([], Ok (request, user, rate, target))
   else open_standard request user rate target =
          Throw (runtime_error "SV2 string exceeds 255 bytes")) ∧
  ∃ f, submit_standard c s j n t v = Ok f ∧ extension f = 0x8000 ∧ type f = 0x1a ∧
    parse_submit (payload f) = ([], Ok (c, s, j, n, t, v)).
Proof.
  intros Hq Hr Hf Hn Ht ??????. split.
  - unfold open_standard, written. rewrite Hf, Hn. cbn [negb orb].
    rewrite throw_if_false, bind_Ok_eq, w_integer_run.
    destruct (Nat.leb_spec (String.length user) 255) as [Hu|Hu].
    2:{ by rewrite w_string_long by (unfold Wire.str_ok; lia). }
    rewrite w_string_run, w_integer_run by done. unfold st_modify.
    eexists. split_and!; [done..|]. cbn [payload]. rewrite app_nil_l.
    unfold parse_open. rewrite <- (app_nil_r (reverse target)). by run_reads.
  - by apply submit_frame.
Qed.

Lemma client_frames_roundtrip_witness :
  (∃ f, open_standard 1 "user.worker" 0x4d000000 (replicate 32 xff) = Ok f ∧ extension f = 0 ∧
     type f = 0x10 ∧
     parse_open (payload f) = ([], Ok (1, "user.worker", 0x4d000000, replicate 32 xff))) ∧
  ∃ f, submit_standard 7 1 2 0xffffffff 1700000000 0x20000000 = Ok f ∧ extension f = 0x8000 ∧
    type f = 0x1a ∧
    parse_submit (payload f) = ([], Ok (7, 1, 2, 0xffffffff, 1700000000, 0x20000000)).
Proof.
  apply (client_frames_roundtrip 1 "user.worker" 0x4d000000 (replicate 32 xff)
    7 1 2 0xffffffff 1700000000 0x20000000);
    try (unfold is_u32; lia); try reflexivity.
  split; [reflexivity|by vm_compute].
Defined.

(** ** Nonce and time partitions *)

Lemma partition_ok base slot cursor batch p : partition base slot cursor batch = Ok p →
  slot < 256 ∧ cursor < 2 ^ 56 ∧ batch ≠ 0.
Proof.
  unfold partition. intros (? & H & _)%bind_Ok. apply throw_if_Ok in H.
  change (u64 (Z.shiftl 1 56)) with (2 ^ 56) in H. bool_lia.
Qed.

Lemma partition_value base slot cursor batch :
  0 ≤ slot < 256 → 0 ≤ cursor < 2 ^ 56 → 0 < batch < 2 ^ 32 →
  partition base slot cursor batch =
  Ok {| p_nonce := cursor mod 2 ^ 32;
        p_ntime := (base + slot * 2 ^ 24 + cursor / 2 ^ 32) mod 2 ^ 32;
        p_count := Z.min batch (2 ^ 32 - cursor mod 2 ^ 32) |}.
Proof.
  intros Hs Hc Hb. unfold partition. change (u64 (Z.shiftl 1 56)) with (2 ^ 56).
  destruct (Z.leb_spec 256 slot); [lia|]. destruct (Z.leb_spec (2 ^ 56) cursor); [lia|].
  destruct (Z.eqb_spec batch 0); [lia|]. cbn [orb]. rewrite throw_if_false, bind_Ok_eq.
  rewrite Z.shiftl_mul_pow2, Z.shiftr_div_pow2 by lia. cbn zeta. unfold u32. do 2 f_equal.
  - rewrite (Z.mod_small (slot * _)), (Z.mod_small (cursor / _)) by lia. done.
  - apply Z.mod_small. lia.
Qed.

(** two partitions never share work.  Every nonce a valid partition hands
    out stays below 2^32, at least one is handed out and at most [batch], and
    two of them give the same nonce and time only for the same slot and the same
    position of its cursor. *)
Theorem partition_disjoint base s1 c1 b1 s2 c2 b2 p1 p2 i1 i2 :
  0 ≤ s1 → 0 ≤ s2 → is_u64 c1 → is_u64 c2 → is_u32 b1 → is_u32 b2 →
  partition base s1 c1 b1 = Ok p1 → partition base s2 c2 b2 = Ok p2 →
  0 ≤ i1 < p_count p1 → 0 ≤ i2 < p_count p2 →
  (1 ≤ p_count p1 ≤ b1 ∧ p_nonce p1 + p_count p1 ≤ 2 ^ 32 ∧ is_u32 (p_ntime p1)) ∧
  (p_nonce p1 + i1 = p_nonce p2 + i2 ∧ p_ntime p1 = p_ntime p2 ↔
   s1 = s2 ∧ c1 + i1 = c2 + i2).
Proof.
  unfold is_u64, is_u32. intros Hs1 Hs2 Hc1 Hc2 Hb1 Hb2 H1 H2 Hi1 Hi2.
  pose proof (partition_ok _ _ _ _ _ H1). pose proof (partition_ok _ _ _ _ _ H2).
  rewrite partition_value in H1, H2 by lia. injection H1 as <-. injection H2 as <-.
  cbn [p_nonce p_ntime p_count] in *. split; [lia|].
  set (m1 := c1 / 2 ^ 32). set (m2 := c2 / 2 ^ 32).
  assert (0 ≤ m1 < 2 ^ 24) by (unfold m1; lia). assert (0 ≤ m2 < 2 ^ 24) by (unfold m2; lia).
  assert ((base + s1 * 2 ^ 24 + m1) mod 2 ^ 32 = (base + s2 * 2 ^ 24 + m2) mod 2 ^ 32 ↔
          s1 = s2 ∧ m1 = m2) as ->; [lia|].
  unfold m1, m2. lia.
Qed.

Lemma partition_disjoint_witness :
  (1 ≤ 5 ≤ 10 ∧ 2 ^ 32 - 5 + 5 ≤ 2 ^ 32 ∧ is_u32 99) ∧
  (2 ^ 32 - 5 + 4 = 0 + 3 ∧ 99 = 100 ↔ 0 = 0 ∧ 2 ^ 32 - 5 + 4 = 2 ^ 32 + 3).
Proof.
  apply (partition_disjoint 99 0 (2 ^ 32 - 5) 10 0 (2 ^ 32) 10
    {| p_nonce := 2 ^ 32 - 5; p_ntime := 99; p_count := 5 |}
    {| p_nonce := 0; p_ntime := 100; p_count := 10 |} 4 3);
    unfold is_u64, is_u32; first [reflexivity | lia | (cbn; lia)].
Defined.
