(* ===== verification/Noise.v ===== *)
(** * The Noise transport

    src/src/sv2_noise.cpp on top of the C ABI of src/rust/sv2-noise/src/lib.rs.
    The cryptography is the noise_sv2 crate, which is not in the repository: it
    is the class [NoiseCrate], and [NoiseCrateLaws] states what the transport
    relies on of two engines that completed one handshake. *)
From S2P Require Import Prelude Words Hex Targets Sv2.

(** ** The crate *)

(** [Initiator] and [NoiseEngine] of noise_sv2.  [encrypt] and [decrypt] work in
    place on a vector and advance the engine's counter. *)
Class NoiseCrate := {
  Initiator : Type;
  Engine : Type;
  from_raw_k : Bytes → option Initiator;
  step_0 : Initiator → Initiator * option Bytes;
  step_2 : Initiator → Bytes → option Engine;
  encrypt : Engine → Bytes → Engine * option Bytes;
  decrypt : Engine → Bytes → Engine * option Bytes;
}.

(** [paired s r]: [r] decrypts the stream [s] encrypts.  Encryption of a block
    that fits a Noise message succeeds and adds a 16-byte tag; the paired engine
    decrypts it and both counters advance; a decrypted text is 16 bytes shorter
    than its ciphertext. *)
Class NoiseCrateLaws `{NoiseCrate} := {
  paired : Engine → Engine → Prop;
  encrypt_paired s r p : paired s r → Z.of_nat (length p) ≤ 65519 →
    ∃ s' r' c, encrypt s p = (s', Some c) ∧ length c = (length p + 16)%nat ∧
      decrypt r c = (r', Some p) ∧ paired s' r';
  decrypt_length r c r' p : decrypt r c = (r', Some p) → length c = (length p + 16)%nat;
}.

Section noise.
Context `{NoiseCrate}.

(** ** The C ABI *)

Record State := { initiator : option Initiator; engine : option Engine; st_failed : bool }.

(** [yolo_noise_new]: the state and the 64-byte first message, or null. *)
Definition yolo_noise_new (key : Bytes) : option (State * Bytes) :=
  i ← from_raw_k key;
  match step_0 i with
  | (i, Some message) =>
      Some ({| initiator := Some i; engine := None; st_failed := false |}, take 64 message)
  | (_, None) => None
  end.

(** [INITIATOR_EXPECTED_HANDSHAKE_MESSAGE_SIZE] *)
Definition handshake_size : nat := 234.

(** [yolo_noise_finish]: true for the return value 0. *)
Definition yolo_noise_finish (s : State) (message : Bytes) : State * bool :=
  if negb (length message =? handshake_size)%nat then (s, false)
  else
    let fail s := ({| initiator := initiator s; engine := engine s; st_failed := true |}, false) in
    if st_failed s then fail s
    else
      (* self.initiator.take() *)
      let s' := {| initiator := None; engine := engine s; st_failed := st_failed s |} in
      match initiator s with
      | None => fail s'
      | Some i =>
          match step_2 i message with
          | None => fail s'
          | Some e => ({| initiator := None; engine := Some e; st_failed := st_failed s |}, true)
          end
      end.

(** [yolo_noise_transform]: the bytes written to the output, or none for -1. *)
Definition yolo_noise_transform (s : State) (dec : bool) (input : Bytes) (capacity : Z)
    : State * option Bytes :=
  let len := Z.of_nat (length input) in
  if (65535 <? len) || (negb dec && (65519 <? len)) || (capacity <? len + 16) then (s, None)
  else
    let fail s := ({| initiator := initiator s; engine := engine s; st_failed := true |}, None) in
    if st_failed s then fail s
    else
      match engine s with
      | None => fail s
      | Some e =>
          let '(e, r) := if dec then decrypt e input else encrypt e input in
          let s := {| initiator := initiator s; engine := Some e; st_failed := st_failed s |} in
          match r with
          | Some bytes => (s, Some bytes)
          | None => fail s
          end
      end.

(** ** [Noise] *)

Definition max_payload : Z := 1024 * 1024.
Definition chunk : Z := 65519.

Record Noise := {
  state : State;
  ready : bool;
  failed : bool;
  input : Bytes;
  incoming : option Frame;
  remaining : Z;
}.

Definition set_state (s : State) (n : Noise) : Noise :=
  {| state := s; ready := ready n; failed := failed n; input := input n;
     incoming := incoming n; remaining := remaining n |}.
Definition set_ready (n : Noise) : Noise :=
  {| state := state n; ready := true; failed := failed n; input := input n;
     incoming := incoming n; remaining := remaining n |}.
Definition set_failed (n : Noise) : Noise :=
  {| state := state n; ready := ready n; failed := true; input := input n;
     incoming := incoming n; remaining := remaining n |}.
Definition set_input (b : Bytes) (n : Noise) : Noise :=
  {| state := state n; ready := ready n; failed := failed n; input := b;
     incoming := incoming n; remaining := remaining n |}.
Definition set_incoming (f : option Frame) (n : Noise) : Noise :=
  {| state := state n; ready := ready n; failed := failed n; input := input n;
     incoming := f; remaining := remaining n |}.
Definition set_remaining (r : Z) (n : Noise) : Noise :=
  {| state := state n; ready := ready n; failed := failed n; input := input n;
     incoming := incoming n; remaining := r |}.

(** The constructor: the object and the first message. *)
Definition new_noise (key : Bytes) : result (Noise * Bytes) :=
  match yolo_noise_new key with
  | Some (s, first) =>
      Ok ({| state := s; ready := false; failed := false; input := [];
             incoming := None; remaining := 0 |}, first)
  | None => Throw (runtime_error "invalid SV2 authority key or Noise initialization failed")
  end.

Definition finish (b : Bytes) : stM Noise unit := λ n,
  let '(s, ok) := if ready n || failed n then (state n, false) else yolo_noise_finish (state n) b in
  let n := set_state s n in
  if ok then (set_ready n, Ok tt)
  else (set_failed n, Throw (runtime_error "SV2 Noise certificate authentication failed")).

Definition transform (dec : bool) (b : Bytes) : stM Noise Bytes := λ n,
  if negb (ready n) || failed n then (n, Throw (runtime_error "SV2 Noise session unavailable"))
  else
    let '(s, r) := yolo_noise_transform (state n) dec b (Z.of_nat (length b) + 16) in
    let n := set_state s n in
    match r with
    | None => (set_failed n, Throw (runtime_error "SV2 Noise authentication/encryption failed"))
    | Some out => (n, Ok out)
    end.

(** [for (i = 0; i < payload.size(); i += chunk)] over the unsent [rest]. *)
Fixpoint encode_chunks (fuel : nat) (rest out : Bytes) : stM Noise Bytes :=
  match fuel, rest with
  | O, _ | _, [] => mret out
  | S fuel', _ =>
      let k := Z.to_nat (Z.min chunk (Z.of_nat (length rest))) in
      b ← transform false (take k rest);
      encode_chunks fuel' (drop k rest) (out ++ b)
  end.

Definition frame_header (f : Frame) : Bytes :=
  let size := Z.of_nat (length (payload f)) in
  [u8 (extension f); u8 (Z.shiftr (extension f) 8); u8 (type f);
   u8 size; u8 (Z.shiftr size 8); u8 (Z.shiftr size 16)].

Definition encode (f : Frame) : stM Noise Bytes :=
  _ ← st_require (negb (max_payload <? Z.of_nat (length (payload f))))
        "SV2 frame exceeds local size limit";
  out ← transform false (frame_header f);
  encode_chunks (length (payload f)) (payload f) out.

(** [if (!incoming) { ... }]: the new offset, or none for [break]. *)
Definition receive_header (consumed : nat) : stM Noise (option nat) :=
  n ← st_get;
  match incoming n with
  | Some _ => mret (Some consumed)
  | None =>
      if (length (input n) - consumed <? 22)%nat then mret None
      else
        h ← transform true (take 22 (drop consumed (input n)));
        let size := b2z (h !!! 3%nat) + Z.shiftl (b2z (h !!! 4%nat)) 8 +
                    Z.shiftl (b2z (h !!! 5%nat)) 16 in
        _ ← st_modify (set_remaining size);
        _ ← st_require (negb (max_payload <? size)) "SV2 frame exceeds local size limit";
        _ ← st_modify (set_incoming (Some
              {| extension := Z.lor (b2z (h !!! 0%nat)) (Z.shiftl (b2z (h !!! 1%nat)) 8);
                 type := b2z (h !!! 2%nat); payload := [] |}));
        mret (Some (consumed + 22)%nat)
  end.

(** What the rest of the iteration does: [break], [continue], or complete a
    frame, with the new offset. *)
Inductive progress := Break (consumed : nat) | Continue (consumed : nat)
  | Complete (consumed : nat) (f : Frame).

(** [out.push_back(std::move( *incoming)); incoming.reset();] *)
Definition complete (consumed : nat) : stM Noise progress :=
  n ← st_get;
  match incoming n with
  | Some f => _ ← st_modify (set_incoming None); mret (Complete consumed f)
  | None => mret (Break consumed)
  end.

(** [if (remaining) { ... }] and the completion of the frame. *)
Definition receive_payload (consumed : nat) : stM Noise progress :=
  n ← st_get;
  if remaining n =? 0 then complete consumed
  else
    let k := Z.min (remaining n) chunk in
    if Z.of_nat (length (input n) - consumed) <? k + 16 then mret (Break consumed)
    else
      p ← transform true (take (Z.to_nat (k + 16)) (drop consumed (input n)));
      let consumed := (consumed + Z.to_nat (k + 16))%nat in
      _ ← st_modify (λ n, set_incoming
            ((λ f, {| extension := extension f; type := type f; payload := payload f ++ p |})
               <$> incoming n) n);
      _ ← st_modify (λ n, set_remaining (remaining n - k) n);
      n ← st_get;
      if remaining n =? 0 then complete consumed else mret (Continue consumed).

(** One iteration of [for (;;)]. *)
Definition receive_step (consumed : nat) : stM Noise progress :=
  c ← receive_header consumed;
  match c with
  | None => mret (Break consumed)
  | Some consumed => receive_payload consumed
  end.

Fixpoint receive_loop (fuel : nat) (consumed : nat) (out : list Frame)
    : stM Noise (nat * list Frame) :=
  match fuel with
  | O => mret (consumed, out)
  | S fuel' =>
      step ← receive_step consumed;
      match step with
      | Break consumed => mret (consumed, out)
      | Continue consumed => receive_loop fuel' consumed out
      | Complete consumed f =>
          let out := out ++ [f] in
          _ ← st_require (negb (1024 <? length out)%nat) "SV2 message flood";
          receive_loop fuel' consumed out
      end
  end.

Definition receive_body (b : Bytes) : stM Noise (list Frame) :=
  n ← st_get;
  _ ← st_require (negb (negb (ready n) || failed n)) "SV2 Noise session unavailable";
  _ ← st_require (negb (max_payload + 4096 <? Z.of_nat (length (input n) + length b)))
        "SV2 receive buffer limit";
  _ ← st_modify (λ n, set_input (input n ++ b) n);
  n ← st_get;
  '(consumed, out) ← receive_loop (S (length (input n))) 0 [];
  _ ← st_modify (λ n, set_input (drop consumed (input n)) n);
  mret out.

(** [catch (...) { failed = true; throw; }] *)
Definition receive (b : Bytes) : stM Noise (list Frame) := λ n,
  match receive_body b n with
  | (n, Ok out) => (n, Ok out)
  | (n, Throw e) => (set_failed n, Throw e)
  end.
End noise.

(** ** Poisoning *)

Section poison.
Context `{NoiseCrate}.

Inductive noise_op := OReceive (b : Bytes) | OEncode (f : Frame) | OFinish (b : Bytes).

(** One call on the object, and whether it returned. *)
Definition run_op (o : noise_op) (n : Noise) : Noise * bool :=
  match o with
  | OReceive b => let '(n, r) := receive b n in (n, is_ok r)
  | OEncode f => let '(n, r) := encode f n in (n, is_ok r)
  | OFinish b => let '(n, r) := finish b n in (n, is_ok r)
  end.

Fixpoint run_ops (os : list noise_op) (n : Noise) : Noise * list bool :=
  match os with
  | [] => (n, [])
  | o :: os => let '(n, ok) := run_op o n in let '(n, oks) := run_ops os n in (n, ok :: oks)
  end.

Lemma receive_failed b n : failed n = true →
  receive b n = (set_failed n, Throw (runtime_error "SV2 Noise session unavailable")).
Proof.
  intros Hf. unfold receive, receive_body, mbind, stM_bind, st_get, st_require. rewrite Hf.
  by rewrite orb_true_r.
Qed.

Lemma transform_failed d b n : failed n = true →
  transform d b n = (n, Throw (runtime_error "SV2 Noise session unavailable")).
Proof. intros Hf. unfold transform. by rewrite Hf, orb_true_r. Qed.

Lemma run_op_failed o n : failed n = true → (run_op o n).2 = false ∧ failed (run_op o n).1 = true.
Proof.
  intros Hf. destruct o as [b|f|b]; cbn [run_op].
  - by rewrite receive_failed.
  - unfold encode. rewrite st_require_bind. destruct (negb _); [|done].
    unfold mbind, stM_bind. by rewrite transform_failed.
  - unfold finish. by rewrite Hf, orb_true_r.
Qed.

Lemma run_ops_failed os n : failed n = true →
  failed (run_ops os n).1 = true ∧ Forall (λ ok, ok = false) (run_ops os n).2.
Proof.
  revert n. induction os as [|o os IH]; intros n Hf; [by split; [|constructor]|].
  cbn [run_ops]. destruct (run_op_failed o n Hf) as [Hr Hf'].
  destruct (run_op o n) as [n' ok]. cbn in Hr, Hf'. subst ok.
  specialize (IH n' Hf'). destruct (run_ops os n'). cbn in *. destruct IH. split; [done|by constructor].
Qed.

(** a [receive] that throws poisons the connection for good: whatever the
    cause and whatever is called afterwards, in any order, every later call
    throws. *)
Theorem receive_poisons b n n' e os : receive b n = (n', Throw e) →
  failed (run_ops os n').1 = true ∧ Forall (λ ok, ok = false) (run_ops os n').2.
Proof.
  intros Hr. apply run_ops_failed. unfold receive in Hr.
  destruct (receive_body b n) as [n1 [out|e1]]; by inversion Hr.
Qed.
End poison.

(** ** Bounded buffers *)

Section bounds.
Context `{NoiseCrateLaws}.

(** The receive buffer and the frame under assembly stay within their limits. *)
Definition buffers_ok (n : Noise) : Prop :=
  Z.of_nat (length (input n)) ≤ max_payload + 4096 ∧
  match incoming n with
  | Some f => 0 ≤ remaining n ∧ Z.of_nat (length (payload f)) + remaining n ≤ max_payload
  | None => True
  end.

(** [transform] touches only the cipher state and the failure flag. *)
Definition same_buffers (n n' : Noise) : Prop :=
  input n' = input n ∧ incoming n' = incoming n ∧ remaining n' = remaining n.

Lemma transform_buffers d b n :
  wp (transform d b) (λ n' r, same_buffers n n' ∧
    match r with Ok out => d = true → length b = (length out + 16)%nat | Throw _ => True end) n.
Proof.
  unfold wp, transform. destruct (_ || _); [done|].
  unfold yolo_noise_transform. cbn zeta.
  destruct ((65535 <? _) || _ || _); [done|].
  destruct (st_failed (state n)); [done|]. destruct (engine (state n)) as [e|]; [|done].
  destruct d.
  - destruct (decrypt e b) as [e' [out|]] eqn:E; cbn; (split; [done|]); [|done].
    intros _. by eapply decrypt_length.
  - by destruct (encrypt e b) as [e' [out|]].
Qed.

Lemma buffers_ok_same n n' : same_buffers n n' → buffers_ok n → buffers_ok n'.
Proof. intros (Hi & Hc & Hr). unfold buffers_ok. by rewrite Hi, Hc, Hr. Qed.

Lemma receive_header_buffers c n : buffers_ok n →
  wp (receive_header c) (λ n' r, buffers_ok n' ∧ input n' = input n ∧
    match r with Ok (Some _) => is_Some (incoming n') | _ => True end) n.
Proof.
  intros Hok. unfold receive_header. wp_steps. destruct (incoming n) eqn:Hn.
  { wp_steps. by rewrite Hn. }
  destruct (_ <? 22)%nat; [by wp_steps|]. wp_steps.
  eapply wp_mono; [apply transform_buffers|]. intros n1 [h|e] (Hs & _); cbn beta.
  2:{ wp_steps. split_and!; [by eapply buffers_ok_same|apply Hs|done]. }
  destruct Hs as (Hi & Hc & _). destruct Hok as [Hb _]. rewrite Hn in Hc. wp_steps.
  - pose proof (b2z_range (h !!! 3%nat)). pose proof (b2z_range (h !!! 4%nat)).
    pose proof (b2z_range (h !!! 5%nat)). rewrite !Z.shiftl_mul_pow2 in * by lia.
    split_and!; [|done|done]. split; cbn; [by rewrite Hi|]. bool_lia.
  - split_and!; [|done|done]. split; cbn; [by rewrite Hi|]. by rewrite Hc.
Qed.

Lemma complete_buffers c n : buffers_ok n →
  wp (complete c) (λ n' _, buffers_ok n' ∧ input n' = input n) n.
Proof.
  intros [Hb Hf]. unfold complete. wp_steps. destruct (incoming n) as [f|] eqn:Hn; wp_steps.
  - done.
  - split; [|done]. split; [done|]. by rewrite Hn.
Qed.

Lemma receive_payload_buffers c n : buffers_ok n → is_Some (incoming n) →
  wp (receive_payload c) (λ n' _, buffers_ok n' ∧ input n' = input n) n.
Proof.
  intros Hok [f Hf]. unfold receive_payload. wp_steps.
  destruct (Z.eqb_spec (remaining n) 0); [by apply complete_buffers|]. cbn zeta.
  destruct (Z.ltb_spec (Z.of_nat (length (input n) - c)) (Z.min (remaining n) chunk + 16)).
  { by wp_steps. }
  wp_steps. eapply wp_mono; [apply transform_buffers|]. intros n1 [p|e] (Hs & Hl); cbn beta.
  2:{ wp_steps. split; [by eapply buffers_ok_same|apply Hs]. }
  specialize (Hl eq_refl). rewrite length_take, length_drop in Hl.
  destruct Hs as (Hi & Hc & Hr). destruct Hok as [Hb Hp]. rewrite Hf in Hp, Hc.
  wp_steps. cbn [set_remaining set_incoming remaining incoming input].
  assert (buffers_ok (set_remaining (remaining n1 - Z.min (remaining n) chunk)
    (set_incoming ((λ f : Frame, {| extension := extension f; type := type f; payload := payload f ++ p |})
       <$> incoming n1) n1))) as Hok'.
  { split; cbn; [by rewrite Hi|]. rewrite Hc, Hr. cbn. rewrite length_app.
    unfold chunk in *. lia. }
  destruct (_ =? 0); [|by wp_steps].
  eapply wp_mono; [by apply complete_buffers|]. cbn. intros n2 ? [? ?]. split; [done|congruence].
Qed.

Lemma receive_step_buffers c n : buffers_ok n →
  wp (receive_step c) (λ n' _, buffers_ok n' ∧ input n' = input n) n.
Proof.
  intros Hok. unfold receive_step. wp_steps. eapply wp_mono; [by apply receive_header_buffers|].
  intros n1 [[c'|]|e] (Hb & Hi & Hs); cbn beta; wp_steps; [|done|done].
  eapply wp_mono; [by apply receive_payload_buffers|]. cbn. intros n2 ? [? ?]. split; [done|congruence].
Qed.

Lemma receive_loop_buffers fuel c out n : buffers_ok n →
  wp (receive_loop fuel c out) (λ n' _, buffers_ok n' ∧ input n' = input n) n.
Proof.
  revert c out n. induction fuel as [|fuel IH]; intros c out n Hok; cbn [receive_loop]; [by wp_steps|].
  wp_steps. eapply wp_mono; [by apply receive_step_buffers|].
  intros n1 [[c'|c'|c' f]|e] (Hb & Hi); cbn beta; wp_steps; try done.
  all: eapply wp_mono; [by apply IH|]; cbn; intros n2 ? [? ?]; split; [done|congruence].
Qed.

Lemma run_op_buffers o n : buffers_ok n → buffers_ok (run_op o n).1.
Proof.
  intros Hok. destruct o as [b|f|b]; cbn [run_op].
  - assert (wp (receive_body b) (λ n' _, buffers_ok n') n) as Hw.
    { unfold receive_body. wp_steps; [|done|done]. eapply wp_mono.
      - apply receive_loop_buffers. destruct Hok as [Hb Hp]. split; [|done]. cbn.
        rewrite length_app. bool_lia.
      - intros n1 [[c out]|e] ([Hb Hp] & Hi); cbn beta; wp_steps; [|done].
        split; [|done]. cbn. rewrite length_drop. lia. }
    unfold receive, wp in *. by destruct (receive_body b n) as [n' [out|e]].
  - assert (∀ fuel rest out m, buffers_ok m → buffers_ok (encode_chunks fuel rest out m).1) as Hc.
    { induction fuel as [|fuel IH]; intros rest out m Hm; [done|].
      destruct rest as [|x rest]; [done|]. cbn [encode_chunks]. cbn zeta.
      unfold mbind, stM_bind.
      pose proof (transform_buffers false
        (take (Z.to_nat (Z.min chunk (Z.of_nat (length (x :: rest))))) (x :: rest)) m) as [Hs _].
      destruct (transform _ _ m) as [m' [bs|e]]; cbn in Hs; [apply IH|]; by eapply buffers_ok_same. }
    unfold encode. rewrite st_require_bind. destruct (negb _); [|done].
    unfold mbind, stM_bind. pose proof (transform_buffers false (frame_header f) n) as [Hs _].
    destruct (transform _ _ n) as [m' [bs|e]]; cbn in Hs.
    + assert (buffers_ok m') as Hm' by (by eapply buffers_ok_same).
      specialize (Hc (length (payload f)) (payload f) bs m' Hm').
      by destruct (encode_chunks _ _ _ m').
    + by eapply buffers_ok_same.
  - unfold finish. destruct (if ready n || failed n then _ else _) as [s [|]]; exact Hok.
Qed.

(** whatever the peer sends and in whatever order the object is used, the
    receive buffer never exceeds 1 MiB + 4096 bytes and the frame under assembly
    never claims or holds more than 1 MiB. *)
Theorem noise_buffers_bounded key n first os : new_noise key = Ok (n, first) →
  buffers_ok (run_ops os n).1.
Proof.
  intros Hn. assert (buffers_ok n) as Hok.
  { unfold new_noise in Hn. destruct (yolo_noise_new key) as [[s f]|]; [|discriminate Hn].
    injection Hn as <- <-. done. }
  clear Hn. revert n Hok. induction os as [|o os IH]; intros n Hok; [done|]. cbn [run_ops].
  apply (run_op_buffers o) in Hok. destruct (run_op o n) as [n' ok].
  specialize (IH n' Hok). by destruct (run_ops os n').
Qed.
End bounds.

(** ** Stream reassembly *)

Section reassembly.
Context `{NoiseCrateLaws}.

(** The plaintext blocks of a payload and of a frame. *)
Fixpoint chunks_of (fuel : nat) (p : Bytes) : list Bytes :=
  match fuel, p with
  | O, _ | _, [] => []
  | S fuel', _ =>
      let k := Z.to_nat (Z.min chunk (Z.of_nat (length p))) in
      take k p :: chunks_of fuel' (drop k p)
  end.
Definition frame_pieces (f : Frame) : list Bytes :=
  frame_header f :: chunks_of (length (payload f)) (payload f).

(** [encrypts s ps s' c]: encrypting the blocks [ps] in turn gives [c]. *)
Inductive encrypts : Engine → list Bytes → Engine → Bytes → Prop :=
| encrypts_nil s : encrypts s [] s []
| encrypts_cons s p s1 c1 ps s' c :
    encrypt s p = (s1, Some c1) → encrypts s1 ps s' c → encrypts s (p :: ps) s' (c1 ++ c).

(** A connection in use whose cipher state is [e]. *)
Definition live (n : Noise) (e : Engine) : Prop :=
  ready n = true ∧ failed n = false ∧ engine (state n) = Some e ∧ st_failed (state n) = false.

Definition frame_ok (f : Frame) : Prop :=
  is_u16 (extension f) ∧ 0 ≤ type f < 256 ∧ Z.of_nat (length (payload f)) ≤ max_payload.

Lemma transform_encrypt n s r p : live n s → paired s r → Z.of_nat (length p) ≤ chunk →
  ∃ n' s' r' c, transform false p n = (n', Ok c) ∧ live n' s' ∧ paired s' r' ∧
    encrypt s p = (s', Some c).
Proof.
  intros (Hrd & Hf & He & Hs) Hp Hl. unfold chunk in Hl.
  destruct (encrypt_paired s r p Hp Hl) as (s' & r' & c & Henc & Hlc & Hdec & Hp').
  unfold transform. rewrite Hrd, Hf. cbn [negb orb]. unfold yolo_noise_transform. cbn zeta.
  rewrite (proj2 (Z.ltb_ge 65535 _)), (proj2 (Z.ltb_ge 65519 _)), (proj2 (Z.ltb_ge _ _)) by lia.
  cbn [orb andb negb]. rewrite Hs, He, Henc. eexists _, s', r', c. split_and!; done.
Qed.

Lemma transform_decrypt n s r p s' c : live n r → paired s r → Z.of_nat (length p) ≤ chunk →
  encrypt s p = (s', Some c) →
  ∃ n' r', transform true c n = (n', Ok p) ∧ live n' r' ∧ paired s' r' ∧ same_buffers n n' ∧
    length c = (length p + 16)%nat.
Proof.
  intros (Hrd & Hf & He & Hs) Hp Hl Henc. unfold chunk in Hl.
  destruct (encrypt_paired s r p Hp Hl) as (s1 & r' & c1 & Henc' & Hlc & Hdec & Hp').
  rewrite Henc in Henc'. injection Henc' as <- <-.
  unfold transform. rewrite Hrd, Hf. cbn [negb orb]. unfold yolo_noise_transform. cbn zeta.
  rewrite (proj2 (Z.ltb_ge 65535 _)), (proj2 (Z.ltb_ge _ (Z.of_nat (length c) + 16))) by lia.
  cbn [orb andb negb]. rewrite Hs, He, Hdec. eexists _, r'. split_and!; done.
Qed.

Lemma chunks_small fuel p : Forall (λ b, 0 < Z.of_nat (length b) ≤ chunk) (chunks_of fuel p).
Proof.
  revert p. induction fuel as [|fuel IH]; intros p; [constructor|].
  destruct p as [|x p]; [constructor|]. cbn [chunks_of]. cbn zeta. constructor; [|apply IH].
  rewrite length_take. unfold chunk. cbn [length]. lia.
Qed.

Lemma encode_chunks_spec fuel rest out n s r : live n s → paired s r →
  ∃ n' s' r' c, encode_chunks fuel rest out n = (n', Ok (out ++ c)) ∧ live n' s' ∧ paired s' r' ∧
    encrypts s (chunks_of fuel rest) s' c.
Proof.
  revert rest out n s r. induction fuel as [|fuel IH]; intros rest out n s r Hn Hp.
  { exists n, s, r, []. rewrite app_nil_r. split_and!; [done..|constructor]. }
  destruct rest as [|x rest].
  { exists n, s, r, []. rewrite app_nil_r. split_and!; [done..|constructor]. }
  cbn [encode_chunks chunks_of]. cbn zeta.
  set (k := Z.to_nat _). set (l := x :: rest) in *.
  assert (Z.of_nat (length (take k l)) ≤ chunk) as Hl.
  { rewrite length_take. unfold k, chunk. lia. }
  destruct (transform_encrypt n s r _ Hn Hp Hl) as (n1 & s1 & r1 & c1 & Ht & Hn1 & Hp1 & Henc).
  unfold mbind, stM_bind. rewrite Ht.
  destruct (IH (drop k l) (out ++ c1) n1 s1 r1 Hn1 Hp1) as (n2 & s2 & r2 & c2 & Hr & Hn2 & Hp2 & He2).
  exists n2, s2, r2, (c1 ++ c2). rewrite Hr, app_assoc. split_and!; [done..|]. by econstructor.
Qed.

(** [encode] sends the encryption of the frame's blocks. *)
Lemma encode_spec f n s r : live n s → paired s r → Z.of_nat (length (payload f)) ≤ max_payload →
  ∃ n' s' r' c, encode f n = (n', Ok c) ∧ live n' s' ∧ paired s' r' ∧
    encrypts s (frame_pieces f) s' c.
Proof.
  intros Hn Hp Hm. unfold encode. rewrite st_require_bind.
  rewrite (proj2 (Z.ltb_ge _ _) Hm). cbn [negb].
  destruct (transform_encrypt n s r (frame_header f) Hn Hp) as (n1 & s1 & r1 & c1 & Ht & Hn1 & Hp1 & Henc).
  { unfold chunk. cbn. lia. }
  unfold mbind, stM_bind. rewrite Ht.
  destruct (encode_chunks_spec (length (payload f)) (payload f) c1 n1 s1 r1 Hn1 Hp1)
    as (n2 & s2 & r2 & c2 & Hr & Hn2 & Hp2 & He2).
  exists n2, s2, r2, (c1 ++ c2). rewrite Hr. split_and!; [done..|]. unfold frame_pieces. by econstructor.
Qed.

(** *** The receiver *)

(** The blocks that complete the frames [fs] from the receiver's state. *)
Inductive awaits (n : Noise) : list Frame → list Bytes → Prop :=
| awaits_header fs : incoming n = None → awaits n fs (flat_map frame_pieces fs)
| awaits_payload f0 f fs rest : incoming n = Some f0 →
    extension f0 = extension f → type f0 = type f → payload f = payload f0 ++ rest →
    remaining n = Z.of_nat (length rest) → rest ≠ [] →
    awaits n (f :: fs) (chunks_of (length rest) rest ++ flat_map frame_pieces fs).

(** [stream] carries exactly the rest of the frames [fs]. *)
Definition expecting (n : Noise) (fs : list Frame) (stream : Bytes) : Prop :=
  Forall frame_ok fs ∧
  ∃ s r s' ps, live n r ∧ paired s r ∧ awaits n fs ps ∧ encrypts s ps s' stream.

(** The size of the next encrypted block. *)
Definition next_size (n : Noise) : Z :=
  match incoming n with None => 22 | Some _ => Z.min (remaining n) chunk + 16 end.

Lemma chunks_fuel fuel p : (length p ≤ fuel)%nat → chunks_of fuel p = chunks_of (length p) p.
Proof.
  assert (∀ a b q, (length q ≤ a)%nat → (length q ≤ b)%nat → chunks_of a q = chunks_of b q) as Hab.
  { induction a as [|a IH]; intros b q Ha Hb; [destruct q, b; cbn in *; (done || lia)|].
    destruct b as [|b]; [destruct q; cbn in *; (done || lia)|]. destruct q as [|x q]; [done|]. cbn [chunks_of]. cbn zeta.
    f_equal. apply IH; rewrite length_drop; cbn [length] in *; unfold chunk; lia. }
  intros Hl. by apply Hab.
Qed.

Lemma chunks_cons p : p ≠ [] →
  let k := Z.to_nat (Z.min chunk (Z.of_nat (length p))) in
  chunks_of (length p) p = take k p :: chunks_of (length (drop k p)) (drop k p).
Proof.
  intros Hp k. destruct p as [|x p]; [done|]. cbn [length chunks_of]. cbn zeta. fold k. f_equal.
  apply chunks_fuel. rewrite length_drop. unfold k, chunk. cbn [length]. lia.
Qed.

Lemma app_split {A} (a b c d : list A) : a ++ b = c ++ d → (length c ≤ length a)%nat →
  take (length c) a = c ∧ d = drop (length c) a ++ b.
Proof.
  intros He Hl. split.
  - rewrite <- (take_app_le a b) by done. rewrite He. by apply take_app_length.
  - rewrite <- (drop_app_le a b) by done. rewrite He. by rewrite drop_app_length.
Qed.

Lemma encrypts_cons_inv s p ps s' c : encrypts s (p :: ps) s' c →
  ∃ s1 c1 c2, encrypt s p = (s1, Some c1) ∧ encrypts s1 ps s' c2 ∧ c = c1 ++ c2.
Proof. intros He. inversion He; simplify_eq. eauto 10. Qed.

(** Decrypting the next block of the buffer. *)
Lemma next_block n s r p ps s' c future : live n r → paired s r →
  Z.of_nat (length p) ≤ chunk → encrypts s (p :: ps) s' (drop c (input n) ++ future) →
  (length p + 16 ≤ length (input n) - c)%nat →
  ∃ n' s1 r', transform true (take (length p + 16) (drop c (input n))) n = (n', Ok p) ∧
    live n' r' ∧ paired s1 r' ∧ same_buffers n n' ∧
    encrypts s1 ps s' (drop (c + (length p + 16)) (input n) ++ future).
Proof.
  intros Hn Hp Hl He Hs. apply encrypts_cons_inv in He as (s1 & c1 & c2 & Henc & He & Hc).
  destruct (transform_decrypt n s r p s1 c1 Hn Hp Hl Henc) as (n' & r' & Ht & Hn' & Hp' & Hb & Hlc).
  apply app_split in Hc as [Hc1 Hc2]; [|rewrite length_drop; lia].
  rewrite Hlc in Hc1, Hc2. exists n', s1, r'. rewrite Hc1. split_and!; [done..|].
  by rewrite <- drop_drop, <- Hc2.
Qed.

(** The six header bytes carry the frame's fields. *)
Lemma frame_header_fields f : frame_ok f → let h := frame_header f in
  Z.lor (b2z (h !!! 0%nat)) (Z.shiftl (b2z (h !!! 1%nat)) 8) = extension f ∧
  b2z (h !!! 2%nat) = type f ∧
  b2z (h !!! 3%nat) + Z.shiftl (b2z (h !!! 4%nat)) 8 + Z.shiftl (b2z (h !!! 5%nat)) 16 =
    Z.of_nat (length (payload f)).
Proof.
  intros (He & Ht & Hl) h. unfold h, frame_header. cbn [lookup_total list_lookup_total].
  rewrite !b2z_u8, !Z.shiftl_mul_pow2, !Z.shiftr_div_pow2 by lia. unfold is_u16 in He.
  unfold max_payload in Hl. split_and!.
  - rewrite Z.lor_comm, lor_mul_pow2 by lia. lia.
  - by apply Z.mod_small.
  - lia.
Qed.

(** The payload part of an iteration on a frame [f] under assembly. *)
Lemma receive_payload_spec n s r s' f0 f fs rest c future :
  live n r → paired s r → Forall frame_ok (f :: fs) → incoming n = Some f0 →
  extension f0 = extension f → type f0 = type f → payload f = payload f0 ++ rest →
  remaining n = Z.of_nat (length rest) →
  encrypts s (chunks_of (length rest) rest ++ flat_map frame_pieces fs) s'
    (drop c (input n) ++ future) → (c ≤ length (input n))%nat →
  wp (receive_payload c) (λ n' p, input n' = input n ∧
    match p with
    | Ok (Break c') => c' = c ∧ n' = n ∧ rest ≠ [] ∧ Z.of_nat (length (input n) - c) < next_size n
    | Ok (Continue c') => (c + 17 ≤ c' ≤ length (input n))%nat ∧
        Z.of_nat c + next_size n ≤ Z.of_nat c' ∧ is_Some (incoming n') ∧
        expecting n' (f :: fs) (drop c' (input n) ++ future)
    | Ok (Complete c' g) => (c ≤ c' ≤ length (input n))%nat ∧ g = f ∧
        (rest ≠ [] → Z.of_nat c + next_size n ≤ Z.of_nat c') ∧ incoming n' = None ∧
        expecting n' fs (drop c' (input n) ++ future)
    | Throw _ => False
    end) n.
Proof.
  intros Hn Hp Hfs Hi Hx Ht Hpay Hrem He Hc. unfold receive_payload. wp_steps.
  destruct (Z.eqb_spec (remaining n) 0) as [Hz|Hz].
  { assert (rest = []) as -> by (apply nil_length_inv; lia). unfold complete. wp_steps.
    rewrite Hi. wp_steps. split; [done|]. split_and!; [lia|lia| |done|done|].
    - destruct f0, f; cbn in *. by rewrite app_nil_r in Hpay; subst.
    - split; [by inversion Hfs|]. exists s, r, s', (flat_map frame_pieces fs).
      split_and!; [done|done|by constructor|exact He]. }
  assert (rest ≠ []) as Hne by (intros ->; done). rewrite chunks_cons in He by done.
  set (k := Z.to_nat (Z.min chunk (Z.of_nat (length rest)))) in He.
  assert (Z.min (remaining n) chunk = Z.of_nat k) as Hk by (unfold k, chunk; lia).
  assert (length (take k rest) = k) as Hlk by (rewrite length_take; lia).
  cbn zeta. rewrite Hk. unfold next_size. rewrite Hi, Hk.
  destruct (Z.ltb_spec (Z.of_nat (length (input n) - c)) (Z.of_nat k + 16)) as [Hlt|Hge].
  { wp_steps. done. }
  destruct (next_block n s r (take k rest) (chunks_of (length (drop k rest)) (drop k rest) ++
    flat_map frame_pieces fs) s' c future Hn Hp) as (n' & s1 & r' & Htr & Hn' & Hp' & Hb & He').
  { rewrite Hlk. unfold k, chunk. lia. }
  { exact He. }
  { lia. }
  rewrite Hlk in *. replace (Z.to_nat (Z.of_nat k + 16)) with (k + 16)%nat by lia.
  destruct Hb as (Hbi & Hbc & Hbr). apply wp_bind. unfold wp at 1. rewrite Htr. cbn [wp_next fst snd].
  wp_steps. cbn [set_remaining set_incoming remaining incoming input]. rewrite Hbr, Hbc, Hi.
  cbn [fmap option_fmap option_map].
  assert (payload f = (payload f0 ++ take k rest) ++ drop k rest) as Hpay'.
  { by rewrite <- app_assoc, take_drop. }
  destruct (Z.eqb_spec (remaining n - Z.of_nat k) 0) as [Hd|Hd].
  - assert (drop k rest = []) as Hdr by (apply drop_ge; lia). rewrite Hdr, app_nil_r in Hpay'.
    rewrite Hdr in He'. unfold complete. wp_steps. cbn [incoming set_remaining set_incoming].
    wp_steps. split; [exact Hbi|]. split_and!; [lia|lia| |lia|done|].
    + rewrite <- Hpay', Hx, Ht. by destruct f.
    + split; [by inversion Hfs|]. exists s1, r', s', (flat_map frame_pieces fs).
      split_and!; [done|done|by constructor|exact He'].
  - wp_steps. split; [exact Hbi|]. split_and!; [|lia|lia|done|].
    { assert (0 < k)%nat; [|lia]. unfold k, chunk. destruct rest; [done|]. cbn [length]. lia. }
    split; [done|]. eexists s1, r', s', _. split_and!; [done|done| |exact He'].
    eapply awaits_payload; cbn; try done.
    + rewrite length_drop. lia.
    + intros Hdr%(f_equal length). rewrite length_drop in Hdr. cbn in Hdr. lia.
Qed.

(** What an iteration of the loop leaves: it stops short of the next block, goes on
    behind one, or completes the next frame. *)
Definition advanced (n : Noise) (fs : list Frame) (c : nat) (future : Bytes) (n' : Noise) (p : result progress) : Prop :=
  input n' = input n ∧
  match p with
  | Ok (Break c') => (c ≤ c' ≤ length (input n))%nat ∧
      Z.of_nat (length (input n) - c') < next_size n' ∧
      expecting n' fs (drop c' (input n) ++ future)
  | Ok (Continue c') => (c + 17 ≤ c' ≤ length (input n))%nat ∧
      Z.of_nat c + next_size n ≤ Z.of_nat c' ∧ is_Some (incoming n') ∧
      expecting n' fs (drop c' (input n) ++ future)
  | Ok (Complete c' f) => (c + 17 ≤ c' ≤ length (input n))%nat ∧
      Z.of_nat c + next_size n ≤ Z.of_nat c' ∧ incoming n' = None ∧
      ∃ fs', fs = f :: fs' ∧ expecting n' fs' (drop c' (input n) ++ future)
  | Throw _ => False
  end.

(** A header is awaited. *)
Lemma receive_step_header n s r s' fs c future : Forall frame_ok fs → live n r → paired s r → incoming n = None →
  encrypts s (flat_map frame_pieces fs) s' (drop c (input n) ++ future) → (c ≤ length (input n))%nat →
  wp (receive_step c) (advanced n fs c future) n.
Proof.
  intros Hfs Hn Hp Hi He Hc. unfold receive_step. wp_steps. unfold receive_header, advanced. wp_steps.
  rewrite Hi. destruct (Nat.ltb_spec (length (input n) - c) 22) as [Hlt|Hge].
  { wp_steps. split; [done|]. unfold next_size. rewrite Hi. split_and!; [lia|lia|lia|].
    split; [done|]. exists s, r, s', (flat_map frame_pieces fs). split_and!; [done|done|by constructor|done]. }
  destruct fs as [|f fs].
  { inversion He as [? Hs|]; subst. symmetry in H1. apply app_eq_nil in H1 as [Hd _].
    apply (f_equal length) in Hd. rewrite length_drop in Hd. cbn in Hd. lia. }
  cbn [flat_map] in He. unfold frame_pieces at 1 in He. rewrite <- app_comm_cons in He.
  destruct (next_block n s r (frame_header f) (chunks_of (length (payload f)) (payload f) ++
    flat_map frame_pieces fs) s' c future Hn Hp) as (n1 & s1 & r1 & Htr & Hn1 & Hp1 & (Hbi & Hbc & Hbr) & He1).
  { unfold chunk. cbn. lia. }
  { exact He. }
  { cbn [frame_header length]. lia. }
  change (length (frame_header f) + 16)%nat with 22%nat in *.
  apply wp_bind. unfold wp at 1. rewrite Htr. cbn [wp_next fst snd].
  assert (frame_ok f) as Hf by by inversion Hfs.
  destruct (frame_header_fields f Hf) as (Hfx & Hft & Hfl). rewrite Hfx, Hft, Hfl.
  pose proof Hf as (_ & _ & Hmax).
  wp_steps; [|exfalso; bool_lia]. cbn [wp_next].
  set (n2 := set_incoming _ _).
  assert (next_size n = 22) as Hns by (unfold next_size; by rewrite Hi).
  eapply wp_mono.
  { eapply (receive_payload_spec n2 s1 r1 s' _ f fs (payload f)).
    - exact Hn1.
    - exact Hp1.
    - exact Hfs.
    - reflexivity.
    - done.
    - done.
    - done.
    - done.
    - cbn [n2 set_incoming set_remaining input]. rewrite Hbi. exact He1.
    - cbn. rewrite Hbi. lia. }
  intros n3 [[c'|c'|c' g]|e]; cbn [n2 set_incoming set_remaining input]; rewrite Hbi; [..|by intros [_ []]].
  + intros (Hi3 & -> & -> & Hne & Hs3). split; [exact Hi3|]. split_and!; [lia|lia|exact Hs3|].
    split; [done|]. eexists s1, r1, s', _. split_and!; [done|done| |exact He1].
    eapply awaits_payload; done.
  + intros (Hi3 & ? & ? & ? & ?). split; [done|]. rewrite Hns. split_and!; try done; lia.
  + intros (Hi3 & ? & -> & ? & ? & ?). split; [done|]. rewrite Hns. split_and!; [lia|lia|lia|done|eauto].
Qed.

Lemma receive_step_spec n fs c future :
  expecting n fs (drop c (input n) ++ future) → (c ≤ length (input n))%nat →
  wp (receive_step c) (advanced n fs c future) n.
Proof.
  intros [Hfs (s & r & s' & ps & Hn & Hp & Ha & He)] Hc.
  destruct Ha as [fs Hi|f0 f fs rest Hi Hx Ht Hpay Hrem Hne]; [by eapply receive_step_header|].
  (* the rest of a payload is awaited *)
  unfold receive_step. wp_steps. unfold receive_header, advanced. wp_steps.
  rewrite Hi. wp_steps.
  eapply wp_mono; [by eapply (receive_payload_spec n s r s' f0 f fs rest)|].
  intros n3 [[c'|c'|c' g]|e]; [..|by intros [_ []]].
  + intros (Hi3 & -> & -> & _ & Hs3). split_and!; [done|lia|lia|done|]. split; [done|].
    exists s, r, s', (chunks_of (length rest) rest ++ flat_map frame_pieces fs).
    split_and!; [done|done|by eapply awaits_payload|done].
  + done.
  + intros (Hi3 & ? & -> & Hadv & ? & ?). specialize (Hadv Hne). unfold next_size in *.
    rewrite Hi in *. destruct rest as [|x rest]; [done|]. cbn [length] in Hrem. unfold chunk in *.
    split; [done|]. split_and!; [lia|lia|lia|done|eauto].
Qed.

(** Bytes already accounted to completed frames: each needs its own header. *)
Definition flood_ok (R : nat) (n : Noise) (c : nat) (out : list Frame) : Prop :=
  (c = 0%nat ∧ out = [] ∧ Z.of_nat R < next_size n) ∨
  (22 * length out + (if incoming n is Some _ then 22 else 0) + R ≤ c + 22)%nat.

Lemma receive_loop_spec R fuel c out n fs future :
  expecting n fs (drop c (input n) ++ future) → (c ≤ length (input n))%nat →
  (length (input n) - c < fuel)%nat → Z.of_nat (length (input n)) ≤ Z.of_nat R + 8192 → flood_ok R n c out →
  wp (receive_loop fuel c out) (λ n' r, ∃ c' got fs', r = Ok (c', out ++ got) ∧ fs = got ++ fs' ∧
    input n' = input n ∧ (c' ≤ length (input n))%nat ∧
    Z.of_nat (length (input n) - c') < next_size n' ∧
    expecting n' fs' (drop c' (input n) ++ future)) n.
Proof.
  revert c out n fs. induction fuel as [|fuel IH]; intros c out n fs Hex Hc Hf HR Hfl; [lia|].
  cbn [receive_loop]. wp_steps. eapply wp_mono; [by apply (receive_step_spec n fs c future)|].
  intros n1 [[c'|c'|c' f]|e] [Hi Hs]; cbn beta; [| | |done]; rewrite <- Hi in *.
  - wp_steps. destruct Hs as (? & ? & ?). exists c', [], fs. rewrite app_nil_r. split_and!; try done; lia.
  - wp_steps. destruct Hs as (Hc' & Hadv & [f0 Hi1] & Hex').
    apply IH; [done|lia|lia|lia|]. right. rewrite Hi1.
    destruct Hfl as [(-> & -> & HRn)|Hfl]; [cbn; lia|].
    unfold next_size in Hadv. destruct (incoming n); lia.
  - destruct Hs as (Hc' & Hadv & Hi1 & fs' & -> & Hex').
    assert (flood_ok R n1 c' (out ++ [f])) as Hfl1.
    { right. rewrite Hi1, length_app. destruct Hfl as [(-> & -> & HRn)|Hfl]; [cbn; lia|].
      unfold next_size in Hadv. cbn [length]. destruct (incoming n); lia. }
    assert (length (out ++ [f]) ≤ 1024)%nat as Hlen.
    { destruct Hfl1 as [(? & ? & _)|Hfl1]; [lia|]. rewrite Hi1 in Hfl1. lia. }
    cbn [wp_next]. cbn zeta. apply wp_bind, wp_require; intros Hfl2.
    2:{ exfalso. apply negb_false_iff, Nat.ltb_lt in Hfl2. lia. }
    cbn [wp_next].
    eapply wp_mono; [apply (IH c' (out ++ [f]) n1 fs'); try done; lia|].
    intros n2 r (c2 & got & fs2 & -> & -> & Hi2 & Hc2 & Hn2 & Hex2).
    exists c2, (f :: got), fs2. rewrite <- app_assoc. rewrite Hi2 in *. split_and!; done.
Qed.

Lemma next_size_bound n : next_size n ≤ 65535.
Proof. unfold next_size, chunk. destruct (incoming n); lia. Qed.

(** One [receive] of at most a socket read's 8192 bytes. *)
Lemma receive_spec b n fs future :
  expecting n fs (input n ++ b ++ future) → Z.of_nat (length (input n)) < next_size n →
  Z.of_nat (length b) ≤ 8192 →
  ∃ n' got fs', receive b n = (n', Ok got) ∧ fs = got ++ fs' ∧
    Z.of_nat (length (input n')) < next_size n' ∧ expecting n' fs' (input n' ++ future).
Proof.
  intros Hex Hsz Hb. pose proof (next_size_bound n).
  assert (ready n = true ∧ failed n = false) as [Hrd Hfl].
  { destruct Hex as [_ (? & ? & ? & ? & (? & ? & _) & _)]. done. }
  set (n0 := set_input (input n ++ b) n).
  assert (expecting n0 fs (drop 0 (input n0) ++ future)) as Hex0.
  { cbn [n0 set_input input]. rewrite drop_0, <- app_assoc.
    destruct Hex as [Hfs (s & r & s' & ps & Hn & Hp & Ha & He)]. split; [done|].
    exists s, r, s', ps. split_and!; [done|done| |done].
    destruct Ha; [by constructor|by econstructor]. }
  assert (wp (receive_body b) (λ n' r, ∃ got fs', r = Ok got ∧ fs = got ++ fs' ∧
    Z.of_nat (length (input n')) < next_size n' ∧ expecting n' fs' (input n' ++ future)) n) as Hw.
  { unfold receive_body. apply wp_bind, wp_get. cbn [wp_next].
    apply wp_bind. rewrite Hrd, Hfl. apply wp_require; [intros _|discriminate]. cbn [wp_next].
    apply wp_bind, wp_require; [intros _|unfold max_payload; intros Hm; bool_lia]. cbn [wp_next].
    wp_steps. fold n0. eapply wp_mono.
    { apply (receive_loop_spec (length (input n)) _ 0 [] n0 fs future); [done|lia|lia| |].
      - cbn. rewrite length_app. lia.
      - left. split_and!; [done|done|exact Hsz]. }
    intros n1 r (c' & got & fs' & -> & -> & Hi & Hc & Hs & Hex1). cbn [app]. wp_steps.
    exists got, fs'. rewrite Hi. split_and!; [done|done| |].
    - cbn. rewrite length_drop. exact Hs.
    - destruct Hex1 as [Hfs (s & r & s' & ps & Hn & Hp & Ha & He)]. split; [done|].
      exists s, r, s', ps. split_and!; [done|done| |exact He].
      destruct Ha; [by constructor|by econstructor]. }
  unfold wp in Hw. unfold receive. destruct (receive_body b n) as [n' r].
  destruct Hw as (got & fs' & Hr & ? & ? & ?). cbn in Hr. subst r. by exists n', got, fs'.
Qed.

(** Nothing can be awaited once the whole stream is in the buffer. *)
Lemma expecting_drained n fs : expecting n fs (input n) →
  Z.of_nat (length (input n)) < next_size n → fs = [] ∧ input n = [] ∧ incoming n = None.
Proof.
  intros [_ (s & r & s' & ps & Hn & Hp & Ha & He)] Hs. unfold next_size in Hs.
  assert (∀ p ps', ps = p :: ps' → Z.of_nat (length p) ≤ chunk →
    Z.of_nat (length p) + 16 ≤ Z.of_nat (length (input n))) as Hfirst.
  { intros p ps' -> Hl. apply encrypts_cons_inv in He as (s1 & c1 & c2 & Henc & _ & ->).
    destruct (transform_decrypt n s r p s1 c1 Hn Hp Hl Henc) as (? & ? & _ & _ & _ & _ & Hlc).
    rewrite length_app. lia. }
  destruct Ha as [fs Hi|f0 f fs rest Hi Hx Ht Hpay Hrem Hne]; rewrite Hi in Hs.
  - destruct fs as [|f fs].
    + inversion He. done.
    + cbn [flat_map frame_pieces app] in Hfirst. specialize (Hfirst _ _ eq_refl).
      change (Z.of_nat (length (frame_header f))) with 6 in Hfirst. unfold chunk in Hfirst. lia.
  - rewrite chunks_cons in Hfirst by done. cbn zeta in Hfirst. rewrite <- app_comm_cons in Hfirst.
    specialize (Hfirst _ _ eq_refl). rewrite length_take in Hfirst. unfold chunk in *. lia.
Qed.

(** Sending frames in turn, and receiving fragments in turn. *)
Fixpoint encode_all (fs : list Frame) : stM Noise Bytes :=
  match fs with
  | [] => mret []
  | f :: fs => c ← encode f; rest ← encode_all fs; mret (c ++ rest)
  end.
Fixpoint receive_all (frags : list Bytes) : stM Noise (list Frame) :=
  match frags with
  | [] => mret []
  | b :: frags => fs ← receive b; rest ← receive_all frags; mret (fs ++ rest)
  end.

Lemma encrypts_app s ps s1 c qs s2 d : encrypts s ps s1 c → encrypts s1 qs s2 d →
  encrypts s (ps ++ qs) s2 (c ++ d).
Proof.
  induction 1 as [|s p s1 c1 ps s' c Henc He IH]; intros Hq; [done|].
  rewrite <- app_assoc. cbn. econstructor; eauto.
Qed.

Lemma encode_all_spec fs n s r : live n s → paired s r → Forall frame_ok fs →
  ∃ n' s' c, encode_all fs n = (n', Ok c) ∧ encrypts s (flat_map frame_pieces fs) s' c.
Proof.
  intros Hn Hp Hfs. revert n s r Hn Hp. induction Hfs as [|f fs (_ & _ & Hf) _ IH]; intros n s r Hn Hp.
  { exists n, s, []. split; [done|constructor]. }
  destruct (encode_spec f n s r Hn Hp Hf) as (n1 & s1 & r1 & c1 & He & Hn1 & Hp1 & Hc1).
  destruct (IH n1 s1 r1 Hn1 Hp1) as (n2 & s2 & c2 & He2 & Hc2).
  exists n2, s2, (c1 ++ c2). cbn [encode_all]. unfold mbind, stM_bind. rewrite He, He2.
  split; [done|]. cbn [flat_map]. by eapply encrypts_app.
Qed.

Lemma receive_all_spec frags n fs : expecting n fs (input n ++ concat frags) →
  Z.of_nat (length (input n)) < next_size n →
  Forall (λ b, Z.of_nat (length b) ≤ 8192) frags →
  ∃ n', receive_all frags n = (n', Ok fs) ∧ input n' = [] ∧ incoming n' = None.
Proof.
  intros Hex Hs Hfr. revert n fs Hex Hs. induction Hfr as [|b frags Hb _ IH]; intros n fs Hex Hs.
  - cbn [concat] in Hex. rewrite app_nil_r in Hex.
    destruct (expecting_drained n fs Hex Hs) as (-> & ? & ?). exists n. done.
  - cbn [concat] in Hex.
    destruct (receive_spec b n fs (concat frags) Hex Hs Hb) as (n1 & got & fs' & Hr & -> & Hs1 & Hex1).
    destruct (IH n1 fs' Hex1 Hs1) as (n2 & Hr2 & ? & ?). exists n2. split; [|done].
    cbn [receive_all]. unfold mbind, stM_bind. by rewrite Hr, Hr2.
Qed.

(** C16: frames sent over a paired connection arrive.  Every frame of at most
    1 MiB is encoded without error, and however the ciphertext is cut into reads
    of at most 8192 bytes, the receiver accepts each one and returns exactly the
    frames that were sent, in order, with nothing left in its buffers. *)
Theorem noise_reassembly (sender receiver : Noise) s r fs :
  live sender s → live receiver r → paired s r →
  input receiver = [] → incoming receiver = None → Forall frame_ok fs →
  ∃ sender' stream, encode_all fs sender = (sender', Ok stream) ∧
    ∀ frags, concat frags = stream → Forall (λ b, Z.of_nat (length b) ≤ 8192) frags →
    ∃ receiver', receive_all frags receiver = (receiver', Ok fs) ∧
      input receiver' = [] ∧ incoming receiver' = None.
Proof.
  intros Hsn Hrc Hp Hin Hinc Hfs.
  destruct (encode_all_spec fs sender s r Hsn Hp Hfs) as (sender' & s' & stream & He & Hc).
  exists sender', stream. split; [done|]. intros frags <- Hfr.
  apply receive_all_spec; [|unfold next_size; rewrite Hin, Hinc; cbn; lia|done].
  rewrite Hin. split; [done|]. exists s, r, s', (flat_map frame_pieces fs).
  split_and!; [done|done|by constructor|done].
Qed.
End reassembly.

(** ** A concrete cipher

    A counter in clear with a 16-byte tag: the interface's laws are satisfiable. *)
Module Plain.

#[export] Instance crate : NoiseCrate := {|
  Initiator := unit;
  Engine := Z;
  from_raw_k := λ _, Some tt;
  step_0 := λ _, (tt, Some (replicate 64 x00));
  step_2 := λ _ _, Some 0;
  encrypt := λ e p, (e + 1, Some (p ++ replicate 16 (u8 e)));
  decrypt := λ e c,
    let p := take (length c - 16) c in
    if bool_decide (c = p ++ replicate 16 (u8 e)) then (e + 1, Some p) else (e, None);
|}.

#[export] Instance laws : @NoiseCrateLaws crate.
Proof.
  refine {| paired := λ s r : @Engine crate, s = r |}.
  - intros s r p -> Hl. exists (r + 1), (r + 1), (p ++ replicate 16 (u8 r)). cbn [encrypt decrypt crate].
    rewrite length_app, length_replicate, Nat.add_sub, take_app_length, bool_decide_true by done. done.
  - intros r c r' p. cbn [decrypt crate]. cbn zeta. case_bool_decide as Hc; [|discriminate].
    intros [= _ <-]. rewrite Hc at 1. by rewrite length_app, length_replicate.
Defined.

(** An object after the handshake. *)
Definition ready_noise : Noise :=
  {| state := {| initiator := None; engine := Some 0; st_failed := false |};
     ready := true; failed := false; input := []; incoming := None; remaining := 0 |}.

Definition two_frames : list Frame :=
  [{| extension := 0x8000; type := 0x15; payload := replicate 53 x01 |};
   {| extension := 0; type := 1; payload := [] |}].
End Plain.
#[local] Existing Instances Plain.crate Plain.laws.

Lemma noise_reassembly_witness :
  ∃ sender' stream, encode_all Plain.two_frames Plain.ready_noise = (sender', Ok stream) ∧
    ∀ frags, concat frags = stream → Forall (λ b, Z.of_nat (length b) ≤ 8192) frags →
    ∃ receiver', receive_all frags Plain.ready_noise = (receiver', Ok Plain.two_frames) ∧
      input receiver' = [] ∧ incoming receiver' = None.
Proof.
  apply (noise_reassembly Plain.ready_noise Plain.ready_noise 0 0 Plain.two_frames);
    [repeat split..|unfold frame_ok, is_u16; repeat constructor; vm_compute; congruence].
Defined.

Definition later_calls : list noise_op :=
  [OReceive []; OEncode {| extension := 0; type := 1; payload := [] |}; OFinish (replicate 234 x00)].

Lemma receive_poisons_witness :
  let n' := (receive (replicate 22 xff) Plain.ready_noise).1 in
  failed (run_ops later_calls n').1 = true ∧ Forall (λ ok, ok = false) (run_ops later_calls n').2.
Proof.
  cbn zeta. apply (receive_poisons (replicate 22 xff) Plain.ready_noise _
    (runtime_error "SV2 Noise authentication/encryption failed") later_calls).
  rewrite (surjective_pairing (receive _ _)). f_equal.
Defined.

Lemma noise_buffers_bounded_witness :
  ∃ n first, new_noise (replicate 32 x01) = Ok (n, first) ∧ buffers_ok (run_ops later_calls n).1.
Proof.
  eexists _, _. split; [reflexivity|].
  exact (noise_buffers_bounded (replicate 32 x01) _ _ later_calls eq_refl).
Defined.
