(* ===== verification/Json.v ===== *)
(** * JSON values

    The part of nlohmann::json the miner uses: the value type, the accessors
    with the exceptions they throw, and [dump] of numbers.  A number is kept the
    way the library stores it: signed, unsigned or double.  Printing a double is
    the library's shortest round-trip printer, a parameter. *)
From S2P Require Import Prelude Words.
From Stdlib Require Import SpecFloat.

#[warnings="-register-all"]
Inductive json :=
| JNull
| JBool (b : bool)
| JInt (z : Z)
| JUInt (z : Z)
| JFloat (f : spec_float)
| JString (s : string)
| JArray (l : list json)
| JObject (l : list (string * json)).

(** ** Accessors *)

Definition is_object (j : json) : bool := match j with JObject _ => true | _ => false end.
Definition is_array (j : json) : bool := match j with JArray _ => true | _ => false end.
Definition is_string (j : json) : bool := match j with JString _ => true | _ => false end.
Definition is_number (j : json) : bool :=
  match j with JInt _ | JUInt _ | JFloat _ => true | _ => false end.
Definition is_number_integer (j : json) : bool :=
  match j with JInt _ | JUInt _ => true | _ => false end.

(** The member of an object; the parser keeps one value per key. *)
Fixpoint assoc (key : string) (l : list (string * json)) : option json :=
  match l with
  | [] => None
  | (k, v) :: l => if bool_decide (k = key) then Some v else assoc key l
  end.
Definition find (j : json) (key : string) : option json :=
  match j with JObject l => assoc key l | _ => None end.
Definition contains (j : json) (key : string) : bool :=
  match find j key with Some _ => true | None => false end.

(** [j.at(key)] *)
Definition at_key (j : json) (key : string) : result json :=
  match j with
  | JObject l =>
      match assoc key l with Some v => Ok v | None => Throw (json_out_of_range 403) end
  | _ => Throw (json_type_error 304)
  end.

Definition elements (j : json) : list json := match j with JArray l => l | _ => [] end.

(** [get<std::string>()], [get<bool>()], [get<int64_t>()] and [get<int>()].  The
    integer conversions accept any number, and [int] also a boolean. *)
Definition get_string (j : json) : result string :=
  match j with JString s => Ok s | _ => Throw (json_type_error 302) end.
Definition get_bool (j : json) : result bool :=
  match j with JBool b => Ok b | _ => Throw (json_type_error 302) end.

(** Conversion to a [w]-bit signed integer, modulo 2^w. *)
Definition to_signed (w z : Z) : Z := (z + 2 ^ (w - 1)) mod 2 ^ w - 2 ^ (w - 1).
(** Truncation of a double; out of range it is the processor's integer indefinite. *)
Definition float_trunc (w : Z) (f : spec_float) : Z :=
  let v := match f with
           | S754_finite s m e =>
               let a := if 0 <=? e then Z.pos m * 2 ^ e else Z.pos m / 2 ^ (- e) in
               if s then - a else a
           | S754_zero _ => 0
           | _ => 2 ^ w
           end in
  if (- 2 ^ (w - 1) <=? v) && (v <? 2 ^ (w - 1)) then v else - 2 ^ (w - 1).

Definition get_int64 (j : json) : result Z :=
  match j with
  | JInt z => Ok z
  | JUInt z => Ok (to_signed 64 z)
  | JFloat f => Ok (float_trunc 64 f)
  | _ => Throw (json_type_error 302)
  end.
Definition get_int (j : json) : result Z :=
  match j with
  | JInt z | JUInt z => Ok (to_signed 32 z)
  | JFloat f => Ok (float_trunc 32 f)
  | JBool b => Ok (if b then 1 else 0)
  | _ => Throw (json_type_error 302)
  end.

(** [j == true] *)
Definition eq_true (j : json) : bool := match j with JBool b => b | _ => false end.

(** ** [dump] of a number *)

(** The library's printer of doubles. *)
Class FloatPrinter := dump_float : spec_float → string.

Definition dump_number `{FloatPrinter} (j : json) : string :=
  match j with
  | JInt z | JUInt z => pretty z
  | JFloat f => dump_float f
  | _ => EmptyString
  end.

(** ** Lemmas *)

Lemma at_key_Ok j key v : at_key j key = Ok v ↔ is_object j = true ∧ find j key = Some v.
Proof.
  destruct j; cbn; try naive_solver. destruct (assoc key l); naive_solver.
Qed.

Lemma get_string_Ok j s : get_string j = Ok s ↔ j = JString s.
Proof. destruct j; naive_solver. Qed.
Lemma get_bool_Ok j b : get_bool j = Ok b ↔ j = JBool b.
Proof. destruct j; naive_solver. Qed.
