(* ===== verification/Stratum.v ===== *)
(** * Stratum V1 session state

    [StratumState] of src/include/yolo/stratum.hpp and src/src/stratum.cpp: jobs,
    staged difficulty and extranonce, and which jobs may still be submitted. *)
From stdpp Require Import sorting.
From S2P Require Import Prelude Words Hex Targets Work Json.

Record StratumState := {
  en1 : string;
  en2_size : Z;
  next_target : Bytes;
  have_target : bool;
  generation : Z;
  epoch : Z;
  valid_ids : gmap string Z;
  authorized : bool;
  current : option Job;
}.

Definition initial_state : StratumState :=
  {| en1 := EmptyString; en2_size := 0; next_target := replicate 32 x00; have_target := false;
     generation := 0; epoch := 0; valid_ids := ∅; authorized := false; current := None |}.

(** ** Assignments to the fields *)

Definition set_extranonce (e : string) (n : Z) (s : StratumState) : StratumState :=
  {| en1 := e; en2_size := n; next_target := next_target s; have_target := have_target s;
     generation := generation s; epoch := epoch s; valid_ids := valid_ids s;
     authorized := authorized s; current := current s |}.
Definition set_target (t : Bytes) (s : StratumState) : StratumState :=
  {| en1 := en1 s; en2_size := en2_size s; next_target := t; have_target := true;
     generation := generation s; epoch := epoch s; valid_ids := valid_ids s;
     authorized := authorized s; current := current s |}.
Definition set_epoch (e : Z) (ids : gmap string Z) (s : StratumState) : StratumState :=
  {| en1 := en1 s; en2_size := en2_size s; next_target := next_target s; have_target := have_target s;
     generation := generation s; epoch := e; valid_ids := ids;
     authorized := authorized s; current := current s |}.
Definition set_generation (g : Z) (ids : gmap string Z) (s : StratumState) : StratumState :=
  {| en1 := en1 s; en2_size := en2_size s; next_target := next_target s; have_target := have_target s;
     generation := g; epoch := epoch s; valid_ids := ids;
     authorized := authorized s; current := current s |}.
Definition set_authorized (s : StratumState) : StratumState :=
  {| en1 := en1 s; en2_size := en2_size s; next_target := next_target s; have_target := have_target s;
     generation := generation s; epoch := epoch s; valid_ids := valid_ids s;
     authorized := true; current := current s |}.
Definition set_current (j : Job) (s : StratumState) : StratumState :=
  {| en1 := en1 s; en2_size := en2_size s; next_target := next_target s; have_target := have_target s;
     generation := generation s; epoch := epoch s; valid_ids := valid_ids s;
     authorized := authorized s; current := Some j |}.

(** ** [StratumState::receive] *)

Section receive.
Context `{BigNum} `{FloatPrinter}.

Definition receive_difficulty (p : list json) : stM StratumState (option Job) :=
  _ ← st_require (negb (negb (length p =? 1)%nat || negb (is_number (nth 0 p JNull))))
        "invalid difficulty message";
  t ← st_lift (difficulty_target (dump_number (nth 0 p JNull)));
  _ ← st_modify (set_target t);
  mret None.

(** [e = ...get<std::string>(); n = ...get<int>(); if (unhex(e).size() != 4 || n != 8) throw] *)
Definition receive_sizes (e n : json) (msg : string) : stM StratumState unit :=
  e ← st_lift (get_string e);
  n ← st_lift (get_int n);
  b ← st_lift (unhex e);
  _ ← st_require (negb (negb (length b =? 4)%nat || negb (n =? 8))) msg;
  st_modify (set_extranonce e n).

Definition receive_extranonce (p : list json) : stM StratumState (option Job) :=
  _ ← st_require (length p =? 2)%nat "invalid extranonce message";
  _ ← receive_sizes (nth 0 p JNull) (nth 1 p JNull) "unsupported extranonce sizes";
  mret None.

Definition hex_size4 (j : json) : result bool :=
  s ← get_string j; b ← unhex s; Ok (length b =? 4)%nat.

(** The second half of [mining.notify]: [if (valid_ids.size() >= 1024) ...] to
    [return j]. *)
Definition issue_job (id : string) (p : list json) : stM StratumState (option Job) :=
  s ← st_get;
  _ ← st_require (negb (1024 <=? size (valid_ids s))%nat) "too many active jobs";
  let g := u64 (generation s + 1) in
  _ ← st_modify (λ s, set_generation g (<[id := g]> (valid_ids s)) s);
  let en2 := hex (store_le (replicate 8 x00) 0 g) in
  ntime ← st_lift (get_string (nth 7 p JNull));
  prev ← st_lift (get_string (nth 1 p JNull));
  c1 ← st_lift (get_string (nth 2 p JNull));
  c2 ← st_lift (get_string (nth 3 p JNull));
  header ← st_lift (sia_work prev c1 c2 (en1 s) en2 ntime);
  nbits ← st_lift (get_string (nth 6 p JNull));
  nt ← st_lift (compact_target nbits);
  let j := {| j_work := {| header := header; target := next_target s |};
              j_id := id; j_en2 := en2; j_ntime := ntime;
              j_generation := g; j_epoch := epoch s; j_network_target := nt;
              j_sv2 := false; j_channel := 0; j_wire_job := 0; j_version := 0; j_time32 := 0 |} in
  _ ← st_modify (set_current j);
  mret (Some j).

Definition receive_notify (p : list json) : stM StratumState (option Job) :=
  s ← st_get;
  _ ← st_require (negb (negb (length p =? 9)%nat || negb (have_target s) || negb (en2_size s =? 8) ||
                        negb (is_array (nth 4 p JNull)) ||
                        negb (length (elements (nth 4 p JNull)) =? 0)%nat))
        "unsupported or premature job";
  id ← st_lift (get_string (nth 0 p JNull));
  _ ← st_require (negb ((String.length id =? 0)%nat || (256 <? String.length id)%nat)) "invalid job ID";
  v4 ← st_lift (hex_size4 (nth 5 p JNull));
  b4 ← (if v4 : bool then st_lift (hex_size4 (nth 6 p JNull)) else mret false);
  _ ← st_require b4 "invalid version or nbits length";
  clean ← st_lift (get_bool (nth 8 p JNull));
  _ ← (if clean : bool then st_modify (λ s, set_epoch (u64 (epoch s + 1)) ∅ s) else mret tt);
  issue_job id p.

(** The replies to the numbered requests. *)
Definition receive_reply (msg : json) (id : Z) : stM StratumState (option Job) :=
  _ ← (if id =? 1 then
         r ← st_lift (at_key msg "result");
         _ ← st_require (negb (negb (is_array r) || negb (length (elements r) =? 3)%nat))
               "subscription refused";
         receive_sizes (nth 1 (elements r) JNull) (nth 2 (elements r) JNull)
           "unsupported subscription extranonce"
       else mret tt);
  _ ← (if id =? 3 then
         _ ← st_require (match find msg "result" with Some r => eq_true r | None => false end)
               "authorization refused";
         st_modify set_authorized
       else mret tt);
  mret None.

Definition receive (msg : json) : stM StratumState (option Job) :=
  _ ← st_require (is_object msg) "invalid Stratum object";
  if contains msg "method" then
    m ← st_lift (at_key msg "method");
    method ← st_lift (get_string m);
    p ← st_lift (at_key msg "params");
    _ ← st_require (is_array p) "invalid Stratum parameters";
    let p := elements p in
    if bool_decide (method = "mining.set_difficulty") then receive_difficulty p
    else if bool_decide (method = "mining.set_extranonce") then receive_extranonce p
    else if bool_decide (method = "mining.notify") then receive_notify p
    else mret None
  else
    match find msg "id" with
    | Some i =>
        if is_number_integer i then id ← st_lift (get_int64 i); receive_reply msg id else mret None
    | None => mret None
    end.
End receive.

Definition valid (s : StratumState) (j : Job) : bool :=
  authorized s && (j_epoch j =? epoch s) &&
  match valid_ids s !! j_id j with Some g => g =? j_generation j | None => false end.

(** ** The state invariant *)

Section invariant.
Context `{BigNum} `{FloatPrinter}.

(** An extranonce the pool has given: four bytes, and eight of ours. *)
Definition extranonce_ok (s : StratumState) : Prop :=
  en2_size s = 0 ∨ (en2_size s = 8 ∧ ∃ b, unhex (en1 s) = Ok b ∧ length b = 4%nat).

Definition stratum_ok (s : StratumState) : Prop :=
  extranonce_ok s ∧
  (∀ id g, valid_ids s !! id = Some g → g ≤ generation s) ∧
  (size (valid_ids s) ≤ 1024)%nat ∧
  is_u64 (generation s) ∧ is_u64 (epoch s).

(** The outcome of a message that issues no job: the live jobs and the
    counters are untouched, and authorization is never taken back. *)
Definition quiet {A} (s s' : StratumState) (r : result (option A)) : Prop :=
  stratum_ok s' ∧ generation s' = generation s ∧ epoch s' = epoch s ∧
  valid_ids s' = valid_ids s ∧ current s' = current s ∧
  (authorized s = true → authorized s' = true) ∧
  match r with Ok (Some _) => False | _ => True end.

Lemma quiet_refl {A} s (r : result (option A)) : stratum_ok s →
  match r with Ok (Some _) => False | _ => True end → quiet s s r.
Proof. intros ? Hr. by split_and!. Qed.

Lemma receive_sizes_wp e n msg s : stratum_ok s →
  wp (receive_sizes e n msg) (λ s' _, quiet s s' (Ok (@None Job))) s.
Proof.
  intros Hok. unfold receive_sizes. wp_steps.
  destruct (get_string e) as [e'|]; wp_steps; [|by apply quiet_refl].
  destruct (get_int n) as [n'|]; wp_steps; [|by apply quiet_refl].
  destruct (unhex e') as [b|] eqn:Hb; wp_steps; [|by apply quiet_refl..].
  destruct Hok as (_ & Hids & Hs & Hg & He). split_and!; try done.
  split; [|done]. right. cbn. destruct (Nat.eqb_spec (length b) 4); [|discriminate]. bool_lia. subst n'. eauto.
Qed.

Lemma receive_difficulty_wp p s : stratum_ok s → wp (receive_difficulty p) (quiet s) s.
Proof.
  intros Hok. unfold receive_difficulty. wp_steps; [|by apply quiet_refl].
  destruct (difficulty_target _); wp_steps; [|by apply quiet_refl].
  destruct Hok as (? & ? & ? & ? & ?). by split_and!.
Qed.

Lemma receive_extranonce_wp p s : stratum_ok s → wp (receive_extranonce p) (quiet s) s.
Proof.
  intros Hok. unfold receive_extranonce. wp_steps; [|by apply quiet_refl].
  eapply wp_mono; [by apply receive_sizes_wp|]. intros s' [u|e] Hq; wp_steps; exact Hq.
Qed.

Lemma receive_reply_wp msg id s : stratum_ok s → wp (receive_reply msg id) (quiet s) s.
Proof.
  intros Hok. unfold receive_reply. apply wp_bind.
  assert (∀ s1, quiet s s1 (Ok (@None Job)) →
    wp (_ ← (if id =? 3 then
               _ ← st_require (match find msg "result" with Some r => eq_true r | None => false end)
                     "authorization refused"; st_modify set_authorized
             else mret tt); mret (@None Job)) (quiet s) s1) as Hthree.
  { intros s1 Hq. pose proof Hq as (Hok1 & Hq1 & Hq2 & Hq3 & Hq4 & Hq5 & _).
    destruct (id =? 3); wp_steps; try exact Hq.
    destruct Hok1 as (? & ? & ? & ? & ?). by split_and!. }
  destruct (id =? 1); [|apply wp_ret; cbn [wp_next]; by apply Hthree, quiet_refl].
  wp_steps. destruct (at_key msg "result") as [r|]; wp_steps; [| |by apply quiet_refl].
  - eapply wp_mono; [by apply receive_sizes_wp|]. intros s1 [u|e] Hq; cbn [wp_next]; [by apply Hthree|].
    exact Hq.
  - by apply quiet_refl.
Qed.

(** The state and the job a successful [mining.notify] leaves behind. *)
Definition after_clean (clean : bool) (s : StratumState) : StratumState :=
  if clean then set_epoch (u64 (epoch s + 1)) ∅ s else s.

Record issued (p : list json) (s s' : StratumState) (j : Job) (clean : bool) : Prop := {
  is_clean : nth 8 p JNull = JBool clean;
  is_id : nth 0 p JNull = JString (j_id j);
  is_time : nth 7 p JNull = JString (j_ntime j);
  is_state : s' = set_current j (set_generation (generation s + 1)
    (<[j_id j := generation s + 1]> (valid_ids (after_clean clean s))) (after_clean clean s));
  is_generation : j_generation j = generation s + 1;
  is_epoch : j_epoch j = epoch (after_clean clean s);
  is_en2 : j_en2 j = hex (le_bytes 8 (generation s + 1));
  is_target : target (j_work j) = next_target s;
  is_header : ∃ prev c1 c2, nth 1 p JNull = JString prev ∧ nth 2 p JNull = JString c1 ∧
    nth 3 p JNull = JString c2 ∧
    sia_work prev c1 c2 (en1 s) (j_en2 j) (j_ntime j) = Ok (header (j_work j));
  is_network : ∃ nbits, nth 6 p JNull = JString nbits ∧
    compact_target nbits = Ok (j_network_target j);
  is_v1 : j_sv2 j = false ∧ j_time32 j = 0;
}.

(** Every outcome of [mining.notify]. *)
Definition notified (p : list json) (s s' : StratumState) (r : result (option Job)) : Prop :=
  stratum_ok s' ∧ authorized s' = authorized s ∧
  generation s ≤ generation s' ≤ generation s + 1 ∧
  match r with
  | Ok (Some j) => ∃ clean, issued p s s' j clean
  | Ok None => False
  | Throw _ => True
  end.

Lemma stratum_ok_clean clean s : stratum_ok s → stratum_ok (after_clean clean s).
Proof.
  destruct clean; [|done]. intros (? & _ & _ & ? & _). unfold after_clean.
  split_and!; cbn; [done| |by rewrite map_size_empty; lia|done|apply u64_range].
  intros id g. by rewrite lookup_empty.
Qed.

Lemma stratum_ok_issue id s : stratum_ok s → (size (valid_ids s) < 1024)%nat →
  generation s + 1 < 2 ^ 64 →
  stratum_ok (set_generation (generation s + 1) (<[id := generation s + 1]> (valid_ids s)) s).
Proof.
  intros (? & Hids & _ & Hg & ?) Hs Hw. unfold is_u64 in Hg. split_and!; cbn; [done| | |unfold is_u64; lia|done].
  - intros id' g. destruct (decide (id = id')) as [<-|].
    + rewrite lookup_insert_eq. intros [= <-]. lia.
    + rewrite lookup_insert_ne by done. intros Hg'%Hids. lia.
  - destruct (valid_ids s !! id) eqn:E.
    + rewrite map_size_insert_Some by eauto. lia.
    + rewrite map_size_insert_None by done. lia.
Qed.

Lemma notified_throw p s s' e : stratum_ok s' → authorized s' = authorized s →
  generation s ≤ generation s' ≤ generation s + 1 → notified p s s' (Throw e).
Proof. intros ?? [??]. by split_and!. Qed.

Lemma store_le_fresh g : store_le (replicate 8 x00) 0 g = le_bytes 8 g.
Proof.
  rewrite store_le_splice by (rewrite length_replicate; lia). cbn [take app].
  rewrite drop_ge by (rewrite length_replicate; lia). apply app_nil_r.
Qed.

(** Run a fallible conversion whose exception leaves the state as it is. *)
Ltac lift_case E tac :=
  apply wp_bind, wp_lift;
  match goal with |- wp_next _ _ _ ?r => destruct r as [?|?] eqn:E; cbn [wp_next]; [|solve [tac]] end.

Lemma issue_job_wp clean p s : stratum_ok s → generation s + 1 < 2 ^ 64 →
  nth 8 p JNull = JBool clean → ∀ id, nth 0 p JNull = JString id →
  wp (issue_job id p) (notified p s) (after_clean clean s).
Proof.
  intros Hok Hg Hclean id Hid. pose proof Hok as (_ & _ & _ & Hg0 & _). unfold is_u64 in Hg0.
  set (s1 := after_clean clean s). assert (stratum_ok s1) as Hok1 by by apply stratum_ok_clean.
  assert (generation s1 = generation s ∧ authorized s1 = authorized s ∧ en1 s1 = en1 s ∧
          next_target s1 = next_target s) as (Hs1 & Ha1 & He1 & Ht1) by by (unfold s1; destruct clean).
  unfold issue_job. apply wp_bind, wp_get. cbn [wp_next].
  apply wp_bind, wp_require; intros Hsize; cbn [wp_next];
    [|apply notified_throw; (done || rewrite ?Hs1; lia)].
  apply negb_true_iff, Nat.leb_gt in Hsize.
  rewrite Hs1. rewrite (u64_small (generation s + 1)) by (unfold is_u64; lia).
  apply wp_bind, wp_modify. cbn [wp_next].
  pose proof (stratum_ok_issue id s1 Hok1 Hsize) as Hok2. rewrite Hs1 in Hok2. specialize (Hok2 Hg).
  set (s2 := set_generation (generation s + 1) (<[id := generation s + 1]> (valid_ids s1)) s1) in *.
  assert (∀ e, notified p s s2 (Throw e)) as Hthrow.
  { intros. apply notified_throw; [done|done|]. cbn. lia. }
  rewrite store_le_fresh, He1. lift_case Ent ltac:(apply Hthrow). lift_case Hprev ltac:(apply Hthrow).
  lift_case Hc1 ltac:(apply Hthrow). lift_case Hc2 ltac:(apply Hthrow).
  lift_case Hhd ltac:(apply Hthrow). lift_case Hnb ltac:(apply Hthrow).
  lift_case Hnt ltac:(apply Hthrow). apply get_string_Ok in Ent, Hprev, Hc1, Hc2, Hnb.
  wp_steps. split_and!; [exact Hok2|done|cbn; lia|cbn; lia|].
  exists clean. constructor; cbn [j_generation j_epoch j_en2 j_work j_ntime j_network_target j_id j_sv2 j_time32 header target];
    try done; eauto 10.
Qed.

Lemma receive_notify_wp p s : stratum_ok s → generation s + 1 < 2 ^ 64 →
  wp (receive_notify p) (notified p s) s.
Proof.
  intros Hok Hg. assert (∀ e, notified p s s (Throw e)) as Hthrow.
  { intros. apply notified_throw; done || lia. }
  unfold receive_notify. apply wp_bind, wp_get. cbn [wp_next].
  apply wp_bind, wp_require; intros _; cbn [wp_next]; [|apply Hthrow].
  lift_case Hid ltac:(apply Hthrow).
  apply wp_bind, wp_require; intros _; cbn [wp_next]; [|apply Hthrow].
  lift_case Hv4 ltac:(apply Hthrow). match goal with |- context [if ?v then _ else _] => rename v into v4 end.
  apply wp_bind. assert (∃ r, (if v4 then st_lift (hex_size4 (nth 6 p JNull)) else mret false) s =
    (s, r)) as [b4 Hb4] by (destruct v4; eexists; done).
  unfold wp at 1. rewrite Hb4. cbn [fst snd]. destruct b4 as [b4|?]; cbn [wp_next]; [|apply Hthrow].
  apply wp_bind, wp_require; intros _; cbn [wp_next]; [|apply Hthrow].
  lift_case Hclean ltac:(apply Hthrow). apply get_bool_Ok in Hclean.
  match type of Hclean with _ = JBool ?c => rename c into clean end.
  apply wp_bind. assert ((if clean then st_modify (λ s, set_epoch (u64 (epoch s + 1)) ∅ s)
    else mret tt) s = (after_clean clean s, Ok tt)) as Hc by by destruct clean.
  unfold wp at 1. rewrite Hc. cbn [fst snd wp_next]. apply get_string_Ok in Hid. by apply issue_job_wp.
Qed.

(** The parameters of a [mining.notify] message. *)
Definition notify_params (msg : json) : list json :=
  match find msg "params" with Some p => elements p | None => [] end.

(** Every outcome of every message. *)
Lemma receive_wp msg s : stratum_ok s → generation s + 1 < 2 ^ 64 →
  wp (receive msg) (λ s' r, quiet s s' r ∨ notified (notify_params msg) s s' r) s.
Proof.
  intros Hok Hg. assert (∀ e : exn, quiet s s (@Throw (option Job) e)) as Hthrow.
  { intros. by apply quiet_refl. }
  assert (quiet s s (Ok (@None Job))) as Hnone by by apply quiet_refl.
  unfold receive. apply wp_bind, wp_require; intros _; cbn [wp_next]; [|auto].
  destruct (contains msg "method").
  - lift_case Hm ltac:(auto). lift_case Hs ltac:(auto). lift_case Hp ltac:(auto).
    apply at_key_Ok in Hp as [_ Hp].
    apply wp_bind, wp_require; intros _; cbn [wp_next]; [|auto].
    unfold notify_params. rewrite Hp. cbn zeta.
    repeat case_bool_decide.
    + eapply wp_mono; [by apply receive_difficulty_wp|auto].
    + eapply wp_mono; [by apply receive_extranonce_wp|auto].
    + eapply wp_mono; [by apply receive_notify_wp|auto].
    + apply wp_ret. auto.
  - destruct (find msg "id") as [i|]; [|apply wp_ret; auto].
    destruct (is_number_integer i); [|apply wp_ret; auto]. lift_case Hi ltac:(auto).
    eapply wp_mono; [by apply receive_reply_wp|auto].
Qed.

(** ** Runs *)

(** The job a message issues, if any. *)
Definition job_of (r : result (option Job)) : list Job :=
  match r with Ok (Some j) => [j] | _ => [] end.

(** Receiving messages in turn: the final state and the jobs issued. *)
Fixpoint run (msgs : list json) (s : StratumState) : StratumState * list Job :=
  match msgs with
  | [] => (s, [])
  | m :: msgs =>
      let '(s1, r) := receive m s in
      let '(s2, js) := run msgs s1 in (s2, job_of r ++ js)
  end.

Lemma run_spec msgs s : stratum_ok s →
  generation s + Z.of_nat (length msgs) < 2 ^ 64 →
  let '(s', js) := run msgs s in
  stratum_ok s' ∧
  Forall (λ j, generation s < j_generation j < 2 ^ 64 ∧ j_en2 j = hex (le_bytes 8 (j_generation j))) js ∧
  StronglySorted (λ j1 j2, j_generation j1 < j_generation j2) js.
Proof.
  revert s. induction msgs as [|m msgs IH]; intros s Hok Hg; [split; [done|]; split; constructor|].
  cbn [run length] in *. pose proof (receive_wp m s Hok ltac:(lia)) as Hw.
  unfold wp in Hw. destruct (receive m s) as [s1 r]. cbn [fst snd] in Hw.
  assert (stratum_ok s1 ∧ generation s ≤ generation s1 ≤ generation s + 1) as [Hok1 Hg1].
  { destruct Hw as [(? & ? & _)|(? & _ & ? & _)]; split; (done || lia). }
  specialize (IH s1 Hok1 ltac:(lia)). destruct (run msgs s1) as [s2 js].
  destruct IH as (Hok2 & Hall & Hsort). split; [done|].
  destruct r as [[j|]|e]; cbn [job_of app].
  2,3: split; [|done]; eapply Forall_impl; [exact Hall|]; cbn; intros ? [? ?]; split; [lia|done].
  destruct Hw as [(_ & _ & _ & _ & _ & _ & [])|(_ & _ & _ & clean & Hi)].
  assert (generation s1 = generation s + 1) as Hs1.
  { rewrite (is_state _ _ _ _ _ Hi). done. }
  pose proof (is_generation _ _ _ _ _ Hi) as Hjg. split.
  - constructor.
    + rewrite (is_en2 _ _ _ _ _ Hi), Hjg. split; [lia|done].
    + eapply Forall_impl; [exact Hall|]. cbn. intros ? [? ?]. split; [lia|done].
  - constructor; [done|]. eapply Forall_impl; [exact Hall|]. cbn. intros ? [? ?]. lia.
Qed.

Lemma initial_state_ok : stratum_ok initial_state.
Proof.
  split_and!; cbn; [by left| |by rewrite map_size_empty; lia|unfold is_u64; lia|unfold is_u64; lia].
  intros id g. by rewrite lookup_empty.
Qed.

(** the state stays well formed whatever the pool sends, including messages
    that throw: at most 1024 live job IDs, each with a generation already issued,
    and an extranonce that is either absent or of the supported 4 + 8 bytes. *)
Theorem stratum_reachable_ok msgs : Z.of_nat (length msgs) < 2 ^ 64 →
  stratum_ok (run msgs initial_state).1.
Proof.
  intros Hl. pose proof (run_spec msgs initial_state initial_state_ok ltac:(cbn; lia)) as Hr.
  destruct (run msgs initial_state). apply Hr.
Qed.

(** no two jobs of a connection search the same space: the extranonce2 of
    every job issued is different, whatever the messages. *)
Theorem extranonce2_unique msgs : Z.of_nat (length msgs) < 2 ^ 64 →
  NoDup (j_en2 <$> (run msgs initial_state).2).
Proof.
  intros Hl. pose proof (run_spec msgs initial_state initial_state_ok ltac:(cbn; lia)) as Hr.
  destruct (run msgs initial_state) as [s js]. destruct Hr as (_ & Hall & Hsort). cbn [snd].
  clear Hl. induction Hsort as [|j js Hsort IH Hlt]; [constructor|].
  apply Forall_cons in Hall as [[Hj Hje] Hall]. cbn [generation initial_state] in Hj.
  constructor; [|by apply IH]. intros (j' & He & Hin)%list_elem_of_fmap.
  rewrite Forall_forall in Hall, Hlt. destruct (Hall j' Hin) as [Hj' Hje'].
  specialize (Hlt j' Hin). rewrite Hje, Hje' in He. apply hex_inj in He.
  apply le_bytes_inj in He; [lia|..]; change (256 ^ Z.of_nat 8) with (2 ^ 64); cbn in *; lia.
Qed.

(** C21: what a [mining.notify] does to submissions.  The new job is valid
    exactly when the connection is authorized; a job issued before stays valid
    exactly when it was, the notification is not clean, and it does not reuse
    that job's ID. *)
Theorem notify_validity msg s s' j : stratum_ok s →
  generation s + 1 < 2 ^ 64 → epoch s + 1 < 2 ^ 64 →
  receive msg s = (s', Ok (Some j)) →
  valid s' j = authorized s ∧
  ∃ clean, nth 8 (notify_params msg) JNull = JBool clean ∧
    ∀ j0, j_generation j0 ≤ generation s → j_epoch j0 ≤ epoch s →
    valid s' j0 = valid s j0 && negb clean && negb (bool_decide (j_id j0 = j_id j)).
Proof.
  intros Hok Hg He Hr. pose proof (receive_wp msg s Hok Hg) as Hw. unfold wp in Hw.
  rewrite Hr in Hw. cbn [fst snd] in Hw.
  destruct Hw as [(_ & _ & _ & _ & _ & _ & [])|(_ & _ & _ & clean & Hi)].
  destruct Hok as (_ & Hids & _ & _ & Hep). unfold is_u64 in Hep.
  pose proof (is_generation _ _ _ _ _ Hi) as Hjg. pose proof (is_epoch _ _ _ _ _ Hi) as Hje.
  pose proof (is_state _ _ _ _ _ Hi) as ->. pose proof (is_clean _ _ _ _ _ Hi) as Hcl. clear Hi Hr.
  assert (authorized (after_clean clean s) = authorized s) as Ha by by destruct clean.
  unfold valid. cbn [set_current set_generation authorized epoch valid_ids]. rewrite Ha. split.
  { rewrite Hje, Z.eqb_refl, lookup_insert_eq, Hjg, Z.eqb_refl. by rewrite !andb_true_r. }
  exists clean. split; [done|]. intros j0 Hg0 He0.
  case_bool_decide as Hid; cbn [negb]; rewrite ?andb_false_r, ?andb_true_r.
  - rewrite Hid, lookup_insert_eq. rewrite (proj2 (Z.eqb_neq (generation s + 1) _)) by lia.
    apply andb_false_r.
  - rewrite lookup_insert_ne by done. destruct clean; cbn [after_clean negb]; rewrite ?andb_true_r; [|done].
    cbn. rewrite lookup_empty, !andb_false_r. done.
Qed.

(** the job a [mining.notify] returns carries the target staged by the last
    difficulty message, the extranonce in force, a fresh extranonce2 and the
    header [sia_work] builds from the message; it becomes the current job. *)
Theorem notify_job msg s s' j : stratum_ok s → generation s + 1 < 2 ^ 64 →
  receive msg s = (s', Ok (Some j)) →
  current s' = Some j ∧ generation s' = generation s + 1 ∧ j_generation j = generation s' ∧
  target (j_work j) = next_target s ∧ j_en2 j = hex (le_bytes 8 (generation s + 1)) ∧
  (∃ prev c1 c2, nth 1 (notify_params msg) JNull = JString prev ∧
    nth 2 (notify_params msg) JNull = JString c1 ∧ nth 3 (notify_params msg) JNull = JString c2 ∧
    sia_work prev c1 c2 (en1 s) (j_en2 j) (j_ntime j) = Ok (header (j_work j))) ∧
  (∃ nbits, nth 6 (notify_params msg) JNull = JString nbits ∧
    compact_target nbits = Ok (j_network_target j)).
Proof.
  intros Hok Hg Hr. pose proof (receive_wp msg s Hok Hg) as Hw. unfold wp in Hw.
  rewrite Hr in Hw. cbn [fst snd] in Hw.
  destruct Hw as [(_ & _ & _ & _ & _ & _ & [])|(_ & _ & _ & clean & Hi)].
  pose proof (is_state _ _ _ _ _ Hi) as Hs'. rewrite Hs'.
  split_and!; [done|done|by rewrite (is_generation _ _ _ _ _ Hi)|by apply Hi|by apply Hi|by apply Hi|by apply Hi].
Qed.

(** a message that issues no job leaves every job's validity and the
    current job as they are, apart from an authorization that is granted: new
    difficulty and extranonce settings only apply to the next job. *)
Theorem settings_are_staged msg s s' : stratum_ok s → generation s + 1 < 2 ^ 64 →
  receive msg s = (s', Ok None) →
  current s' = current s ∧ (authorized s = true → ∀ j, valid s' j = valid s j).
Proof.
  intros Hok Hg Hr. pose proof (receive_wp msg s Hok Hg) as Hw. unfold wp in Hw.
  rewrite Hr in Hw. cbn [fst snd] in Hw.
  destruct Hw as [(_ & _ & He & Hi & Hc & Ha & _)|(_ & _ & _ & [])].
  split; [done|]. intros Hs j. unfold valid. by rewrite Hs, (Ha Hs), He, Hi.
Qed.
End invariant.

(** ** A concrete session *)

Module Session1.
#[export] Instance printer : FloatPrinter := λ _, "0.5".

Definition obj (l : list (string * json)) : json := JObject l.
Definition subscribed : json :=
  obj [("id", JInt 1); ("result", JArray [JArray []; JString "01020304"; JInt 8])].
Definition authorized_reply : json := obj [("id", JInt 3); ("result", JBool true)].
Definition difficulty : json :=
  obj [("method", JString "mining.set_difficulty"); ("params", JArray [JUInt 1])].
Definition notify (id : string) (clean : bool) : json :=
  obj [("method", JString "mining.notify");
       ("params", JArray [JString id; JString (hex (replicate 32 x00)); JString (hex (replicate 39 x01));
                          JString EmptyString; JArray []; JString "20000000"; JString "1d00ffff";
                          JString (hex (replicate 8 x09)); JBool clean])].
Definition opening : list json := [subscribed; authorized_reply; difficulty].

Definition opened : StratumState := (run opening initial_state).1.
(** The state after the first job, and that job. *)
Definition first : StratumState * result (option Job) := receive (notify "a" true) opened.
Definition first_job : Job := default empty_job (match first.2 with Ok j => j | Throw _ => None end).
Definition second : StratumState * result (option Job) := receive (notify "a" false) first.1.
Definition second_job : Job := default empty_job (match second.2 with Ok j => j | Throw _ => None end).
End Session1.
#[local] Existing Instances Session1.printer.

Lemma stratum_reachable_ok_witness :
  stratum_ok (run (Session1.opening ++ [Session1.notify "a" true; JNull])
    initial_state).1.
Proof.
  apply (stratum_reachable_ok (Session1.opening ++ [Session1.notify "a" true; JNull])).
  cbn. lia.
Defined.

Lemma extranonce2_unique_witness :
  NoDup (j_en2 <$> (run
    (Session1.opening ++ [Session1.notify "a" true; Session1.notify "a" true]) initial_state).2) ∧
  length (run
    (Session1.opening ++ [Session1.notify "a" true; Session1.notify "a" true]) initial_state).2 = 2%nat.
Proof.
  split; [|vm_compute; reflexivity].
  apply (extranonce2_unique
    (Session1.opening ++ [Session1.notify "a" true; Session1.notify "a" true])). cbn. lia.
Defined.

(** The state after the first job is well formed. *)
Lemma session1_ok : stratum_ok Session1.first.1.
Proof.
  assert (Session1.first.1 = (run (Session1.opening ++ [Session1.notify "a" true])
    initial_state).1) as ->.
  { vm_compute. reflexivity. }
  pose proof (run_spec (Session1.opening ++ [Session1.notify "a" true])
    initial_state initial_state_ok ltac:(cbn; lia)) as Hr.
  destruct (run _ _). apply Hr.
Qed.

Lemma notify_validity_witness :
  valid Session1.second.1 Session1.second_job = authorized Session1.first.1 ∧
  ∃ clean, nth 8 (notify_params (Session1.notify "a" false)) JNull = JBool clean ∧
    ∀ j0, j_generation j0 ≤ generation Session1.first.1 → j_epoch j0 ≤ epoch Session1.first.1 →
    valid Session1.second.1 j0 = valid Session1.first.1 j0 && negb clean &&
      negb (bool_decide (j_id j0 = j_id Session1.second_job)).
Proof.
  apply (notify_validity (Session1.notify "a" false) Session1.first.1
    Session1.second.1 Session1.second_job); [apply session1_ok|vm_compute; reflexivity..].
Defined.

Lemma notify_job_witness :
  current Session1.second.1 = Some Session1.second_job ∧
  generation Session1.second.1 = generation Session1.first.1 + 1 ∧
  target (j_work Session1.second_job) = next_target Session1.first.1.
Proof.
  destruct (notify_job (Session1.notify "a" false) Session1.first.1
    Session1.second.1 Session1.second_job) as (? & ? & _ & ? & _);
    [apply session1_ok|vm_compute; reflexivity..|].
  auto.
Defined.

Lemma settings_are_staged_witness :
  let s' := (receive Session1.difficulty Session1.first.1).1 in
  current s' = current Session1.first.1 ∧
  (authorized Session1.first.1 = true → ∀ j, valid s' j = valid Session1.first.1 j).
Proof.
  apply (settings_are_staged Session1.difficulty);
    [apply session1_ok|vm_compute; reflexivity..].
Defined.
