(* ===== verification/Session.v ===== *)
(** * The Stratum V2 session

    [sv2::Session] of src/include/yolo/sv2_session.hpp and
    src/src/sv2_session.cpp: handshake, channel, jobs, previous hashes, targets
    and the accounting of submitted shares.  The [write] callback is the list
    [sent] of the byte strings handed to it. *)
From stdpp Require Import sorting.
From Stdlib Require Import SpecFloat.
From S2P Require Import Prelude Words Hex Blake Targets Work Sv2 Noise Json.

Record Stored := { wire : NewJob; job : Job; future : bool }.
Record Batch := { b_last : Z; b_count : Z }.

(** ** [long double] *)

(** The 64-bit significand of x86, and rounding to [double]. *)
Definition ld_of_Z (z : Z) : spec_float := binary_normalize 64 16384 z 0 false.
Definition double_of_ld (x : spec_float) : spec_float :=
  match x with
  | S754_finite s m e => binary_normalize 53 1024 (if s then Z.neg m else Z.pos m) e s
  | x => x
  end.
(** [double(std::ldexp(65535.L, 208) / numeric)] for the big-endian [target]. *)
Definition target_difficulty (target : Bytes) : spec_float :=
  let numeric := fold_left (λ numeric b,
    SFadd 64 16384 (SFmul 64 16384 numeric (ld_of_Z 256)) (ld_of_Z (b2z b))) target (S754_zero false) in
  double_of_ld (SFdiv 64 16384 (SFldexp 64 16384 (ld_of_Z 65535) 208) numeric).

(** ** [std::map<uint32_t, bool>] as its keys in order *)

Fixpoint key_insert (k : Z) (l : list Z) : list Z :=
  match l with
  | [] => [k]
  | x :: l' => if k <? x then k :: l else if k =? x then l else x :: key_insert k l'
  end.
Definition key_erase (k : Z) (l : list Z) : list Z := List.filter (λ x, negb (x =? k)) l.
Definition key_contains (k : Z) (l : list Z) : bool := existsb (Z.eqb k) l.

Section session.
Context `{NoiseCrate}.

Record Session := {
  handshake : Bytes;
  noise : Noise;
  sent : list Bytes;
  extra : Bytes;
  host : string;
  user : string;
  port : Z;
  rate : Z;
  phase : Z;
  channel : Z;
  group : Z;
  generation : Z;
  epoch : Z;
  last_ack : Z;
  last_sent : Z;
  s_target : Bytes;
  network_target : Bytes;
  previous : Bytes;
  have_previous : bool;
  jobs : gmap Z Stored;
  pending : list Z;
  batches : list Batch;
  current : option Job;
}.

Definition set_handshake (v : Bytes) (s : Session) : Session :=
   Build_Session v (noise s) (sent s) (extra s) (host s) (user s) (port s) (rate s) (phase s)
    (channel s) (group s) (generation s) (epoch s) (last_ack s) (last_sent s) (s_target s)
    (network_target s) (previous s) (have_previous s) (jobs s) (pending s) (batches s)
    (current s).
Definition set_noise (v : Noise) (s : Session) : Session :=
   Build_Session (handshake s) v (sent s) (extra s) (host s) (user s) (port s) (rate s)
    (phase s) (channel s) (group s) (generation s) (epoch s) (last_ack s) (last_sent s)
    (s_target s) (network_target s) (previous s) (have_previous s) (jobs s) (pending s)
    (batches s) (current s).
Definition set_sent (v : list Bytes) (s : Session) : Session :=
   Build_Session (handshake s) (noise s) v (extra s) (host s) (user s) (port s) (rate s)
    (phase s) (channel s) (group s) (generation s) (epoch s) (last_ack s) (last_sent s)
    (s_target s) (network_target s) (previous s) (have_previous s) (jobs s) (pending s)
    (batches s) (current s).
Definition set_extra (v : Bytes) (s : Session) : Session :=
   Build_Session (handshake s) (noise s) (sent s) v (host s) (user s) (port s) (rate s)
    (phase s) (channel s) (group s) (generation s) (epoch s) (last_ack s) (last_sent s)
    (s_target s) (network_target s) (previous s) (have_previous s) (jobs s) (pending s)
    (batches s) (current s).
Definition set_phase (v : Z) (s : Session) : Session :=
   Build_Session (handshake s) (noise s) (sent s) (extra s) (host s) (user s) (port s) (rate s)
    v (channel s) (group s) (generation s) (epoch s) (last_ack s) (last_sent s) (s_target s)
    (network_target s) (previous s) (have_previous s) (jobs s) (pending s) (batches s)
    (current s).
Definition set_channel (v : Z) (s : Session) : Session :=
   Build_Session (handshake s) (noise s) (sent s) (extra s) (host s) (user s) (port s) (rate s)
    (phase s) v (group s) (generation s) (epoch s) (last_ack s) (last_sent s) (s_target s)
    (network_target s) (previous s) (have_previous s) (jobs s) (pending s) (batches s)
    (current s).
Definition set_group (v : Z) (s : Session) : Session :=
   Build_Session (handshake s) (noise s) (sent s) (extra s) (host s) (user s) (port s) (rate s)
    (phase s) (channel s) v (generation s) (epoch s) (last_ack s) (last_sent s) (s_target s)
    (network_target s) (previous s) (have_previous s) (jobs s) (pending s) (batches s)
    (current s).
Definition set_generation (v : Z) (s : Session) : Session :=
   Build_Session (handshake s) (noise s) (sent s) (extra s) (host s) (user s) (port s) (rate s)
    (phase s) (channel s) (group s) v (epoch s) (last_ack s) (last_sent s) (s_target s)
    (network_target s) (previous s) (have_previous s) (jobs s) (pending s) (batches s)
    (current s).
Definition set_epoch (v : Z) (s : Session) : Session :=
   Build_Session (handshake s) (noise s) (sent s) (extra s) (host s) (user s) (port s) (rate s)
    (phase s) (channel s) (group s) (generation s) v (last_ack s) (last_sent s) (s_target s)
    (network_target s) (previous s) (have_previous s) (jobs s) (pending s) (batches s)
    (current s).
Definition set_last_ack (v : Z) (s : Session) : Session :=
   Build_Session (handshake s) (noise s) (sent s) (extra s) (host s) (user s) (port s) (rate s)
    (phase s) (channel s) (group s) (generation s) (epoch s) v (last_sent s) (s_target s)
    (network_target s) (previous s) (have_previous s) (jobs s) (pending s) (batches s)
    (current s).
Definition set_last_sent (v : Z) (s : Session) : Session :=
   Build_Session (handshake s) (noise s) (sent s) (extra s) (host s) (user s) (port s) (rate s)
    (phase s) (channel s) (group s) (generation s) (epoch s) (last_ack s) v (s_target s)
    (network_target s) (previous s) (have_previous s) (jobs s) (pending s) (batches s)
    (current s).
Definition set_s_target (v : Bytes) (s : Session) : Session :=
   Build_Session (handshake s) (noise s) (sent s) (extra s) (host s) (user s) (port s) (rate s)
    (phase s) (channel s) (group s) (generation s) (epoch s) (last_ack s) (last_sent s) v
    (network_target s) (previous s) (have_previous s) (jobs s) (pending s) (batches s)
    (current s).
Definition set_network_target (v : Bytes) (s : Session) : Session :=
   Build_Session (handshake s) (noise s) (sent s) (extra s) (host s) (user s) (port s) (rate s)
    (phase s) (channel s) (group s) (generation s) (epoch s) (last_ack s) (last_sent s)
    (s_target s) v (previous s) (have_previous s) (jobs s) (pending s) (batches s) (current s).
Definition set_previous (v : Bytes) (s : Session) : Session :=
   Build_Session (handshake s) (noise s) (sent s) (extra s) (host s) (user s) (port s) (rate s)
    (phase s) (channel s) (group s) (generation s) (epoch s) (last_ack s) (last_sent s)
    (s_target s) (network_target s) v (have_previous s) (jobs s) (pending s) (batches s)
    (current s).
Definition set_have_previous (v : bool) (s : Session) : Session :=
   Build_Session (handshake s) (noise s) (sent s) (extra s) (host s) (user s) (port s) (rate s)
    (phase s) (channel s) (group s) (generation s) (epoch s) (last_ack s) (last_sent s)
    (s_target s) (network_target s) (previous s) v (jobs s) (pending s) (batches s) (current s).
Definition set_jobs (v : gmap Z Stored) (s : Session) : Session :=
   Build_Session (handshake s) (noise s) (sent s) (extra s) (host s) (user s) (port s) (rate s)
    (phase s) (channel s) (group s) (generation s) (epoch s) (last_ack s) (last_sent s)
    (s_target s) (network_target s) (previous s) (have_previous s) v (pending s) (batches s)
    (current s).
Definition set_pending (v : list Z) (s : Session) : Session :=
   Build_Session (handshake s) (noise s) (sent s) (extra s) (host s) (user s) (port s) (rate s)
    (phase s) (channel s) (group s) (generation s) (epoch s) (last_ack s) (last_sent s)
    (s_target s) (network_target s) (previous s) (have_previous s) (jobs s) v (batches s)
    (current s).
Definition set_batches (v : list Batch) (s : Session) : Session :=
   Build_Session (handshake s) (noise s) (sent s) (extra s) (host s) (user s) (port s) (rate s)
    (phase s) (channel s) (group s) (generation s) (epoch s) (last_ack s) (last_sent s)
    (s_target s) (network_target s) (previous s) (have_previous s) (jobs s) (pending s) v
    (current s).
Definition set_current (v : option Job) (s : Session) : Session :=
   Build_Session (handshake s) (noise s) (sent s) (extra s) (host s) (user s) (port s) (rate s)
    (phase s) (channel s) (group s) (generation s) (epoch s) (last_ack s) (last_sent s)
    (s_target s) (network_target s) (previous s) (have_previous s) (jobs s) (pending s)
    (batches s) v.

(** ** Operations *)

(** A call on the [noise] member. *)
Definition with_noise {A} (m : stM Noise A) : stM Session A := λ s,
  let '(n, r) := m (noise s) in (set_noise n s, r).

Definition write (b : Bytes) : stM Session unit := st_modify (λ s, set_sent (sent s ++ [b]) s).

(** The constructor. *)
Definition new_session (key : Bytes) (h : string) (p : Z) (u : string) (r : Z) : result Session :=
  '(n, first) ← new_noise key;
  Ok {| handshake := []; noise := n; sent := [first]; extra := []; host := h; user := u; port := p;
        rate := r; phase := 0; channel := 0; group := 0; generation := 0; epoch := 0;
        last_ack := 0; last_sent := 0; s_target := replicate 32 x00;
        network_target := replicate 32 x00; previous := replicate 32 x00; have_previous := false;
        jobs := ∅; pending := []; batches := []; current := None |}.

Definition send (f : Frame) : stM Session unit :=
  b ← with_noise (encode f); write b.

(** 2^224 - 1: the top 32 bits of a digest must be zero. *)
Definition maximum_target : Bytes := replicate 4 x00 ++ replicate 28 xff.
(** [std::min] on arrays. *)
Definition min_hash (a b : Bytes) : Bytes := if lexicographical_compare b a then b else a.

(** The assignments of [activate] before and after the header is built. *)
Definition job_fields (st : Stored) (s : Session) (time : Z) : Job :=
  {| j_work := j_work (job st); j_id := pretty (nj_job (wire st));
     j_en2 := j_en2 (job st); j_ntime := j_ntime (job st);
     j_generation := generation s; j_epoch := epoch s;
     j_network_target := j_network_target (job st); j_sv2 := true;
     j_channel := channel s; j_wire_job := nj_job (wire st); j_version := nj_version (wire st);
     j_time32 := time |}.
Definition job_work (j : Job) (w : Work) (nt : Bytes) : Job :=
  {| j_work := w; j_id := j_id j; j_en2 := j_en2 j; j_ntime := j_ntime j;
     j_generation := j_generation j; j_epoch := j_epoch j; j_network_target := nt;
     j_sv2 := j_sv2 j; j_channel := j_channel j; j_wire_job := j_wire_job j;
     j_version := j_version j; j_time32 := j_time32 j |}.

(** [activate(jobs[k], time)]; [st] is the stored job the reference names. *)
Definition activate (k : Z) (st : Stored) (time : Z) : stM Session unit :=
  s ← st_get;
  _ ← st_require (have_previous s) "SV2 active job before previous hash";
  _ ← st_modify (λ s, set_generation (u64 (generation s + 1)) s);
  s ← st_get;
  let j := job_fields st s time in
  _ ← st_modify (λ s, set_jobs
        (<[k := {| wire := wire st; job := j; future := future st |}]> (jobs s)) s);
  header ← st_lift (standard_work (previous s) (nj_root (wire st)) (extra s) time);
  let j := job_work j {| header := header; target := min_hash (s_target s) maximum_target |}
             (network_target s) in
  _ ← st_modify (set_current (Some j));
  st_modify (λ s, set_jobs (<[k := {| wire := wire st; job := j; future := false |}]> (jobs s)) s).

Definition accepted_event (sequence : Z) : json :=
  JObject [("id", JUInt sequence); ("result", JBool true)].

(** [while (!batches.empty())]; each iteration breaks or removes a batch. *)
Fixpoint settle_loop (fuel : nat) (out : list json) : stM Session (list json) :=
  match fuel with
  | O => mret out
  | S fuel' =>
      s ← st_get;
      match batches s with
      | [] => mret out
      | b :: rest =>
          let n := Z.of_nat (length (List.filter (λ x, x <=? b_last b) (pending s))) in
          _ ← st_require (b_count b <=? n) "SV2 inconsistent accepted count";
          if negb (n =? b_count b) then mret out
          else
            (* the keys in order up to the first one above b.last *)
            let accepted := take_while (λ x, x <=? b_last b) (pending s) in
            _ ← st_modify (λ s, set_pending (drop_while (λ x, x <=? b_last b) (pending s)) s);
            _ ← st_modify (set_batches rest);
            settle_loop fuel' (out ++ (accepted_event <$> accepted))
      end
  end.
Definition settle (out : list json) : stM Session (list json) :=
  s ← st_get; settle_loop (S (length (batches s))) out.

(** ** [Session::receive] *)

Definition compact_bytes (nbits : Z) : Bytes :=
  [u8 (Z.shiftr nbits 24); u8 (Z.shiftr nbits 16); u8 (Z.shiftr nbits 8); u8 nbits].

Definition on_setup (m : SetupSuccess) : stM Session unit :=
  s ← st_get;
  _ ← st_require ((phase s =? 1) && (ss_version m =? 2) && (Z.land (ss_flags m) (Z.lxor (2 ^ 32 - 1) 1) =? 0))
        "unsupported SV2 setup response";
  f ← st_lift (open_standard 1 (user s) (rate s) (replicate 32 xff));
  _ ← send f;
  st_modify (set_phase 2).

Definition on_open (m : OpenSuccess) : stM Session unit :=
  s ← st_get;
  _ ← st_require ((phase s =? 2) && (os_request m =? 1)) "unexpected SV2 channel response";
  _ ← st_require ((length (os_prefix m) =? 4)%nat || (length (os_prefix m) =? 12)%nat)
        "unsupported BTCB2 standard extranonce";
  _ ← st_modify (set_channel (os_channel m));
  _ ← st_modify (set_group (os_group m));
  _ ← st_modify (set_s_target (os_target m));
  _ ← st_modify (set_extra (resize 12 x00 (os_prefix m)));
  st_modify (set_phase 3).

Definition on_new_job (m : NewJob) : stM Session unit :=
  s ← st_get;
  _ ← st_require ((phase s =? 3) && (nj_channel m =? channel s)) "SV2 job channel mismatch";
  _ ← st_require ((size (jobs s) <? 1024)%nat && negb (bool_decide (is_Some (jobs s !! nj_job m))))
        "SV2 job limit or reused active job ID";
  let st := {| wire := m; job := empty_job;
               future := match nj_ntime m with Some _ => false | None => true end |} in
  _ ← st_modify (λ s, set_jobs (<[nj_job m := st]> (jobs s)) s);
  match nj_ntime m with
  | Some t => activate (nj_job m) st t
  | None => mret tt
  end.

Definition on_prev_hash (m : PrevHash) : stM Session unit :=
  s ← st_get;
  _ ← st_require ((phase s =? 3) && ((ph_channel m =? channel s) || (ph_channel m =? group s)))
        "SV2 previous hash channel mismatch";
  match jobs s !! ph_job m with
  | None => st_throw "SV2 activation of unknown job"
  | Some selected =>
      _ ← st_require (forallb (λ b, b2z b =? 0) (take 6 (ph_hash m)))
            "pool sent non-hidden BTCB2 prevhash";
      nt ← st_lift (compact_target (hex (compact_bytes (ph_nbits m))));
      _ ← st_modify (set_jobs ∅);
      _ ← st_modify (λ s, set_epoch (u64 (epoch s + 1)) s);
      _ ← st_modify (set_previous (ph_hash m));
      _ ← st_modify (set_network_target nt);
      _ ← st_modify (set_have_previous true);
      _ ← st_modify (λ s, set_jobs (<[ph_job m := selected]> (jobs s)) s);
      activate (ph_job m) selected (ph_ntime m)
  end.

Definition on_target (m : Target) (out : list json) : stM Session (list json) :=
  s ← st_get;
  _ ← st_require ((phase s =? 3) && ((tg_channel m =? channel s) || (tg_channel m =? group s)))
        "SV2 target channel mismatch";
  _ ← st_modify (set_s_target (tg_target m));
  mret (out ++ [JObject [("method", JString "mining.set_difficulty");
                         ("params", JArray [JFloat (target_difficulty (tg_target m))])]]).

Definition on_accepted (m : Accepted) (out : list json) : stM Session (list json) :=
  s ← st_get;
  _ ← st_require ((phase s =? 3) && (ac_channel m =? channel s) && (0 <? ac_count m) &&
                  (ac_count m <=? 4096) && (last_ack s <? ac_last_sequence m) &&
                  (ac_last_sequence m <=? last_sent s) &&
                  key_contains (ac_last_sequence m) (pending s))
        "invalid SV2 batch acknowledgement";
  _ ← st_modify (set_last_ack (ac_last_sequence m));
  _ ← st_modify (λ s, set_batches
        (batches s ++ [{| b_last := ac_last_sequence m; b_count := ac_count m |}]) s);
  settle out.

Definition is_stale (reason : string) : bool :=
  bool_decide (reason = "stale-share") || bool_decide (reason = "invalid-job-id") ||
  bool_decide (reason = "stale-job").
Definition rejected_event (sequence : Z) (reason : string) : json :=
  JObject [("id", JUInt sequence); ("result", JBool false);
           ("error", JArray [JInt (if is_stale reason then 21 else 20); JString reason])].

Definition on_rejected (m : Rejected) (out : list json) : stM Session (list json) :=
  s ← st_get;
  _ ← st_require ((phase s =? 3) && (rj_channel m =? channel s) &&
                  key_contains (rj_sequence m) (pending s)) "unknown SV2 rejected sequence";
  _ ← st_modify (λ s, set_pending (key_erase (rj_sequence m) (pending s)) s);
  settle (out ++ [rejected_event (rj_sequence m) (rj_reason m)]).

(** The chain of [std::get_if], then the empty object that prompts the
    scheduler. *)
Definition on_message (m : Message) (out : list json) : stM Session (list json) :=
  out ← match m with
        | MSetupSuccess m => _ ← on_setup m; mret out
        | MOpenSuccess m => _ ← on_open m; mret out
        | MNewJob m => _ ← on_new_job m; mret out
        | MPrevHash m => _ ← on_prev_hash m; mret out
        | MTarget m => on_target m out
        | MAccepted m => on_accepted m out
        | MRejected m => on_rejected m out
        | MError m => st_throw ("SV2 pool error: " +:+ er_reason m)
        end;
  mret (out ++ [JObject []]).

(** [for (auto &frame : noise.receive(bytes))] *)
Fixpoint on_frames (fs : list Frame) (out : list json) : stM Session (list json) :=
  match fs with
  | [] => mret out
  | f :: fs => m ← st_lift (decode f); out ← on_message m out; on_frames fs out
  end.

(** [receive] once the handshake is over. *)
Definition receive_frames (bytes : Bytes) : stM Session (list json) :=
  fs ← with_noise (Noise.receive bytes); on_frames fs [].

Definition receive (bytes : Bytes) : stM Session (list json) :=
  s ← st_get;
  if phase s =? 0 then
    _ ← st_modify (λ s, set_handshake (handshake s ++ bytes) s);
    s ← st_get;
    _ ← st_require (Z.of_nat (length (handshake s)) <=? 65536) "SV2 handshake buffer limit";
    if (length (handshake s) <? 234)%nat then mret []
    else
      _ ← with_noise (finish (take 234 (handshake s)));
      let remainder := drop 234 (handshake s) in
      _ ← st_modify (set_handshake []);
      _ ← st_modify (set_phase 1);
      f ← st_lift (setup (host s) (port s) "supryolo/0.2.1");
      _ ← send f;
      receive_frames remainder
  else receive_frames bytes.

Definition valid (s : Session) (j : Job) : bool :=
  (phase s =? 3) && (j_channel j =? channel s) && (j_epoch j =? epoch s) &&
  match jobs s !! j_wire_job j with
  | Some st => negb (future st) && (j_generation (job st) =? j_generation j)
  | None => false
  end.

Definition submit (j : Job) (nonce sequence : Z) : stM Session unit :=
  s ← st_get;
  _ ← st_require (valid s j && (nonce <=? 2 ^ 32 - 1) && (last_sent s <? sequence) &&
                  (Z.of_nat (length (pending s)) <? 4096))
        "invalid SV2 submit or sequence exhausted";
  _ ← st_modify (λ s, set_pending (key_insert sequence (pending s)) s);
  _ ← st_modify (set_last_sent sequence);
  f ← st_lift (submit_standard (channel s) sequence (j_wire_job j) (u32 nonce) (j_time32 j)
                 (j_version j));
  send f.
End session.

(** ** Accounting of submitted shares *)

Section accounting.
Context `{NoiseCrate}.

(** Sequence numbers are pending in order, none above the last one sent; the
    outstanding batches are in order, none above the last acknowledgement. *)
Definition accounting_ok (s : Session) : Prop :=
  StronglySorted Z.lt (pending s) ∧ Forall (λ x, x ≤ last_sent s) (pending s) ∧
  Z.of_nat (length (pending s)) ≤ 4096 ∧ last_ack s ≤ last_sent s ∧
  StronglySorted Z.lt (b_last <$> batches s) ∧ Forall (λ b, b_last b ≤ last_ack s) (batches s).

(** The share a reported event settles. *)
Definition event_id (e : json) : list Z :=
  match find e "id" with Some (JUInt z) => [z] | _ => [] end.
Definition event_accepts (e : json) : Z :=
  match find e "result" with Some (JBool true) => 1 | _ => 0 end.
Definition settled (events : list json) : list Z := flat_map event_id events.
Definition sum (l : list Z) : Z := fold_right Z.add 0 l.
Definition accepts (events : list json) : Z := sum (event_accepts <$> events).
Definition outstanding (s : Session) : Z := sum (b_count <$> batches s).

Lemma sum_app a b : sum (a ++ b) = sum a + sum b.
Proof. unfold sum. induction a as [|x a IH]; [done|]. cbn [app fold_right]. lia. Qed.
Lemma accepts_app a b : accepts (a ++ b) = accepts a + accepts b.
Proof. unfold accepts. by rewrite fmap_app, sum_app. Qed.
Lemma settled_app a b : settled (a ++ b) = settled a ++ settled b.
Proof. apply flat_map_app. Qed.

Lemma settled_accepted l : settled (accepted_event <$> l) = l.
Proof. induction l as [|x l IH]; [done|]. cbn. f_equal. exact IH. Qed.
Lemma accepts_accepted l : accepts (accepted_event <$> l) = Z.of_nat (length l).
Proof.
  induction l as [|x l IH]; [done|]. unfold accepts, sum in *. cbn [fmap list_fmap fold_right length].
  change (event_accepts (accepted_event x)) with 1. rewrite IH. lia.
Qed.

(** In an ordered map the keys up to a bound are a prefix. *)
Lemma filter_take_while k l : StronglySorted Z.lt l →
  List.filter (λ x, x <=? k) l = take_while (λ x, x <=? k) l.
Proof.
  induction 1 as [|x l Hs IH Hx]; [done|]. cbn. destruct (Z.leb_spec x k) as [Hle|Hgt].
  - by rewrite IH.
  - rewrite Forall_forall in Hx. clear IH Hs. induction l as [|y l IH]; [done|]. cbn.
    assert (x < y) by (apply Hx; set_solver).
    destruct (Z.leb_spec y k); [lia|]. apply IH. intros z Hz. apply Hx. set_solver.
Qed.

Lemma sorted_app_r {A} (R : A → A → Prop) (a b : list A) : StronglySorted R (a ++ b) → StronglySorted R b.
Proof. induction a as [|x a IH]; [done|]. cbn. intros Hs. inversion Hs. auto. Qed.

(** What [settle] and the handlers do to the ledger: the new events settle
    shares that leave the pending set, and acceptances are paid by batches. *)
Definition ledger_step (s s' : Session) (out out' : list json) (acked : Z) : Prop :=
  ∃ ev, out' = out ++ ev ∧ settled ev ++ pending s' ≡ₚ pending s ∧
    accepts ev + outstanding s' = outstanding s + acked.

(** The rest of the session is untouched. *)
Definition same_jobs (s s' : Session) : Prop :=
  phase s' = phase s ∧ channel s' = channel s ∧ group s' = group s ∧ epoch s' = epoch s ∧
  generation s' = generation s ∧ jobs s' = jobs s ∧ current s' = current s ∧
  s_target s' = s_target s ∧ network_target s' = network_target s ∧ previous s' = previous s ∧
  have_previous s' = have_previous s ∧ extra s' = extra s.

Lemma settle_loop_wp fuel s0 out0 acked s out : (length (batches s) < fuel)%nat → accounting_ok s →
  ledger_step s0 s out0 out acked → same_jobs s0 s → last_sent s = last_sent s0 →
  wp (settle_loop fuel out) (λ s' r, match r with
    | Ok out' => accounting_ok s' ∧ ledger_step s0 s' out0 out' acked ∧ same_jobs s0 s' ∧
        last_sent s' = last_sent s0
    | Throw _ => True end) s.
Proof.
  revert s out. induction fuel as [|fuel IH]; intros s out Hf Hok Hled Hsame Hls; [lia|].
  cbn [settle_loop]. apply wp_bind, wp_get. cbn [wp_next].
  destruct (batches s) as [|b rest] eqn:Hb; [by apply wp_ret|].
  pose proof Hok as (Hsort & Hle & Hlen & Hack & Hbs & Hbl).
  cbn zeta. apply wp_bind, wp_require; intros _; cbn [wp_next]; [|done].
  rewrite filter_take_while by done. set (n := Z.of_nat _).
  destruct (Z.eqb_spec n (b_count b)) as [Hn|Hn]; cbn [negb]; [|by apply wp_ret].
  wp_steps. set (acc := take_while _ (pending s)) in *. set (left := drop_while _ (pending s)).
  assert (pending s = acc ++ left) as Hsplit by (symmetry; apply take_drop_while).
  destruct Hled as (ev & -> & Hperm & Hsum). apply IH.
  - cbn [set_batches batches]. rewrite ?Hb in Hf. cbn in Hf. lia.
  - rewrite Hsplit, Hb in *. split_and!; cbn; try done.
    + by eapply sorted_app_r.
    + by apply Forall_app in Hle as [_ ?].
    + rewrite length_app in Hlen. lia.
    + by inversion Hbs.
    + by inversion Hbl.
  - exists (ev ++ (accepted_event <$> acc)). split_and!.
    + by rewrite app_assoc.
    + rewrite settled_app, settled_accepted, <- app_assoc. cbn. rewrite <- Hsplit. done.
    + rewrite accepts_app, accepts_accepted. unfold outstanding in *. cbn [batches set_batches].
      rewrite ?Hb in Hsum. cbn in Hsum. fold n. unfold sum in *. lia.
  - done.
  - done.
Qed.

(** *** The handlers *)

Definition same_shares (s s' : Session) : Prop :=
  pending s' = pending s ∧ batches s' = batches s ∧ last_ack s' = last_ack s ∧
  last_sent s' = last_sent s.

Lemma accounting_same s s' : same_shares s s' → accounting_ok s → accounting_ok s'.
Proof. intros (Hp & Hb & Ha & Hs). unfold accounting_ok. by rewrite Hp, Hb, Ha, Hs. Qed.

Lemma ledger_refl s s' out : same_shares s s' → ledger_step s s' out out 0.
Proof.
  intros (Hp & Hb & _). exists []. unfold outstanding. rewrite app_nil_r, Hp, Hb. split_and!; [done|done|cbn; lia].
Qed.

(** [send] only touches the transport. *)
Lemma send_wp f s : wp (send f) (λ s' _, same_jobs s s' ∧ same_shares s s') s.
Proof.
  unfold send, with_noise, write. apply wp_bind. unfold wp at 1.
  destruct (encode f (noise s)) as [n [b|e]]; cbn [fst snd wp_next]; by split_and!.
Qed.

(** Every stored job other than [k] is filed under its wire ID, and when it is
    active it carries that ID, the session's channel and its epoch. *)
Definition stamped_except (k : option Z) (s : Session) : Prop :=
  ∀ k' st, Some k' ≠ k → jobs s !! k' = Some st →
    nj_job (wire st) = k' ∧
    (future st = false →
     j_wire_job (job st) = k' ∧ j_channel (job st) = channel s ∧ j_epoch (job st) = epoch s).
Definition valid_ids_ok : Session → Prop := stamped_except None.

(** The invariant of a session that has not thrown. *)
Definition session_ok (s : Session) : Prop :=
  accounting_ok s ∧ 0 ≤ phase s ≤ 3 ∧ (size (jobs s) ≤ 1024)%nat ∧ valid_ids_ok s ∧
  (phase s ≠ 3 → jobs s = ∅ ∧ current s = None) ∧
  (∀ j, current s = Some j → valid s j = true).

Lemma valid_same s s' j : same_jobs s s' → valid s' j = valid s j.
Proof. intros (Hp & Hc & _ & He & _ & Hj & _). unfold valid. by rewrite Hp, Hc, He, Hj. Qed.

Lemma session_ok_same s s' : same_jobs s s' → accounting_ok s' → session_ok s → session_ok s'.
Proof.
  intros Hs Ha (_ & Hph & Hsz & Hids & Hpre & Hcur).
  pose proof Hs as (Hp & Hc & _ & He & _ & Hj & Hcu & _).
  unfold session_ok, valid_ids_ok, stamped_except in *. rewrite Hp, Hc, He, Hj, Hcu.
  split; [done|]. split; [done|]. split; [done|]. split; [exact Hids|]. split; [exact Hpre|].
  intros j Hcj. rewrite (valid_same s s' j Hs). auto.
Qed.

(** The job [activate] stamps and publishes. *)
Definition activated_job (st : Stored) (s : Session) (time : Z) (header : Bytes) : Job :=
  job_work (job_fields st (set_generation (u64 (generation s + 1)) s) time)
    {| header := header; target := min_hash (s_target s) maximum_target |} (network_target s).

Record activated (k : Z) (st : Stored) (time : Z) (s s' : Session) (j : Job) : Prop := {
  act_header : ∃ h, standard_work (previous s) (nj_root (wire st)) (extra s) time = Ok h ∧
    j = activated_job st s time h;
  act_jobs : jobs s' = <[k := {| wire := wire st; job := j; future := false |}]> (jobs s);
  act_current : current s' = Some j;
  act_generation : generation s' = u64 (generation s + 1);
  act_frame : phase s' = phase s ∧ channel s' = channel s ∧ group s' = group s ∧
    epoch s' = epoch s ∧ have_previous s' = have_previous s ∧ s_target s' = s_target s ∧
    previous s' = previous s ∧ extra s' = extra s;
  act_shares : same_shares s s';
  act_previous : have_previous s = true;
}.

Lemma activate_wp k st time s :
  wp (activate k st time) (λ s' r, match r with
    | Ok _ => ∃ j, activated k st time s s' j
    | Throw _ => True end) s.
Proof.
  unfold activate. apply wp_bind, wp_get. cbn [wp_next].
  apply wp_bind, wp_require; intros Hp; cbn [wp_next]; [|done].
  wp_steps. destruct (standard_work _ _ _ _) as [h|e] eqn:Hh; cbn [wp_next]; [|done].
  wp_steps. eexists. constructor.
  - exists h. split; [exact Hh|reflexivity].
  - cbn. by rewrite insert_insert_eq.
  - done.
  - done.
  - done.
  - done.
  - done.
Qed.

(** A published job is valid and the invariant is kept. *)
Lemma activated_ok k st time s s' j : activated k st time s s' j → nj_job (wire st) = k →
  accounting_ok s → phase s = 3 → stamped_except (Some k) s →
  (size (<[k := st]> (jobs s)) ≤ 1024)%nat →
  session_ok s' ∧ valid s' j = true ∧ (∀ i, j_wire_job i ≠ k → valid s' i = valid s i).
Proof.
  intros [(h & _ & ->) Hjobs Hcur Hgen (Hph & Hch & Hgr & Hep & _) Hsh _] Hk Ha Hp Hids Hsz.
  set (j := activated_job st s time h) in *.
  assert (valid s' j = true) as Hv.
  { unfold valid. rewrite Hph, Hp, Hch, Hep, Hjobs. cbn [j activated_job job_work job_fields
      j_channel j_epoch j_wire_job channel epoch set_generation].
    rewrite !Z.eqb_refl, Hk, lookup_insert_eq. cbn. by rewrite !Z.eqb_refl. }
  split_and!; [|done|].
  - split; [by eapply accounting_same|]. rewrite Hph, Hp, Hjobs. split; [lia|].
    split; [by rewrite map_size_insert in *|]. split; [|split; [done|]].
    + intros k' st' _. rewrite Hjobs, Hch, Hep. destruct (decide (k = k')) as [<-|].
      * rewrite lookup_insert_eq. intros [= <-]. split; [exact Hk|]. intros _. split_and!; [exact Hk|done|done].
      * rewrite lookup_insert_ne by done. apply Hids. congruence.
    + intros i. rewrite Hcur. by intros [= <-].
  - intros i Hi. unfold valid. by rewrite Hph, Hch, Hep, Hjobs, lookup_insert_ne by congruence.
Qed.

Lemma on_new_job_wp m s : session_ok s →
  wp (on_new_job m) (λ s' r, match r with
    | Ok _ => session_ok s' ∧ same_shares s s' ∧ phase s = 3 ∧ jobs s !! nj_job m = None ∧
        match nj_ntime m with
        | Some t => ∃ j, activated (nj_job m) {| wire := m; job := empty_job; future := false |} t
            (set_jobs (<[nj_job m := {| wire := m; job := empty_job; future := false |}]> (jobs s)) s) s' j ∧
            valid s' j = true ∧ (∀ i, j_wire_job i ≠ nj_job m → valid s' i = valid s i)
        | None => s' = set_jobs (<[nj_job m := {| wire := m; job := empty_job; future := true |}]> (jobs s)) s ∧
            ∀ i, valid s' i = valid s i
        end
    | Throw _ => True end) s.
Proof.
  intros (Ha & Hph & Hsz & Hids & Hpre & Hcur). unfold on_new_job. apply wp_bind, wp_get. cbn [wp_next].
  apply wp_bind, wp_require; intros Hc; cbn [wp_next]; [|done].
  apply wp_bind, wp_require; intros Hlim; cbn [wp_next]; [|done].
  apply andb_true_iff in Hc as [Hp%Z.eqb_eq Hc%Z.eqb_eq].
  apply andb_true_iff in Hlim as [Hlt%Nat.ltb_lt Hfresh%negb_true_iff].
  assert (jobs s !! nj_job m = None) as Hnone.
  { apply eq_None_not_Some. by apply bool_decide_eq_false in Hfresh. }
  cbn zeta. apply wp_bind, wp_modify. cbn [wp_next].
  set (st := {| wire := m; job := empty_job; future := _ |}).
  assert (size (<[nj_job m := st]> (jobs s)) ≤ 1024)%nat as Hsz1 by (rewrite map_size_insert_None; [lia|done]).
  destruct (nj_ntime m) as [t|] eqn:Ht.
  - eapply wp_mono; [apply activate_wp|]. intros s' [u|e] Hact; [|done].
    destruct Hact as (j & Hact).
    destruct (activated_ok _ _ _ _ _ _ Hact) as (Hok & Hv & Hoth).
    + done.
    + done.
    + done.
    + intros k' st' Hk'. cbn. rewrite lookup_insert_ne by congruence. by apply Hids.
    + cbn. by rewrite insert_insert_eq.
    + split_and!; [done|apply (act_shares _ _ _ _ _ _ Hact)|done|done|]. exists j. split_and!; [done|done|].
      intros i Hi. rewrite Hoth by done. unfold valid. cbn. by rewrite lookup_insert_ne by congruence.
  - apply wp_ret. assert (∀ i, valid (set_jobs (<[nj_job m := st]> (jobs s)) s) i = valid s i) as Hv.
    { intros i. unfold valid. cbn. destruct (decide (nj_job m = j_wire_job i)) as [Hi|Hi].
      - rewrite <- Hi, lookup_insert_eq, Hnone. by cbn; rewrite !andb_false_r.
      - by rewrite lookup_insert_ne. }
    split_and!; [|done|done|done|done|done].
    split; [done|]. split; [done|]. split; [done|]. split; [|split; [done|]].
    + intros k' st' _. cbn. destruct (decide (nj_job m = k')) as [<-|].
      * rewrite lookup_insert_eq. by intros [= <-].
      * rewrite lookup_insert_ne by done. by apply Hids.
    + intros i Hi. rewrite Hv. by apply Hcur.
Qed.

(** The epoch a previous hash starts: no job but the selected one. *)
Definition next_epoch (m : PrevHash) (nt : Bytes) (st : Stored) (s : Session) : Session :=
  set_jobs (<[ph_job m := st]> ∅) (set_have_previous true (set_network_target nt
    (set_previous (ph_hash m) (set_epoch (u64 (epoch s + 1)) (set_jobs ∅ s))))).

Lemma on_prev_hash_wp m s : session_ok s →
  wp (on_prev_hash m) (λ s' r, match r with
    | Ok _ => session_ok s' ∧ same_shares s s' ∧ epoch s' = u64 (epoch s + 1) ∧
        ∃ st nt j, jobs s !! ph_job m = Some st ∧
          compact_target (hex (compact_bytes (ph_nbits m))) = Ok nt ∧
          activated (ph_job m) st (ph_ntime m) (next_epoch m nt st s) s' j ∧ valid s' j = true
    | Throw _ => True end) s.
Proof.
  intros (Ha & Hph & Hsz & Hids & Hpre & Hcur). unfold on_prev_hash. apply wp_bind, wp_get. cbn [wp_next].
  apply wp_bind, wp_require; intros Hc; cbn [wp_next]; [|done].
  apply andb_true_iff in Hc as [Hp%Z.eqb_eq _].
  destruct (jobs s !! ph_job m) as [st|] eqn:Hst; [|done].
  apply wp_bind, wp_require; intros _; cbn [wp_next]; [|done].
  apply wp_bind, wp_lift. destruct (compact_target _) as [nt|e] eqn:Hnt; cbn [wp_next]; [|done].
  do 6 (apply wp_bind, wp_modify; cbn [wp_next]).
  eapply wp_mono; [apply activate_wp|]. intros s' [u|e] Hact; [|done]. destruct Hact as (j & Hact).
  fold (next_epoch m nt st s) in Hact.
  destruct (activated_ok _ _ _ _ _ _ Hact) as (Hok & Hv & _).
  - by apply (Hids _ _ ltac:(done) Hst).
  - done.
  - done.
  - intros k' st' Hk'. cbn. by rewrite lookup_insert_ne, lookup_empty by congruence.
  - cbn. rewrite insert_insert_eq, map_size_insert_None, map_size_empty by apply lookup_empty. lia.
  - split_and!; [done|apply (act_shares _ _ _ _ _ _ Hact)| |].
    + by destruct (act_frame _ _ _ _ _ _ Hact) as (_ & _ & _ & -> & _).
    + exists st, nt, j. done.
Qed.

(** What every handler guarantees when it returns: the invariant, the ledger,
    and what it may change of the jobs. *)
Definition acked_by (m : Message) : Z := match m with MAccepted m => ac_count m | _ => 0 end.
Definition keeps_jobs (m : Message) : bool :=
  match m with MTarget _ | MAccepted _ | MRejected _ | MSetupSuccess _ => true | _ => false end.

Lemma key_erase_perm k l : StronglySorted Z.lt l → key_contains k l = true →
  k :: key_erase k l ≡ₚ l.
Proof.
  unfold key_erase, key_contains. induction 1 as [|x l Hs IH Hx]; [discriminate|].
  cbn. destruct (Z.eqb_spec k x) as [<-|Hne]; intros Hin.
  - rewrite Z.eqb_refl. cbn. assert (List.filter (λ x, negb (x =? k)) l = l) as ->; [|done].
    apply List.forallb_filter_id, forallb_Forall. eapply Forall_impl; [exact Hx|].
    cbn. intros y ?. rewrite (proj2 (Z.eqb_neq y k)) by lia. done.
  - rewrite (proj2 (Z.eqb_neq x k)) by congruence. cbn. rewrite Permutation_swap.
    constructor. by apply IH.
Qed.

Lemma key_erase_sorted k l : StronglySorted Z.lt l → StronglySorted Z.lt (key_erase k l).
Proof.
  unfold key_erase. induction 1 as [|x l Hs IH Hx]; [constructor|]. cbn. destruct (negb _); [|done].
  constructor; [done|]. rewrite Forall_forall in *. intros y [Hy _]%list_elem_of_In%filter_In.
  apply Hx. by apply list_elem_of_In.
Qed.

(** A handler that returns keeps the invariant and balances the ledger. *)
Definition balanced (s : Session) (out : list json) (acked : Z) (s' : Session)
    (r : result (list json)) : Prop :=
  match r with
  | Ok out' => session_ok s' ∧ ledger_step s s' out out' acked ∧ last_sent s' = last_sent s
  | Throw _ => True
  end.

(** The handlers that report nothing. *)
Lemma balanced_quiet {A} (m : stM Session A) s out :
  wp m (λ s' r, match r with Ok _ => session_ok s' ∧ same_shares s s' | Throw _ => True end) s →
  wp (_ ← m; mret out) (balanced s out 0) s.
Proof.
  intros Hm. apply wp_bind. eapply wp_mono; [exact Hm|]. intros s' [a|e] Hs; [|done].
  destruct Hs as [Hok Hsh]. cbn [wp_next]. apply wp_ret. split_and!; [done|by apply ledger_refl|apply Hsh].
Qed.

Lemma on_setup_wp m s : session_ok s →
  wp (on_setup m) (λ s' r, match r with Ok _ => session_ok s' ∧ same_shares s s' | Throw _ => True end) s.
Proof.
  intros Hok. unfold on_setup. apply wp_bind, wp_get. cbn [wp_next].
  apply wp_bind, wp_require; intros Hc; cbn [wp_next]; [|done].
  rewrite !andb_true_iff in Hc. destruct Hc as [[Hp%Z.eqb_eq _] _].
  apply wp_bind, wp_lift. destruct (open_standard _ _ _ _) as [f|e]; cbn [wp_next]; [|done].
  apply wp_bind. eapply wp_mono; [apply send_wp|]. intros s1 [u|e] [Hj Hsh]; [|done]. cbn [wp_next].
  apply wp_modify. destruct Hok as (Ha & _ & Hsz & Hids & Hpre & Hcur).
  destruct (Hpre ltac:(lia)) as [Hj0 Hc0].
  pose proof Hj as (Hp1 & Hc1 & _ & He1 & _ & Hj1 & Hcu1 & _). split; [|done].
  split; [by eapply accounting_same|]. unfold valid_ids_ok, stamped_except.
  cbn [phase jobs current channel epoch set_phase]. rewrite Hj1, Hj0, Hcu1, Hc0.
  split; [lia|]. split; [by rewrite map_size_empty; lia|]. split; [|by split].
  intros k st _. by rewrite lookup_empty.
Qed.

Lemma on_open_wp m s : session_ok s →
  wp (on_open m) (λ s' r, match r with Ok _ => session_ok s' ∧ same_shares s s' | Throw _ => True end) s.
Proof.
  intros (Ha & _ & Hsz & Hids & Hpre & Hcur). unfold on_open. apply wp_bind, wp_get. cbn [wp_next].
  apply wp_bind, wp_require; intros Hc; cbn [wp_next]; [|done].
  rewrite !andb_true_iff in Hc. destruct Hc as [Hp%Z.eqb_eq _].
  apply wp_bind, wp_require; intros _; cbn [wp_next]; [|done].
  destruct (Hpre ltac:(lia)) as [Hj0 Hc0]. wp_steps. split; [|done].
  split; [by eapply accounting_same|]. unfold valid_ids_ok, stamped_except.
  cbn [phase jobs current channel epoch set_phase set_extra set_s_target set_group set_channel].
  rewrite Hj0, Hc0. split; [lia|]. split; [by rewrite map_size_empty; lia|]. split; [|by split].
  intros k st _. by rewrite lookup_empty.
Qed.

(** No event of a concrete list is an acceptance. *)
Ltac quiet_events :=
  match goal with |- accepts ?l + _ = _ => change (accepts l) with 0 end;
  unfold outstanding; cbn [batches set_s_target set_pending]; lia.

Lemma on_target_wp m s out : session_ok s → wp (on_target m out) (balanced s out 0) s.
Proof.
  intros Hok. unfold on_target. apply wp_bind, wp_get. cbn [wp_next].
  apply wp_bind, wp_require; intros _; cbn [wp_next]; [|done]. wp_steps.
  split_and!; [exact Hok| |done]. eexists. split; [done|]. split; [done|]. quiet_events.
Qed.

Lemma settle_wp s0 s out0 out acked : session_ok s0 → accounting_ok s →
  ledger_step s0 s out0 out acked → same_jobs s0 s → last_sent s = last_sent s0 →
  wp (settle out) (balanced s0 out0 acked) s.
Proof.
  intros Hok Ha Hl Hs Hls. unfold settle. apply wp_bind, wp_get. cbn [wp_next].
  eapply wp_mono; [apply (settle_loop_wp _ s0 out0 acked); (done || lia)|].
  intros s' [out'|e]; [|done]. intros (Ha' & Hl' & Hs' & Hls'). split_and!; [|done|done].
  by apply (session_ok_same s0).
Qed.

Lemma on_accepted_wp m s out : session_ok s → wp (on_accepted m out) (balanced s out (ac_count m)) s.
Proof.
  intros Hok. pose proof Hok as ((Hsort & Hle & Hlen & Hack & Hbs & Hbl) & _).
  unfold on_accepted. apply wp_bind, wp_get. cbn [wp_next].
  apply wp_bind, wp_require; intros Hc; cbn [wp_next]; [|done].
  rewrite !andb_true_iff in Hc. destruct Hc as [[[[_ _] Hlt%Z.ltb_lt] Hls%Z.leb_le] _].
  apply wp_bind, wp_modify. cbn [wp_next]. apply wp_bind, wp_modify. cbn [wp_next].
  apply settle_wp; [done| | |done|done].
  - split_and!; cbn; try done.
    + rewrite fmap_app. cbn. apply StronglySorted_app. split_and!; [|done|repeat constructor].
      intros x y Hx Hy. apply list_elem_of_singleton in Hy as ->. apply list_elem_of_fmap in Hx as (b & -> & Hb).
      rewrite Forall_forall in Hbl. specialize (Hbl b Hb). lia.
    + apply Forall_app. split; [|by repeat constructor]. eapply Forall_impl; [exact Hbl|]. cbn. lia.
  - exists []. rewrite app_nil_r. split_and!; [done|done|]. unfold outstanding. cbn.
    rewrite fmap_app, sum_app. cbn. lia.
Qed.

Lemma on_rejected_wp m s out : session_ok s → wp (on_rejected m out) (balanced s out 0) s.
Proof.
  intros Hok. pose proof Hok as ((Hsort & Hle & Hlen & Hack & Hbs & Hbl) & _).
  unfold on_rejected. apply wp_bind, wp_get. cbn [wp_next].
  apply wp_bind, wp_require; intros Hc; cbn [wp_next]; [|done].
  rewrite !andb_true_iff in Hc. destruct Hc as [_ Hin].
  pose proof (key_erase_perm _ _ Hsort Hin) as Hperm.
  apply wp_bind, wp_modify. cbn [wp_next]. apply settle_wp; [done| | |done|done].
  - split_and!; cbn; try done; [by apply key_erase_sorted| |].
    + rewrite <- Hperm in Hle. by apply Forall_cons in Hle as [_ ?].
    + rewrite <- Hperm in Hlen. cbn in Hlen. lia.
  - exists [rejected_event (rj_sequence m) (rj_reason m)]. split_and!; [done|exact Hperm|].
    quiet_events.
Qed.

Lemma on_message_wp m s out : session_ok s → wp (on_message m out) (balanced s out (acked_by m)) s.
Proof.
  intros Hok. unfold on_message. apply wp_bind.
  assert (∀ s' r, balanced s out (acked_by m) s' r →
    wp_next (λ out, mret (out ++ [JObject []])) (balanced s out (acked_by m)) s' r) as Hend.
  { intros s' [out'|e]; [|done]. intros (? & (ev & -> & Hp & Ha) & ?). cbn [wp_next]. apply wp_ret.
    split_and!; [done| |done]. exists (ev ++ [JObject []]). rewrite app_assoc, settled_app, accepts_app.
    cbn [settled flat_map event_id find assoc app]. rewrite app_nil_r. split_and!; [done|done|].
    change (accepts [JObject []]) with 0. lia. }
  destruct m as [m|m|m|m|m|m|m|m]; (eapply wp_mono; [|exact Hend]); cbn [acked_by].
  - apply balanced_quiet. by apply on_setup_wp.
  - apply balanced_quiet. by apply on_open_wp.
  - apply balanced_quiet. eapply wp_mono; [by apply on_new_job_wp|]. by intros s' [u|e] Hr; [destruct Hr as (?&?&_)|].
  - apply balanced_quiet. eapply wp_mono; [by apply on_prev_hash_wp|]. by intros s' [u|e] Hr; [destruct Hr as (?&?&_)|].
  - by apply on_target_wp.
  - by apply on_accepted_wp.
  - by apply on_rejected_wp.
  - done.
Qed.

(** ** [submit] *)

Lemma key_insert_last k l : Forall (λ x, x < k) l → key_insert k l = l ++ [k].
Proof.
  induction 1 as [|x l Hx _ IH]; [done|]. cbn. rewrite (proj2 (Z.ltb_ge k x)), (proj2 (Z.eqb_neq k x)) by lia.
  by rewrite IH.
Qed.

Lemma submit_wp j nonce seq s : session_ok s →
  wp (submit j nonce seq) (λ s' r, match r with
    | Ok _ => session_ok s' ∧ pending s' = pending s ++ [seq] ∧ batches s' = batches s ∧
        last_sent s' = seq ∧ last_sent s < seq ∧ valid s j = true ∧ nonce < 2 ^ 32 ∧ same_jobs s s'
    | Throw _ => True end) s.
Proof.
  intros Hok. pose proof Hok as ((Hsort & Hle & Hlen & Hack & Hbs & Hbl) & _).
  unfold submit. apply wp_bind, wp_get. cbn [wp_next].
  apply wp_bind, wp_require; intros Hc; cbn [wp_next]; [|done].
  rewrite !andb_true_iff in Hc. destruct Hc as [[[Hv Hn%Z.leb_le] Hs%Z.ltb_lt] Hl%Z.ltb_lt].
  apply wp_bind, wp_modify. cbn [wp_next]. apply wp_bind, wp_modify. cbn [wp_next].
  apply wp_bind, wp_lift. destruct (submit_standard _ _ _ _ _ _) as [f|e]; cbn [wp_next]; [|done].
  eapply wp_mono; [apply send_wp|]. intros s' [u|e] [Hj (Hp & Hb & Ha & Hls)]; [|done].
  cbn [pending batches last_ack last_sent set_pending set_last_sent] in *.
  assert (Forall (λ x, x < seq) (pending s)) as Hlt by (eapply Forall_impl; [exact Hle|]; cbn; lia).
  rewrite key_insert_last in Hp by done.
  assert (same_jobs s s') as Hsame by exact Hj.
  split_and!; try done; try lia. apply (session_ok_same s); [done| |done].
  unfold accounting_ok. rewrite Hp, Hb, Ha, Hls. split_and!; try done; try lia.
  - apply StronglySorted_app. split_and!; [|done|repeat constructor].
    intros x y Hx Hy. apply list_elem_of_singleton in Hy as ->. rewrite Forall_forall in Hlt. by apply Hlt.
  - apply Forall_app. split; [|by repeat constructor]. eapply Forall_impl; [exact Hlt|]. cbn. lia.
  - rewrite length_app. cbn. lia.
Qed.

(** ** Runs *)

(** What happens to a session after the handshake, in order: a decoded message
    or a call of [submit].  [play] stops at the first exception and keeps the
    events reported, the sequence numbers submitted and the total of the counts
    the pool acknowledged. *)
Inductive session_event := EMessage (m : Message) | ESubmit (j : Job) (nonce seq : Z).

Record ledger := { events : list json; submitted : list Z; acked : Z }.

Fixpoint play (es : list session_event) (s : Session) (l : ledger) : option (Session * ledger) :=
  match es with
  | [] => Some (s, l)
  | EMessage m :: es =>
      match on_message m (events l) s with
      | (s, Ok out) =>
          play es s {| events := out; submitted := submitted l; acked := acked l + acked_by m |}
      | _ => None
      end
  | ESubmit j nonce seq :: es =>
      match submit j nonce seq s with
      | (s, Ok _) =>
          play es s {| events := events l; submitted := submitted l ++ [seq]; acked := acked l |}
      | _ => None
      end
  end.

(** The books balance. *)
Definition ledger_ok (s : Session) (l : ledger) : Prop :=
  settled (events l) ++ pending s ≡ₚ submitted l ∧
  StronglySorted Z.lt (submitted l) ∧ Forall (λ x, x ≤ last_sent s) (submitted l) ∧
  accepts (events l) + outstanding s = acked l.

Lemma play_message m s l s' out : session_ok s → ledger_ok s l →
  on_message m (events l) s = (s', Ok out) →
  session_ok s' ∧
  ledger_ok s' {| events := out; submitted := submitted l; acked := acked l + acked_by m |}.
Proof.
  intros Hok (Hp & Hs & Hle & Ha) Hm. pose proof (on_message_wp m s (events l) Hok) as Hw.
  unfold wp in Hw. rewrite Hm in Hw. cbn [fst snd] in Hw. destruct Hw as (Hok' & (ev & -> & Hp' & Ha') & Hls).
  split; [done|]. unfold ledger_ok. cbn [events submitted acked fst] in *. rewrite Hls.
  split_and!; [|done|done|rewrite accepts_app; lia].
  by rewrite settled_app, <- app_assoc, Hp'.
Qed.

Lemma play_submit j nonce seq s l s' u : session_ok s → ledger_ok s l →
  submit j nonce seq s = (s', Ok u) →
  session_ok s' ∧
  ledger_ok s' {| events := events l; submitted := submitted l ++ [seq]; acked := acked l |}.
Proof.
  intros Hok (Hp & Hs & Hle & Ha) Hm. pose proof (submit_wp j nonce seq s Hok) as Hw.
  unfold wp in Hw. rewrite Hm in Hw. cbn [fst snd] in Hw. destruct Hw as (Hok' & Hpend & Hb & Hls & Hlt & _).
  split; [done|]. unfold ledger_ok. cbn [events submitted acked]. rewrite Hpend, Hls.
  unfold outstanding in *. rewrite Hb. split_and!; [by rewrite app_assoc, Hp| | |done].
  - apply StronglySorted_app. split_and!; [|done|repeat constructor].
    intros x y Hx Hy. apply list_elem_of_singleton in Hy as ->. rewrite Forall_forall in Hle.
    specialize (Hle x Hx). lia.
  - apply Forall_app. split; [|by repeat constructor]. eapply Forall_impl; [exact Hle|]. cbn. lia.
Qed.

Lemma play_ok es s l s' l' : session_ok s → ledger_ok s l → play es s l = Some (s', l') →
  session_ok s' ∧ ledger_ok s' l'.
Proof.
  revert s l. induction es as [|[m|j nonce seq] es IH]; intros s l Hok Hl; cbn [play].
  - by intros [= <- <-].
  - destruct (on_message m (events l) s) as [s1 [out|e]] eqn:E; [|discriminate].
    destruct (play_message _ _ _ _ _ Hok Hl E). by apply IH.
  - destruct (submit j nonce seq s) as [s1 [u|e]] eqn:E; [|discriminate].
    destruct (play_submit _ _ _ _ _ _ _ Hok Hl E). by apply IH.
Qed.

Definition empty_ledger : ledger := {| events := []; submitted := []; acked := 0 |}.

(** C15: the books of submitted shares balance.  Whatever the pool sends and
    whatever is submitted, as long as nothing throws, every submitted share is
    either still pending or has been reported exactly once, no sequence number
    is submitted twice, and the acceptances reported plus the counts of the
    batches still waiting are the counts the pool acknowledged. *)
Theorem share_ledger es s s' l : session_ok s → pending s = [] → batches s = [] →
  play es s empty_ledger = Some (s', l) →
  settled (events l) ++ pending s' ≡ₚ submitted l ∧ NoDup (submitted l) ∧
  accepts (events l) + outstanding s' = acked l.
Proof.
  intros Hok Hp Hb Hrun. apply play_ok in Hrun as [_ (? & Hs & _ & ?)]; [|done|].
  - split_and!; [done| |done]. clear -Hs. induction Hs as [|x q Hs IH Hx]; [constructor|].
    constructor; [|done]. intros Hin. rewrite Forall_forall in Hx. specialize (Hx x Hin). lia.
  - unfold ledger_ok, outstanding. rewrite Hp, Hb. split_and!; [done|constructor|constructor|done].
Qed.

(** ** Previous hashes and new jobs *)

Lemma min_hash_value t : length t = 32%nat →
  be_value (min_hash t maximum_target) = Z.min (be_value t) (2 ^ 224 - 1).
Proof.
  intros Hl. unfold min_hash. assert (be_value maximum_target = 2 ^ 224 - 1) as Hm by done.
  pose proof (lexicographical_compare_be maximum_target t ltac:(by rewrite Hl)) as Hc.
  rewrite Hm in Hc. destruct (lexicographical_compare maximum_target t); [rewrite Hm|]; lia.
Qed.

Lemma on_message_prev_hash m s out s' out' : on_message (MPrevHash m) out s = (s', Ok out') →
  ∃ u, on_prev_hash m s = (s', Ok u).
Proof.
  unfold on_message, mbind, stM_bind. destruct (on_prev_hash m s) as [s1 [u|e]]; [|discriminate].
  unfold mret, stM_ret. intros [= <- _]. eauto.
Qed.

Lemma on_message_new_job m s out s' out' : on_message (MNewJob m) out s = (s', Ok out') →
  ∃ u, on_new_job m s = (s', Ok u).
Proof.
  unfold on_message, mbind, stM_bind. destruct (on_new_job m s) as [s1 [u|e]]; [|discriminate].
  unfold mret, stM_ret. intros [= <- _]. eauto.
Qed.

(** C20: a previous hash retires all earlier work.  After it, no job that was
    valid before may be submitted; the named job is rebuilt on the new hash and
    becomes the current, valid job; its share target is the channel's capped at
    2^224 - 1. *)
Theorem prev_hash_retires_jobs m s s' out out' :
  session_ok s → 0 ≤ epoch s → epoch s + 1 < 2 ^ 64 → length (s_target s) = 32%nat →
  on_message (MPrevHash m) out s = (s', Ok out') →
  (∀ j, valid s j = true → valid s' j = false) ∧
  ∃ j st, current s' = Some j ∧ valid s' j = true ∧ jobs s !! ph_job m = Some st ∧
    standard_work (ph_hash m) (nj_root (wire st)) (extra s) (ph_ntime m) =
      Ok (header (j_work j)) ∧
    be_value (target (j_work j)) = Z.min (be_value (s_target s)) (2 ^ 224 - 1) ∧
    compact_target (hex (compact_bytes (ph_nbits m))) = Ok (j_network_target j).
Proof.
  intros Hok He He' Ht Hm. apply on_message_prev_hash in Hm as [u Hm].
  pose proof (on_prev_hash_wp m s Hok) as Hw. unfold wp in Hw. rewrite Hm in Hw. cbn in Hw.
  destruct Hw as (Hok' & _ & Hep & st & nt & j & Hst & Hnt & Hact & Hv).
  rewrite u64_small in Hep by (unfold is_u64; lia). split.
  - intros i Hi. unfold valid in *. rewrite Hep. rewrite !andb_true_iff in Hi.
    destruct Hi as [[_ Hi%Z.eqb_eq] _]. rewrite (proj2 (Z.eqb_neq (j_epoch i) _)) by lia.
    by rewrite andb_false_r.
  - pose proof (act_current _ _ _ _ _ _ Hact) as Hc.
    destruct (act_header _ _ _ _ _ _ Hact) as (h & Hh & ->). exists (activated_job st (next_epoch m nt st s) (ph_ntime m) h), st.
    split_and!; [done|done|done|exact Hh| |exact Hnt]. by apply min_hash_value.
Qed.

(** a new job never disturbs valid work.  A future job changes nothing that
    may be submitted; an active one becomes the current, valid job next to all
    the jobs that were valid, with its own ID. *)
Theorem new_job_keeps_jobs m s s' out out' : session_ok s →
  on_message (MNewJob m) out s = (s', Ok out') →
  match nj_ntime m with
  | None => current s' = current s ∧ ∀ i, valid s' i = valid s i
  | Some t => ∃ j, current s' = Some j ∧ valid s' j = true ∧ j_wire_job j = nj_job m ∧
      j_time32 j = t ∧ j_version j = nj_version m ∧
      ∀ i, valid s i = true → valid s' i = true ∧ j_wire_job i ≠ nj_job m
  end.
Proof.
  intros Hok Hm. apply on_message_new_job in Hm as [u Hm].
  pose proof (on_new_job_wp m s Hok) as Hw. unfold wp in Hw. rewrite Hm in Hw. cbn in Hw.
  destruct Hw as (_ & _ & _ & Hnone & Hw). destruct (nj_ntime m) as [t|]; [|by destruct Hw as [-> ?]].
  destruct Hw as (j & Hact & Hv & Hoth). exists j.
  pose proof (act_current _ _ _ _ _ _ Hact) as Hc.
  destruct (act_header _ _ _ _ _ _ Hact) as (h & _ & ->).
  split_and!; [done|done|done|done|done|]. intros i Hi.
  assert (j_wire_job i ≠ nj_job m) as Hne.
  { intros Heq. unfold valid in Hi. rewrite Heq, Hnone, andb_false_r in Hi. done. }
  by rewrite Hoth.
Qed.

Lemma submit_sends j nonce seq s s' u : submit j nonce seq s = (s', Ok u) →
  ∃ f n c, submit_standard (channel s) seq (j_wire_job j) (u32 nonce) (j_time32 j) (j_version j) = Ok f ∧
    encode f (noise s) = (n, Ok c) ∧ noise s' = n ∧ sent s' = sent s ++ [c].
Proof.
  unfold submit, mbind, stM_bind, st_get, st_require, st_modify, st_lift. intros Hm.
  destruct (throw_if _ _); [|discriminate Hm].
  destruct (submit_standard _ _ _ _ _ _) as [f|e]; [|discriminate Hm].
  unfold send, with_noise, write, mbind, stM_bind, st_modify in Hm.
  cbn [noise set_last_sent set_pending] in Hm.
  destruct (encode f (noise s)) as [n [c|e]] eqn:He; [|discriminate Hm].
  injection Hm as <- _. exists f, n, c. done.
Qed.

(** [submit] sends only live work.  When it returns, the job was valid, the
    nonce fits 32 bits, the sequence number is new, and exactly one frame went
    out: the encryption of that share's submission. *)
Theorem submit_live_work j nonce seq s s' u : session_ok s →
  submit j nonce seq s = (s', Ok u) →
  valid s j = true ∧ nonce < 2 ^ 32 ∧ last_sent s < seq ∧ (seq ∉ pending s) ∧
  pending s' = pending s ++ [seq] ∧
  ∃ f n c, submit_standard (channel s) seq (j_wire_job j) (u32 nonce) (j_time32 j) (j_version j) = Ok f ∧
    encode f (noise s) = (n, Ok c) ∧ noise s' = n ∧ sent s' = sent s ++ [c].
Proof.
  intros Hok Hm. pose proof (submit_wp j nonce seq s Hok) as Hw. unfold wp in Hw. rewrite Hm in Hw.
  cbn [fst snd] in Hw. destruct Hw as (_ & Hp & _ & _ & Hlt & Hv & Hn & _). split_and!; [done|done|done| |done|].
  - destruct Hok as ((_ & Hle & _) & _). intros Hin. rewrite Forall_forall in Hle. specialize (Hle _ Hin). lia.
  - by eapply submit_sends.
Qed.

(** *** Whole calls *)

Lemma with_noise_same {A} (m : stM Noise A) s :
  wp (with_noise m) (λ s' _, same_jobs s s' ∧ same_shares s s') s.
Proof. unfold wp, with_noise. by destruct (m (noise s)). Qed.

Lemma on_frames_wp fs s out : session_ok s →
  wp (on_frames fs out) (λ s' r, match r with Ok _ => session_ok s' | Throw _ => True end) s.
Proof.
  revert s out. induction fs as [|f fs IH]; intros s out Hok; cbn [on_frames]; [by apply wp_ret|].
  apply wp_bind, wp_lift. destruct (decode f) as [m|e]; cbn [wp_next]; [|done].
  apply wp_bind. eapply wp_mono; [by apply on_message_wp|]. intros s' [out'|e]; [|done].
  intros (Hok' & _). cbn [wp_next]. by apply IH.
Qed.

Lemma receive_frames_wp bytes s : session_ok s →
  wp (receive_frames bytes) (λ s' r, match r with Ok _ => session_ok s' | Throw _ => True end) s.
Proof.
  intros Hok. unfold receive_frames. apply wp_bind. eapply wp_mono; [apply with_noise_same|].
  intros s' [fs|e] [Hj Hs]; [|done]. cbn [wp_next]. apply on_frames_wp.
  apply (session_ok_same s); [done|by eapply accounting_same, Hok|done].
Qed.

Lemma session_ok_phase p s : session_ok s → phase s ≠ 3 → 0 ≤ p < 3 →
  session_ok (set_phase p (set_handshake [] s)).
Proof.
  intros (Ha & _ & Hsz & Hids & Hpre & Hcur) Hp Hp'. destruct (Hpre Hp) as [Hj Hc].
  split; [exact Ha|]. split; [cbn; lia|]. split; [exact Hsz|]. split; [exact Hids|].
  split; [done|]. cbn. rewrite Hc. done.
Qed.

Lemma session_receive_wp bytes s : session_ok s →
  wp (receive bytes) (λ s' r, match r with Ok _ => session_ok s' | Throw _ => True end) s.
Proof.
  intros Hok. unfold receive. apply wp_bind, wp_get. cbn [wp_next].
  destruct (Z.eqb_spec (phase s) 0) as [Hp|Hp]; [|by apply receive_frames_wp].
  apply wp_bind, wp_modify. cbn [wp_next]. apply wp_bind, wp_get. cbn [wp_next].
  assert (session_ok (set_handshake (handshake s ++ bytes) s)) as Hok1 by exact Hok.
  set (s1 := set_handshake (handshake s ++ bytes) s) in *.
  apply wp_bind, wp_require; intros _; cbn [wp_next]; [|done].
  destruct (_ <? 234)%nat; [by apply wp_ret|].
  apply wp_bind. eapply wp_mono; [apply with_noise_same|]. intros s2 [u|e] [Hj Hs]; [|done]. cbn [wp_next].
  apply wp_bind, wp_modify. cbn [wp_next]. apply wp_bind, wp_modify. cbn [wp_next].
  assert (session_ok s2) as Hok2 by (apply (session_ok_same s1); [done|by eapply accounting_same, Hok1|done]).
  assert (session_ok (set_phase 1 (set_handshake [] s2))) as Hok3.
  { apply session_ok_phase; [done| |lia]. destruct Hj as [-> _]. cbn. lia. }
  apply wp_bind, wp_lift. destruct (setup _ _ _) as [f|e]; cbn [wp_next]; [|done].
  apply wp_bind. eapply wp_mono; [apply send_wp|]. intros s4 [u'|e] [Hj4 Hs4]; [|done]. cbn [wp_next].
  apply receive_frames_wp. apply (session_ok_same (set_phase 1 (set_handshake [] s2)));
    [done|by eapply accounting_same, Hok3|done].
Qed.

(** The calls the miner makes on a session. *)
Inductive session_call := CReceive (bytes : Bytes) | CSubmit (j : Job) (nonce seq : Z).

(** Run them in order, up to the first exception. *)
Fixpoint run_calls (cs : list session_call) (s : Session) : option Session :=
  match cs with
  | [] => Some s
  | CReceive b :: cs => match receive b s with (s, Ok _) => run_calls cs s | _ => None end
  | CSubmit j nonce seq :: cs =>
      match submit j nonce seq s with (s, Ok _) => run_calls cs s | _ => None end
  end.

Lemma new_session_ok key h p u r s : new_session key h p u r = Ok s → session_ok s.
Proof.
  unfold new_session. destruct (new_noise key) as [[n first]|e]; [|discriminate].
  intros Hs. apply Ok_inj in Hs as <-.
  split; [split_and!; cbn; try constructor; lia|]. split; [cbn; lia|].
  split; [cbn; rewrite map_size_empty; lia|]. split; [|done].
  intros k st _. cbn. by rewrite lookup_empty.
Qed.

(** The session invariant holds on every connection, for every byte stream
    the pool sends in whatever fragments and every sequence of submissions: at
    most 1024 jobs and 4096 pending shares in order, no job before the channel
    is open, and the current job is always one that may be submitted. *)
Theorem session_reachable_ok key h p u r s cs s' :
  new_session key h p u r = Ok s → run_calls cs s = Some s' → session_ok s'.
Proof.
  intros Hn%new_session_ok. revert s Hn. induction cs as [|[b|j nonce seq] cs IH]; intros s Hok; cbn [run_calls].
  - by intros [= <-].
  - pose proof (session_receive_wp b s Hok) as Hw. unfold wp in Hw.
    destruct (receive b s) as [s1 [out|e]]; [|discriminate]. by apply IH.
  - pose proof (submit_wp j nonce seq s Hok) as Hw. unfold wp in Hw.
    destruct (submit j nonce seq s) as [s1 [v|e]]; [|discriminate]. apply IH, Hw.
Qed.
End accounting.

(** ** A concrete session *)

Module Session2.
#[local] Existing Instances Plain.crate Plain.laws.

(** A session whose channel has been opened. *)
Definition opened : Session :=
  {| handshake := []; noise := Plain.ready_noise; sent := []; extra := replicate 12 x05;
     host := "pool"; user := "worker"; port := 3333; rate := 0; phase := 3; channel := 7; group := 9;
     generation := 0; epoch := 0; last_ack := 0; last_sent := 0; s_target := replicate 32 xff;
     network_target := replicate 32 x00; previous := replicate 32 x00; have_previous := false;
     jobs := ∅; pending := []; batches := []; current := None |}.

Definition new_job (id : Z) (t : option Z) : NewJob :=
  {| nj_channel := 7; nj_job := id; nj_ntime := t; nj_version := 1; nj_root := replicate 32 x03 |}.
Definition prev_hash : PrevHash :=
  {| ph_channel := 9; ph_job := 1; ph_hash := replicate 32 x00; ph_ntime := 1700000000;
     ph_nbits := 0x1d00ffff |}.

(** The states after a future job, the previous hash that activates it, and an
    active job. *)
Definition with_future : Session := (on_message (MNewJob (new_job 1 None)) [] opened).1.
Definition activated : Session := (on_message (MPrevHash prev_hash) [] with_future).1.
Definition two_jobs : Session := (on_message (MNewJob (new_job 2 (Some 1700000001))) [] activated).1.
Definition the_job : Job := default empty_job (current two_jobs).

(** A new session, and a handshake response in two reads. *)
Definition fresh : Session :=
  match new_session (replicate 32 x01) "pool" 3333 "worker" 0 with Ok s => s | Throw _ => opened end.
Definition calls : list session_call := [CReceive (replicate 100 x00); CReceive (replicate 134 x00)].

(** Two shares, one rejected, one accepted in a batch. *)
Definition shares : list session_event :=
  [ESubmit the_job 5 10; ESubmit the_job 6 11;
   EMessage (MRejected {| rj_channel := 7; rj_sequence := 10; rj_reason := "stale-share" |});
   EMessage (MAccepted {| ac_channel := 7; ac_last_sequence := 11; ac_count := 1; ac_difficulty_sum := 0 |})].
Definition after_shares : Session * ledger := default (opened, empty_ledger) (play shares two_jobs empty_ledger).
End Session2.
#[local] Existing Instances Plain.crate Plain.laws.

Lemma opened_ok : session_ok Session2.opened.
Proof.
  split; [split_and!; cbn; try constructor; lia|]. split; [cbn; lia|].
  split; [cbn; rewrite map_size_empty; lia|]. split; [|done].
  intros k st _. cbn. by rewrite lookup_empty.
Qed.

Lemma message_ok_step m out s : session_ok s → is_ok (on_message m out s).2 = true →
  session_ok (on_message m out s).1.
Proof.
  intros Hok Hr. pose proof (on_message_wp m s out Hok) as Hw. unfold wp in Hw.
  destruct (on_message m out s) as [s' [o|e]]; [apply Hw|discriminate].
Qed.

Lemma with_future_ok : session_ok Session2.with_future.
Proof. apply message_ok_step; [apply opened_ok|vm_compute; reflexivity]. Qed.
Lemma activated_session_ok : session_ok Session2.activated.
Proof. apply message_ok_step; [apply with_future_ok|vm_compute; reflexivity]. Qed.
Lemma two_jobs_ok : session_ok Session2.two_jobs.
Proof. apply message_ok_step; [apply activated_session_ok|vm_compute; reflexivity]. Qed.

Lemma share_ledger_witness :
  let '(s', l) := Session2.after_shares in
  (settled (events l) ++ pending s' ≡ₚ submitted l ∧ NoDup (submitted l) ∧
   accepts (events l) + outstanding s' = acked l) ∧
  submitted l = [10; 11] ∧ settled (events l) = [10; 11] ∧ accepts (events l) = 1.
Proof.
  rewrite (surjective_pairing Session2.after_shares).
  split; [|split_and!; vm_compute; reflexivity].
  apply (share_ledger Session2.shares Session2.two_jobs Session2.after_shares.1 Session2.after_shares.2);
    [apply two_jobs_ok|vm_compute; reflexivity|vm_compute; reflexivity|].
  rewrite <- surjective_pairing. unfold Session2.after_shares.
  destruct (play Session2.shares Session2.two_jobs empty_ledger) eqn:E; [done|].
  exfalso. assert (is_Some (play Session2.shares Session2.two_jobs empty_ledger)) as [? Hs].
  { apply (bool_decide_eq_true_1 _). vm_compute. reflexivity. }
  congruence.
Defined.

Lemma prev_hash_retires_jobs_witness :
  let s := Session2.two_jobs in
  let s' := (on_message (MPrevHash Session2.prev_hash) [] s).1 in
  valid s Session2.the_job = true ∧ (∀ j, valid s j = true → valid s' j = false).
Proof.
  cbn zeta. split; [vm_compute; reflexivity|].
  destruct (prev_hash_retires_jobs Session2.prev_hash Session2.two_jobs
    (on_message (MPrevHash Session2.prev_hash) [] Session2.two_jobs).1 [] [JObject []]) as [Hv _];
    [apply two_jobs_ok|vm_compute; congruence|vm_compute; reflexivity|vm_compute; reflexivity| |exact Hv].
  rewrite (surjective_pairing (on_message _ _ _)) at 1. f_equal.
Defined.

Lemma new_job_keeps_jobs_witness :
  let s' := Session2.two_jobs in
  ∃ j, current s' = Some j ∧ valid s' j = true ∧ j_wire_job j = 2 ∧ j_time32 j = 1700000001 ∧
    j_version j = 1 ∧
    ∀ i, valid Session2.activated i = true → valid s' i = true ∧ j_wire_job i ≠ 2.
Proof.
  apply (new_job_keeps_jobs (Session2.new_job 2 (Some 1700000001)) Session2.activated
    Session2.two_jobs [] [JObject []]); [apply activated_session_ok|].
  unfold Session2.two_jobs. rewrite (surjective_pairing (on_message _ _ _)) at 1. f_equal.
Defined.

Lemma submit_live_work_witness :
  valid Session2.two_jobs Session2.the_job = true ∧ 5 < 2 ^ 32 ∧ last_sent Session2.two_jobs < 10 ∧
  10 ∉ pending Session2.two_jobs.
Proof.
  destruct (submit_live_work Session2.the_job 5 10 Session2.two_jobs
    (submit Session2.the_job 5 10 Session2.two_jobs).1 tt) as (H1 & H2 & H3 & H4 & _);
    [apply two_jobs_ok| |exact (conj H1 (conj H2 (conj H3 H4)))].
  rewrite (surjective_pairing (submit _ _ _ _)) at 1. f_equal.
Defined.

Lemma session_reachable_ok_witness :
  ∃ s', run_calls Session2.calls Session2.fresh = Some s' ∧ phase s' = 1 ∧ session_ok s'.
Proof.
  assert (phase <$> run_calls Session2.calls Session2.fresh = Some 1) as Hp by (vm_compute; reflexivity).
  destruct (run_calls Session2.calls Session2.fresh) as [s'|] eqn:Hr; [|discriminate Hp].
  exists s'. split; [reflexivity|]. split; [by injection Hp|].
  apply (session_reachable_ok (replicate 32 x01) "pool" 3333 "worker" 0 Session2.fresh Session2.calls s');
    [reflexivity|exact Hr].
Defined.
