(* ===== verification/Workers.v ===== *)
(** * Mining threads

    The worker lambda of [mine] in src/src/miner.cpp and the variables it shares
    with the coordinator under [mutex]: [work], [shared_cursor],
    [shared_generation], [found] and [failure].  Each locked block is one atomic
    step; everything else a worker does touches only its own variables. *)
From stdpp Require Import sorting.
From S2P Require Import Prelude Words Hex Blake Targets Work Cpu Sv2.

Record Found := { f_job : Job; f_nonce : Z; f_row : Z }.

Record Shared := {
  work : option Job;
  shared_cursor : Z;
  shared_generation : Z;
  found : list Found;
  failure : option string
}.
Definition no_work : Shared :=
  {| work := None; shared_cursor := 0; shared_generation := 0; found := []; failure := None |}.

Definition set_shared (g c : Z) (s : Shared) : Shared :=
  {| work := work s; shared_cursor := c; shared_generation := g; found := found s; failure := failure s |}.
Definition set_found (l : list Found) (s : Shared) : Shared :=
  {| work := work s; shared_cursor := shared_cursor s; shared_generation := shared_generation s;
     found := l; failure := failure s |}.
Definition set_failure (e : string) (s : Shared) : Shared :=
  {| work := work s; shared_cursor := shared_cursor s; shared_generation := shared_generation s;
     found := found s; failure := Some e |}.
Definition set_work (j : option Job) (s : Shared) : Shared :=
  {| work := j; shared_cursor := shared_cursor s; shared_generation := shared_generation s;
     found := found s; failure := failure s |}.

(** ** One iteration of a worker *)

(** The first locked block: the job and, for Stratum V2, a reserved cursor. *)
Definition reserve (batch : Z) : stM Shared (option (Job * Z)) :=
  s ← st_get;
  match work s with
  | None => mret None
  | Some j =>
      if j_sv2 j then
        _ ← (if shared_generation s =? j_generation j then mret tt
             else st_modify (set_shared (j_generation j) 0));
        s ← st_get;
        let reserved_cursor := shared_cursor s in
        reserved ← st_lift (partition (j_time32 j) 0 (shared_cursor s) batch);
        _ ← st_modify (set_shared (shared_generation s) (u64 (shared_cursor s + p_count reserved)));
        mret (Some (j, reserved_cursor))
      else mret (Some (j, 0))
  end.

(** [j->time32 = ntime; store_le(header + 40, ntime)]. *)
Definition roll_time (j : Job) (ntime : Z) : Job :=
  {| j_work := {| header := store_le (header (j_work j)) 40 ntime; target := target (j_work j) |};
     j_id := j_id j; j_en2 := j_en2 j; j_ntime := j_ntime j; j_generation := j_generation j;
     j_epoch := j_epoch j; j_network_target := j_network_target j; j_sv2 := j_sv2 j;
     j_channel := j_channel j; j_wire_job := j_wire_job j; j_version := j_version j; j_time32 := ntime |}.

(** What a scan works on. *)
Record Task := { t_job : Job; t_start : Z; t_count : Z }.

(** From the lock to the call of [scan]: the worker's generation and cursor, and
    the range. *)
Definition assign (index batch : Z) (j : Job) (reserved_cursor generation cursor : Z)
    : result (Z * Z * Task) :=
  let '(generation, cursor) :=
    if j_generation j =? generation then (generation, cursor) else (j_generation j, 0) in
  if j_sv2 j then
    p ← partition (j_time32 j) 0 reserved_cursor batch;
    Ok (generation, cursor, {| t_job := roll_time j (p_ntime p); t_start := p_nonce p; t_count := p_count p |})
  else
    _ ← throw_if (u64 (2 ^ 56 - batch) <? cursor) "nonce partition exhausted";
    Ok (generation, cursor,
        {| t_job := j; t_start := Z.lor (u64 (Z.shiftl index 56)) cursor; t_count := batch |}).

(** The second locked block. *)
Definition publish (j : Job) (row : Z) (ns : list Z) : stM Shared unit :=
  s ← st_get;
  _ ← st_require (negb (8192 <? Z.of_nat (length (found s)) + Z.of_nat (length ns))) "share queue overflow";
  st_modify (set_found (found s ++ ((λ n, {| f_job := j; f_nonce := n; f_row := row |}) <$> ns))).

(** ** Threads *)

Inductive stage :=
| Looping
| Scanning (t : Task)
| Publishing (j : Job) (ns : list Z)
| Stopped.

Record Worker := {
  w_batch : Z; w_row : Z; w_generation : Z; w_cursor : Z; w_hashes : Z; w_stage : stage
}.
Definition with_stage (st : stage) (w : Worker) : Worker :=
  {| w_batch := w_batch w; w_row := w_row w; w_generation := w_generation w; w_cursor := w_cursor w;
     w_hashes := w_hashes w; w_stage := st |}.
Definition with_task (g c : Z) (t : Task) (w : Worker) : Worker :=
  {| w_batch := w_batch w; w_row := w_row w; w_generation := g; w_cursor := c;
     w_hashes := w_hashes w; w_stage := Scanning t |}.
(** [cursor += r.hashes; slot.hashes += r.hashes]. *)
Definition with_scan (j : Job) (r : Scan) (w : Worker) : Worker :=
  {| w_batch := w_batch w; w_row := w_row w; w_generation := w_generation w;
     w_cursor := u64 (w_cursor w + hashes r); w_hashes := u64 (w_hashes w + hashes r);
     w_stage := Publishing j (nonces r) |}.

(** A scan that was started: the worker, the job as published, and the cursor the
    range was cut from. *)
Record Entry := { e_worker : nat; e_base : Job; e_cursor : Z; e_task : Task }.

Section threads.
(** The back end of each worker. *)
Context (backend : nat → Backend).

(** The catch block records the message and ends the thread. *)
Definition fail (e : exn) (s : Shared) (w : Worker) : Shared * Worker * list Entry :=
  (set_failure (what e) s, with_stage Stopped w, []).

(** The next step of worker [i]: a locked block with the local computation that
    follows it, or a scan.  The third component is the scan it starts, if any. *)
Definition worker_step (i : nat) (s : Shared) (w : Worker) : Shared * Worker * list Entry :=
  match w_stage w with
  | Looping =>
      match reserve (w_batch w) s with
      | (s, Ok None) => (s, w, [])
      | (s, Ok (Some (j, c))) =>
          match assign (Z.of_nat i) (w_batch w) j c (w_generation w) (w_cursor w) with
          | Ok (g, cursor, t) =>
              (s, with_task g cursor t w,
               [{| e_worker := i; e_base := j; e_cursor := if j_sv2 j then c else cursor; e_task := t |}])
          | Throw e => fail e s w
          end
      | (s, Throw e) => fail e s w
      end
  | Scanning t =>
      match @scan (backend i) (j_work (t_job t)) (t_start t) (t_count t) with
      | Ok r => (s, with_scan (t_job t) r w, [])
      | Throw e => fail e s w
      end
  | Publishing j ns =>
      match publish j (w_row w) ns s with
      | (s, Ok _) => (s, with_stage Looping w, [])
      | (s, Throw e) => fail e s w
      end
  | Stopped => (s, w, [])
  end.

(** The threads with two histories: the jobs published, and the scans started. *)
Record Pool := { shared : Shared; workers : list Worker; issued : list Job; scans : list Entry }.

(** A job the coordinator may publish after [jobs]: well-formed, and newer than
    all of them.  Generations are counted from one and do not wrap. *)
Definition job_ok (j : Job) : Prop :=
  length (header (j_work j)) = 80%nat ∧ length (target (j_work j)) = 32%nat ∧
  is_u32 (j_time32 j) ∧ is_u64 (j_generation j).
Definition newer (j : Job) (jobs : list Job) : Prop :=
  0 < j_generation j ∧ Forall (λ j', j_generation j' < j_generation j) jobs.

Inductive pool_step : Pool → Pool → Prop :=
| step_worker p i w s w' new : workers p !! i = Some w → worker_step i (shared p) w = (s, w', new) →
    pool_step p {| shared := s; workers := <[i := w']> (workers p); issued := issued p; scans := scans p ++ new |}
(** [token.stop_requested()]. *)
| step_stop p i w : workers p !! i = Some w → w_stage w = Looping →
    pool_step p {| shared := shared p; workers := <[i := with_stage Stopped w]> (workers p);
                   issued := issued p; scans := scans p |}
(** The back end of the thread cannot be built: it fails before its first scan. *)
| step_broken p i w e : workers p !! i = Some w → w_stage w = Looping → Forall (λ x, e_worker x ≠ i) (scans p) →
    pool_step p {| shared := set_failure (what e) (shared p); workers := <[i := with_stage Stopped w]> (workers p);
                   issued := issued p; scans := scans p |}
(** The coordinator publishes a new job... *)
| step_work p j : job_ok j → newer j (issued p) →
    pool_step p {| shared := set_work (Some j) (shared p); workers := workers p;
                   issued := issued p ++ [j]; scans := scans p |}
(** ... and takes the queue. *)
| step_take p :
    pool_step p {| shared := set_found [] (shared p); workers := workers p; issued := issued p; scans := scans p |}.

(** At most 64 GPUs and 128 CPU threads make fewer than 256 workers. *)
Definition fresh_worker (w : Worker) : Prop :=
  w_generation w = 0 ∧ w_cursor w = 0 ∧ w_stage w = Looping ∧ 0 < w_batch w < 2 ^ 32.
Definition pool_start (p : Pool) : Prop :=
  shared p = no_work ∧ issued p = [] ∧ scans p = [] ∧
  (length (workers p) ≤ 256)%nat ∧ Forall fresh_worker (workers p).
End threads.

(** ** The invariant of the pool *)

Definition e_generation (e : Entry) : Z := j_generation (e_base e).
Definition e_end (e : Entry) : Z := e_cursor e + t_count (e_task e).

(** How a scan's range follows from its cursor. *)
Definition entry_ok (jobs : list Job) (e : Entry) : Prop :=
  e_base e ∈ jobs ∧ is_u64 (e_cursor e) ∧
  if j_sv2 (e_base e) then
    ∃ b p, 0 < b < 2 ^ 32 ∧ partition (j_time32 (e_base e)) 0 (e_cursor e) b = Ok p ∧
      e_task e = {| t_job := roll_time (e_base e) (p_ntime p); t_start := p_nonce p; t_count := p_count p |}
  else
    (e_worker e < 256)%nat ∧ t_job (e_task e) = e_base e ∧
    t_start (e_task e) = Z.of_nat (e_worker e) * 2 ^ 56 + e_cursor e ∧
    e_end e ≤ 2 ^ 56 ∧ 0 < t_count (e_task e) < 2 ^ 32.

(** A later scan of the same job starts after an earlier one on the same cursor. *)
Definition follows (e e' : Entry) : Prop :=
  e_base e = e_base e' → j_sv2 (e_base e) = true ∨ e_worker e = e_worker e' → e_end e ≤ e_cursor e'.

Definition known (g : Z) (jobs : list Job) : Prop := g = 0 ∨ ∃ j, j ∈ jobs ∧ j_generation j = g.

Definition shared_ok (jobs : list Job) (l : list Entry) (s : Shared) : Prop :=
  is_u64 (shared_cursor s) ∧ known (shared_generation s) jobs ∧ last jobs = work s ∧
  ∀ e, e ∈ l → j_sv2 (e_base e) = true →
    e_generation e ≤ shared_generation s ∧ (e_generation e = shared_generation s → e_end e ≤ shared_cursor s).

Definition task_ok (t : Task) : Prop :=
  length (header (j_work (t_job t))) = 80%nat ∧ length (target (j_work (t_job t))) = 32%nat ∧
  is_u64 (t_start t) ∧ is_u32 (t_count t).

(** A share found by one of the scans: in its range, and meeting its target. *)
Definition genuine (l : list Entry) (j : Job) (n : Z) : Prop :=
  ∃ e, e ∈ l ∧ t_job (e_task e) = j ∧ task_ok (e_task e) ∧
    t_start (e_task e) ≤ n < t_start (e_task e) + t_count (e_task e) ∧
    meets (nonce_hash (header (j_work j)) n) (target (j_work j)) = true.

Definition pending_count (w : Worker) : Z :=
  match w_stage w with Scanning t => t_count t | _ => 0 end.

Definition stage_ok (l : list Entry) (w : Worker) : Prop :=
  match w_stage w with
  | Scanning t => task_ok t ∧ ∃ e, e ∈ l ∧ e_task e = t
  | Publishing j ns => Forall (genuine l j) ns
  | _ => True
  end.

Definition worker_ok (jobs : list Job) (l : list Entry) (i : nat) (w : Worker) : Prop :=
  0 < w_batch w < 2 ^ 32 ∧ is_u64 (w_cursor w) ∧ known (w_generation w) jobs ∧ stage_ok l w ∧
  (w_stage w ≠ Stopped → ∀ e, e ∈ l → e_worker e = i → j_sv2 (e_base e) = false →
    e_generation e ≤ w_generation w ∧
    (e_generation e = w_generation w →
      e_end e ≤ w_cursor w + pending_count w ∧ w_cursor w + pending_count w ≤ 2 ^ 56)).

Definition jobs_ok (jobs : list Job) : Prop :=
  Forall (λ j, job_ok j ∧ 0 < j_generation j) jobs ∧
  StronglySorted (λ j j', j_generation j < j_generation j') jobs.

Definition pool_inv (p : Pool) : Prop :=
  jobs_ok (issued p) ∧ shared_ok (issued p) (scans p) (shared p) ∧
  Forall (entry_ok (issued p)) (scans p) ∧ StronglySorted follows (scans p) ∧
  (length (workers p) ≤ 256)%nat ∧
  (∀ i w, workers p !! i = Some w → worker_ok (issued p) (scans p) i w) ∧
  Forall (λ f, genuine (scans p) (f_job f) (f_nonce f)) (found (shared p)).

Lemma pool_start_inv p : pool_start p → pool_inv p.
Proof.
  intros (Hs & Hi & Hl & Hw & Hf). unfold pool_inv, shared_ok. rewrite Hs, Hi, Hl. split_and!; cbn.
  - split; constructor.
  - unfold is_u64. lia.
  - by left.
  - done.
  - intros e He. by apply elem_of_nil in He.
  - constructor.
  - constructor.
  - exact Hw.
  - intros i w Hi'. rewrite Forall_lookup in Hf. destruct (Hf i w Hi') as (Hg & Hc & Hst & Hb).
    unfold worker_ok, stage_ok. rewrite Hg, Hc, Hst. split_and!; try (unfold is_u64; lia); try done; [by left|].
    intros _ e He. by apply elem_of_nil in He.
  - constructor.
Qed.

(** ** Monotonicity *)

Lemma known_mono g jobs jobs' : known g jobs → known g (jobs ++ jobs').
Proof. intros [?|(j & Hj & ?)]; [by left|right]. exists j. split; [set_solver|done]. Qed.

Lemma genuine_mono l l' j n : genuine l j n → genuine (l ++ l') j n.
Proof. intros (e & He & H). exists e. split; [set_solver|done]. Qed.

Lemma stage_ok_mono l l' w : stage_ok l w → stage_ok (l ++ l') w.
Proof.
  unfold stage_ok. destruct (w_stage w); try done.
  - intros (Ht & e & He & Hte). split; [done|]. exists e. split; [set_solver|done].
  - intros H. eapply Forall_impl; [exact H|]. intros n. apply genuine_mono.
Qed.

Lemma worker_ok_mono jobs jobs' l l' i w : Forall (λ e, e_worker e ≠ i) l' →
  worker_ok jobs l i w → worker_ok (jobs ++ jobs') (l ++ l') i w.
Proof.
  intros Hl' (Hb & Hc & Hk & Hs & He). split_and!; try lia; try done.
  - by apply known_mono.
  - by apply stage_ok_mono.
  - intros Hns e [Hin|Hin]%elem_of_app; [by apply He|]. rewrite Forall_forall in Hl'. by specialize (Hl' e Hin).
Qed.

Lemma entry_ok_mono jobs jobs' e : entry_ok jobs e → entry_ok (jobs ++ jobs') e.
Proof. intros (Hb & H). split; [set_solver|exact H]. Qed.

(** A known generation is at most that of the current job. *)
Lemma known_current g jobs j : jobs_ok jobs → last jobs = Some j → known g jobs → g ≤ j_generation j.
Proof.
  intros [Hok Hs] Hl Hk. apply last_Some in Hl as [l ->].
  rewrite Forall_app, Forall_singleton in Hok. destruct Hok as [_ [_ Hpos]].
  destruct Hk as [->|(j' & [Hj'|Hj']%elem_of_app & <-)]; [lia| |].
  - apply StronglySorted_app in Hs as (Hlt & _). specialize (Hlt j' j Hj' ltac:(set_solver)). lia.
  - apply list_elem_of_singleton in Hj' as ->. lia.
Qed.

(** Equal generations mean the same published job. *)
Lemma same_generation jobs j j' : jobs_ok jobs → j ∈ jobs → j' ∈ jobs →
  j_generation j = j_generation j' → j = j'.
Proof.
  intros [_ Hs]. induction Hs as [|x l Hs IH Hx]; [set_solver|]. rewrite Forall_forall in Hx.
  intros [->|Hj]%elem_of_cons [->|Hj']%elem_of_cons Hg; try done; [|..|by apply IH].
  - specialize (Hx j' Hj'). lia.
  - specialize (Hx j Hj). lia.
Qed.

(** ** Steps keep the invariant *)

Lemma inv_update p i w s w' new : pool_inv p → workers p !! i = Some w →
  shared_ok (issued p) (scans p ++ new) s → (length new ≤ 1)%nat →
  Forall (λ e, entry_ok (issued p) e ∧ e_worker e = i ∧ ∀ e0, e0 ∈ scans p → follows e0 e) new →
  worker_ok (issued p) (scans p ++ new) i w' →
  Forall (λ f, genuine (scans p ++ new) (f_job f) (f_nonce f)) (found s) →
  pool_inv {| shared := s; workers := <[i := w']> (workers p); issued := issued p; scans := scans p ++ new |}.
Proof.
  intros (Hj & Hs & He & Hf & Hl & Hw & Hfound) Hi Hs' Hlen Hnew Hw' Hfound'.
  split_and!; cbn [shared workers issued scans]; [exact Hj|exact Hs'| | | | |exact Hfound'].
  - apply Forall_app. split; [exact He|]. eapply Forall_impl; [exact Hnew|]. by intros e (? & _).
  - apply StronglySorted_app. split_and!; [|exact Hf|].
    + rewrite Forall_forall in Hnew. intros e0 e He0 Hin. by apply (Hnew e Hin).
    + destruct new as [|e [|]]; [constructor|repeat constructor|cbn in Hlen; lia].
  - by rewrite length_insert.
  - intros k v Hk. destruct (decide (i = k)) as [<-|].
    + rewrite list_lookup_insert_eq in Hk by (by eapply lookup_lt_Some). by injection Hk as <-.
    + rewrite list_lookup_insert_ne in Hk by done. rewrite <- (app_nil_r (issued p)).
      apply worker_ok_mono; [|by apply Hw]. eapply Forall_impl; [exact Hnew|]. intros e (_ & -> & _). done.
Qed.

(** A step that starts no scan and changes the worker's stage only. *)
Lemma inv_stage p i w s st : pool_inv p → workers p !! i = Some w →
  shared_ok (issued p) (scans p) s → stage_ok (scans p) (with_stage st w) →
  (st ≠ Stopped → w_stage w ≠ Stopped ∧ pending_count (with_stage st w) = pending_count w) →
  Forall (λ f, genuine (scans p) (f_job f) (f_nonce f)) (found s) →
  pool_inv {| shared := s; workers := <[i := with_stage st w]> (workers p); issued := issued p; scans := scans p ++ [] |}.
Proof.
  intros Hp Hi Hs Hst Hpc Hf. pose proof Hp as (_ & _ & _ & _ & _ & Hw & _).
  destruct (Hw i w Hi) as (Hb & Hc & Hk & _ & He).
  apply (inv_update p i w); rewrite ?app_nil_r; [done|done|exact Hs|cbn; lia|constructor| |exact Hf].
  split_and!; [apply Hb|apply Hb|exact Hc|exact Hk|exact Hst|].
  intros Hns e Hin Hei He2. destruct (Hpc Hns) as [Hnw Heq]. rewrite Heq. by apply He.
Qed.

Lemma reserve_spec batch s :
  let '(s', r) := reserve batch s in
  match work s with
  | None => s' = s ∧ r = Ok None
  | Some j =>
      if j_sv2 j then
        let c := if shared_generation s =? j_generation j then shared_cursor s else 0 in
        match partition (j_time32 j) 0 c batch with
        | Ok p => s' = set_shared (j_generation j) (u64 (c + p_count p)) s ∧ r = Ok (Some (j, c))
        | Throw e => s' = set_shared (j_generation j) c s ∧ r = Throw e
        end
      else s' = s ∧ r = Ok (Some (j, 0))
  end.
Proof.
  unfold reserve, mbind, stM_bind, st_get, st_modify, st_lift, mret, stM_ret.
  destruct (work s) as [j|]; [|done]. destruct (j_sv2 j); [|done]. cbn zeta.
  destruct (Z.eqb_spec (shared_generation s) (j_generation j)) as [E|E].
  - destruct (partition _ _ _ _); split; try done; rewrite <- E; by destruct s.
  - cbn [shared_cursor set_shared]. by destruct (partition _ _ _ _).
Qed.

Lemma partition_bounds base c b p : is_u64 c → 0 < b < 2 ^ 32 → partition base 0 c b = Ok p →
  c < 2 ^ 56 ∧ 0 < p_count p < 2 ^ 32 ∧ is_u32 (p_nonce p) ∧ p_nonce p + p_count p ≤ 2 ^ 32 ∧ is_u32 (p_ntime p).
Proof.
  unfold is_u64, is_u32. intros Hc Hb Hp. pose proof (partition_ok _ _ _ _ _ Hp).
  rewrite partition_value in Hp by lia. injection Hp as <-. cbn. lia.
Qed.

Section looping.
Context (p : Pool) (i : nat) (w : Worker) (j : Job).
Hypothesis Hinv : pool_inv p.
Hypothesis Hi : workers p !! i = Some w.
Hypothesis Hstage : w_stage w = Looping.
Hypothesis Hwork : work (shared p) = Some j.

Lemma current_job : j ∈ issued p ∧ job_ok j ∧
  shared_generation (shared p) ≤ j_generation j ∧ w_generation w ≤ j_generation j ∧ (i < 256)%nat.
Proof.
  destruct Hinv as (Hj & (_ & Hk & Hl & _) & _ & _ & Hlen & Hw & _). rewrite Hwork in Hl.
  destruct (Hw i w Hi) as (_ & _ & Hkw & _). split_and!.
  - apply last_Some in Hl as [l ->]. set_solver.
  - destruct Hj as [Hok _]. apply last_Some in Hl as [l Hl]. rewrite Hl, Forall_app, Forall_singleton in Hok. apply Hok.
  - by eapply known_current.
  - by eapply known_current.
  - apply lookup_lt_Some in Hi. lia.
Qed.

(** Reserving keeps the shared variables in order, with or without a new scan. *)
Lemma shared_reserved c' new : is_u64 c' →
  let c := if shared_generation (shared p) =? j_generation j then shared_cursor (shared p) else 0 in
  c ≤ c' → (∀ e, e ∈ new → j_sv2 (e_base e) = true → e_base e = j ∧ e_end e ≤ c') →
  shared_ok (issued p) (scans p ++ new) (set_shared (j_generation j) c' (shared p)).
Proof.
  intros Hc' c Hcc Hnew. destruct current_job as (Hin & Hok & Hg & _).
  destruct Hinv as (Hj & (Hcu & Hk & Hl & Hs) & _). split_and!; cbn [set_shared shared_cursor shared_generation work].
  - exact Hc'.
  - right. by exists j.
  - exact Hl.
  - intros e [He|He]%elem_of_app He2.
    + destruct (Hs e He He2) as [H1 H2]. split; [lia|]. intros Heq.
      assert (shared_generation (shared p) = j_generation j) as E by lia.
      unfold c in Hcc. rewrite (proj2 (Z.eqb_eq _ _) E) in Hcc. specialize (H2 ltac:(lia)). lia.
    + destruct (Hnew e He He2) as [Hb Hend]. unfold e_generation. rewrite Hb. split; [lia|done].
Qed.

Lemma v2_scan b c pt : j_sv2 j = true → 0 < b < 2 ^ 32 → is_u64 c →
  c = (if shared_generation (shared p) =? j_generation j then shared_cursor (shared p) else 0) →
  partition (j_time32 j) 0 c b = Ok pt →
  let e := {| e_worker := i; e_base := j; e_cursor := c;
              e_task := {| t_job := roll_time j (p_ntime pt); t_start := p_nonce pt; t_count := p_count pt |} |} in
  entry_ok (issued p) e ∧ e_worker e = i ∧ (∀ e0, e0 ∈ scans p → follows e0 e) ∧ task_ok (e_task e).
Proof.
  intros Hv2 Hb Hc Hcd Hp e. destruct current_job as (Hin & (Hh & Ht & _ & _) & Hg & _).
  destruct (partition_bounds _ _ _ _ Hc Hb Hp) as (Hc56 & Hcnt & Hn & Hne & Htm).
  destruct Hinv as (Hj & (Hcu & Hk & Hl & Hs) & _). split_and!; cbn [e e_base e_cursor e_task e_worker].
  - split; [exact Hin|]. split; [exact Hc|]. unfold e. cbn. rewrite Hv2. by exists b, pt.
  - done.
  - intros e0 He0 Hbase _. cbn in Hbase. assert (j_sv2 (e_base e0) = true) as Hv by congruence.
    destruct (Hs e0 He0 Hv) as [H1 H2]. unfold e_generation in *. rewrite Hbase in H1, H2.
    assert (shared_generation (shared p) = j_generation j) as E by lia.
    rewrite (proj2 (Z.eqb_eq _ _) E) in Hcd. cbn. subst c. apply H2. done.
  - split; [exact (eq_trans (store_le_length _ _ _) Hh)|]. split; [exact Ht|].
    unfold is_u32, is_u64 in *. cbn. lia.
Qed.

Lemma v1_scan g c b : j_sv2 j = false → 0 < b < 2 ^ 32 →
  (g, c) = (if j_generation j =? w_generation w then (w_generation w, w_cursor w) else (j_generation j, 0)) →
  c ≤ 2 ^ 56 - b →
  let e := {| e_worker := i; e_base := j; e_cursor := c;
              e_task := {| t_job := j; t_start := Z.lor (u64 (Z.shiftl (Z.of_nat i) 56)) c; t_count := b |} |} in
  g = j_generation j ∧ is_u64 c ∧
  entry_ok (issued p) e ∧ e_worker e = i ∧ (∀ e0, e0 ∈ scans p → follows e0 e) ∧ task_ok (e_task e) ∧
  ∀ e0, e0 ∈ scans p → e_worker e0 = i → j_sv2 (e_base e0) = false →
    e_generation e0 ≤ g ∧ (e_generation e0 = g → e_end e0 ≤ c).
Proof.
  intros Hv1 Hb Hgc Hcb e. destruct current_job as (Hin & (Hh & Ht & _ & _) & Hg & Hgw & Hi256).
  destruct Hinv as (Hj & _ & _ & _ & _ & Hw & _). destruct (Hw i w Hi) as (_ & Hcw & _ & _ & He).
  assert (g = j_generation j ∧ is_u64 c) as [-> Hc].
  { destruct (Z.eqb_spec (j_generation j) (w_generation w)); injection Hgc as -> ->; split; (done || unfold is_u64; lia). }
  assert (∀ e0, e0 ∈ scans p → e_worker e0 = i → j_sv2 (e_base e0) = false →
    e_generation e0 ≤ j_generation j ∧ (e_generation e0 = j_generation j → e_end e0 ≤ c)) as Hold.
  { intros e0 He0 Hw0 Hv0. destruct (He ltac:(by rewrite Hstage) e0 He0 Hw0 Hv0) as [H1 H2]. split; [lia|]. intros Heq.
    assert (j_generation j = w_generation w) as E by lia.
    rewrite (proj2 (Z.eqb_eq _ _) E) in Hgc. injection Hgc as _ ->.
    unfold pending_count in H2. rewrite Hstage in H2. specialize (H2 ltac:(lia)). lia. }
  assert (Z.lor (u64 (Z.shiftl (Z.of_nat i) 56)) c = Z.of_nat i * 2 ^ 56 + c) as Hstart.
  { unfold is_u64 in Hc. rewrite Z.shiftl_mul_pow2, u64_small by (unfold is_u64; lia). apply lor_mul_pow2; lia. }
  split_and!; cbn [e e_base e_cursor e_task e_worker t_start t_count t_job]; try done.
  - split; [exact Hin|]. split; [exact Hc|]. unfold e_end, e. cbn. rewrite Hv1, Hstart.
    split_and!; (done || lia).
  - intros e0 He0 Hbase [Hv|Hwk]; cbn in *; [congruence|].
    apply Hold; [done|done|congruence|]. unfold e_generation. by rewrite Hbase.
  - unfold task_ok. cbn. rewrite Hstart. unfold is_u64, is_u32 in *. split_and!; (done || lia).
Qed.
End looping.

Lemma found_ok p : pool_inv p → Forall (λ f, genuine (scans p) (f_job f) (f_nonce f)) (found (shared p)).
Proof. intros (_ & _ & _ & _ & _ & _ & Hf). exact Hf. Qed.

Lemma shared_ok_same jobs l s s' : shared_ok jobs l s → work s' = work s → shared_cursor s' = shared_cursor s →
  shared_generation s' = shared_generation s → shared_ok jobs l s'.
Proof. unfold shared_ok. by intros H -> -> ->. Qed.

Lemma fail_inv p i w s e : pool_inv p → workers p !! i = Some w →
  shared_ok (issued p) (scans p) s → found s = found (shared p) →
  let '(s', w', new) := fail e s w in
  pool_inv {| shared := s'; workers := <[i := w']> (workers p); issued := issued p; scans := scans p ++ new |}.
Proof.
  intros Hp Hi Hs Hfo. unfold fail. apply inv_stage; try done.
  cbn. rewrite Hfo. by apply found_ok.
Qed.

Section steps.
Context (backend : nat → Backend).
Hypothesis laws : ∀ i, @BackendLaws (backend i).

Lemma assign_cases index batch j c g cur : 0 < batch < 2 ^ 32 →
  (j_sv2 j = true ∧ (∃ p, partition (j_time32 j) 0 c batch = Ok p ∧ ∃ g' cur',
     assign index batch j c g cur = Ok (g', cur', {| t_job := roll_time j (p_ntime p); t_start := p_nonce p; t_count := p_count p |}) ∧
     (g', cur') = (if j_generation j =? g then (g, cur) else (j_generation j, 0)))) ∨
  (j_sv2 j = false ∧ ∃ g' cur', cur' ≤ 2 ^ 56 - batch ∧
     assign index batch j c g cur =
       Ok (g', cur', {| t_job := j; t_start := Z.lor (u64 (Z.shiftl index 56)) cur'; t_count := batch |}) ∧
     (g', cur') = (if j_generation j =? g then (g, cur) else (j_generation j, 0))) ∨
  ∃ e, assign index batch j c g cur = Throw e.
Proof.
  intros Hb. unfold assign.
  destruct (if j_generation j =? g then _ else _) as [g' cur']. destruct (j_sv2 j).
  - destruct (partition _ _ _ _) as [p|e]; [left|right; right; by exists e].
    split; [done|]. exists p. split; [done|]. by exists g', cur'.
  - right. rewrite (u64_small (2 ^ 56 - batch)) by (unfold is_u64; lia). destruct (Z.ltb_spec (2 ^ 56 - batch) cur'); [right; by eexists|].
    left. split; [done|]. by exists g', cur'.
Qed.

Section looping.
Context (p : Pool) (i : nat) (w : Worker) (j : Job).
Hypothesis Hinv : pool_inv p.
Hypothesis Hi : workers p !! i = Some w.
Hypothesis Hstage : w_stage w = Looping.
Hypothesis Hwork : work (shared p) = Some j.

Let c := if shared_generation (shared p) =? j_generation j then shared_cursor (shared p) else 0.

Lemma reserved_u64 : is_u64 c.
Proof.
  destruct Hinv as (_ & [Hs _] & _). unfold c. destruct (_ =? _); [exact Hs|unfold is_u64; lia].
Qed.

Lemma worker_facts : 0 < w_batch w < 2 ^ 32 ∧ is_u64 (w_cursor w) ∧
  ∀ e, e ∈ scans p → e_worker e = i → j_sv2 (e_base e) = false → e_generation e ≤ w_generation w.
Proof.
  destruct Hinv as (_ & _ & _ & _ & _ & Hw & _). destruct (Hw i w Hi) as (Hb & Hc & _ & _ & He).
  split_and!; [apply Hb|apply Hb|exact Hc|]. intros e H1 H2 H3. apply He; (done || by rewrite Hstage).
Qed.

(** No scan is started: the shared cursor may have been reset or advanced. *)
Lemma reserve_fail_inv s' e : (s' = shared p ∨ ∃ c', is_u64 c' ∧ c ≤ c' ∧ s' = set_shared (j_generation j) c' (shared p)) →
  let '(s, w', new) := fail e s' w in
  pool_inv {| shared := s; workers := <[i := w']> (workers p); issued := issued p; scans := scans p ++ new |}.
Proof.
  intros [->|(c' & Hc' & Hcc & ->)]; apply fail_inv; try done; [by destruct Hinv as (_ & Hs & _)|].
  pose proof (shared_reserved p i w j Hinv Hi Hstage Hwork c' [] Hc' Hcc) as H. rewrite app_nil_r in H. apply H.
  intros e' He. by apply elem_of_nil in He.
Qed.

Lemma v2_start_inv pt g cur : j_sv2 j = true → partition (j_time32 j) 0 c (w_batch w) = Ok pt →
  (g, cur) = (if j_generation j =? w_generation w then (w_generation w, w_cursor w) else (j_generation j, 0)) →
  let t := {| t_job := roll_time j (p_ntime pt); t_start := p_nonce pt; t_count := p_count pt |} in
  pool_inv {| shared := set_shared (j_generation j) (u64 (c + p_count pt)) (shared p);
    workers := <[i := with_task g cur t w]> (workers p); issued := issued p;
    scans := scans p ++ [{| e_worker := i; e_base := j; e_cursor := c; e_task := t |}] |}.
Proof.
  intros Hv Hpt Hgc t. destruct worker_facts as (Hb & Hcw & Hold).
  destruct (current_job p i w j Hinv Hi Hstage Hwork) as (Hin & _ & _ & Hgw & _).
  pose proof reserved_u64 as Hcu. destruct (partition_bounds _ _ _ _ Hcu Hb Hpt) as (Hc56 & Hcnt & _).
  assert (u64 (c + p_count pt) = c + p_count pt) as Hu by (apply u64_small; unfold is_u64 in *; lia).
  destruct (v2_scan p i w j Hinv Hi Hstage Hwork (w_batch w) c pt Hv Hb Hcu eq_refl Hpt) as (Hen & _ & Hfol & Htask).
  assert (g = j_generation j ∧ is_u64 cur) as [-> Hcur].
  { destruct (Z.eqb_spec (j_generation j) (w_generation w)); injection Hgc as -> ->; split; (done || unfold is_u64; lia). }
  apply (inv_update p i w); [done|done| |cbn; lia| | |].
  - apply (shared_reserved p i w j Hinv Hi Hstage Hwork); [apply u64_range|rewrite Hu; fold c; lia|].
    intros e0 ->%list_elem_of_singleton _. split; [done|]. unfold e_end. cbn. rewrite Hu. lia.
  - apply Forall_singleton. by split_and!.
  - split; [exact Hb|]. split; [exact Hcur|]. split; [right; by exists j|]. split.
    + split; [exact Htask|]. eexists. split; [apply elem_of_app; right; by left|done].
    + intros _ e0 [He0|He0]%elem_of_app Hw0 Hv0.
      2:{ apply list_elem_of_singleton in He0 as ->. cbn in Hv0. congruence. }
      specialize (Hold e0 He0 Hw0 Hv0). cbn. split; [lia|]. intros Hg.
      destruct Hinv as (Hj & _ & Hent & _). rewrite Forall_forall in Hent.
      pose proof (same_generation _ _ _ Hj (proj1 (Hent e0 He0)) Hin Hg) as E. congruence.
  - eapply Forall_impl; [exact (found_ok p Hinv)|]. intros f. apply genuine_mono.
Qed.

Lemma v1_start_inv g cur : j_sv2 j = false → cur ≤ 2 ^ 56 - w_batch w →
  (g, cur) = (if j_generation j =? w_generation w then (w_generation w, w_cursor w) else (j_generation j, 0)) →
  let t := {| t_job := j; t_start := Z.lor (u64 (Z.shiftl (Z.of_nat i) 56)) cur; t_count := w_batch w |} in
  pool_inv {| shared := shared p; workers := <[i := with_task g cur t w]> (workers p); issued := issued p;
    scans := scans p ++ [{| e_worker := i; e_base := j; e_cursor := cur; e_task := t |}] |}.
Proof.
  intros Hv Hcb Hgc t. destruct worker_facts as (Hb & _ & _).
  destruct (current_job p i w j Hinv Hi Hstage Hwork) as (Hin & _).
  destruct (v1_scan p i w j Hinv Hi Hstage Hwork g cur (w_batch w) Hv Hb Hgc Hcb)
    as (-> & Hcu & Hen & _ & Hfol & Htask & Hold).
  apply (inv_update p i w); [done|done| |cbn; lia| | |].
  - destruct Hinv as (_ & (H1 & H2 & H3 & H4) & _). split_and!; [exact H1|exact H2|exact H3|].
    intros e0 [He0|He0]%elem_of_app Hv0; [by apply H4|]. apply list_elem_of_singleton in He0 as ->. cbn in Hv0. congruence.
  - apply Forall_singleton. by split_and!.
  - split; [exact Hb|]. split; [exact Hcu|]. split; [right; by exists j|]. split.
    + split; [exact Htask|]. eexists. split; [apply elem_of_app; right; by left|done].
    + intros _ e0 [He0|He0]%elem_of_app Hw0 Hv0.
      * destruct (Hold e0 He0 Hw0 Hv0) as [H1 H2]. split; [exact H1|]. intros Hg. specialize (H2 Hg).
        unfold pending_count. cbn. lia.
      * apply list_elem_of_singleton in He0 as ->. unfold e_generation, e_end, pending_count. cbn. lia.
  - eapply Forall_impl; [exact (found_ok p Hinv)|]. intros f. apply genuine_mono.
Qed.

Lemma looping_work_inv :
  let '(s, w', new) := worker_step backend i (shared p) w in
  pool_inv {| shared := s; workers := <[i := w']> (workers p); issued := issued p; scans := scans p ++ new |}.
Proof.
  destruct worker_facts as (Hb & _ & _). unfold worker_step. rewrite Hstage.
  pose proof (reserve_spec (w_batch w) (shared p)) as Hr. rewrite Hwork in Hr.
  destruct (reserve (w_batch w) (shared p)) as [s r]. cbn zeta in Hr. fold c in Hr.
  pose proof reserved_u64 as Hcu. destruct (j_sv2 j) eqn:Hv.
  - destruct (partition (j_time32 j) 0 c (w_batch w)) as [pt|e] eqn:Hpt; destruct Hr as [-> ->].
    2:{ apply reserve_fail_inv. right. exists c. split; [exact Hcu|]. split; [lia|done]. }
    destruct (partition_bounds _ _ _ _ Hcu Hb Hpt) as (Hc56 & Hcnt & _).
    destruct (assign_cases (Z.of_nat i) (w_batch w) j c (w_generation w) (w_cursor w) Hb)
      as [(_ & pt' & Hpt' & g & cur & -> & Hgc)|[(Hv' & _)|(e & ->)]]; [|congruence|].
    + rewrite Hpt in Hpt'. injection Hpt' as <-. rewrite Hv. by apply v2_start_inv.
    + apply reserve_fail_inv. right. eexists. split; [apply u64_range|]. split; [|done].
      rewrite u64_small by (unfold is_u64 in *; lia). lia.
  - destruct Hr as [-> ->].
    destruct (assign_cases (Z.of_nat i) (w_batch w) j 0 (w_generation w) (w_cursor w) Hb)
      as [(Hv' & _)|[(_ & g & cur & Hcb & -> & Hgc)|(e & ->)]]; [congruence| |].
    + rewrite Hv. by apply v1_start_inv.
    + apply reserve_fail_inv. by left.
Qed.
End looping.

Lemma looping_inv p i w : pool_inv p → workers p !! i = Some w → w_stage w = Looping →
  let '(s, w', new) := worker_step backend i (shared p) w in
  pool_inv {| shared := s; workers := <[i := w']> (workers p); issued := issued p; scans := scans p ++ new |}.
Proof.
  intros Hp Hi Hst. destruct (work (shared p)) as [j|] eqn:Hwork; [by eapply looping_work_inv|].
  unfold worker_step. rewrite Hst. pose proof (reserve_spec (w_batch w) (shared p)) as Hr. rewrite Hwork in Hr.
  destruct (reserve (w_batch w) (shared p)) as [s r]. destruct Hr as [-> ->].
  assert (w = with_stage Looping w) as Hsame by (destruct w; cbn in *; by subst). rewrite Hsame.
  apply inv_stage; try done; rewrite <- ?Hsame; [by destruct Hp as (_ & Hs & _)|by rewrite Hst|by apply found_ok].
Qed.

Lemma scanning_inv p i w t : pool_inv p → workers p !! i = Some w → w_stage w = Scanning t →
  let '(s, w', new) := worker_step backend i (shared p) w in
  pool_inv {| shared := s; workers := <[i := w']> (workers p); issued := issued p; scans := scans p ++ new |}.
Proof.
  intros Hp Hi Hst. pose proof Hp as (_ & Hs & _ & _ & _ & Hw & _).
  destruct (Hw i w Hi) as (Hb & Hc & Hk & Hstage & He). unfold stage_ok in Hstage. rewrite Hst in Hstage.
  destruct Hstage as (Htask & e & Hin & Het). pose proof Htask as (Hh & Ht & Hstart & Hcnt).
  unfold worker_step. rewrite Hst. destruct (scan (j_work (t_job t)) (t_start t) (t_count t)) as [r|ex] eqn:Hscan.
  2:{ by apply fail_inv. }
  destruct (scan_exact _ _ _ Hh Ht Hstart Hcnt r Hscan) as (_ & Hhash & Hns).
  apply (inv_update p i w); rewrite ?app_nil_r; [done|done|exact Hs|cbn; lia|constructor| |by apply found_ok].
  split; [exact Hb|]. split; [apply u64_range|]. split; [exact Hk|]. split.
  - unfold stage_ok. cbn [with_scan w_stage]. apply Forall_forall. intros n Hn. rewrite Hns in Hn.
    apply list_elem_of_filter in Hn as [Hm Hn%elem_of_seqZ]. exists e. rewrite Het. split_and!; (done || lia).
  - intros _ e0 He0 Hw0 Hv0. destruct (He ltac:(by rewrite Hst) e0 He0 Hw0 Hv0) as [H1 H2].
    split; [exact H1|]. intros Hg. specialize (H2 Hg). unfold pending_count in *. rewrite Hst in H2. cbn.
    rewrite Hhash. unfold is_u64, is_u32 in *. rewrite u64_small by (unfold is_u64; lia). lia.
Qed.

Lemma publishing_inv p i w j ns : pool_inv p → workers p !! i = Some w → w_stage w = Publishing j ns →
  let '(s, w', new) := worker_step backend i (shared p) w in
  pool_inv {| shared := s; workers := <[i := w']> (workers p); issued := issued p; scans := scans p ++ new |}.
Proof.
  intros Hp Hi Hst. pose proof Hp as (_ & Hs & _ & _ & _ & Hw & Hf).
  destruct (Hw i w Hi) as (_ & _ & _ & Hstage & _). unfold stage_ok in Hstage. rewrite Hst in Hstage.
  unfold worker_step. rewrite Hst. unfold publish, mbind, stM_bind, st_get, st_require, st_modify, throw_if.
  destruct (negb (negb _)); [by apply fail_inv|].
  apply inv_stage; try done; [|].
  - intros _. rewrite Hst. unfold pending_count. by rewrite Hst.
  - cbn. apply Forall_app. split; [exact Hf|]. apply Forall_fmap. eapply Forall_impl; [exact Hstage|]. done.
Qed.

Lemma pool_step_inv p p' : pool_inv p → pool_step backend p p' → pool_inv p'.
Proof.
  intros Hp Hs. destruct Hs as [p i w s w' new Hi Hstep|p i w Hi Hst|p i w e Hi Hst _|p j Hj Hnew|p].
  - destruct (w_stage w) as [|t|j ns|] eqn:Hst.
    + pose proof (looping_inv p i w Hp Hi Hst) as H. by rewrite Hstep in H.
    + pose proof (scanning_inv p i w t Hp Hi Hst) as H. by rewrite Hstep in H.
    + pose proof (publishing_inv p i w j ns Hp Hi Hst) as H. by rewrite Hstep in H.
    + unfold worker_step in Hstep. rewrite Hst in Hstep. injection Hstep as <- <- <-.
      rewrite list_insert_id, app_nil_r by done. by destruct p.
  - rewrite <- (app_nil_r (scans p)). apply inv_stage; try done; [by destruct Hp as (_ & Hs & _)|by apply found_ok].
  - rewrite <- (app_nil_r (scans p)). apply inv_stage; try done; [by destruct Hp as (_ & Hs & _)|by apply found_ok].
  - destruct Hp as ([Hok Hso] & (H1 & H2 & H3 & H4) & He & Hf & Hl & Hw & Hfo). destruct Hnew as [Hpos Hnew].
    split_and!; cbn [shared workers issued scans]; [| | |exact Hf|exact Hl| |exact Hfo].
    + split; [apply Forall_app; split; [exact Hok|by apply Forall_singleton]|].
      apply StronglySorted_app. split_and!; [|exact Hso|repeat constructor].
      intros x y Hx ->%list_elem_of_singleton. rewrite Forall_forall in Hnew. by apply Hnew.
    + split_and!; [exact H1|by apply known_mono|by rewrite last_snoc|exact H4].
    + eapply Forall_impl; [exact He|]. intros e. apply entry_ok_mono.
    + intros i w Hi. rewrite <- (app_nil_r (scans p)). apply worker_ok_mono; [constructor|by apply Hw].
  - destruct Hp as (Hj & Hs & He & Hf & Hl & Hw & Hfo). by split_and!.
Qed.

Lemma pool_reachable_inv p0 p : pool_start p0 → rtc (pool_step backend) p0 p → pool_inv p.
Proof.
  intros H0 Hr. apply pool_start_inv in H0. induction Hr as [|p1 p2 p3 Hs _ IH]; [done|].
  apply IH. by eapply pool_step_inv.
Qed.
End steps.

(** ** No work is done twice *)

Definition in_range (e : Entry) (n : Z) : Prop :=
  t_start (e_task e) ≤ n < t_start (e_task e) + t_count (e_task e).

Lemma ordered_disjoint jobs e e' n : entry_ok jobs e → entry_ok jobs e' → e_base e = e_base e' → follows e e' →
  in_range e n → in_range e' n → j_time32 (t_job (e_task e)) ≠ j_time32 (t_job (e_task e')).
Proof.
  intros (_ & Hc & He) (_ & Hc' & He') Hb Hf Hn Hn' Ht. rewrite <- Hb in He'. unfold follows in Hf. specialize (Hf Hb).
  destruct (j_sv2 (e_base e)) eqn:Hv.
  - specialize (Hf (or_introl eq_refl)). unfold e_end, in_range in *.
    destruct He as (b & p & Hbb & Hp & Het). destruct He' as (b' & p' & Hbb' & Hp' & Het').
    rewrite Het in *. rewrite Het' in *. cbn in *. unfold is_u64 in *.
    pose proof (partition_ok _ _ _ _ _ Hp). pose proof (partition_ok _ _ _ _ _ Hp').
    rewrite partition_value in Hp, Hp' by lia. injection Hp as <-. injection Hp' as <-. cbn in *.
    assert (e_cursor e / 2 ^ 32 = e_cursor e' / 2 ^ 32) as Hhi by lia.
    lia.
  - destruct He as (Hw & _ & Hs & Hend & Hcnt). destruct He' as (Hw' & _ & Hs' & Hend' & Hcnt').
    unfold in_range, e_end, is_u64 in *. rewrite Hs in Hn. rewrite Hs' in Hn'.
    destruct (decide (e_worker e = e_worker e')) as [E|Hne].
    + specialize (Hf (or_intror E)). rewrite E in Hn. lia.
    + lia.
Qed.

Lemma StronglySorted_lookup {A} (R : relation A) l a b x y : StronglySorted R l →
  l !! a = Some x → l !! b = Some y → (a < b)%nat → R x y.
Proof.
  intros Hs. revert a b. induction Hs as [|z l _ IH Hz]; intros a b Ha Hb Hab; [done|].
  destruct b as [|b]; [lia|]. destruct a as [|a]; [|apply (IH a b); (done || lia)].
  injection Ha as ->. rewrite Forall_lookup in Hz. by apply (Hz b).
Qed.

(** C9: no work is done twice.  However the workers, the coordinator and new jobs
    interleave, two scans started for the same published job never cover the same
    nonce of the same header: Stratum V1 workers own disjoint 56-bit partitions and
    advance through them, and Stratum V2 workers cut disjoint pieces of nonce and
    time from one shared cursor. *)
Theorem scans_disjoint backend p0 p a b e e' n :
  (∀ i, @BackendLaws (backend i)) → pool_start p0 → rtc (pool_step backend) p0 p →
  scans p !! a = Some e → scans p !! b = Some e' → a ≠ b → e_generation e = e_generation e' →
  in_range e n → in_range e' n → j_time32 (t_job (e_task e)) ≠ j_time32 (t_job (e_task e')).
Proof.
  intros Hlaws H0 Hr Ha Hb Hne Hg Hn Hn'.
  destruct (pool_reachable_inv backend Hlaws p0 p H0 Hr) as (Hj & _ & Hent & Hso & _).
  rewrite Forall_lookup in Hent. pose proof (Hent a e Ha) as He. pose proof (Hent b e' Hb) as He'.
  pose proof (same_generation _ _ _ Hj (proj1 He) (proj1 He') Hg) as Hbase.
  destruct (decide (a < b)%nat).
  - eapply (ordered_disjoint (issued p) e e'); try done. eapply (StronglySorted_lookup follows); eassumption.
  - apply not_eq_sym. eapply (ordered_disjoint (issued p) e' e); try done.
    eapply (StronglySorted_lookup follows); [exact Hso|exact Hb|exact Ha|lia].
Qed.


(** Running chosen workers one step each. *)
Definition run_workers (backend : nat → Backend) (ks : list nat) (p : Pool) : Pool :=
  fold_left (λ p i,
    match workers p !! i with
    | Some w => let r := worker_step backend i (shared p) w in
        {| shared := r.1.1; workers := <[i := r.1.2]> (workers p); issued := issued p; scans := scans p ++ r.2 |}
    | None => p
    end) ks p.

Lemma run_workers_reachable backend ks p : rtc (pool_step backend) p (run_workers backend ks p).
Proof.
  revert p. induction ks as [|i ks IH]; intros p; [apply rtc_refl|]. unfold run_workers.
  rewrite fold_left_cons. destruct (workers p !! i) as [w|] eqn:Hi; [|apply IH].
  eapply rtc_l; [|apply IH]. apply (step_worker backend p i w _ _ _ Hi).
  cbn zeta. by rewrite <- !surjective_pairing.
Qed.

(** Two CPU workers on one Stratum V1 or V2 job that any digest solves. *)
Definition sample_worker : Worker :=
  {| w_batch := 1; w_row := 0; w_generation := 0; w_cursor := 0; w_hashes := 0; w_stage := Looping |}.
Definition sample_pool : Pool :=
  {| shared := no_work; workers := [sample_worker; sample_worker]; issued := []; scans := [] |}.
Definition sample_job (v2 : bool) : Job :=
  {| j_work := {| header := replicate 80 x00; target := replicate 32 xff |};
     j_id := EmptyString; j_en2 := EmptyString; j_ntime := EmptyString;
     j_generation := 1; j_epoch := 0; j_network_target := replicate 32 x00; j_sv2 := v2;
     j_channel := 0; j_wire_job := 0; j_version := 0; j_time32 := 1700000000 |}.
Definition cpu_backends : nat → Backend := λ _, cpu_scan.
Definition sample_start (v2 : bool) : Pool :=
  {| shared := set_work (Some (sample_job v2)) no_work; workers := workers sample_pool;
     issued := [sample_job v2]; scans := [] |}.

Lemma sample_reachable v2 ks : rtc (pool_step cpu_backends) sample_pool (run_workers cpu_backends ks (sample_start v2)).
Proof.
  eapply rtc_l; [|apply run_workers_reachable].
  apply (step_work cpu_backends sample_pool (sample_job v2));
    [split_and!; try reflexivity; unfold is_u32, is_u64; cbn; lia|split; [cbn; lia|constructor]].
Qed.

Lemma cpu_backends_laws i : @BackendLaws (cpu_backends i).
Proof. exact cpu_laws. Qed.

Lemma sample_pool_start : pool_start sample_pool.
Proof. split_and!; try done; [cbn; lia|]. repeat constructor; cbn; lia. Qed.

Lemma scans_disjoint_witness :
  let p := run_workers cpu_backends [0; 1]%nat (sample_start true) in
  (t_start ∘ e_task) <$> scans p = [0; 1] ∧
  ∀ e e' n, scans p !! 0%nat = Some e → scans p !! 1%nat = Some e' →
    in_range e n → in_range e' n → j_time32 (t_job (e_task e)) ≠ j_time32 (t_job (e_task e')).
Proof.
  intros p. split; [reflexivity|]. intros e e' n He He' Hn Hn'.
  refine (scans_disjoint cpu_backends sample_pool p 0 1 e e' n cpu_backends_laws
    sample_pool_start (sample_reachable true _) He He' _ _ Hn Hn'); [lia|].
  injection He as <-. injection He' as <-. reflexivity.
Defined.

(** What a genuine share is, in a pool whose invariant holds. *)
Lemma genuine_spec p j n : pool_inv p → genuine (scans p) j n →
  length (header (j_work j)) = 80%nat ∧ is_u64 n ∧
  meets (nonce_hash (header (j_work j)) n) (target (j_work j)) = true ∧
  ∃ j0, j0 ∈ issued p ∧ (j = j0 ∨ j_sv2 j0 = true ∧ ∃ t, j = roll_time j0 t).
Proof.
  intros (_ & _ & Hent & _) (e & He & <- & (Hh & _ & Hs & Hc) & Hn & Hm).
  rewrite Forall_forall in Hent. destruct (Hent e He) as (Hin & Hcu & Hcase).
  split; [exact Hh|]. split; [|split; [exact Hm|]].
  - unfold is_u64, is_u32 in *. destruct (j_sv2 (e_base e)).
    + destruct Hcase as (b & pt & Hb & Hp & Het). destruct (partition_bounds _ _ _ _ Hcu Hb Hp) as (_ & _ & _ & Hle & _).
      rewrite Het in Hn, Hs. cbn in Hn, Hs. lia.
    + destruct Hcase as (Hw & _ & Hst & Hend & _). unfold e_end in Hend. lia.
  - exists (e_base e). split; [exact Hin|]. destruct (j_sv2 (e_base e)).
    + right. split; [done|]. destruct Hcase as (b & pt & _ & _ & ->). by exists (p_ntime pt).
    + left. by destruct Hcase as (_ & -> & _).
Qed.

(** every share in the queue is genuine: it was found by a scan of a published
    job, and its digest meets the target the job carries. *)
Theorem queue_genuine backend p0 p f :
  (∀ i, @BackendLaws (backend i)) → pool_start p0 → rtc (pool_step backend) p0 p →
  f ∈ found (shared p) →
  length (header (j_work (f_job f))) = 80%nat ∧ is_u64 (f_nonce f) ∧
  meets (nonce_hash (header (j_work (f_job f))) (f_nonce f)) (target (j_work (f_job f))) = true ∧
  ∃ j, j ∈ issued p ∧ (f_job f = j ∨ j_sv2 j = true ∧ ∃ t, f_job f = roll_time j t).
Proof.
  intros Hlaws H0 Hr Hf. pose proof (pool_reachable_inv backend Hlaws p0 p H0 Hr) as Hp.
  apply genuine_spec; [exact Hp|]. destruct Hp as (_ & _ & _ & _ & _ & _ & Hfo).
  rewrite Forall_forall in Hfo. by apply Hfo.
Qed.

Lemma queue_genuine_witness :
  let p := run_workers cpu_backends [0; 0; 0]%nat (sample_start false) in
  let f := {| f_job := sample_job false; f_nonce := 0; f_row := 0 |} in
  f ∈ found (shared p) ∧ meets (nonce_hash (header (j_work (f_job f))) (f_nonce f)) (target (j_work (f_job f))) = true.
Proof.
  intros p f. assert (f ∈ found (shared p)) as Hf.
  { assert (found (shared p) = [f]) as -> by (vm_compute; reflexivity). by left. }
  split; [exact Hf|].
  exact (proj1 (proj2 (proj2 (queue_genuine cpu_backends sample_pool p f cpu_backends_laws
    sample_pool_start (sample_reachable false _) Hf)))).
Defined.
