(* ===== verification/Transport.v ===== *)
(** * The pool connection

    [Socket] of src/src/miner.cpp above the system calls: the pool URL, writing
    a buffer through partial writes, and cutting the byte stream into JSON
    lines.  What the socket (or OpenSSL on top of it) answers to each call is a
    parameter; so is the JSON parser. *)
From S2P Require Import Prelude Words Json.

(** ** The URL *)

Definition starts_with (p s : Bytes) : bool := bool_decide (take (length p) s = p).
Definition ends_with (p s : Bytes) : bool := bool_decide (drop (length s - length p) s = p).

(** The text before and after the last [c]. *)
Fixpoint rsplit (c : byte) (s : Bytes) : option (Bytes * Bytes) :=
  match s with
  | [] => None
  | x :: s =>
      match rsplit c s with
      | Some (a, b) => Some (x :: a, b)
      | None => if bool_decide (x = c) then Some ([], s) else None
      end
  end.

Definition b_colon : byte := x3a.
(** [hp.find_first_of("/@?#") != npos] *)
Definition has_url_delimiter (s : Bytes) : bool :=
  existsb (λ c, existsb (λ d, bool_decide (c = d)) [x2f; x40; x3f; x23]) s.

(** The first statements of the constructor: TLS or not, host and port. *)
Definition parse_url (url : Bytes) : result (bool * Bytes * Bytes) :=
  let tls := starts_with (bytes_of "stratum+tls://") url || starts_with (bytes_of "stratum+ssl://") url in
  _ ← throw_if (negb tls && negb (starts_with (bytes_of "stratum+tcp://") url))
        "use stratum+tcp:// or stratum+tls://";
  (* the scheme is 14 characters long, [://] included *)
  let hp := drop 14 url in
  match rsplit b_colon hp with
  | None => Throw (runtime_error "pool port required")
  | Some (host, port) =>
      let host := if starts_with [x5b] host && ends_with [x5d] host
                  then take (length host - 2) (drop 1 host) else host in
      _ ← throw_if (bool_decide (host = []) || bool_decide (port = []) || has_url_delimiter hp)
            "invalid pool URL";
      Ok (tls, host, port)
  end.

(** ** Answers of the socket *)

(** [SSL_get_error], or [errno] on a plain socket. *)
Inductive io_code := want_read | want_write | again | interrupted | other_error.

(** [wait]: [poll] with its result and [revents]; a timeout, an error or a hang-up throws. *)
Definition wait (ready : bool) : result unit :=
  throw_if (negb ready) "pool I/O timeout or disconnect".

(** What follows a call that moved no data: try again, stop, or throw [failed];
    [stop] is what the caller does when nothing can be read now. *)
Inductive next := Retry | Break.
Definition on_code (tls : bool) (c : io_code) (ready writing : bool) (failed : string) : result next :=
  if tls then
    match c with
    | want_read => if writing then _ ← wait ready; Ok Retry else Ok Break
    | want_write => _ ← wait ready; Ok Retry
    | _ => Throw (runtime_error failed)
    end
  else
    match c with
    | again => if writing then _ ← wait ready; Ok Retry else Ok Break
    | interrupted => Ok Retry
    | _ => Throw (runtime_error failed)
    end.

(** ** [send_bytes] *)

(** One call of [SSL_write] or [send]: how many bytes it took, or why none. *)
Inductive write_answer := Wrote (n : nat) | NotWritten (c : io_code) (ready : bool).

(** The loop over the answers, with what has reached the wire; [None] while the
    socket has not answered.  A write takes at least one byte and at most those left. *)
Fixpoint send_loop (tls : bool) (answers : list write_answer) (rest wire : Bytes)
    : Bytes * option (result unit) :=
  match rest, answers with
  | [], _ => (wire, Some (Ok tt))
  | _, [] => (wire, None)
  | _, Wrote n :: answers => send_loop tls answers (drop n rest) (wire ++ take n rest)
  | _, NotWritten c ready :: answers =>
      match on_code tls c ready true "pool send failed" with
      | Ok _ => send_loop tls answers rest wire
      | Throw e => (wire, Some (Throw e))
      end
  end.
Definition send_bytes (tls : bool) (answers : list write_answer) (s : Bytes) (wire : Bytes)
    : Bytes * option (result unit) := send_loop tls answers s wire.

(** ** [read] and [read_bytes] *)

(** One call of [SSL_read] or [recv]. *)
Inductive read_answer := Got (b : Bytes) | Zero | NotRead (c : io_code) (ready : bool).

(** [json::parse] with its callback: the depths it reports, in order, and the outcome. *)
Class JsonParser := json_parse : Bytes → list Z * result json.

Section reading.
Context `{JsonParser}.

Definition parse_line (line : Bytes) : result json :=
  let '(depths, r) := json_parse line in
  if existsb (λ d, 32 <? d) depths then Throw (runtime_error "Stratum JSON nesting limit") else r.

(** The complete lines of a buffer, and what follows the last newline. *)
Fixpoint cut_lines (line buffer : Bytes) : list Bytes * Bytes :=
  match buffer with
  | [] => ([], line)
  | c :: buffer =>
      if bool_decide (c = x0a) then let '(ls, rest) := cut_lines [] buffer in (line :: ls, rest)
      else cut_lines (line ++ [c]) buffer
  end.

(** Empty lines are skipped. *)
Fixpoint parse_lines (ls : list Bytes) : result (list json) :=
  match ls with
  | [] => Ok []
  | l :: ls =>
      if bool_decide (l = []) then parse_lines ls
      else j ← parse_line l; js ← parse_lines ls; Ok (j :: js)
  end.

(** One successful [recv]. *)
Definition feed (data : Bytes) (st : Bytes * list json) : result (Bytes * list json) :=
  let '(buffer, out) := st in
  let buffer := buffer ++ data in
  _ ← throw_if (65536 <? Z.of_nat (length buffer)) "Stratum line too large";
  let '(ls, rest) := cut_lines [] buffer in
  js ← parse_lines ls;
  let out := out ++ js in
  _ ← throw_if (1024 <? Z.of_nat (length out)) "Stratum message flood";
  Ok (rest, out).

(** The loop over the answers; after the last of them nothing can be read now. *)
Fixpoint read_loop (tls : bool) (answers : list read_answer) (st : Bytes * list json)
    : result (Bytes * list json) :=
  match answers with
  | [] => Ok st
  | Got b :: answers => st ← feed b st; read_loop tls answers st
  | Zero :: _ => Throw (runtime_error "pool closed connection")
  | NotRead c ready :: answers =>
      next ← on_code tls c ready false "pool receive failed";
      match next with Retry => read_loop tls answers st | Break => Ok st end
  end.

(** [read]: the new buffer and the messages. *)
Definition read (tls : bool) (answers : list read_answer) (buffer : Bytes) : result (Bytes * list json) :=
  read_loop tls answers (buffer, []).

(** [read_bytes], for Stratum V2. *)
Definition read_bytes (a : read_answer) : result Bytes :=
  match a with
  | Got b => Ok b
  | NotRead again _ | NotRead interrupted _ => Ok []
  | _ => Throw (runtime_error "SV2 pool disconnected")
  end.
End reading.

(** ** Writing *)

Lemma send_loop_spec tls answers rest wire wire' r :
  send_loop tls answers rest wire = (wire', r) →
  ∃ sent left, rest = sent ++ left ∧ wire' = wire ++ sent ∧ (r = Some (Ok tt) → left = []).
Proof.
  revert rest wire. induction answers as [|a answers IH]; intros [|c rest] wire; cbn [send_loop].
  - intros [= <- <-]. exists [], []. rewrite (app_nil_r wire). by split_and!.
  - intros [= <- <-]. exists [], (c :: rest). rewrite (app_nil_r wire). by split_and!.
  - intros [= <- <-]. exists [], []. rewrite (app_nil_r wire). by split_and!.
  - destruct a as [n|code ready].
    + intros (sent & left & He & -> & Hl)%IH. exists (take n (c :: rest) ++ sent), left.
      by rewrite <- !(assoc_L app), <- He, take_drop.
    + destruct (on_code _ _ _ _ _); [apply IH|]. intros [= <- <-].
      exists [], (c :: rest). rewrite (app_nil_r wire). by split_and!.
Qed.

(** Through partial writes, retries and waits, what reaches the peer is a prefix
    of the buffer, and all of it when [send_bytes] returns. *)
Theorem send_bytes_exact tls answers s wire wire' r :
  send_bytes tls answers s wire = (wire', r) →
  ∃ sent left, s = sent ++ left ∧ wire' = wire ++ sent ∧ (r = Some (Ok tt) → left = []).
Proof. apply send_loop_spec. Qed.

Lemma send_bytes_exact_witness :
  let answers := [Wrote 2; NotWritten again true; Wrote 1; NotWritten interrupted false; Wrote 5]%nat in
  send_bytes false answers (bytes_of "abcde") (bytes_of ">") = (bytes_of ">abcde", Some (Ok tt)) ∧
  ∃ sent left, bytes_of "abcde" = sent ++ left ∧ bytes_of ">abcde" = bytes_of ">" ++ sent ∧
    (Some (Ok tt) = Some (@Ok unit tt) → left = []).
Proof.
  split; [vm_compute; reflexivity|].
  apply (send_bytes_exact false [Wrote 2; NotWritten again true; Wrote 1; NotWritten interrupted false; Wrote 5]%nat).
  vm_compute. reflexivity.
Defined.

(** ** Lines *)

Definition no_newline (l : Bytes) : Prop := x0a ∉ l.

Lemma cut_lines_app line a b : cut_lines line (a ++ b) =
  let '(l1, r1) := cut_lines line a in let '(l2, r2) := cut_lines r1 b in (l1 ++ l2, r2).
Proof.
  revert line. induction a as [|c a IH]; intros line; cbn [app cut_lines].
  - by destruct (cut_lines line b).
  - case_bool_decide; [|apply IH]. rewrite IH. destruct (cut_lines [] a) as [l1 r1].
    by destruct (cut_lines r1 b).
Qed.

Lemma cut_lines_line line l : no_newline l → cut_lines line l = ([], line ++ l).
Proof.
  revert line. induction l as [|c l IH]; intros line Hl; cbn [cut_lines]; [by rewrite app_nil_r|].
  apply not_elem_of_cons in Hl as [Hc Hl]. rewrite bool_decide_eq_false_2 by congruence.
  rewrite IH by done. by rewrite <- (assoc_L app).
Qed.

Lemma cut_lines_rest line b : no_newline line → no_newline (cut_lines line b).2.
Proof.
  revert line. induction b as [|c b IH]; intros line Hl; cbn [cut_lines]; [done|].
  case_bool_decide.
  - specialize (IH [] (not_elem_of_nil _)). by destruct (cut_lines [] b).
  - apply IH. intros Hx. apply elem_of_app in Hx as [?|Hx%list_elem_of_singleton]; [done|congruence].
Qed.

(** The line under assembly is the beginning of the next one. *)
Lemma cut_lines_prefix line b : match cut_lines line b with
  | ([], r) => line `prefix_of` r | (l :: _, _) => line `prefix_of` l end.
Proof.
  revert line. induction b as [|c b IH]; intros line; cbn [cut_lines]; [done|].
  case_bool_decide; [by destruct (cut_lines [] b)|].
  specialize (IH (line ++ [c])). destruct (cut_lines (line ++ [c]) b) as [[|l ls] r];
    (etrans; [by eexists|exact IH]).
Qed.

(** The text of complete lines. *)
Definition text (ls : list Bytes) : Bytes := concat ((λ l, l ++ [x0a]) <$> ls).

Lemma cut_lines_text ls tail : Forall no_newline ls → no_newline tail →
  cut_lines [] (text ls ++ tail) = (ls, tail).
Proof.
  intros Hls Ht. induction Hls as [|l ls Hl _ IH]; [by apply cut_lines_line|].
  change (text (l :: ls)) with ((l ++ [x0a]) ++ text ls). rewrite <- !(assoc_L app).
  rewrite cut_lines_app, cut_lines_line by done. cbn [app cut_lines].
  rewrite bool_decide_eq_true_2 by done. by rewrite IH.
Qed.

Section reassembly.
Context `{JsonParser}.

Lemma parse_lines_app a b : parse_lines (a ++ b) =
  (j1 ← parse_lines a; j2 ← parse_lines b; Ok (j1 ++ j2)).
Proof.
  induction a as [|l a IH]; cbn [app parse_lines].
  { rewrite bind_Ok_eq. by destruct (parse_lines b). }
  destruct (bool_decide (l = [])); [exact IH|]. destruct (parse_line l) as [j|e]; [|done].
  rewrite !bind_Ok_eq, IH. destruct (parse_lines a) as [j1|e]; [|done]. rewrite !bind_Ok_eq.
  by destruct (parse_lines b).
Qed.

(** An answer that does not end the session, and the bytes it delivers. *)
Definition quiet_answer (tls : bool) (a : read_answer) : Prop :=
  match a with
  | Got b => Z.of_nat (length b) ≤ 8192
  | Zero => False
  | NotRead c ready => on_code tls c ready false "pool receive failed" = Ok Retry
  end.
Definition got (a : read_answer) : Bytes := match a with Got b => b | _ => [] end.
Definition delivered (answers : list read_answer) : Bytes := concat (got <$> answers).

(** The lines and the unfinished line after some bytes of the stream. *)
Definition assembled (sofar : Bytes) (js : list json) (buffer : Bytes) : Prop :=
  ∃ ls, cut_lines [] sofar = (ls, buffer) ∧ parse_lines ls = Ok js.

(** Newlines bound the messages. *)
Definition newlines (b : Bytes) : Z := Z.of_nat (length (List.filter (λ c, bool_decide (c = x0a)) b)).

Lemma newlines_app a b : newlines (a ++ b) = newlines a + newlines b.
Proof. unfold newlines. rewrite List.filter_app, length_app. lia. Qed.

Lemma cut_lines_count line b : Z.of_nat (length (cut_lines line b).1) = newlines b.
Proof.
  revert line. induction b as [|c b IH]; intros line; cbn [cut_lines]; [done|].
  change (c :: b) with ([c] ++ b). rewrite newlines_app. unfold newlines at 1. cbn [List.filter].
  case_bool_decide.
  - specialize (IH []). destruct (cut_lines [] b) as [ls r]. cbn [fst length] in *. lia.
  - rewrite IH. cbn [length]. lia.
Qed.

Lemma parse_lines_length ls js : parse_lines ls = Ok js → (length js ≤ length ls)%nat.
Proof.
  revert js. induction ls as [|l ls IH]; intros js; cbn [parse_lines]; [intros [= <-]; cbn; lia|].
  destruct (bool_decide _); [intros ?%IH; cbn; lia|].
  intros (j & _ & (js' & Hjs & [= <-])%bind_Ok)%bind_Ok. apply IH in Hjs. cbn. lia.
Qed.

(** The stream as a whole: its lines and what follows them. *)
Section stream.
Context (stream : Bytes) (ls : list Bytes) (tail : Bytes).
Context (Hstream : cut_lines [] stream = (ls, tail)).

(** Why a read may throw: a line does not parse, a line is too long for the buffer,
    or - [flood] - a call of [read] sees too many lines. *)
Definition excuse (e : exn) (flood : Prop) : Prop :=
  parse_lines ls = Throw e ∨
  (e = runtime_error "Stratum line too large" ∧ Exists (λ l, 57344 < Z.of_nat (length l)) (ls ++ [tail])) ∨
  (e = runtime_error "Stratum message flood" ∧ flood).

Lemma excuse_mono e (P Q : Prop) : (P → Q) → excuse e P → excuse e Q.
Proof. unfold excuse. naive_solver. Qed.

(** What is in the buffer begins a line of the stream. *)
Lemma assembled_line a b js buffer : stream = a ++ b → assembled a js buffer →
  no_newline buffer ∧ Exists (λ l, buffer `prefix_of` l) (ls ++ [tail]).
Proof.
  intros -> (l1 & Hc & _). pose proof (cut_lines_rest [] a (not_elem_of_nil _)) as Hn. rewrite Hc in Hn.
  split; [exact Hn|]. rewrite cut_lines_app, Hc in Hstream. pose proof (cut_lines_prefix buffer b) as Hpre.
  destruct (cut_lines buffer b) as [l2 r2]. injection Hstream as <- <-. rewrite <- (assoc_L app).
  apply Exists_app. right. destruct l2; by constructor.
Qed.

Lemma feed_spec a data rest js buffer out : stream = a ++ data ++ rest → assembled a js buffer →
  Z.of_nat (length data) ≤ 8192 →
  match feed data (buffer, out) with
  | Ok (buffer', out') => ∃ new, out' = out ++ new ∧ assembled (a ++ data) (js ++ new) buffer' ∧
                                 Z.of_nat (length new) ≤ newlines data
  | Throw e => excuse e (1024 < Z.of_nat (length out) + newlines data)
  end.
Proof.
  intros Hs Ha Hd. destruct (assembled_line a (data ++ rest) js buffer Hs Ha) as [Hnb Hline].
  destruct Ha as (l1 & Hc1 & Hp1). unfold feed.
  destruct (65536 <? Z.of_nat (length (buffer ++ data))) eqn:Hbig.
  { right. left. split; [done|]. rewrite length_app in Hbig. eapply Exists_impl; [exact Hline|].
    intros l Hpre%prefix_length. bool_lia. }
  rewrite throw_if_false, bind_Ok_eq, cut_lines_app, (cut_lines_line [] buffer Hnb). cbn [app].
  pose proof Hstream as Hc. rewrite Hs, cut_lines_app, Hc1, cut_lines_app in Hc.
  pose proof (cut_lines_count buffer data) as Hcount.
  destruct (cut_lines buffer data) as [l3 r3] eqn:E3, (cut_lines r3 rest) as [l4 r4]. cbn [app fst] in *.
  injection Hc as Hls _.
  destruct (parse_lines l3) as [new|e] eqn:Hnew.
  2:{ left. by rewrite <- Hls, parse_lines_app, Hp1, bind_Ok_eq, parse_lines_app, Hnew. }
  rewrite bind_Ok_eq. pose proof (parse_lines_length l3 new Hnew).
  destruct (1024 <? Z.of_nat (length (out ++ new))) eqn:Hflood.
  { right. right. split; [done|]. rewrite length_app in Hflood. bool_lia. }
  rewrite throw_if_false, bind_Ok_eq. exists new. split; [done|]. split; [|lia].
  exists (l1 ++ l3). rewrite cut_lines_app, Hc1, E3, parse_lines_app, Hp1, bind_Ok_eq, Hnew. done.
Qed.

Lemma read_loop_spec tls answers a rest js buffer out : Forall (quiet_answer tls) answers →
  stream = a ++ delivered answers ++ rest → assembled a js buffer →
  match read_loop tls answers (buffer, out) with
  | Ok (buffer', out') => ∃ new, out' = out ++ new ∧ assembled (a ++ delivered answers) (js ++ new) buffer'
  | Throw e => excuse e (1024 < Z.of_nat (length out) + newlines (delivered answers))
  end.
Proof.
  intros Hq. revert a js buffer out. induction Hq as [|x answers Hx _ IH]; intros a js buffer out Hs Ha.
  { exists []. unfold delivered. cbn. by rewrite !app_nil_r. }
  change (delivered (x :: answers)) with (got x ++ delivered answers) in *.
  destruct x as [data| |c ready]; cbn [got read_loop] in *; [|done|].
  2:{ cbn in Hx. rewrite Hx, bind_Ok_eq. by apply IH. }
  rewrite <- (assoc_L app) in Hs. pose proof (feed_spec a data (delivered answers ++ rest) js buffer out Hs Ha Hx) as Hf.
  assert (0 ≤ newlines (delivered answers)) as Hpos by (unfold newlines; lia). rewrite newlines_app.
  destruct (feed data (buffer, out)) as [[b' out']|e].
  2:{ eapply excuse_mono; [|exact Hf]. lia. }
  destruct Hf as (new & -> & Ha' & Hl). rewrite bind_Ok_eq.
  specialize (IH (a ++ data) (js ++ new) b' (out ++ new)). rewrite <- (assoc_L app) in IH. specialize (IH Hs Ha').
  destruct (read_loop tls answers (b', out ++ new)) as [[b'' out'']|e].
  - destruct IH as (new' & -> & Ha''). exists (new ++ new'). by rewrite !(assoc_L app) in *.
  - eapply excuse_mono; [|exact IH]. rewrite length_app. lia.
Qed.
End stream.

(** Successive calls of [read]: the buffer left and all messages. *)
Fixpoint run_reads (tls : bool) (reads : list (list read_answer)) (buffer : Bytes) (out : list json)
    : result (Bytes * list json) :=
  match reads with
  | [] => Ok (buffer, out)
  | r :: reads => '(buffer, js) ← read tls r buffer; run_reads tls reads buffer (out ++ js)
  end.

Lemma run_reads_spec stream ls tail tls reads a rest js buffer : cut_lines [] stream = (ls, tail) →
  Forall (Forall (quiet_answer tls)) reads →
  stream = a ++ concat (delivered <$> reads) ++ rest → assembled a js buffer →
  match run_reads tls reads buffer js with
  | Ok (buffer', js') => assembled (a ++ concat (delivered <$> reads)) js' buffer'
  | Throw e => excuse ls tail e (Exists (λ r, 1024 < newlines (delivered r)) reads)
  end.
Proof.
  intros Hc Hq. revert a js buffer. induction Hq as [|r reads Hr _ IH]; intros a js buffer Hs Ha.
  { cbn. by rewrite app_nil_r. }
  cbn [fmap list_fmap concat run_reads] in *. rewrite <- (assoc_L app) in Hs.
  pose proof (read_loop_spec stream ls tail Hc tls r a _ js buffer [] Hr Hs Ha) as Hread. unfold read.
  destruct (read_loop tls r (buffer, [])) as [[b' new']|e].
  2:{ eapply excuse_mono; [|exact Hread]. intros Hf. by constructor. }
  destruct Hread as (new & -> & Ha'). rewrite bind_Ok_eq. cbn [app].
  specialize (IH (a ++ delivered r) (js ++ new) b'). rewrite <- (assoc_L app) in IH. specialize (IH Hs Ha').
  destruct (run_reads tls reads b' (js ++ new)) as [[b'' js'']|e].
  - by rewrite <- (assoc_L app) in IH.
  - eapply excuse_mono; [|exact IH]. intros Hf. by constructor.
Qed.
End reassembly.

(** C26: However the pool's lines are cut into reads of at most 8192 bytes, whatever
    retries happen between them, and whether or not TLS is used: calls of [read] that
    return deliver exactly the messages of the lines, in order, and keep the
    unfinished line; a call that throws does so because a line does not parse, with
    the exception of the first such line, because a line exceeds 57344 bytes, or
    because one call of [read] sees more than 1024 lines, with the messages of
    these limits.  So within the limits, lines that parse are all delivered. *)
Theorem read_reassembly `{JsonParser} tls reads ls tail :
  Forall no_newline ls → no_newline tail → concat (delivered <$> reads) = text ls ++ tail →
  Forall (Forall (quiet_answer tls)) reads →
  match run_reads tls reads [] [] with
  | Ok (buffer, js) => buffer = tail ∧ parse_lines ls = Ok js
  | Throw e =>
      parse_lines ls = Throw e ∨
      (e = runtime_error "Stratum line too large" ∧ Exists (λ l, 57344 < Z.of_nat (length l)) (ls ++ [tail])) ∨
      (e = runtime_error "Stratum message flood" ∧ Exists (λ r, 1024 < newlines (delivered r)) reads)
  end ∧
  (∀ js, parse_lines ls = Ok js → Forall (λ l, Z.of_nat (length l) ≤ 57344) (ls ++ [tail]) →
   Forall (λ r, newlines (delivered r) ≤ 1024) reads → run_reads tls reads [] [] = Ok (tail, js)).
Proof.
  intros Hls Ht He Hq. pose proof (cut_lines_text ls tail Hls Ht) as Hc.
  pose proof (run_reads_spec _ _ _ tls reads [] [] [] [] Hc Hq) as Hr. cbn [app] in Hr.
  rewrite app_nil_r, He in Hr. specialize (Hr eq_refl ltac:(by exists [])).
  destruct (run_reads tls reads [] []) as [[b js]|e].
  - destruct Hr as (ls' & Hc' & Hp'). rewrite Hc in Hc'. injection Hc' as <- <-. split; [done|].
    intros js' Hp _ _. congruence.
  - split; [exact Hr|]. intros js Hp Hl Hn. destruct Hr as [Hr|[[_ Hr]|[_ Hr]]]; [congruence|..]; exfalso;
      apply Exists_exists in Hr as (x & Hx & Hgt).
    + rewrite Forall_forall in Hl. specialize (Hl x Hx). lia.
    + rewrite Forall_forall in Hn. specialize (Hn x Hx). lia.
Qed.

(** A parser for the example: a line is a string of its characters. *)
#[local] Instance text_parser : JsonParser := λ line, ([0], Ok (JString (String.string_of_list_byte line))).

Definition sample_reads : list (list read_answer) :=
  [[Got (bytes_of "ab"); NotRead interrupted true; Got (bytes_of "c" ++ [x0a; x0a] ++ bytes_of "d")];
   []; [Got (bytes_of "e" ++ [x0a] ++ bytes_of "f")]].

Lemma read_reassembly_witness :
  run_reads false sample_reads [] [] = Ok (bytes_of "f", [JString "abc"; JString "de"]).
Proof.
  assert (Forall (Forall (quiet_answer false)) sample_reads) as Hq by by repeat constructor.
  refine (proj2 (read_reassembly false sample_reads [bytes_of "abc"; []; bytes_of "de"] (bytes_of "f") _ _ _ Hq)
    [JString "abc"; JString "de"] _ _ _); first [reflexivity | by_compute | by repeat constructor].
Defined.

(** ** The URL *)

Lemma rsplit_Some c s a b : rsplit c s = Some (a, b) ↔ s = a ++ (c :: b) ∧ c ∉ b.
Proof.
  assert (∀ s, rsplit c s = None ↔ c ∉ s) as Hnone.
  { clear. induction s as [|x s IH]; cbn; [split; [set_solver|done]|].
    rewrite not_elem_of_cons. destruct (rsplit c s) as [[a b]|]; [split; [done|naive_solver]|].
    case_bool_decide; naive_solver. }
  revert a b. induction s as [|x s IH]; intros a b; cbn [rsplit].
  { split; [done|]. intros [H _]. by destruct a. }
  destruct (rsplit c s) as [[a' b']|] eqn:E.
  - destruct (IH a' b') as [[-> Hb] _]; [done|]. split.
    + by intros [= <- <-].
    + intros [H Hb2]. destruct a as [|y a]; cbn in H; injection H as -> H.
      * exfalso. apply Hb2. rewrite <- H. set_solver.
      * pose proof (proj2 (IH a b) (conj H Hb2)) as Hab. congruence.
  - destruct (Hnone s) as [Hs _]. specialize (Hs E). case_bool_decide as Hx.
    + subst. split; [by intros [= <- <-]|]. intros [H Hb]. destruct a as [|y a]; cbn in H; [congruence|].
      injection H as _ ->. set_solver.
    + split; [done|]. intros [H Hb]. destruct a as [|y a]; cbn in H; [congruence|].
      injection H as _ ->. set_solver.
Qed.

(** The host without the brackets of an IPv6 literal. *)
Definition unbracket (raw : Bytes) : Bytes :=
  if starts_with [x5b] raw && ends_with [x5d] raw then take (length raw - 2) (drop 1 raw) else raw.

(** The schemes, and whether they ask for TLS. *)
Definition schemes : list (string * bool) :=
  [("stratum+tls://", true); ("stratum+ssl://", true); ("stratum+tcp://", false)].

Lemma starts_with_app p s : starts_with p (p ++ s) = true.
Proof. apply bool_decide_eq_true. by rewrite take_app_length. Qed.
Lemma starts_with_split p s : starts_with p s = true → s = p ++ drop (length p) s.
Proof. unfold starts_with. intros H%bool_decide_eq_true. rewrite <- (take_drop (length p) s) at 1. by rewrite H. Qed.

Lemma schemes_elem s t : (s, t) ∈ schemes →
  (s, t) = ("stratum+tls://", true) ∨ (s, t) = ("stratum+ssl://", true) ∨ (s, t) = ("stratum+tcp://", false).
Proof. unfold schemes. set_solver. Qed.

Lemma scheme_cases url :
  (∃ s t, (s, t) ∈ schemes ∧ starts_with (bytes_of s) url = true ∧
    starts_with (bytes_of "stratum+tls://") url || starts_with (bytes_of "stratum+ssl://") url = t) ∨
  (starts_with (bytes_of "stratum+tls://") url || starts_with (bytes_of "stratum+ssl://") url = false ∧
   starts_with (bytes_of "stratum+tcp://") url = false).
Proof.
  destruct (starts_with (bytes_of "stratum+tls://") url) eqn:E1.
  { left. exists "stratum+tls://"%string, true. rewrite E1. split; [left|done]. }
  destruct (starts_with (bytes_of "stratum+ssl://") url) eqn:E2.
  { left. exists "stratum+ssl://"%string, true. rewrite E2. split; [right; left|done]. }
  destruct (starts_with (bytes_of "stratum+tcp://") url) eqn:E3; [|by right].
  left. exists "stratum+tcp://"%string, false. split; [right; right; left|done].
Qed.

(** The pool URLs accepted, and what they name: one of three schemes, a host
    that may be a bracketed IPv6 literal, and a port after the last colon; user
    names, paths, queries and fragments are refused. *)
Theorem parse_url_spec url tls host port : parse_url url = Ok (tls, host, port) ↔
  (∃ scheme raw, (scheme, tls) ∈ schemes ∧ url = bytes_of scheme ++ raw ++ (b_colon :: port) ∧
    (b_colon ∉ port) ∧ host = unbracket raw ∧ host ≠ [] ∧ port ≠ [] ∧
    has_url_delimiter (raw ++ (b_colon :: port)) = false).
Proof.
  unfold parse_url. split.
  - intros H. apply bind_Ok in H as (u & Hs%throw_if_Ok & H).
    destruct (scheme_cases url) as [(s & t & Hst & Hsw & Ht)|[H1 H2]]; [|by rewrite H1, H2 in Hs].
    assert (length (bytes_of s) = 14%nat) as Hlen 
      by (by apply schemes_elem in Hst as [[= -> ->]|[[= -> ->]|[= -> ->]]]).
    apply starts_with_split in Hsw. rewrite Hlen in Hsw. set (hp := drop 14 url) in *.
    destruct (rsplit b_colon hp) as [[raw p]|] eqn:E; [|discriminate].
    apply bind_Ok in H as (u' & Hc%throw_if_Ok & H). injection H as <- <- <-.
    apply rsplit_Some in E as [E Hp]. apply orb_false_iff in Hc as [Hc Hd].
    apply orb_false_iff in Hc as [Hh%bool_decide_eq_false Hpn%bool_decide_eq_false].
    exists s, raw. rewrite Ht, <- E. by split_and!.
  - intros (s & raw & Hst & -> & Hp & -> & Hh & Hpn & Hd).
    assert (length (bytes_of s) = 14%nat) as Hlen 
      by (by apply schemes_elem in Hst as [[= -> ->]|[[= -> ->]|[= -> ->]]]).
    rewrite drop_app_length' by done.
    rewrite (proj2 (rsplit_Some _ _ raw port)) by done. fold (unbracket raw).
    rewrite Hd, !bool_decide_eq_false_2 by done. cbn [orb]. rewrite throw_if_false, bind_Ok_eq.
    by apply schemes_elem in Hst as [[= -> ->]|[[= -> ->]|[= -> ->]]].
Qed.
