(* ===== verification/Connect.v ===== *)
(** * Opening the pool connection

    The constructor, [close] and destructor of [Socket] in src/src/miner.cpp with
    [net::socket] of src/include/yolo/net.hpp: name resolution, one address after
    the other, and the TLS handshake.  What the operating system and OpenSSL
    answer is an input; the calls that change their state are recorded in order. *)
From S2P Require Import Prelude Words Transport.

(** ** The calls *)

Inductive op :=
| OpenFd (h : nat) | CloseFd (h : nat)
| NewCtx | FreeCtx | VerifyPeer | MinTls12
| NewSsl | FreeSsl | SetSni (host : Bytes) | CheckHost (host : Bytes) | Attach (h : nat) | Handshake.

(** The members [fd], [ctx] and [ssl]; [fds] numbers the handles handed out. *)
Record Socket := { fd : option nat; ctx : bool; ssl : bool; fds : nat; trace : list op }.
Definition no_socket : Socket := {| fd := None; ctx := false; ssl := false; fds := 0; trace := [] |}.

Definition set_fd (v : option nat) (s : Socket) : Socket :=
  {| fd := v; ctx := ctx s; ssl := ssl s; fds := fds s; trace := trace s |}.
Definition set_ctx (v : bool) (s : Socket) : Socket :=
  {| fd := fd s; ctx := v; ssl := ssl s; fds := fds s; trace := trace s |}.
Definition set_ssl (v : bool) (s : Socket) : Socket :=
  {| fd := fd s; ctx := ctx s; ssl := v; fds := fds s; trace := trace s |}.
Definition record (o : op) (s : Socket) : Socket :=
  {| fd := fd s; ctx := ctx s; ssl := ssl s; fds := fds s; trace := trace s ++ [o] |}.
Definition emit (o : op) : stM Socket unit := st_modify (record o).

(** [close] *)
Definition close_fd (s : Socket) : Socket :=
  match fd s with Some h => set_fd None (record (CloseFd h) s) | None => s end.
Definition close (s : Socket) : Socket :=
  let s := if ssl s then record FreeSsl s else s in
  let s := if ctx s then record FreeCtx s else s in
  set_fd None (set_ctx false (set_ssl false (close_fd s))).

(** ** What the outside answers *)

(** [net::socket], and [connect] with the [poll] and [SO_ERROR] that follow when it
    is still in progress. *)
Inductive socket_answer := NoSocket | NotNonblocking | Opened.
Inductive connect_answer := Connected | InProgress (ready : bool) (so_error : option Z) | Refused.
Record address := { a_socket : socket_answer; a_connect : connect_answer }.
(** [SSL_connect] and [SSL_get_error]. *)
Inductive handshake_answer := Shaken | HandshakeCode (c : io_code) (ready : bool).
Record Env := {
  e_dns : option (list address);
  e_ctx : bool; e_paths : bool; e_ssl : bool; e_sni : bool; e_host : bool; e_attach : bool;
  e_handshake : list handshake_answer
}.

(** ** The constructor *)

Definition open_fd : stM Socket unit :=
  s ← st_get;
  _ ← emit (OpenFd (fds s));
  st_modify (λ s, {| fd := Some (fds s); ctx := ctx s; ssl := ssl s; fds := S (fds s); trace := trace s |}).
Definition is_connected (c : connect_answer) : bool :=
  match c with
  | Connected => true
  | InProgress ready so_error => ready && bool_decide (so_error = Some 0)
  | Refused => false
  end.
(** The loop over the addresses; it leaves [fd] invalid when none connects. *)
Fixpoint connect_loop (l : list address) : stM Socket unit :=
  match l with
  | [] => mret tt
  | a :: l =>
      match a_socket a with
      | NoSocket => connect_loop l
      | NotNonblocking => _ ← open_fd; _ ← st_modify close_fd; connect_loop l
      | Opened =>
          _ ← open_fd;
          if is_connected (a_connect a) then mret tt
          else _ ← st_modify close_fd; connect_loop l
      end
  end.

(** The [SSL_connect] loop; false while it waits for an answer. *)
Fixpoint handshake (l : list handshake_answer) : stM Socket bool :=
  match l with
  | [] => mret false
  | Shaken :: _ => _ ← emit Handshake; mret true
  | HandshakeCode c ready :: l =>
      match c with
      | want_read | want_write => _ ← st_lift (wait ready); handshake l
      | _ => st_throw "TLS handshake failed"
      end
  end.
Definition start_tls (host : Bytes) (e : Env) : stM Socket bool :=
  _ ← st_require (e_ctx e) "TLS trust initialization failed";
  _ ← emit NewCtx; _ ← st_modify (set_ctx true);
  _ ← st_require (e_paths e) "TLS trust initialization failed";
  _ ← emit VerifyPeer; _ ← emit MinTls12;
  _ ← st_require (e_ssl e) "TLS initialization failed";
  _ ← emit NewSsl; _ ← st_modify (set_ssl true);
  _ ← st_require (e_sni e) "TLS initialization failed"; _ ← emit (SetSni host);
  _ ← st_require (e_host e) "TLS initialization failed"; _ ← emit (CheckHost host);
  _ ← st_require (e_attach e) "TLS initialization failed";
  s ← st_get; _ ← emit (Attach (default 0%nat (fd s)));
  handshake (e_handshake e).

Definition open_socket (url : Bytes) (e : Env) : stM Socket bool :=
  '(tls, host, port) ← st_lift (parse_url url);
  match e_dns e with
  | None => st_throw "pool DNS failed"
  | Some l =>
      _ ← connect_loop l;
      s ← st_get;
      _ ← st_require (bool_decide (is_Some (fd s))) "pool connection failed";
      if tls : bool then start_tls host e else mret true
  end.
Definition new_socket (url : Bytes) (e : Env) : stM Socket bool :=
  st_catch (open_socket url e) (st_modify close).

(** ** What is held *)

Definition fds_after (s : gset nat) (o : op) : gset nat :=
  match o with OpenFd h => {[h]} ∪ s | CloseFd h => s ∖ {[h]} | _ => s end.
Definition open_fds (t : list op) : gset nat := fold_left fds_after t ∅.
Definition ctx_delta (o : op) : Z := match o with NewCtx => 1 | FreeCtx => -1 | _ => 0 end.
Definition ssl_delta (o : op) : Z := match o with NewSsl => 1 | FreeSsl => -1 | _ => 0 end.
Definition held (f : op → Z) (t : list op) : Z := fold_left (λ n o, n + f o) t 0.
Arguments open_fds : simpl never.
Arguments held : simpl never.
(** Everything opened was closed. *)
Definition released (t : list op) : Prop := open_fds t = ∅ ∧ held ctx_delta t = 0 ∧ held ssl_delta t = 0.
(** The members say what is held. *)
Definition holds (s : Socket) : Prop :=
  open_fds (trace s) = (match fd s with Some h => {[h]} | None => ∅ end) ∧
  held ctx_delta (trace s) = Z.b2z (ctx s) ∧ held ssl_delta (trace s) = Z.b2z (ssl s) ∧
  (∀ h, fd s = Some h → (h < fds s)%nat).

Lemma open_fds_snoc t o : open_fds (t ++ [o]) = fds_after (open_fds t) o.
Proof. unfold open_fds. by rewrite fold_left_app. Qed.
Lemma held_snoc f t o : held f (t ++ [o]) = held f t + f o.
Proof. unfold held. by rewrite fold_left_app. Qed.

Lemma close_fd_holds s : holds s → holds (close_fd s) ∧ fd (close_fd s) = None ∧
  ctx (close_fd s) = ctx s ∧ ssl (close_fd s) = ssl s.
Proof.
  intros (Hf & Hc & Hs & Hlt). unfold close_fd. destruct (fd s) as [h|] eqn:E;
    [|split; [unfold holds; rewrite E; by split_and!|done]].
  split; [|done]. unfold holds. cbn. rewrite open_fds_snoc, !held_snoc, Hf. cbn.
  split_and!; [set_solver|lia|lia|done].
Qed.

Lemma close_released s : holds s → released (trace (close s)) ∧ fd (close s) = None.
Proof.
  intros H. unfold close. set (s1 := if ssl s then record FreeSsl s else s).
  assert (holds (set_ssl false s1)) as H1.
  { destruct H as (Hf & Hc & Hs & Hlt). subst s1. unfold holds.
    destruct (ssl s) eqn:E; cbn in Hs |- *; rewrite ?open_fds_snoc, ?held_snoc, ?Hf; cbn; split_and!; try done; lia. }
  set (s2 := if ctx s1 then record FreeCtx s1 else s1).
  assert (holds (set_ctx false (set_ssl false s2))) as H2.
  { destruct H1 as (Hf & Hc & Hs & Hlt). cbn in Hf, Hc, Hs, Hlt. subst s2. unfold holds.
    destruct (ctx s1) eqn:E; cbn in Hc |- *; rewrite ?open_fds_snoc, ?held_snoc, ?Hf; cbn; split_and!; try done; lia. }
  apply close_fd_holds in H2 as ((Hf & Hc & Hs & _) & Hn & _ & _).
  assert (trace (close_fd (set_ctx false (set_ssl false s2))) = trace (close_fd s2)) as Ht
    by (unfold close_fd; cbn [fd set_ctx set_ssl]; by destruct (fd s2)).
  split; [|done]. unfold released. cbn [trace set_fd set_ctx set_ssl]. rewrite <- Ht, Hf, Hn, Hc, Hs.
  unfold close_fd. cbn [fd set_ctx set_ssl]. by destruct (fd s2).
Qed.

(** ** The constructor's promise *)

(** Nothing but sockets was touched. *)
Definition fd_op (o : op) : Prop := match o with OpenFd _ | CloseFd _ => True | _ => False end.
Definition plain (s : Socket) : Prop := holds s ∧ ctx s = false ∧ ssl s = false ∧ Forall fd_op (trace s).

Lemma open_fd_plain s : plain s → fd s = None → wp open_fd (λ s' r, r = Ok tt ∧ plain s' ∧ is_Some (fd s')) s.
Proof.
  intros ((Hf & Hc & Hs & _) & Hctx & Hssl & Ht) Hn. unfold open_fd, emit. wp_steps.
  unfold plain, holds. cbn. rewrite Hn in Hf. rewrite open_fds_snoc, !held_snoc, Hf. cbn.
  split_and!; try done; [set_solver|lia|lia|intros h [= <-]; lia|].
  apply Forall_app. split; [done|]. by repeat constructor.
Qed.

Lemma close_fd_plain s : plain s → plain (close_fd s) ∧ fd (close_fd s) = None.
Proof.
  intros (Hh & Hctx & Hssl & Ht). destruct (close_fd_holds s Hh) as (Hh' & Hn & Hc & Hs).
  split; [|done]. unfold plain. rewrite Hc, Hs. split_and!; try done.
  unfold close_fd. destruct (fd s); [|done]. apply Forall_app. split; [done|]. by repeat constructor.
Qed.

Lemma connect_loop_plain l s : plain s → fd s = None → wp (connect_loop l) (λ s' r, r = Ok tt ∧ plain s') s.
Proof.
  revert s. induction l as [|a l IH]; intros s Hs Hn; cbn [connect_loop]; [by apply wp_ret|].
  assert (∀ s', plain s' → wp (_ ← st_modify close_fd; connect_loop l) (λ s' r, r = Ok tt ∧ plain s') s') as Hnext.
  { intros s' H'. apply wp_bind, wp_modify. cbn [wp_next]. by apply IH; apply close_fd_plain. }
  destruct (a_socket a); [by apply IH| |];
    (apply wp_bind; eapply wp_mono; [by apply open_fd_plain|]; intros s' r (-> & Hp & _); cbn [wp_next]).
  - by apply Hnext.
  - destruct (is_connected _); [by apply wp_ret|by apply Hnext].
Qed.

Lemma handshake_spec l s :
  wp (handshake l) (λ s' r, s' = (if bool_decide (r = Ok true) then record Handshake s else s)) s.
Proof.
  induction l as [|[|code ready] l IH]; cbn [handshake]; [done|done|].
  destruct code; try done; (apply wp_bind, wp_lift; destruct (wait ready); cbn [wp_next]; [exact IH|done]).
Qed.

(** The calls of a TLS connection to [host] over the handle [h]. *)
Definition tls_calls (host : Bytes) (h : nat) : list op :=
  [NewCtx; VerifyPeer; MinTls12; NewSsl; SetSni host; CheckHost host; Attach h].

Lemma start_tls_spec host e s h : plain s → fd s = Some h →
  wp (start_tls host e) (λ s' r, holds s' ∧ ∀ finished, r = Ok finished →
    fd s' = Some h ∧ ssl s' = true ∧
    trace s' = trace s ++ tls_calls host h ++ (if finished then [Handshake] else [])) s.
Proof.
  intros ((Hf & Hc & Hs & Hlt) & Hctx & Hssl & _) Hfd. rewrite Hctx in Hc. rewrite Hssl in Hs.
  unfold start_tls, emit. wp_steps; try
    (split; [|done]; unfold holds; cbn; rewrite ?open_fds_snoc, ?held_snoc, ?Hf, ?Hc, ?Hs, ?Hctx, ?Hssl; cbn; by split_and!).
  eapply wp_mono; [apply handshake_spec|]. intros s' r ->. rewrite Hfd in *. cbn [default].
  set (s1 := record (Attach _) _).
  assert (holds s1) as Hh1.
  { unfold s1, holds. cbn. rewrite Hfd. cbn. rewrite !open_fds_snoc, !held_snoc, Hf, Hc, Hs. cbn. by split_and!. }
  destruct Hh1 as (Hf1 & Hc1 & Hs1 & Hlt1). split.
  - case_bool_decide; unfold holds; cbn [trace record fd ctx ssl fds];
      rewrite ?open_fds_snoc, ?held_snoc, ?Hf1, ?Hc1, ?Hs1; cbn; by split_and!.
  - intros d ->. unfold s1, tls_calls.
    destruct d; [rewrite bool_decide_eq_true_2 by done|rewrite bool_decide_eq_false_2 by done];
      cbn; rewrite ?Hfd, <-?app_assoc; by split_and!.
Qed.

(** C27: Opening a connection ends in one of two ways.  It throws with every socket,
    TLS context and TLS object released; or it holds exactly one socket, and for a
    TLS address the calls after the sockets are exactly: a context that verifies
    the peer from TLS 1.2 on, an object for that host name and that socket with
    the host checked, and only then the handshake.  Nothing is written in clear to
    a TLS address, and closing such a connection later releases everything. *)
Theorem new_socket_safe url e :
  match new_socket url e no_socket with
  | (s, Throw _) => released (trace s) ∧ fd s = None
  | (s, Ok finished) => ∃ tls host port h sockets,
      parse_url url = Ok (tls, host, port) ∧ fd s = Some h ∧ ssl s = tls ∧
      Forall fd_op sockets ∧ open_fds sockets = {[h]} ∧
      trace s = sockets ++ (if tls then tls_calls host h ++ (if finished then [Handshake] else []) else []) ∧
      (tls = false → finished = true) ∧ released (trace (close s))
  end.
Proof.
  assert (plain no_socket) as H0 by (by repeat constructor).
  assert (wp (open_socket url e) (λ s r, holds s ∧ ∀ finished, r = Ok finished → ∃ tls host port h sockets,
    parse_url url = Ok (tls, host, port) ∧ fd s = Some h ∧ ssl s = tls ∧
    Forall fd_op sockets ∧ open_fds sockets = {[h]} ∧
    trace s = sockets ++ (if tls then tls_calls host h ++ (if finished then [Handshake] else []) else []) ∧
    (tls = false → finished = true)) no_socket) as Hopen.
  { unfold open_socket. apply wp_bind, wp_lift.
    destruct (parse_url url) as [[[tls host] port]|]; cbn [wp_next]; [|split; [apply H0|done]].
    destruct (e_dns e) as [l|]; [|split; [apply H0|done]].
    apply wp_bind. eapply wp_mono; [by apply connect_loop_plain|]. intros s r [-> Hp]. cbn [wp_next].
    apply wp_bind, wp_get. cbn [wp_next]. pose proof Hp as (Hh & _ & Hssl & Ht).
    apply wp_bind, wp_require; intros Hfd; cbn [wp_next]; [|split; [done|done]].
    apply bool_decide_eq_true in Hfd as [h Hfd].
    assert (open_fds (trace s) = {[h]}) as Hopen by (destruct Hh as [Hf _]; by rewrite Hfd in Hf).
    destruct tls.
    - eapply wp_mono; [by apply start_tls_spec|]. intros s' r [Hh' Hr]. split; [done|].
      intros d (? & ? & ?)%Hr. exists true, host, port, h, (trace s). by split_and!.
    - apply wp_ret. split; [done|]. intros d [= <-]. exists false, host, port, h, (trace s).
      rewrite app_nil_r. by split_and!. }
  unfold new_socket, st_catch. unfold wp in Hopen.
  destruct (open_socket url e no_socket) as [s [d|ex]]; destruct Hopen as [Hh Hr]; cbn [fst snd] in *.
  - destruct (Hr d eq_refl) as (tls & host & port & h & sockets & ?). destruct_and!.
    exists tls, host, port, h, sockets. split_and!; try done. by apply close_released.
  - by apply close_released.
Qed.
