(* ===== verification/View.v ===== *)
(** * The data shown and logged

    src/include/yolo/ui.hpp and the state of [Dashboard::Impl] in
    src/src/ui/dashboard.cpp: the view the miner publishes and the event log. *)
From Stdlib Require Import SpecFloat.
From S2P Require Import Prelude Words Amd.

Inductive Severity := info | success | warning | error_severity.
#[export] Instance Severity_eq_dec : EqDecision Severity.
Proof. solve_decision. Defined.

Record Event := { ev_time : string; message : string; severity : Severity }.

Record DeviceView := {
  label : string; d_name : string; hashes_per_second : spec_float; d_hashes : Z;
  d_accepted : Z; d_rejected : Z; d_stale : Z; sensors : GpuReadings; d_pci_bus : string
}.
Definition new_device (l n pci : string) : DeviceView :=
  {| label := l; d_name := n; hashes_per_second := S754_zero false; d_hashes := 0;
     d_accepted := 0; d_rejected := 0; d_stale := 0; sensors := no_readings EmptyString; d_pci_bus := pci |}.
#[export] Instance device_view_inhabited : Inhabited DeviceView :=
  populate (new_device EmptyString EmptyString EmptyString).

(** Assignments to the counters of a device. *)
Definition set_hashes_per_second (v : spec_float) (d : DeviceView) : DeviceView :=
  {| label := label d; d_name := d_name d; hashes_per_second := v; d_hashes := d_hashes d; d_accepted :=
     d_accepted d; d_rejected := d_rejected d; d_stale := d_stale d; sensors := sensors d; d_pci_bus :=
     d_pci_bus d |}.
Definition set_d_hashes (v : Z) (d : DeviceView) : DeviceView :=
  {| label := label d; d_name := d_name d; hashes_per_second := hashes_per_second d; d_hashes := v;
     d_accepted := d_accepted d; d_rejected := d_rejected d; d_stale := d_stale d; sensors := sensors d;
     d_pci_bus := d_pci_bus d |}.
Definition set_d_accepted (v : Z) (d : DeviceView) : DeviceView :=
  {| label := label d; d_name := d_name d; hashes_per_second := hashes_per_second d; d_hashes :=
     d_hashes d; d_accepted := v; d_rejected := d_rejected d; d_stale := d_stale d; sensors := sensors
     d; d_pci_bus := d_pci_bus d |}.
Definition set_d_rejected (v : Z) (d : DeviceView) : DeviceView :=
  {| label := label d; d_name := d_name d; hashes_per_second := hashes_per_second d; d_hashes :=
     d_hashes d; d_accepted := d_accepted d; d_rejected := v; d_stale := d_stale d; sensors := sensors
     d; d_pci_bus := d_pci_bus d |}.
Definition set_d_stale (v : Z) (d : DeviceView) : DeviceView :=
  {| label := label d; d_name := d_name d; hashes_per_second := hashes_per_second d; d_hashes :=
     d_hashes d; d_accepted := d_accepted d; d_rejected := d_rejected d; d_stale := v; sensors :=
     sensors d; d_pci_bus := d_pci_bus d |}.
Definition set_sensors (v : GpuReadings) (d : DeviceView) : DeviceView :=
  {| label := label d; d_name := d_name d; hashes_per_second := hashes_per_second d; d_hashes :=
     d_hashes d; d_accepted := d_accepted d; d_rejected := d_rejected d; d_stale := d_stale d; sensors
     := v; d_pci_bus := d_pci_bus d |}.

Record DashboardView := {
  coin : string; pool : string; worker : string; v_state : string; difficulty : string; elapsed :
  spec_float; hashes : Z; accepted : Z; rejected : Z; stale : Z; block_candidates : Z; v_pending :
  Z; warn_temperature : Z; alarm_temperature : Z; devices : list DeviceView; events : list Event
}.
Definition new_view : DashboardView :=
  {| coin := "BTCB2"; pool := EmptyString; worker := EmptyString; v_state := "CONNECTING";
     difficulty := "--"; elapsed := S754_zero false; hashes := 0; accepted := 0; rejected := 0;
     stale := 0; block_candidates := 0; v_pending := 0; warn_temperature := 75;
     alarm_temperature := 85; devices := []; events := [] |}.

(** Assignments to the fields of a view. *)
Definition set_pool (v : string) (w : DashboardView) : DashboardView :=
  {| coin := coin w; pool := v; worker := worker w; v_state := v_state w; difficulty := difficulty w;
     elapsed := elapsed w; hashes := hashes w; accepted := accepted w; rejected := rejected w; stale :=
     stale w; block_candidates := block_candidates w; v_pending := v_pending w; warn_temperature :=
     warn_temperature w; alarm_temperature := alarm_temperature w; devices := devices w; events :=
     events w |}.
Definition set_worker (v : string) (w : DashboardView) : DashboardView :=
  {| coin := coin w; pool := pool w; worker := v; v_state := v_state w; difficulty := difficulty w;
     elapsed := elapsed w; hashes := hashes w; accepted := accepted w; rejected := rejected w; stale :=
     stale w; block_candidates := block_candidates w; v_pending := v_pending w; warn_temperature :=
     warn_temperature w; alarm_temperature := alarm_temperature w; devices := devices w; events :=
     events w |}.
Definition set_v_state (v : string) (w : DashboardView) : DashboardView :=
  {| coin := coin w; pool := pool w; worker := worker w; v_state := v; difficulty := difficulty w;
     elapsed := elapsed w; hashes := hashes w; accepted := accepted w; rejected := rejected w; stale :=
     stale w; block_candidates := block_candidates w; v_pending := v_pending w; warn_temperature :=
     warn_temperature w; alarm_temperature := alarm_temperature w; devices := devices w; events :=
     events w |}.
Definition set_difficulty (v : string) (w : DashboardView) : DashboardView :=
  {| coin := coin w; pool := pool w; worker := worker w; v_state := v_state w; difficulty := v; elapsed
     := elapsed w; hashes := hashes w; accepted := accepted w; rejected := rejected w; stale := stale w;
     block_candidates := block_candidates w; v_pending := v_pending w; warn_temperature :=
     warn_temperature w; alarm_temperature := alarm_temperature w; devices := devices w; events :=
     events w |}.
Definition set_elapsed (v : spec_float) (w : DashboardView) : DashboardView :=
  {| coin := coin w; pool := pool w; worker := worker w; v_state := v_state w; difficulty := difficulty
     w; elapsed := v; hashes := hashes w; accepted := accepted w; rejected := rejected w; stale := stale
     w; block_candidates := block_candidates w; v_pending := v_pending w; warn_temperature :=
     warn_temperature w; alarm_temperature := alarm_temperature w; devices := devices w; events :=
     events w |}.
Definition set_hashes (v : Z) (w : DashboardView) : DashboardView :=
  {| coin := coin w; pool := pool w; worker := worker w; v_state := v_state w; difficulty := difficulty
     w; elapsed := elapsed w; hashes := v; accepted := accepted w; rejected := rejected w; stale :=
     stale w; block_candidates := block_candidates w; v_pending := v_pending w; warn_temperature :=
     warn_temperature w; alarm_temperature := alarm_temperature w; devices := devices w; events :=
     events w |}.
Definition set_accepted (v : Z) (w : DashboardView) : DashboardView :=
  {| coin := coin w; pool := pool w; worker := worker w; v_state := v_state w; difficulty := difficulty
     w; elapsed := elapsed w; hashes := hashes w; accepted := v; rejected := rejected w; stale := stale
     w; block_candidates := block_candidates w; v_pending := v_pending w; warn_temperature :=
     warn_temperature w; alarm_temperature := alarm_temperature w; devices := devices w; events :=
     events w |}.
Definition set_rejected (v : Z) (w : DashboardView) : DashboardView :=
  {| coin := coin w; pool := pool w; worker := worker w; v_state := v_state w; difficulty := difficulty
     w; elapsed := elapsed w; hashes := hashes w; accepted := accepted w; rejected := v; stale := stale
     w; block_candidates := block_candidates w; v_pending := v_pending w; warn_temperature :=
     warn_temperature w; alarm_temperature := alarm_temperature w; devices := devices w; events :=
     events w |}.
Definition set_stale (v : Z) (w : DashboardView) : DashboardView :=
  {| coin := coin w; pool := pool w; worker := worker w; v_state := v_state w; difficulty := difficulty
     w; elapsed := elapsed w; hashes := hashes w; accepted := accepted w; rejected := rejected w; stale
     := v; block_candidates := block_candidates w; v_pending := v_pending w; warn_temperature :=
     warn_temperature w; alarm_temperature := alarm_temperature w; devices := devices w; events :=
     events w |}.
Definition set_block_candidates (v : Z) (w : DashboardView) : DashboardView :=
  {| coin := coin w; pool := pool w; worker := worker w; v_state := v_state w; difficulty := difficulty
     w; elapsed := elapsed w; hashes := hashes w; accepted := accepted w; rejected := rejected w; stale
     := stale w; block_candidates := v; v_pending := v_pending w; warn_temperature := warn_temperature
     w; alarm_temperature := alarm_temperature w; devices := devices w; events := events w |}.
Definition set_v_pending (v : Z) (w : DashboardView) : DashboardView :=
  {| coin := coin w; pool := pool w; worker := worker w; v_state := v_state w; difficulty := difficulty
     w; elapsed := elapsed w; hashes := hashes w; accepted := accepted w; rejected := rejected w; stale
     := stale w; block_candidates := block_candidates w; v_pending := v; warn_temperature :=
     warn_temperature w; alarm_temperature := alarm_temperature w; devices := devices w; events :=
     events w |}.
Definition set_warn_temperature (v : Z) (w : DashboardView) : DashboardView :=
  {| coin := coin w; pool := pool w; worker := worker w; v_state := v_state w; difficulty := difficulty
     w; elapsed := elapsed w; hashes := hashes w; accepted := accepted w; rejected := rejected w; stale
     := stale w; block_candidates := block_candidates w; v_pending := v_pending w; warn_temperature :=
     v; alarm_temperature := alarm_temperature w; devices := devices w; events := events w |}.
Definition set_alarm_temperature (v : Z) (w : DashboardView) : DashboardView :=
  {| coin := coin w; pool := pool w; worker := worker w; v_state := v_state w; difficulty := difficulty
     w; elapsed := elapsed w; hashes := hashes w; accepted := accepted w; rejected := rejected w; stale
     := stale w; block_candidates := block_candidates w; v_pending := v_pending w; warn_temperature :=
     warn_temperature w; alarm_temperature := v; devices := devices w; events := events w |}.
Definition set_devices (v : list DeviceView) (w : DashboardView) : DashboardView :=
  {| coin := coin w; pool := pool w; worker := worker w; v_state := v_state w; difficulty := difficulty
     w; elapsed := elapsed w; hashes := hashes w; accepted := accepted w; rejected := rejected w; stale
     := stale w; block_candidates := block_candidates w; v_pending := v_pending w; warn_temperature :=
     warn_temperature w; alarm_temperature := alarm_temperature w; devices := v; events := events w |}.
Definition set_events (v : list Event) (w : DashboardView) : DashboardView :=
  {| coin := coin w; pool := pool w; worker := worker w; v_state := v_state w; difficulty := difficulty
     w; elapsed := elapsed w; hashes := hashes w; accepted := accepted w; rejected := rejected w; stale
     := stale w; block_candidates := block_candidates w; v_pending := v_pending w; warn_temperature :=
     warn_temperature w; alarm_temperature := alarm_temperature w; devices := devices w; events := v |}.

(** ** [console_safe] *)

Definition safe_byte (c : byte) : Bytes :=
  if (32 <=? b2z c) && (b2z c <? 127) then [c] else if 128 <=? b2z c then [x3f] else [].
Definition console_bytes (s : Bytes) : Bytes := flat_map safe_byte s.
Definition console_safe (s : string) : string :=
  String.string_of_list_byte (console_bytes (String.list_byte_of_string s)).

(** ** The log *)

(** [view] and [queued] of [Dashboard::Impl]. *)
Record Board := { shown : DashboardView; queued : list Event }.
Definition new_board : Board := {| shown := new_view; queued := [] |}.

Definition pop_over {A} (bound : nat) (l : list A) : list A :=
  if (bound <? length l)%nat then tail l else l.

(** [Dashboard::event]; [stamp] is the local time as text. *)
Definition event (stamp message : string) (s : Severity) (b : Board) : Board :=
  let e := {| ev_time := stamp; message := console_safe message; severity := s |} in
  {| shown := set_events (pop_over 200 (events (shown b) ++ [e])) (shown b);
     queued := pop_over 1000 (queued b ++ [e]) |}.

(** [Dashboard::update]: the events stay. *)
Definition update (v : DashboardView) (b : Board) : Board :=
  {| shown := set_events (events (shown b)) v; queued := queued b |}.

(** The display thread takes the queue. *)
Definition drain (b : Board) : Board * list Event :=
  ({| shown := shown b; queued := [] |}, queued b).

(** ** Properties of the log *)

Definition printable (c : byte) : Prop := 32 ≤ b2z c < 127.

Lemma console_printable s : Forall printable (console_bytes s).
Proof.
  unfold console_bytes. induction s as [|c s IH]; [constructor|]. cbn [flat_map].
  apply Forall_app. split; [|done]. unfold safe_byte.
  destruct (_ && _) eqn:E; [constructor; [|constructor]; unfold printable; bool_lia|].
  destruct (128 <=? b2z c); constructor; [|constructor]. split; vm_compute; congruence.
Qed.

Lemma console_safe_id s : Forall printable s → console_bytes s = s.
Proof.
  induction 1 as [|c s Hc _ IH]; [done|]. unfold console_bytes in *. cbn [flat_map]. rewrite IH.
  unfold safe_byte. replace (_ && _) with true; [done|]. symmetry.
  apply andb_true_iff. unfold printable in Hc. split; [apply Z.leb_le|apply Z.ltb_lt]; lia.
Qed.

(** The last [n] elements. *)
Definition latest {A} (n : nat) (l : list A) : list A := drop (length l - n) l.

Lemma pop_over_latest {A} n (l : list A) x : (0 < n)%nat →
  pop_over n (latest n l ++ [x]) = latest n (l ++ [x]).
Proof.
  intros Hn. unfold pop_over, latest. rewrite !length_app, length_drop. cbn [length].
  destruct (Nat.ltb_spec n (length l - (length l - n) + 1)).
  - replace (tail _) with (drop 1 (drop (length l - n) l ++ [x])) by (by destruct (_ ++ _)).
    rewrite drop_app_le by (rewrite length_drop; lia). rewrite drop_drop.
    rewrite drop_app_le by lia. f_equal. f_equal. lia.
  - rewrite drop_app_le by lia. f_equal. f_equal. lia.
Qed.

(** The display thread and the miner on one board: what happens to it, and the
    lines the display thread has taken. *)
Inductive board_op :=
| Log (stamp message : string) (s : Severity)
| Publish (v : DashboardView)
| Drain.
Fixpoint board_run (ops : list board_op) (b : Board) : Board * list Event :=
  match ops with
  | [] => (b, [])
  | Log stamp message s :: ops => board_run ops (event stamp message s b)
  | Publish v :: ops => board_run ops (update v b)
  | Drain :: ops =>
      let '(b, taken) := drain b in
      let '(b, lines) := board_run ops b in (b, taken ++ lines)
  end.

Definition entry (stamp message : string) (s : Severity) : Event :=
  {| ev_time := stamp; message := console_safe message; severity := s |}.
(** The events logged, one list from each drain to the next. *)
Fixpoint spans (sofar : list Event) (ops : list board_op) : list (list Event) :=
  match ops with
  | [] => [sofar]
  | Log stamp message s :: ops => spans (sofar ++ [entry stamp message s]) ops
  | Publish _ :: ops => spans sofar ops
  | Drain :: ops => sofar :: spans [] ops
  end.
(** The view published last. *)
Definition published (ops : list board_op) (v : DashboardView) : DashboardView :=
  fold_left (λ v op, match op with Publish v' => v' | _ => v end) ops v.

Lemma set_events_events l k v : set_events l (set_events k v) = set_events l v.
Proof. by destruct v. Qed.

Lemma board_run_spans ops pre sofar b :
  events (shown b) = latest 200 (pre ++ sofar) → queued b = latest 1000 sofar →
  let '(b', lines) := board_run ops b in
  lines ++ queued b' = concat (latest 1000 <$> spans sofar ops) ∧
  events (shown b') = latest 200 (pre ++ concat (spans sofar ops)) ∧
  set_events [] (shown b') = set_events [] (published ops (shown b)).
Proof.
  revert pre sofar b. induction ops as [|[stamp m s|v|] ops IH]; intros pre sofar b He Hq.
  - cbn [board_run spans fmap list_fmap concat published fold_left]. rewrite !app_nil_r. by split_and!.
  - specialize (IH pre (sofar ++ [entry stamp m s]) (event stamp m s b)). cbn [board_run spans].
    destruct (board_run ops (event stamp m s b)) as [b' lines].
    destruct IH as (-> & -> & Hv).
    + cbn [event shown]. change (events (set_events ?l _)) with l. rewrite He, app_assoc.
      apply pop_over_latest. lia.
    + cbn [event queued]. rewrite Hq. apply pop_over_latest. lia.
    + split_and!; [done..|]. rewrite Hv. unfold published. cbn [fold_left event shown].
      clear. generalize (shown b). induction ops as [|[] ops IH]; intros d; cbn [fold_left]; [|auto..].
      apply set_events_events.
  - specialize (IH pre sofar (update v b)). cbn [board_run spans].
    destruct (board_run ops (update v b)) as [b' lines].
    destruct IH as (-> & -> & Hv); [exact He|exact Hq|]. split_and!; [done..|].
    rewrite Hv. unfold published. cbn [fold_left update shown].
    clear. revert v. induction ops as [|[] ops IH]; intros d; cbn [fold_left]; [|auto..].
    apply set_events_events.
  - specialize (IH (pre ++ sofar) [] {| shown := shown b; queued := [] |}). cbn [board_run drain spans].
    destruct (board_run ops _) as [b' lines].
    destruct IH as (Hl & -> & Hv); [by rewrite app_nil_r|done|].
    rewrite fmap_cons. cbn [concat]. rewrite <-Hl, <-Hq, !app_assoc. by split_and!.
Qed.

Lemma spans_printable ops sofar :
  Forall (λ e, Forall printable (String.list_byte_of_string (message e))) sofar →
  Forall (λ e, Forall printable (String.list_byte_of_string (message e))) (concat (spans sofar ops)).
Proof.
  revert sofar. induction ops as [|[stamp m s|v|] ops IH]; intros sofar H; cbn [spans concat].
  - by rewrite app_nil_r.
  - apply IH, Forall_app. split; [done|]. constructor; [|constructor].
    cbn [entry message]. unfold console_safe.
    rewrite String.list_byte_of_string_of_list_byte. apply console_printable.
  - auto.
  - apply Forall_app. auto.
Qed.

(** The log keeps what it promises, whatever the order of events, updates and
    drains: the view shows the last 200 events and otherwise the view published
    last; what the display thread has taken and what still waits are, for each
    stretch between two drains, its last 1000 events, so every event in order when
    no stretch is longer; and no message holds a control character. *)
Theorem log_exact ops :
  let '(b, lines) := board_run ops new_board in
  lines ++ queued b = concat (latest 1000 <$> spans [] ops) ∧
  events (shown b) = latest 200 (concat (spans [] ops)) ∧
  set_events [] (shown b) = set_events [] (published ops new_view) ∧
  (Forall (λ l, Z.of_nat (length l) ≤ 1000) (spans [] ops) → lines ++ queued b = concat (spans [] ops)) ∧
  Forall (λ e, Forall printable (String.list_byte_of_string (message e))) (concat (spans [] ops)).
Proof.
  pose proof (board_run_spans ops [] [] new_board eq_refl eq_refl) as H.
  destruct (board_run ops new_board) as [b lines]. destruct H as (Hl & He & Hv).
  split_and!; [done..| |by apply spans_printable; constructor].
  intros Hs. rewrite Hl. f_equal. rewrite <-(list_fmap_id (spans [] ops)) at 2.
  apply Forall_fmap_ext_1. eapply Forall_impl; [exact Hs|].
  cbn beta. intros l Hle. unfold latest. replace (length l - 1000)%nat with 0%nat by lia. apply drop_0.
Qed.
