(* ===== verification/Render.v ===== *)
(** * The dashboard as text

    [render_dashboard] of src/src/ui/dashboard.cpp, which draws a view on a grid
    of characters and turns it into terminal output, the formatting helpers
    above it, and what the display thread does with a view and the queued
    events.  Reading the keyboard and the window size, and writing the output,
    are the caller's. *)
From Stdlib Require Import SpecFloat.
From S2P Require Import Prelude Words Json Amd View.

(** ** Numbers as text *)

(** [n / d] to the nearest integer, ties to even. *)
Definition half_even (n d : Z) : Z :=
  let q := n / d in let r := n mod d in
  if 2 * r <? d then q else if d <? 2 * r then q + 1 else if Z.even q then q else q + 1.
(** [std::setw(width)] with the fill character [0]. *)
Definition pad (width : nat) (s : string) : string :=
  String.string_of_list_byte (replicate (width - String.length s) x30) +:+ s.
(** [n / 10^p] with [p] digits after the point. *)
Definition fixed_text (p : nat) (n : Z) : string :=
  if (p =? 0)%nat then pretty n
  else pretty (n / 10 ^ Z.of_nat p) +:+ "." +:+ pad p (pretty (n mod 10 ^ Z.of_nat p)).
Definition scaled (p : nat) (m : positive) (e : Z) : Z :=
  if 0 <=? e then Z.pos m * 2 ^ e * 10 ^ Z.of_nat p
  else half_even (Z.pos m * 10 ^ Z.of_nat p) (2 ^ (- e)).
(** [std::fixed] with a precision prints the rounded exact value. *)
Definition decimal (n : spec_float) (precision : nat) : string :=
  let sign (s : bool) := if s then "-"%string else EmptyString in
  match n with
  | S754_zero s => sign s +:+ fixed_text precision 0
  | S754_finite s m e => sign s +:+ fixed_text precision (scaled precision m e)
  | S754_infinity s => sign s +:+ "inf"
  | S754_nan => "nan"
  end.

Definition thousand : spec_float := f64_of_Z 1000.
Fixpoint rate_loop (unit : string) (units : list string) (n : spec_float) : string :=
  match units with
  | u :: units =>
      if SFleb thousand n then rate_loop u units (SFdiv 53 1024 n thousand)
      else decimal n 2 +:+ " " +:+ unit
  | [] => decimal n 2 +:+ " " +:+ unit
  end.
Definition rate (n : spec_float) : string := rate_loop "H/s" ["KH/s"; "MH/s"; "GH/s"; "TH/s"]%string n.

(** [uint64_t(f)] of a non-negative double in range. *)
Definition to_uint (f : spec_float) : Z :=
  match f with
  | S754_finite false m e => if 0 <=? e then Z.pos m * 2 ^ e else Z.pos m / 2 ^ (- e)
  | _ => 0
  end.
Definition duration (seconds : spec_float) : string :=
  let n := to_uint (if SFltb (S754_zero false) seconds then seconds else S754_zero false) in
  pad 2 (pretty (n / 3600)) +:+ ":" +:+ pad 2 (pretty ((n / 60) mod 60)) +:+ ":" +:+ pad 2 (pretty (n mod 60)).
Definition value (n : option Z) (unit : string) : string :=
  match n with Some n => pretty n +:+ unit | None => "--" end.
Definition watts_text (w : option spec_float) (precision : nat) : string :=
  match w with Some w => decimal w precision +:+ "W" | None => "--" end.

(** ** The grid *)

Inductive Color := dim | green | bright | cyan | yellow | red | alarm.
#[export] Instance Color_eq_dec : EqDecision Color.
Proof. solve_decision. Defined.
Record Cell := { c : byte; color : Color }.
Definition blank : Cell := {| c := x20; color := dim |}.
#[export] Instance cell_inhabited : Inhabited Cell := populate blank.

Section drawing.
Variables width height : Z.

(** The loop of [put]: [count] characters are written, the next goes to column [x]. *)
Fixpoint put_loop (cs : Bytes) (count x y : Z) (col : Color) (maximum : Z) (g : list Cell) : list Cell :=
  match cs with
  | [] => g
  | ch :: cs =>
      if (maximum <=? count) || (width <=? x) then g
      else put_loop cs (count + 1) (x + 1) y col maximum
             (if 0 <=? x then <[Z.to_nat (y * width + x) := {| c := ch; color := col |}]> g else g)
  end.
Definition put (x y : Z) (text : string) (col : Color) (maximum : Z) (g : list Cell) : list Cell :=
  if (y <? 0) || (height <=? y) then g
  else put_loop (console_bytes (bytes_of text)) 0 x y col maximum g.

(** One drawing after the other. *)
Definition draw (steps : list (list Cell → list Cell)) (g : list Cell) : list Cell := fold_left (λ g f, f g) steps g.

Definition dashes (n : Z) : string := String.string_of_list_byte (replicate (Z.to_nat n) x2d).
Definition box (x y w h : Z) (title : string) (g : list Cell) : list Cell :=
  if (w <? 2) || (h <? 2) then g
  else
    let edge := "+" +:+ dashes (w - 2) +:+ "+" in
    let side (j : Z) := draw [put x (y + j) "|" dim 1000; put (x + w - 1) (y + j) "|" dim 1000] in
    draw ([put x y edge dim 1000; put x (y + h - 1) edge dim 1000] ++
          (side <$> seqZ 1 (h - 2)) ++
          [put (x + 2) y (" " +:+ title +:+ " ") bright (w - 4)]) g.

(** ** The small screen *)

Definition hot (v : DashboardView) (d : DeviceView) : bool :=
  match temperature (sensors d) with Some t => alarm_temperature v <=? t | None => false end.
Definition warm (v : DashboardView) (d : DeviceView) : bool :=
  match temperature (sensors d) with Some t => warn_temperature v <=? t | None => false end.
(** [(uint64_t(tick * 4) & 1) == 0] *)
Definition blink (tick : spec_float) : bool := Z.even (to_uint (SFmul 53 1024 tick (f64_of_Z 4))).

Fixpoint small_devices (v : DashboardView) (tick : spec_float) (y : Z) (ds : list DeviceView) (g : list Cell) : list Cell :=
  match ds with
  | [] => g
  | d :: ds =>
      if height - 1 <=? y then g
      else small_devices v tick (y + 1) ds
        (put 1 y (label d +:+ " " +:+ rate (hashes_per_second d) +:+ " " +:+ value (temperature (sensors d)) "C" +:+
                  (if hot v d && blink tick then " ALARM" else EmptyString))
           (if hot v d then red else green) 1000 g)
  end.
Definition small (v : DashboardView) (tick : spec_float) : list Cell → list Cell :=
  draw [put 1 0 ("SUPRYOLO // " +:+ coin v) bright 1000;
        put 1 1 (v_state v +:+ "  " +:+ duration (elapsed v)) cyan 1000;
        put 1 2 ("A " +:+ pretty (accepted v) +:+ " R " +:+ pretty (rejected v) +:+ " S " +:+ pretty (stale v))
          green 1000;
        small_devices v tick 3 (devices v);
        put 0 (height - 1) "Resize >=76x23 | q quit" dim width].

(** ** The full screen *)

Definition top : Z := 9.
Definition log_h : Z := Z.max 7 (height / 3).
Definition log_y : Z := height - log_h - 1.
Definition devices_h : Z := log_y - top.
Definition left : Z := Z.max 38 (width * 45 / 100).

Definition logo : list string :=
  ["  ____  _   _ ____  ____  "; " / ___|| | | |  _ \|  _ \ "; " \___ \| | | | |_) | |_) |";
   "  ___) | |_| |  __/|  _ < "; " |____/ \___/|_|   |_| \_\"; "       Y O L O  //  01"]%string.
Definition draw_logo : list Cell → list Cell :=
  let lx := left + Z.max 2 ((width - left - 29) / 2) in
  draw (imap (λ i line, put lx (1 + Z.of_nat i) line (if (i =? 5)%nat then cyan else bright) (width - left - 3)) logo).
Definition rain (tick : spec_float) : string :=
  String.string_of_list_byte
    ((λ i, if Z.rem (i * 17 + float_trunc 32 (SFmul 53 1024 tick (f64_of_Z 3))) 13 <? 6 then x30 else x31) <$>
     seqZ 0 (width - left - 4)).

Definition link_box (v : DashboardView) : list Cell → list Cell :=
  draw [put 2 1 (v_state v +:+ "  UP " +:+ duration (elapsed v))
          (if bool_decide (v_state v = "MINING") then bright else yellow) (left - 4);
        put 2 2 (pool v) cyan (left - 4);
        put 2 3 ("Worker " +:+ worker v) dim (left - 4);
        put 2 4 ("Accepted " +:+ pretty (accepted v) +:+ "  Rejected " +:+ pretty (rejected v)) bright (left - 4);
        put 2 5 ("Stale " +:+ pretty (stale v) +:+ "  Pending " +:+ pretty (v_pending v)) green (left - 4);
        put 2 6 ("Difficulty " +:+ difficulty v) cyan (left - 4);
        put 2 7 ("Block candidates " +:+ pretty (block_candidates v)) green (left - 4)].

(** One line of the device table. *)
Definition device_line (v : DashboardView) (tick : spec_float) (y : Z) (d : DeviceView) : list Cell → list Cell :=
  let s := sensors d in
  let col := if hot v d then red else if warm v d then yellow else bright in
  draw [put 2 y (label d) col 7;
        put 10 y (rate (hashes_per_second d)) bright 13;
        put 24 y (value (temperature s) "C") col 5;
        put 30 y (value (fan_percent s) "%") green 5;
        put 36 y (value (core_mhz s) EmptyString) green 6;
        put 43 y (value (memory_mhz s) EmptyString) green 6;
        put 50 y (watts_text (watts s) 0) green 8;
        put 59 y (pretty (d_accepted d) +:+ "/" +:+ pretty (d_rejected d)) green 9;
        if hot v d then if blink tick then put (width - 8) y " ALARM " alarm 7 else id
        else if 100 <=? width then put 70 y (d_name d) dim (width - 72)
        else if warm v d then put (width - 7) y "WARM" yellow 5
        else id].

Definition visible : nat := Z.to_nat (Z.max 0 (devices_h - 3)).
(** [offset] after the check against the number of devices. *)
Definition first_device (v : DashboardView) (offset : Z) : Z :=
  if Z.of_nat (length (devices v)) <=? offset then 0 else offset.
Definition device_table (v : DashboardView) (tick : spec_float) (offset : Z) : list Cell → list Cell :=
  let offset := first_device v offset in
  draw (imap (λ i d, device_line v tick (top + 2 + Z.of_nat i) d)
          (take visible (drop (Z.to_nat offset) (devices v))) ++
        [if (visible <? length (devices v))%nat then
           put (width - 29) (top + devices_h - 1)
             (" j/k scroll " +:+ pretty (offset + 1) +:+ "/" +:+ pretty (Z.of_nat (length (devices v))) +:+ " ") cyan 27
         else id]).

Definition severity_color (s : Severity) : Color :=
  match s with error_severity => red | warning => yellow | success => bright | info => green end.
Definition event_list (v : DashboardView) : list Cell → list Cell :=
  draw (imap (λ i e, put 2 (log_y + 1 + Z.of_nat i) (ev_time e +:+ " " +:+ message e)
                       (severity_color (severity e)) (width - 4))
          (latest (Z.to_nat (log_h - 2)) (events v))).

Definition total_rate (v : DashboardView) : spec_float :=
  fold_left (λ t d, SFadd 53 1024 t (hashes_per_second d)) (devices v) (S754_zero false).
Definition full (v : DashboardView) (tick : spec_float) (offset : Z) : list Cell → list Cell :=
  draw [box 0 0 left top ("LINK // " +:+ coin v); box left 0 (width - left) top "SUPRYOLO // 0.2.1";
        link_box v; draw_logo; put (left + 2) 7 (rain tick) dim 1000;
        box 0 top width devices_h ("DEVICES // " +:+ rate (total_rate v));
        put 2 (top + 1) "DEVICE  RATE          TEMP  FAN   CORE   MEM    POWER     A/R" cyan 1000;
        device_table v tick offset; box 0 log_y width log_h "EVENT STREAM"; event_list v;
        put 1 (height - 1) "q quit | j/k devices | clocks MHz | power W | block candidates are unconfirmed"
          dim (width - 2)].
Definition layout (v : DashboardView) (tick : spec_float) (offset : Z) : list Cell :=
  (if (width <? 76) || (height <? 23) then small v tick else full v tick offset)
    (replicate (Z.to_nat (width * height)) blank).

(** ** The output *)

Definition cell_at (g : list Cell) (x y : Z) : Cell := g !!! Z.to_nat (y * width + x).
Definition row (g : list Cell) (y : Z) : list Cell := (λ x, cell_at g x y) <$> seqZ 0 width.
End drawing.

Definition sgr (col : Color) : string :=
  match col with
  | dim | green => "[0;32;40m"
  | bright => "[0;1;92;40m"
  | cyan => "[0;1;96;40m"
  | yellow => "[0;1;93;40m"
  | red => "[0;1;91;40m"
  | alarm => "[1;97;41m"
  end.
Definition esc (s : string) : Bytes := x1b :: bytes_of s.

Fixpoint emit_row (cells : list Cell) (last : Color) : Bytes * Color :=
  match cells with
  | [] => ([], last)
  | x :: cells =>
      let '(out, final) := emit_row cells (color x) in
      ((if bool_decide (color x = last) then [] else esc (sgr (color x))) ++ [c x] ++ out, final)
  end.
Fixpoint emit_rows (rows : list (list Cell)) (last : Color) : Bytes :=
  match rows with
  | [] => []
  | [r] => (emit_row r last).1
  | r :: rows => let '(out, last) := emit_row r last in out ++ [x0d; x0a] ++ emit_rows rows last
  end.

Definition clamp (v lo hi : Z) : Z := if v <? lo then lo else if hi <? v then hi else v.
Definition render_dashboard (v : DashboardView) (width height : Z) (tick : spec_float) (offset : Z) : Bytes :=
  let width := clamp width 20 500 in
  let height := clamp height 5 200 in
  let g := layout width height v tick offset in
  esc "[H" ++ emit_rows (row width g <$> seqZ 0 height) alarm ++ esc "[0m".

(** ** The display thread *)

(** The lines of the log file and of the plain output. *)
Definition log_line (e : Event) : string := ev_time e +:+ " " +:+ console_safe (message e).
(** The summary printed every ten seconds without a terminal. *)
Definition summary (v : DashboardView) : list string :=
  ("Total " +:+ rate (if SFltb (S754_zero false) (elapsed v)
                      then SFdiv 53 1024 (f64_of_Z (hashes v)) (elapsed v) else S754_zero false) +:+
   " accepted=" +:+ pretty (accepted v) +:+ " rejected=" +:+ pretty (rejected v) +:+
   " stale=" +:+ pretty (stale v)) ::
  ((λ d, "  " +:+ label d +:+ " " +:+ rate (hashes_per_second d) +:+
         " temp=" +:+ value (temperature (sensors d)) "C" +:+ " fan=" +:+ value (fan_percent (sensors d)) "%" +:+
         " core=" +:+ value (core_mhz (sensors d)) EmptyString +:+ " mem=" +:+ value (memory_mhz (sensors d)) EmptyString +:+
         " power=" +:+ watts_text (watts (sensors d)) 1) <$> devices v).

(** What the thread keeps between rounds. *)
Record Display := { quit : bool; offset : Z; last_summary : Z }.
Definition press (d : Display) (key : byte) : Display :=
  {| quit := quit d || bool_decide (key = x71) || bool_decide (key = x51);
     offset := if bool_decide (key = x6a) then (offset d + 1) mod 2 ^ 64
               else if bool_decide (key = x6b) && negb (offset d =? 0) then offset d - 1 else offset d;
     last_summary := last_summary d |}.
(** One round: the board after the queue was taken, the log file's lines, the
    terminal output or the plain lines. *)
Inductive output := Screen (b : Bytes) | Lines (l : list string).
Definition display_round (active : bool) (keys : Bytes) (width height : Z) (tick : spec_float) (now : Z)
    (b : Board) (d : Display) : Board * Display * list string * output :=
  let '(b', lines) := drain b in
  let copy := shown b in
  let logged := log_line <$> lines in
  if active then
    let d := fold_left press keys d in
    (b', d, logged, Screen (render_dashboard copy width height tick (offset d)))
  else if 10000000000 <=? now - last_summary d then
    (b', {| quit := quit d; offset := offset d; last_summary := now |}, logged, Lines (logged ++ summary copy))
  else (b', d, logged, Lines logged).

(** ** A terminal *)

(** What a terminal makes of its input: the characters shown and the control
    sequences obeyed, from the introducer to their final byte. *)
Inductive tstate := Plain | Escape | Csi (sofar : Bytes).
Fixpoint terminal (st : tstate) (s : Bytes) : Bytes * list Bytes :=
  match s with
  | [] => ([], [])
  | ch :: s =>
      match st with
      | Plain =>
          if bool_decide (ch = x1b) then terminal Escape s
          else let '(t, k) := terminal Plain s in (ch :: t, k)
      | Escape =>
          if bool_decide (ch = x5b) then terminal (Csi [ch]) s
          else let '(t, k) := terminal Plain s in (t, [ch] :: k)
      | Csi sofar =>
          if (64 <=? b2z ch) && (b2z ch <=? 126) then
            let '(t, k) := terminal Plain s in (t, (sofar ++ [ch]) :: k)
          else terminal (Csi (sofar ++ [ch])) s
      end
  end.
(** Home, reset and the colours. *)
Definition known_controls : list Bytes :=
  bytes_of <$> (["[H"; "[0m"]%string ++ (sgr <$> [dim; green; bright; cyan; yellow; red; alarm])).
Fixpoint join (rows : list Bytes) : Bytes :=
  match rows with [] => [] | [r] => r | r :: rows => r ++ [x0d; x0a] ++ join rows end.

Lemma terminal_esc code s : bytes_of code ∈ known_controls →
  terminal Plain (esc code ++ s) = ((terminal Plain s).1, bytes_of code :: (terminal Plain s).2).
Proof.
  assert (Forall (λ k, ∀ s, terminal Plain ((x1b :: k) ++ s) = ((terminal Plain s).1, k :: (terminal Plain s).2))
    known_controls) as H.
  { unfold known_controls. repeat constructor; intros s'; cbn; by destruct (terminal Plain s'). }
  intros Hk. rewrite Forall_forall in H. exact (H _ Hk s).
Qed.

Lemma known_sgr col : bytes_of (sgr col) ∈ known_controls.
Proof. destruct col; vm_compute; repeat constructor. Qed.

Lemma terminal_char ch s : printable ch ∨ ch = x0d ∨ ch = x0a →
  terminal Plain (ch :: s) = (ch :: (terminal Plain s).1, (terminal Plain s).2).
Proof.
  intros Hc. cbn [terminal]. rewrite bool_decide_eq_false_2.
  - by destruct (terminal Plain s).
  - intros ->. unfold printable in Hc. destruct Hc as [Hc|[Hc|Hc]]; [|done..]. vm_compute in Hc. naive_solver.
Qed.

Lemma terminal_row cells last s : Forall (λ x, printable (c x)) cells →
  ∃ codes, Forall (.∈ known_controls) codes ∧
  terminal Plain ((emit_row cells last).1 ++ s) =
    ((c <$> cells) ++ (terminal Plain s).1, codes ++ (terminal Plain s).2).
Proof.
  intros Hc. revert last. induction Hc as [|x cells Hx _ IH]; intros last.
  { exists []. split; [constructor|]. cbn. by destruct (terminal Plain s). }
  cbn [emit_row]. destruct (IH (color x)) as (codes & Hk & IHt).
  destruct (emit_row cells (color x)) as [out final]. cbn [fst] in IHt |- *. rewrite fmap_cons.
  assert (terminal Plain (([c x] ++ out) ++ s) =
    ((c x :: (c <$> cells)) ++ (terminal Plain s).1, codes ++ (terminal Plain s).2)) as Hrest.
  { change (([c x] ++ out) ++ s) with (c x :: (out ++ s)). rewrite terminal_char by (by left). by rewrite IHt. }
  case_bool_decide.
  - by exists codes.
  - exists (bytes_of (sgr (color x)) :: codes). split; [constructor; [apply known_sgr|done]|].
    rewrite <-app_assoc, terminal_esc by apply known_sgr. by rewrite Hrest.
Qed.

Lemma terminal_rows rows last s : Forall (Forall (λ x, printable (c x))) rows →
  ∃ codes, Forall (.∈ known_controls) codes ∧
  terminal Plain (emit_rows rows last ++ s) =
    (join (map c <$> rows) ++ (terminal Plain s).1, codes ++ (terminal Plain s).2).
Proof.
  intros Hr. revert last. induction Hr as [|r rows Hr Hrs IH]; intros last.
  { exists []. split; [constructor|]. cbn. by destruct (terminal Plain s). }
  destruct rows as [|r' rows].
  { destruct (terminal_row r last s Hr) as (codes & Hk & Ht). exists codes. split; [done|exact Ht]. }
  change (emit_rows (r :: r' :: rows) last) with
    (let '(out, last) := emit_row r last in out ++ [x0d; x0a] ++ emit_rows (r' :: rows) last).
  destruct (emit_row r last) as [out last'] eqn:E.
  destruct (IH last') as (codes' & Hk' & Ht').
  destruct (terminal_row r last (x0d :: x0a :: (emit_rows (r' :: rows) last' ++ s)) Hr) as (codes & Hk & Ht).
  exists (codes ++ codes'). split; [by apply Forall_app|].
  rewrite E in Ht. cbn [fst] in Ht. rewrite <-!app_assoc. cbn [app]. rewrite Ht.
  rewrite !terminal_char by auto. rewrite Ht'. cbn [fst snd fmap list_fmap join]. by rewrite <-!app_assoc.
Qed.

(** ** Drawing stays on the grid *)

Section sound.
Context (width height : Z).

Definition grid_ok (g : list Cell) : Prop :=
  length g = Z.to_nat (width * height) ∧ Forall (λ x, printable (c x)) g.
(** A drawing that keeps the grid a grid of printable characters. *)
Class Sound (f : list Cell → list Cell) : Prop := sound g : grid_ok g → grid_ok (f g).

#[export] Instance sound_id : Sound id.
Proof. by intros g. Qed.

Lemma sound_if (b : bool) f g : Sound f → Sound g → Sound (if b then f else g).
Proof. by destruct b. Qed.

Lemma put_loop_ok cs count x y col maximum g : Forall printable cs → grid_ok g →
  grid_ok (put_loop width cs count x y col maximum g).
Proof.
  intros Hcs. revert count x g. induction Hcs as [|ch cs Hch _ IH]; intros count x g Hg; [done|].
  cbn [put_loop]. destruct (_ || _); [done|]. apply IH. destruct (0 <=? x); [|done].
  destruct Hg as [Hl Hg]. split; [by rewrite length_insert|]. by apply Forall_insert.
Qed.

#[export] Instance sound_put x y text col maximum : Sound (put width height x y text col maximum).
Proof.
  intros g Hg. unfold put. destruct (_ || _); [done|]. apply put_loop_ok; [apply console_printable|done].
Qed.

Lemma sound_draw steps : Forall Sound steps → Sound (draw steps).
Proof. intros Hs g Hg. revert g Hg. induction Hs as [|f steps Hf _ IH]; intros g Hg; [done|]. apply IH, Hf, Hg. Qed.

Ltac sound :=
  repeat match goal with
  | |- Sound (draw _) => apply sound_draw
  | |- Sound (if _ then _ else _) => apply sound_if
  | |- Sound _ => apply _
  | |- Forall Sound (_ ++ _) => apply Forall_app; split
  | |- Forall Sound (_ :: _) => constructor
  | |- Forall Sound [] => constructor
  | |- Forall Sound (_ <$> _) => apply Forall_fmap, Forall_true; intros ?; cbn beta; unfold compose
  | |- Forall Sound (imap _ _) =>
      apply Forall_forall; intros ? (? & ? & -> & _)%elem_of_lookup_imap; cbn beta
  end.

#[export] Instance sound_box x y w h title : Sound (box width height x y w h title).
Proof. unfold box. intros g Hg. destruct (_ || _); [done|]. apply sound_draw; [sound|done]. Qed.

Lemma sound_small_devices v tick y ds : Sound (small_devices width height v tick y ds).
Proof.
  intros g Hg. revert y g Hg. induction ds as [|d ds IH]; intros y g Hg; [done|]. cbn [small_devices].
  destruct (_ <=? y); [done|]. by apply IH, sound_put.
Qed.

Lemma layout_ok v tick offset : grid_ok (layout width height v tick offset).
Proof.
  assert (grid_ok (replicate (Z.to_nat (width * height)) blank)) as H0.
  { split; [apply length_replicate|]. apply Forall_replicate. split; vm_compute; congruence. }
  unfold layout. destruct (_ || _).
  - unfold small. apply sound_draw; [|exact H0]. pose proof (sound_small_devices v tick 3 (devices v)). sound.
  - unfold full. apply sound_draw; [|exact H0].
    unfold link_box, draw_logo, device_table, device_line, event_list. sound.
Qed.

Lemma row_ok g y : 0 < width → grid_ok g → 0 ≤ y < height →
  length (row width g y) = Z.to_nat width ∧ Forall (λ x, printable (c x)) (row width g y).
Proof.
  intros Hw [Hl Hg] Hy. unfold row. split; [by rewrite length_fmap, length_seqZ|].
  apply Forall_fmap, Forall_forall. intros x Hx%elem_of_seqZ. unfold compose, cell_at.
  rewrite Forall_forall in Hg. apply Hg.
  assert (Z.to_nat (y * width + x) < length g)%nat as Hi by (rewrite Hl; nia).
  apply list_elem_of_lookup_2 with (Z.to_nat (y * width + x)). by apply list_lookup_lookup_total_lt.
Qed.
End sound.

(** A rendered screen, whatever the terminal is sent next. *)
Lemma screen_terminal v width height tick offset s :
  let w := clamp width 20 500 in
  let h := clamp height 5 200 in
  ∃ rows controls,
    terminal Plain (render_dashboard v width height tick offset ++ s) =
      (join rows ++ (terminal Plain s).1, controls ++ (terminal Plain s).2) ∧
    Z.of_nat (length rows) = h ∧ Forall (λ r, Z.of_nat (length r) = w ∧ Forall printable r) rows ∧
    Forall (.∈ known_controls) controls.
Proof.
  cbn zeta. set (w := clamp width 20 500). set (h := clamp height 5 200).
  assert (20 ≤ w ∧ 5 ≤ h) as [Hw Hh].
  { subst w h. unfold clamp. repeat case_match; bool_lia. }
  unfold render_dashboard. fold w h. set (g := layout w h v tick offset).
  pose proof (layout_ok w h v tick offset) as Hg. fold g in Hg.
  set (rows := row w g <$> seqZ 0 h).
  assert (Forall (λ r, length r = Z.to_nat w ∧ Forall (λ x, printable (c x)) r) rows) as Hr.
  { apply Forall_fmap, Forall_forall. intros y Hy%elem_of_seqZ. unfold compose.
    apply row_ok with h; [lia|done|lia]. }
  cbn zeta. fold rows. rewrite <- !app_assoc.
  rewrite terminal_esc by (vm_compute; repeat constructor).
  destruct (terminal_rows rows alarm (esc "[0m" ++ s)) as (codes & Hk & Ht).
  { eapply Forall_impl; [exact Hr|]. by intros r [_ ?]. }
  rewrite Ht, terminal_esc by (vm_compute; repeat constructor). cbn [fst snd].
  exists (map c <$> rows), (bytes_of "[H" :: codes ++ [bytes_of "[0m"]). split_and!.
  - cbn [app]. by rewrite <- app_assoc.
  - unfold rows. rewrite !length_fmap, length_seqZ. lia.
  - apply Forall_fmap. eapply Forall_impl; [exact Hr|]. intros r [Hl Hp]. unfold compose.
    split; [rewrite length_fmap; lia|]. by apply Forall_fmap.
  - constructor; [vm_compute; repeat constructor|]. apply Forall_app. split; [done|].
    constructor; [vm_compute; repeat constructor|constructor].
Qed.

(** C34: Whatever the pool sends and however large the window is, the terminal shows
    exactly the rows of the clamped window, each of exactly its width in printable
    characters, and obeys nothing but the cursor and colour sequences the program
    means: text from outside cannot smuggle a control sequence in. *)
Theorem render_screen v width height tick offset :
  let w := clamp width 20 500 in
  let h := clamp height 5 200 in
  let '(text, controls) := terminal Plain (render_dashboard v width height tick offset) in
  ∃ rows : list Bytes, text = join rows ∧ Z.of_nat (length rows) = h ∧
    Forall (λ r, Z.of_nat (length r) = w ∧ Forall printable r) rows ∧
    Forall (.∈ known_controls) controls.
Proof.
  cbn zeta. destruct (screen_terminal v width height tick offset []) as (rows & controls & Ht & Hl & Hr & Hk).
  rewrite app_nil_r in Ht. rewrite Ht. cbn [terminal fst snd]. exists rows. by rewrite !app_nil_r.
Qed.
