(* ===== verification/Display.v ===== *)
(** * The display's thread and terminal

    [Dashboard::Impl] of src/src/ui/dashboard.cpp from its construction to its
    end: the log file, the terminal's settings, the display thread beside the
    thread that logs, and what is restored.  One round of the display thread is
    [Render.display_round].  What the operating system answers is an input. *)
From Stdlib Require Import SpecFloat.
From S2P Require Import Prelude Words Amd View Render.

(** ** The terminal *)

(** The settings of a terminal, as far as they are touched. *)
Record Termios := { canonical : bool; echo : bool; vmin : Z; vtime : Z; other : Z }.
Definition no_termios : Termios := {| canonical := false; echo := false; vmin := 0; vtime := 0; other := 0 |}.
(** [t.c_lflag &= ~(ICANON | ECHO); t.c_cc[VMIN] = 0; t.c_cc[VTIME] = 0] *)
Definition raw_mode (t : Termios) : Termios :=
  {| canonical := false; echo := false; vmin := 0; vtime := 0; other := other t |}.
Definition O_NONBLOCK : Z := 2048.

(** What is written: a control string, or the output of a round. *)
Inductive chunk := Control (b : Bytes) | Shown (out : output).

(** The terminal with [active], [raw], [old_term] and [old_flags] of the object. *)
Record Console := {
  tios : Termios; status : Z; wire : list chunk;
  active : bool; raw : bool; old_term : Termios; old_flags : Z
}.
(** The object before its constructor's body. *)
Definition fresh (t : Termios) (st : Z) : Console :=
  {| tios := t; status := st; wire := []; active := false; raw := false; old_term := no_termios; old_flags := -1 |}.

Definition set_tios (v : Termios) (c : Console) : Console :=
  {| tios := v; status := status c; wire := wire c; active := active c; raw := raw c; old_term := old_term c;
     old_flags := old_flags c |}.
Definition set_status (v : Z) (c : Console) : Console :=
  {| tios := tios c; status := v; wire := wire c; active := active c; raw := raw c; old_term := old_term c;
     old_flags := old_flags c |}.
Definition print (v : chunk) (c : Console) : Console :=
  {| tios := tios c; status := status c; wire := wire c ++ [v]; active := active c; raw := raw c;
     old_term := old_term c; old_flags := old_flags c |}.
Definition set_active (v : bool) (c : Console) : Console :=
  {| tios := tios c; status := status c; wire := wire c; active := v; raw := raw c; old_term := old_term c;
     old_flags := old_flags c |}.
Definition set_raw (v : bool) (c : Console) : Console :=
  {| tios := tios c; status := status c; wire := wire c; active := active c; raw := v; old_term := old_term c;
     old_flags := old_flags c |}.
Definition set_old_term (v : Termios) (c : Console) : Console :=
  {| tios := tios c; status := status c; wire := wire c; active := active c; raw := raw c; old_term := v;
     old_flags := old_flags c |}.
Definition set_old_flags (v : Z) (c : Console) : Console :=
  {| tios := tios c; status := status c; wire := wire c; active := active c; raw := raw c; old_term := old_term c;
     old_flags := v |}.

(** The answers of the system to the constructor; [make_thread] is how the
    construction of the thread ends. *)
Record Answers := {
  log_opens : bool; term : option string; out_tty : bool; in_tty : bool;
  gets_attr : bool; sets_attr : bool; gets_flags : bool; sets_flags : bool; make_thread : result unit
}.

(** [tcsetattr] and [fcntl(F_SETFL)], which may fail. *)
Definition tcsetattr (ok : bool) (t : Termios) : stM Console bool :=
  if ok then _ ← st_modify (set_tios t); mret true else mret false.
Definition setfl (ok : bool) (f : Z) : stM Console unit :=
  if ok then st_modify (set_status f) else mret tt.

Definition enter_screen : Bytes := esc "[?1049h" ++ esc "[?25l" ++ esc "[2J".
Definition leave_screen : Bytes := esc "[0m" ++ esc "[?25h" ++ esc "[?1049l".

(** [active]: asked for, or not excluded and a capable terminal. *)
Definition wants_screen (mode : string) (a : Answers) : bool :=
  negb (bool_decide (mode = "off")) && out_tty a &&
  (bool_decide (mode = "on") ||
   match term a with Some t => negb (bool_decide (t = "dumb")) | None => false end).

(** [if (active)] in the constructor. *)
Definition take_terminal (a : Answers) : stM Console unit :=
  _ ← st_modify (print (Control enter_screen));
  if in_tty a && gets_attr a then
    c ← st_get;
    let t := tios c in
    _ ← st_modify (set_old_term t);
    ok ← tcsetattr (sets_attr a) (raw_mode t);
    if (ok : bool) then
      _ ← st_modify (set_raw true);
      c ← st_get;
      let f := if gets_flags a then status c else -1 in
      _ ← st_modify (set_old_flags f);
      if 0 <=? f then setfl (sets_flags a) (Z.lor f O_NONBLOCK) else mret tt
    else mret tt
  else mret tt.

Definition restore (sets_attr sets_flags : bool) : stM Console unit :=
  c ← st_get;
  _ ← (if raw c then
         _ ← tcsetattr sets_attr (old_term c);
         _ ← (if 0 <=? old_flags c then setfl sets_flags (old_flags c) else mret tt);
         st_modify (set_raw false)
       else mret tt);
  if active c then st_modify (print (Control leave_screen)) else mret tt.

(** [explicit Impl(mode, log_file)]; [ra] and [rf] are the answers to [restore]. *)
Definition new_dashboard (mode log_file : string) (a : Answers) (ra rf : bool) : stM Console unit :=
  _ ← (if bool_decide (log_file = EmptyString) then mret tt
       else st_require (log_opens a) "Cannot open miner log file");
  _ ← st_require (bool_decide (mode = "auto") || bool_decide (mode = "on") || bool_decide (mode = "off"))
        "TUI mode must be auto, on or off";
  _ ← st_modify (set_active (wants_screen mode a));
  c ← st_get;
  _ ← (if active c then take_terminal a else mret tt);
  st_catch (st_lift (make_thread a)) (restore ra rf).

(** ** The display thread beside the others *)

(** Where the display thread is: before taking the queue, between its output and
    the test for a stop, or at its end. *)
Inductive place := AtRound | AtTest | Finished.
Record Running := {
  console : Console; board : Board; display : Display; at_place : place; stopping : bool;
  log_open : bool; log_file : list string
}.
(** The object after its constructor, when the thread has started. *)
Definition started (log : bool) (now : Z) (c : Console) : Running :=
  {| console := c; board := new_board; display := {| quit := false; offset := 0; last_summary := now |};
     at_place := AtRound; stopping := false; log_open := log; log_file := [] |}.

(** Calls of [event] and [update], the stop request of the destructor, and the two
    steps of the display thread: a round with the keys read and the size of the
    window, and the test that ends the loop. *)
Inductive action :=
| Logs (stamp message : string) (s : Severity)
| Publishes (v : DashboardView)
| Stops
| Rounds (keys : Bytes) (columns lines : Z) (tick : spec_float) (now : Z)
| Tests.

Definition on_board (f : Board → Board) (r : Running) : Running :=
  {| console := console r; board := f (board r); display := display r; at_place := at_place r;
     stopping := stopping r; log_open := log_open r; log_file := log_file r |}.
Definition go (p : place) (r : Running) : Running :=
  {| console := console r; board := board r; display := display r; at_place := p;
     stopping := stopping r; log_open := log_open r; log_file := log_file r |}.
(** [size.ws_col ? size.ws_col : 100], and 30 lines. *)
Definition or_default (n default : Z) : Z := if n =? 0 then default else n.
Definition perform (a : action) (r : Running) : Running :=
  match a with
  | Logs stamp message s => on_board (event stamp message s) r
  | Publishes v => on_board (update v) r
  | Stops => {| console := console r; board := board r; display := display r; at_place := at_place r;
                stopping := true; log_open := log_open r; log_file := log_file r |}
  | Rounds keys columns lines tick now =>
      match at_place r with
      | AtRound =>
          let c := console r in
          let '(b, d, logged, out) := display_round (active c) (if raw c then keys else [])
            (or_default columns 100) (or_default lines 30) tick now (board r) (display r) in
          {| console := print (Shown out) c; board := b; display := d; at_place := AtTest;
             stopping := stopping r; log_open := log_open r;
             log_file := if log_open r then log_file r ++ logged else log_file r |}
      | _ => r
      end
  | Tests =>
      match at_place r with
      | AtTest => go (if stopping r then Finished else AtRound) r
      | _ => r
      end
  end.
Definition perform_all (l : list action) (r : Running) : Running := fold_left (λ r a, perform a r) l r.

(** [~Impl], once the thread has been joined. *)
Definition end_dashboard (ra rf : bool) (r : Running) : Console := (restore ra rf (console r)).1.

(** ** The terminal is given back *)

(** The alternate screen and the cursor, as the control sequences leave them. *)
Definition mode_after (m : bool * bool) (k : Bytes) : bool * bool :=
  if bool_decide (k = bytes_of "[?1049h") then (true, m.2)
  else if bool_decide (k = bytes_of "[?1049l") then (false, m.2)
  else if bool_decide (k = bytes_of "[?25h") then (m.1, true)
  else if bool_decide (k = bytes_of "[?25l") then (m.1, false)
  else m.
(** Plain lines hold no control sequences. *)
Definition controls (ch : chunk) : list Bytes :=
  match ch with Control b | Shown (Screen b) => (terminal Plain b).2 | Shown (Lines _) => [] end.
Definition screen_mode (l : list chunk) : bool * bool := fold_left mode_after (l ≫= controls) (false, true).

Definition restored (t : Termios) (st : Z) (c : Console) : Prop :=
  tios c = t ∧ status c = st ∧ screen_mode (wire c) = (false, true).

(** What the object remembers while it lives. *)
Definition remembers (t : Termios) (st : Z) (c : Console) : Prop :=
  (if raw c then old_term c = t ∧ (if 0 <=? old_flags c then old_flags c = st else status c = st)
   else tios c = t ∧ status c = st) ∧
  screen_mode (wire c) = if active c then (true, false) else (false, true).

Ltac fields := cbn [tios status wire active raw old_term old_flags
  set_tios set_status print set_active set_raw set_old_term set_old_flags].

Lemma screen_mode_app l ch : screen_mode (l ++ [ch]) = fold_left mode_after (controls ch) (screen_mode l).
Proof. unfold screen_mode. rewrite bind_app, fold_left_app. cbn. by rewrite app_nil_r. Qed.

Lemma known_mode l m : Forall (.∈ known_controls) l → fold_left mode_after l m = m.
Proof.
  assert (Forall (λ k, ∀ m, mode_after m k = m) known_controls) as Hk.
  { unfold known_controls. repeat constructor. }
  rewrite Forall_forall in Hk. induction 1 as [|k l Hin _ IH]; [done|]. cbn [fold_left]. by rewrite Hk.
Qed.

Lemma round_mode c keys w h tick now b d l :
  screen_mode (l ++ [Shown (display_round (active c) keys w h tick now b d).2]) = screen_mode l.
Proof.
  rewrite screen_mode_app. unfold display_round. cbn [drain]. destruct (active c).
  - cbn [snd controls]. rewrite <- (app_nil_r (render_dashboard _ _ _ _ _)).
    destruct (screen_terminal (shown b) w h tick (offset (fold_left press keys d)) []) as (rows & ks & -> & _ & _ & Hk).
    cbn [terminal snd]. rewrite app_nil_r. by apply known_mode.
  - by destruct (10000000000 <=? now - last_summary d).
Qed.

Lemma perform_remembers t st a r : remembers t st (console r) → remembers t st (console (perform a r)).
Proof.
  intros Hr. destruct a as [| | |keys col lines tick now|]; try exact Hr.
  - cbn [perform]. destruct (at_place r); try exact Hr.
    pose proof (round_mode (console r) (if raw (console r) then keys else []) (or_default col 100)
      (or_default lines 30) tick now (board r) (display r) (wire (console r))) as Hm.
    destruct (display_round _ _ _ _ _ _ _ _) as [[[b d] logged] out]. cbn [snd] in Hm.
    destruct Hr as [Hraw Hs]. split; [exact Hraw|]. cbn [console print wire active]. by rewrite Hm.
  - cbn [perform]. by destruct (at_place r).
Qed.

Lemma restore_restored t st c : remembers t st c → wp (restore true true) (λ c' r, restored t st c' ∧ r = Ok tt) c.
Proof.
  intros [Hraw Hs]. unfold restore. apply wp_bind, wp_get. cbn [wp_next]. apply wp_bind.
  apply (wp_mono _ (λ c' r, tios c' = t ∧ status c' = st ∧ wire c' = wire c ∧ r = Ok tt)).
  - destruct (raw c); [|destruct Hraw; by apply wp_ret]. destruct Hraw as [<- Hf]. unfold tcsetattr, setfl.
    cbv iota. apply wp_bind, wp_bind, wp_modify. cbn [wp_next]. apply wp_ret. cbn [wp_next].
    apply wp_bind. destruct (0 <=? old_flags c); [apply wp_modify|apply wp_ret]; cbn [wp_next]; by apply wp_modify.
  - intros c' r (Ht & Hst & Hw & ->). cbn [wp_next]. unfold restored.
    destruct (active c); [apply wp_modify|apply wp_ret; by rewrite Hw].
    fields. by rewrite Hw, screen_mode_app, Hs.
Qed.

Lemma take_terminal_remembers a t st c : tios c = t → status c = st → raw c = false → active c = true →
  screen_mode (wire c) = (false, true) → wp (take_terminal a) (λ c' r, remembers t st c' ∧ is_ok r = true) c.
Proof.
  intros <- <- Hr Ha Hs. unfold remembers.
  assert (screen_mode (wire c ++ [Control enter_screen]) = (true, false)) as Hs' by (by rewrite screen_mode_app, Hs).
  unfold take_terminal, tcsetattr, setfl. apply wp_bind, wp_modify. cbn [wp_next].
  destruct (in_tty a && gets_attr a); [|apply wp_ret; fields; by rewrite Hr, Ha].
  apply wp_bind, wp_get. cbn [wp_next]. cbn zeta. apply wp_bind, wp_modify. cbn [wp_next]. apply wp_bind.
  destruct (sets_attr a); [|apply wp_ret; cbn [wp_next]; apply wp_ret; fields; by rewrite Hr, Ha].
  apply wp_bind, wp_modify. cbn [wp_next]. apply wp_ret. cbn [wp_next].
  apply wp_bind, wp_modify. cbn [wp_next]. apply wp_bind, wp_get. cbn [wp_next].
  apply wp_bind, wp_modify. cbn [wp_next]. fields.
  destruct (gets_flags a); [|apply wp_ret; fields; by rewrite Ha].
  destruct (0 <=? status c) eqn:Hst; [|apply wp_ret; fields; by rewrite Ha, Hst].
  destruct (sets_flags a); [apply wp_modify|apply wp_ret]; fields; by rewrite Ha, Hst.
Qed.

Lemma new_dashboard_restores mode log a t st :
  wp (new_dashboard mode log a true true)
    (λ c r, match r with Ok _ => remembers t st c | Throw _ => restored t st c end) (fresh t st).
Proof.
  assert (restored t st (fresh t st)) as H0 by by split_and!.
  unfold new_dashboard. apply wp_bind.
  apply (wp_mono _ (λ c r, c = fresh t st)); [by case_bool_decide|]. intros c [u|e] ->; cbn [wp_next]; [|done].
  apply wp_bind, wp_require; intros _; cbn [wp_next]; [|done].
  apply wp_bind, wp_modify. cbn [wp_next]. apply wp_bind, wp_get. cbn [wp_next]. apply wp_bind.
  apply (wp_mono _ (λ c r, remembers t st c ∧ is_ok r = true)).
  - cbn [active set_active]. destruct (wants_screen mode a); [by apply take_terminal_remembers|by apply wp_ret].
  - intros c [u'|e] [Hc Hok]; cbn [wp_next]; [|done]. unfold wp, st_catch, st_lift.
    destruct (make_thread a) as [u''|e]; [exact Hc|].
    pose proof (restore_restored t st c Hc) as Hres. unfold wp in Hres. apply Hres.
Qed.

Lemma perform_all_remembers t st ops r : remembers t st (console r) → remembers t st (console (perform_all ops r)).
Proof.
  revert r. induction ops as [|a ops IH]; intros r Hr; [exact Hr|].
  apply (IH (perform a r)). by apply perform_remembers.
Qed.

(** The terminal is given back.  Whatever mode is asked for, whatever the system
    answers and whatever is shown meanwhile, the settings of the terminal and the
    status flags of the input are at the end what they were before, the main screen
    is back and the cursor visible - when the object is destroyed, and just the same
    when its constructor throws, also from a thread that cannot be started.  (The
    two calls that restore have to succeed.) *)
Theorem terminal_restored mode log a t st log_open now ops :
  let '(c, r) := new_dashboard mode log a true true (fresh t st) in
  match r with
  | Ok _ => restored t st (end_dashboard true true (perform_all ops (started log_open now c)))
  | Throw _ => restored t st c
  end.
Proof.
  pose proof (new_dashboard_restores mode log a t st) as H. unfold wp in H.
  destruct (new_dashboard _ _ _ _ _ _) as [c [u|e]]; [|exact H]. cbn [fst snd] in H.
  pose proof (restore_restored t st _ (perform_all_remembers t st ops (started log_open now c) H)) as Hr.
  apply Hr.
Qed.

(** ** The end of the display thread *)

Definition logs (a : action) : bool := match a with Logs _ _ _ => true | _ => false end.

(** What the thread still writes once it is asked to stop. *)
Definition still_written (r : Running) : list Event :=
  match at_place r with AtRound => queued (board r) | _ => [] end.
Definition left_behind (r : Running) : list Event :=
  match at_place r with AtRound => [] | _ => queued (board r) end.

Lemma round_lines active keys w h tick now b d :
  let '(b', _, logged, _) := display_round active keys w h tick now b d in
  queued b' = [] ∧ logged = log_line <$> queued b.
Proof. unfold display_round. cbn [drain]. destruct active; [done|]. by destruct (10000000000 <=? _). Qed.

Lemma stopping_run ops r : stopping r = true → Forall (λ a, logs a = false) ops →
  let r' := perform_all ops r in
  (at_place r' = Finished → queued (board r') = left_behind r ∧
    (log_open r = true → log_file r' = log_file r ++ (log_line <$> still_written r))).
Proof.
  cbn zeta. intros Hs Hq. revert r Hs. induction Hq as [|a ops Ha _ IH]; intros r Hs.
  { cbn. unfold left_behind, still_written. intros ->. by rewrite app_nil_r. }
  change (perform_all (a :: ops) r) with (perform_all ops (perform a r)). intros Hend.
  destruct a as [stamp m s|v| |keys col lines tick now|]; [done|..].
  - exact (IH (on_board (update v) r) Hs Hend).
  - exact (IH (perform Stops r) eq_refl Hend).
  - cbn [perform] in Hend |- *. unfold left_behind, still_written. destruct (at_place r) eqn:Hp.
    + pose proof (round_lines (active (console r)) (if raw (console r) then keys else []) (or_default col 100)
        (or_default lines 30) tick now (board r) (display r)) as Hl.
      destruct (display_round _ _ _ _ _ _ _ _) as [[[b d] logged] out]. destruct Hl as [Hb ->].
      destruct (IH _ (Hs : stopping (Build_Running _ _ _ AtTest (stopping r) _ _) = true) Hend) as [-> Hf].
      split; [exact Hb|]. cbn [log_open log_file still_written at_place] in Hf. intros Ho.
      rewrite Ho in Hf |- *. by rewrite (Hf eq_refl), app_nil_r.
    + destruct (IH r Hs Hend) as [Hb Hf]. unfold left_behind, still_written in *. rewrite Hp in *. done.
    + destruct (IH r Hs Hend) as [Hb Hf]. unfold left_behind, still_written in *. rewrite Hp in *. done.
  - cbn [perform] in Hend |- *. destruct (at_place r) eqn:Hp.
    + exact (IH r Hs Hend).
    + destruct (IH (go (if stopping r then Finished else AtRound) r) Hs Hend) as [Hb Hf].
      unfold left_behind, still_written in *. rewrite Hs, Hp in *. cbn [at_place go] in *. done.
    + exact (IH r Hs Hend).
Qed.

(** C38: Shutting down writes what is left - almost.  Once the destructor asks it to
    stop, the display thread ends with its next test at the latest; if it had not
    yet taken the queue, every event logged is in the log file then; but what was
    logged after the queue was taken and before that test is never written. *)
Theorem shutdown_output ops r : Forall (λ a, logs a = false) ops →
  let r0 := perform Stops r in
  let r' := perform_all ops r0 in
  (at_place r' = Finished → queued (board r') = left_behind r ∧
    (log_open r = true → log_file r' = log_file r ++ (log_line <$> still_written r))) ∧
  ∀ keys columns lines tick now, at_place (perform_all [Rounds keys columns lines tick now; Tests] r0) = Finished.
Proof.
  intros Hq r0 r'. split; [exact (stopping_run ops r0 eq_refl Hq)|]. intros keys columns lines tick now.
  unfold perform_all, r0. cbn [fold_left perform at_place].
  destruct (at_place r); [|done..].
  by destruct (display_round _ _ _ _ _ _ _ _) as [[[b d] logged] out].
Qed.

(** A stop request that follows the last event at once, while the thread is writing. *)
Definition busy : Running :=
  perform_all [Logs "12:00:00" "Share accepted (GPU0) #1" success; Rounds [] 80 24 (S754_zero false) 0;
               Logs "12:00:01" "Final hashes=1 seconds=1" info] (started true 0 (fresh no_termios 0)).
Lemma shutdown_output_witness :
  let r' := perform_all [Tests] (perform Stops busy) in
  at_place r' = Finished ∧ message <$> queued (board r') = ["Final hashes=1 seconds=1"%string] ∧
  log_file r' = ["12:00:00 Share accepted (GPU0) #1"%string] ∧ queued (board r') = left_behind busy.
Proof.
  cbn zeta. do 3 (split; [vm_compute; reflexivity|]).
  refine (proj1 (proj1 (shutdown_output [Tests] busy _) _)); [by repeat constructor|vm_compute; reflexivity].
Defined.
