(* ===== verification/Api.v ===== *)
(** * The HTTP API

    src/src/api.cpp: the snapshot of a view as JSON and what the server does with
    one client: read a bounded request, answer it, write the answer.  The server
    itself is in Server.  Polling, [recv], [send] and the clock are inputs;
    [dump] of the JSON library is a parameter. *)
From Stdlib Require Import SpecFloat.
From S2P Require Import Prelude Words Json Amd View Transport.

(** [json::dump], which throws on a string that is not UTF-8. *)
Class JsonDump := json_dump : json → result Bytes.

(** ** The snapshot *)

Definition optional (n : option Z) : json := match n with Some n => JUInt n | None => JNull end.
Definition device_item (d : DeviceView) : json :=
  JObject [("label", JString (label d)); ("name", JString (d_name d)); ("pci_bus", JString (d_pci_bus d));
           ("hashrate", JFloat (hashes_per_second d)); ("hashes", JUInt (d_hashes d));
           ("accepted", JUInt (d_accepted d)); ("rejected", JUInt (d_rejected d)); ("stale", JUInt (d_stale d));
           ("temperature", optional (temperature (sensors d))); ("fan", optional (fan_percent (sensors d)))]%string.
(** The library keeps the members sorted by key; they are listed here in the
    order they are given. *)
Definition api_snapshot (v : DashboardView) : json :=
  JObject [("version", JString "0.2.1"); ("state", JString (v_state v)); ("coin", JString (coin v));
           ("uptime", JFloat (elapsed v)); ("hashes", JUInt (hashes v)); ("accepted", JUInt (accepted v));
           ("rejected", JUInt (rejected v)); ("stale", JUInt (stale v)); ("pending", JUInt (v_pending v));
           ("block_candidates", JUInt (block_candidates v));
           ("devices", JArray (device_item <$> devices v))]%string.

(** ** One client *)

Definition crlf : Bytes := [x0d; x0a].
Definition blank_line : Bytes := crlf ++ crlf.
(** [request.find("\r\n\r\n") != npos] *)
Fixpoint has_blank_line (s : Bytes) : bool :=
  starts_with blank_line s || match s with [] => false | _ :: s => has_blank_line s end.

(** One round of the reading loop: the poll found nothing, or [recv] returned. *)
Inductive read_event := NoInput | Received (b : Bytes) | Ended.
(** [going]: not stopped and before the deadline. *)
Fixpoint gather (rounds : list (bool * read_event)) (request : Bytes) : Bytes :=
  match rounds with
  | [] => request
  | (going, e) :: rounds =>
      if going && (Z.of_nat (length request) <? 4096) && negb (has_blank_line request) then
        match e with
        | NoInput => gather rounds request
        | Received b => gather rounds (request ++ b)
        | Ended => request
        end
      else request
  end.

Section serving.
Context `{JsonDump}.

Definition accepted_request (request : Bytes) : bool :=
  has_blank_line request &&
  (starts_with (bytes_of "GET /summary HTTP/1.") request || starts_with (bytes_of "GET / HTTP/1.") request).
(** [{"error":"not found"}] *)
Definition not_found : Bytes :=
  [x7b; x22] ++ bytes_of "error" ++ [x22; x3a; x22] ++ bytes_of "not found" ++ [x22; x7d].
Definition reply_of (status : string) (body : Bytes) : Bytes :=
  bytes_of "HTTP/1.1 " ++ bytes_of status ++ crlf ++ bytes_of "Content-Type: application/json" ++ crlf ++
  bytes_of "Cache-Control: no-store" ++ crlf ++ bytes_of "Connection: close" ++ crlf ++
  bytes_of "Content-Length: " ++ bytes_of (pretty (Z.of_nat (length body))) ++ blank_line ++ body.
Definition respond (request : Bytes) (snapshot : json) : result Bytes :=
  if accepted_request request then
    body ← json_dump snapshot; Ok (reply_of "200 OK" body)
  else Ok (reply_of "404 Not Found" not_found).

(** One round of the writing loop. *)
Inductive write_event := Took (n : nat) | Busy | Broken.
Fixpoint send_reply (rounds : list (bool * write_event)) (rest wire : Bytes) : Bytes :=
  match rounds, rest with
  | (true, e) :: rounds, _ :: _ =>
      match e with
      | Took n => send_reply rounds (drop n rest) (wire ++ take n rest)
      | Busy => send_reply rounds rest wire
      | Broken => wire
      end
  | _, _ => wire
  end.

(** A client from [accept] to [close]: the request as far as it was read, the
    reply, and what the client received of it. *)
Definition serve (reads : list (bool * read_event)) (snapshot : json) (writes : list (bool * write_event))
    : result (Bytes * Bytes * Bytes) :=
  let request := gather reads [] in
  reply ← respond request snapshot;
  Ok (request, reply, send_reply writes reply []).
End serving.

(** ** How a client reads the reply *)

(** The text up to the first line end, and what follows. *)
Fixpoint cut_line (s : Bytes) : option (Bytes * Bytes) :=
  if starts_with crlf s then Some ([], drop 2 s)
  else match s with
       | [] => None
       | ch :: s => match cut_line s with Some (l, r) => Some (ch :: l, r) | None => None end
       end.
(** The lines before the first empty one, and the body. *)
Fixpoint read_message (fuel : nat) (s : Bytes) : option (list Bytes * Bytes) :=
  match fuel with
  | O => None
  | S fuel =>
      match cut_line s with
      | Some ([], body) => Some ([], body)
      | Some (l, s) => match read_message fuel s with Some (ls, body) => Some (l :: ls, body) | None => None end
      | None => None
      end
  end.

Lemma cut_line_spec l s : x0d ∉ l → cut_line (l ++ crlf ++ s) = Some (l, s).
Proof.
  induction l as [|ch l IH]; intros Hl.
  - cbn [app cut_line crlf]. unfold starts_with. by rewrite bool_decide_eq_true_2.
  - rewrite elem_of_cons in Hl. change ((ch :: l) ++ crlf ++ s) with (ch :: (l ++ crlf ++ s)). cbn [cut_line].
    unfold starts_with. rewrite bool_decide_eq_false_2.
    + rewrite IH by tauto. done.
    + cbn. intros [= ->]. tauto.
Qed.

Lemma read_message_line fuel l s ls body : l ≠ [] → x0d ∉ l →
  read_message fuel s = Some (ls, body) → read_message (S fuel) (l ++ crlf ++ s) = Some (l :: ls, body).
Proof.
  intros Hl Hr Hs. cbn [read_message]. rewrite cut_line_spec by done. destruct l; [done|]. by rewrite Hs.
Qed.
Lemma read_message_blank fuel body : read_message (S fuel) (crlf ++ body) = Some ([], body).
Proof. change (crlf ++ body) with ([] ++ crlf ++ body). cbn [read_message]. by rewrite cut_line_spec by set_solver. Qed.

(** The decimal digits of a number. *)
Lemma pretty_N_digits n s : x0d ∉ bytes_of s → x0d ∉ bytes_of (pretty_N_go n s).
Proof.
  revert s. induction (N.lt_wf_0 n) as [n _ IH]; intros s Hs.
  destruct (decide (0 < n)%N) as [Hn|Hn].
  - rewrite pretty_N_go_step by done. apply IH; [by apply N.div_lt|].
    match goal with |- _ ∉ bytes_of (String ?a s) =>
      change (x0d ∉ Ascii.byte_of_ascii a :: bytes_of s); rewrite elem_of_cons; intros [E|?]; [|done]
    end.
    revert E. unfold pretty_N_char. repeat case_match; vm_compute; discriminate.
  - assert (n = 0%N) as -> by lia. by rewrite pretty_N_go_0.
Qed.
Lemma pretty_no_cr (n : Z) : x0d ∉ bytes_of (pretty n).
Proof.
  assert (∀ n : N, x0d ∉ bytes_of (pretty n)) as HN.
  { intros m. unfold pretty, pretty_N. case_decide; [vm_compute; set_solver|].
    apply pretty_N_digits. vm_compute. set_solver. }
  destruct n as [|p|p]; [apply (HN 0%N)|apply (HN (N.pos p))|].
  change (pretty (Z.neg p)) with ("-" +:+ pretty (N.pos p)). unfold bytes_of.
  change (x0d ∉ x2d :: bytes_of (pretty (N.pos p))). rewrite elem_of_cons. intros [?|?]; [done|by apply (HN (N.pos p))].
Qed.

Section properties.
Context `{JsonDump}.

Definition reply_lines (status : string) (body : Bytes) : list Bytes :=
  [bytes_of "HTTP/1.1 " ++ bytes_of status; bytes_of "Content-Type: application/json";
   bytes_of "Cache-Control: no-store"; bytes_of "Connection: close";
   bytes_of "Content-Length: " ++ bytes_of (pretty (Z.of_nat (length body)))].

Lemma reply_read status body : x0d ∉ bytes_of status →
  read_message 6 (reply_of status body) = Some (reply_lines status body, body).
Proof.
  intros Hs. unfold reply_of, reply_lines, blank_line.
  rewrite (app_assoc (bytes_of "HTTP/1.1 ")), (app_assoc (bytes_of "Content-Length: ")), <-(app_assoc crlf crlf body).
  apply read_message_line; [done|apply not_elem_of_app; split; [by_compute|done]|].
  do 3 (apply read_message_line; [done|by_compute|]).
  apply read_message_line; [done|apply not_elem_of_app; split; [by_compute|apply pretty_no_cr]|].
  apply read_message_blank.
Qed.

(** [recv] fills a buffer of 1024 bytes. *)
Definition recv_event (r : bool * read_event) : Prop :=
  match r.2 with Received b => Z.of_nat (length b) ≤ 1024 | _ => True end.

Lemma gather_bound rounds request : Forall recv_event rounds →
  Z.of_nat (length request) ≤ 5119 → Z.of_nat (length (gather rounds request)) ≤ 5119.
Proof.
  intros Hr. revert request. induction Hr as [|[going e] rounds He _ IH]; intros request Hl; [done|].
  cbn [gather]. destruct (going && _ && _) eqn:E; [|done]. destruct e; [by apply IH| |done].
  apply IH. cbn in He. rewrite length_app. bool_lia.
Qed.

Lemma send_reply_prefix rounds rest wire : ∃ sent, send_reply rounds rest wire = wire ++ sent ∧ sent `prefix_of` rest.
Proof.
  revert rest wire. induction rounds as [|[going e] rounds IH]; intros rest wire.
  { exists []. rewrite app_nil_r. split; [done|apply prefix_nil]. }
  assert (∃ sent, wire = wire ++ sent ∧ sent `prefix_of` rest) as Hstop.
  { exists []. rewrite app_nil_r. split; [done|apply prefix_nil]. }
  cbn [send_reply]. destruct going; [|done]. destruct rest as [|ch rest]; [done|].
  destruct e as [n| |]; [|apply IH|done].
  destruct (IH (drop n (ch :: rest)) (wire ++ take n (ch :: rest))) as (sent & -> & [rest' Hp]).
  exists (take n (ch :: rest) ++ sent). rewrite app_assoc. split; [done|].
  exists rest'. by rewrite <-app_assoc, <-Hp, take_drop.
Qed.

End properties.

(** C37: What a client of the API gets: never more than 5119 bytes of its request are
    kept, and what it receives is a prefix of one well-formed message, whose
    Content-Length is the length of its body: the snapshot with status 200 for a
    complete request for [/] or [/summary], the error object with 404 for
    everything else.  Only the library's printer can make serving fail. *)
Theorem api_reply `{JsonDump} reads snapshot writes r :
  Forall recv_event reads →
  serve reads snapshot writes = r →
  match r with
  | Ok (request, reply, wire) =>
      Z.of_nat (length request) ≤ 5119 ∧ wire `prefix_of` reply ∧
      ∃ status body, read_message 6 reply = Some (reply_lines status body, body) ∧
        (if accepted_request request then status = "200 OK"%string ∧ json_dump snapshot = Ok body
         else status = "404 Not Found"%string ∧ body = not_found)
  | Throw e => accepted_request (gather reads []) = true ∧ json_dump snapshot = Throw e
  end.
Proof.
  intros Hr <-. unfold serve, respond. pose proof (gather_bound reads [] Hr) as Hb.
  destruct (accepted_request (gather reads [])) eqn:Ha.
  - destruct (json_dump snapshot) as [body|e] eqn:Hd; [|done]. cbn [mbind result_bind].
    destruct (send_reply_prefix writes (reply_of "200 OK" body) []) as (sent & -> & Hp).
    split_and!; [apply Hb; done|done|]. exists "200 OK"%string, body. rewrite Ha.
    split; [apply reply_read; by_compute|done].
  - cbn [mbind result_bind].
    destruct (send_reply_prefix writes (reply_of "404 Not Found" not_found) []) as (sent & -> & Hp).
    split_and!; [apply Hb; done|done|]. exists "404 Not Found"%string, not_found. rewrite Ha.
    split; [apply reply_read; by_compute|done].
Qed.

Definition sample_dump : JsonDump := λ j, Ok (bytes_of (if is_object j then "{}" else "null")).
Definition sample_read : list (bool * read_event) :=
  [(true, NoInput); (true, Received (bytes_of "GET /summary HT")); (true, Received (bytes_of "TP/1.1" ++ blank_line))].
Lemma api_reply_witness : ∃ request reply wire status body,
  serve (H := sample_dump) sample_read (api_snapshot new_view) [(true, Took 5); (true, Busy); (true, Took 200)] =
    Ok (request, reply, wire) ∧
  length request = 25%nat ∧ wire `prefix_of` reply ∧
  read_message 6 reply = Some (reply_lines status body, body).
Proof.
  eexists _, _, _.
  assert (Forall recv_event sample_read) as Hr.
  { repeat apply Forall_cons_2; [..|apply Forall_nil_2]; unfold recv_event; vm_compute; congruence || exact I. }
  destruct (api_reply (H := sample_dump) sample_read (api_snapshot new_view)
    [(true, Took 5); (true, Busy); (true, Took 200)] (Ok (_, _, _)) Hr ltac:(vm_compute; reflexivity))
    as (_ & Hp & status & body & Hm & _).
  exists status, body. split; [vm_compute; reflexivity|]. split; [vm_compute; reflexivity|].
  split; [exact Hp|exact Hm].
Defined.
