(* ===== verification/Server.v ===== *)
(** * The HTTP server

    [ApiServer] of src/src/api.cpp from its construction to its end: the listening
    socket, the thread that serves one client after the other, and [update] beside
    it.  One client is [Api.serve]; handles are those of Connect. *)
From S2P Require Import Prelude Words Json View Connect Api.

(** ** State *)

(** [listener] and [snapshot]; the handles handed out, the calls made, the clients
    served, and whether the program lives: an exception in the thread ends it. *)
Record Server := {
  listener : option nat; snapshot : json; handles : nat; calls : list op;
  served : list (Bytes * Bytes * Bytes); alive : bool
}.
Definition fresh_server : Server :=
  {| listener := None; snapshot := api_snapshot new_view; handles := 0; calls := []; served := []; alive := true |}.
Definition set_listener (v : option nat) (s : Server) : Server :=
  {| listener := v; snapshot := snapshot s; handles := handles s; calls := calls s; served := served s; alive := alive s |}.
Definition set_snapshot (v : json) (s : Server) : Server :=
  {| listener := listener s; snapshot := v; handles := handles s; calls := calls s; served := served s; alive := alive s |}.
Definition set_served (v : list (Bytes * Bytes * Bytes)) (s : Server) : Server :=
  {| listener := listener s; snapshot := snapshot s; handles := handles s; calls := calls s; served := v; alive := alive s |}.
Definition terminate (s : Server) : Server :=
  {| listener := listener s; snapshot := snapshot s; handles := handles s; calls := calls s; served := served s; alive := false |}.
(** A new handle, and [net::close]. *)
Definition open_handle (s : Server) : Server :=
  {| listener := listener s; snapshot := snapshot s; handles := S (handles s); calls := calls s ++ [OpenFd (handles s)];
     served := served s; alive := alive s |}.
Definition close_handle (h : nat) (s : Server) : Server :=
  {| listener := listener s; snapshot := snapshot s; handles := handles s; calls := calls s ++ [CloseFd h];
     served := served s; alive := alive s |}.

(** ** Construction and end *)

(** [net::socket] *)
Definition open_listener (a : socket_answer) : stM Server (option nat) :=
  match a with
  | NoSocket => mret None
  | NotNonblocking =>
      s ← st_get; _ ← st_modify open_handle; _ ← st_modify (close_handle (handles s)); mret None
  | Opened => s ← st_get; _ ← st_modify open_handle; mret (Some (handles s))
  end.
(** [listener] stays set when the thread cannot be started; the object is gone then. *)
Definition new_server (port : Z) (sock : socket_answer) (binds listens : bool) (thread : result unit)
    : stM Server unit :=
  if port =? 0 then mret tt
  else
    _ ← st_require (port <=? 65535) "API port out of range";
    l ← open_listener sock;
    _ ← st_modify (set_listener l);
    match l with
    | None => st_throw "API socket failed"
    | Some h =>
        if negb binds || negb listens then
          _ ← st_modify (close_handle h); _ ← st_modify (set_listener None);
          st_throw ("API cannot bind 127.0.0.1:" +:+ pretty port)
        else st_catch (st_lift thread) (st_modify (close_handle h))
    end.
(** [~Impl], once the thread has been joined. *)
Definition end_server (s : Server) : Server :=
  match listener s with Some h => close_handle h s | None => s end.

(** ** Serving *)

(** One round of the thread: nobody came, a client whose socket cannot be made
    non-blocking, or a client that is served. *)
Inductive round :=
| Nobody
| Blocking
| Client (reads : list (bool * read_event)) (writes : list (bool * write_event)).
Inductive action := Accepts (r : round) | Updates (v : DashboardView).

Section serving.
Context `{JsonDump}.

Definition accept_round (r : round) (s : Server) : Server :=
  match r with
  | Nobody => s
  | Blocking => close_handle (handles s) (open_handle s)
  | Client reads writes =>
      let s' := open_handle s in
      match serve reads (snapshot s) writes with
      | Ok x => close_handle (handles s) (set_served (served s' ++ [x]) s')
      | Throw _ => terminate s'
      end
  end.
(** The thread runs only with a listener. *)
Definition perform (a : action) (s : Server) : Server :=
  if alive s then
    match a with
    | Accepts r => match listener s with Some _ => accept_round r s | None => s end
    | Updates v => set_snapshot (api_snapshot v) s
    end
  else s.
Definition perform_all (l : list action) (s : Server) : Server := fold_left (λ s a, perform a s) l s.

(** ** What clients get *)

(** Each client, with the answer made from the view published last. *)
Fixpoint answers (l : list action) (v : DashboardView) : list (Bytes * Bytes * Bytes) :=
  match l with
  | [] => []
  | Updates v' :: l => answers l v'
  | Accepts (Client reads writes) :: l =>
      match serve reads (api_snapshot v) writes with Ok x => x :: answers l v | Throw _ => [] end
  | Accepts _ :: l => answers l v
  end.
(** A view whose text the printer refuses was asked for. *)
Definition unprintable (l : list action) : Prop :=
  ∃ v e, (v = new_view ∨ Updates v ∈ l) ∧ json_dump (api_snapshot v) = Throw e.

(** The listening handle is the only one open, and it was handed out. *)
Definition server_ok (s : Server) : Prop :=
  ∃ h, listener s = Some h ∧ (h < handles s)%nat ∧ open_fds (calls s) = {[h]}.

Lemma client_handle s h : listener s = Some h → (h < handles s)%nat → open_fds (calls s) = {[h]} →
  open_fds (calls s ++ [OpenFd (handles s)] ++ [CloseFd (handles s)]) = {[h]}.
Proof. intros Hl Hh Ho. rewrite (assoc_L app), !open_fds_snoc, Ho. cbn. set_solver by lia. Qed.

Lemma serve_throws reads snap writes e : serve reads snap writes = Throw e → json_dump snap = Throw e.
Proof.
  unfold serve, respond. destruct (accepted_request _); [|done]. by destruct (json_dump snap) as [b|e']; [|intros [= ->]].
Qed.

Lemma server_run l v s : server_ok s → alive s = true → snapshot s = api_snapshot v →
  let s' := perform_all l s in
  if alive s' then server_ok s' ∧ served s' = served s ++ answers l v
  else ∃ v' e, (v' = v ∨ Updates v' ∈ l) ∧ json_dump (api_snapshot v') = Throw e.
Proof.
  cbn zeta. revert v s. induction l as [|a l IH]; intros v s Hok Ha Hs.
  { cbn. rewrite Ha. by rewrite app_nil_r. }
  change (perform_all (a :: l) s) with (perform_all l (perform a s)).
  assert (∀ v0 s0, server_ok s0 → alive s0 = true → snapshot s0 = api_snapshot v0 → v0 = v ∨ a = Updates v0 →
    let s' := perform_all l s0 in if alive s' then server_ok s' ∧ served s' = served s0 ++ answers l v0
    else ∃ v' e, (v' = v ∨ Updates v' ∈ a :: l) ∧ json_dump (api_snapshot v') = Throw e) as Hnext.
  { intros v0 s0 H0 Ha0 Hs0 Hv. cbn zeta. specialize (IH v0 s0 H0 Ha0 Hs0). destruct (alive (perform_all l s0)); [done|].
    destruct IH as (v' & e & [->|Hin] & He); (eexists _, e; split; [|exact He]).
    - destruct Hv as [-> | ->]; [by left|right; by left].
    - right. by right. }
  destruct Hok as (h & Hl & Hh & Ho).
  assert (∀ r, perform (Accepts r) s = accept_round r s) as Hacc by (intros r; unfold perform; by rewrite Ha, Hl).
  assert (server_ok (close_handle (handles s) (open_handle s))) as Hclosed.
  { exists h. split; [done|]. split; [cbn; lia|].
    cbn [close_handle open_handle calls]. rewrite <- (assoc_L app). by apply (client_handle s). }
  destruct a as [[| |reads writes]|v']; rewrite ?Hacc; cbn [accept_round answers].
  - apply Hnext; [by exists h|done|done|by left].
  - apply (Hnext v (close_handle (handles s) (open_handle s))); [done..|by left].
  - cbn zeta. rewrite Hs. destruct (serve reads (api_snapshot v) writes) as [x|e] eqn:Hsv.
    + specialize (Hnext v (close_handle (handles s) (set_served (served (open_handle s) ++ [x]) (open_handle s)))).
      cbn zeta in Hnext. change (x :: answers l v) with ([x] ++ answers l v). rewrite (assoc_L app). apply Hnext; [exact Hclosed|done|exact Hs|by left].
    + assert (∀ l s0, alive s0 = false → perform_all l s0 = s0) as Hdead.
      { clear. intros l. induction l as [|a l IH]; intros s0 H0; [done|].
        change (perform_all (a :: l) s0) with (perform_all l (perform a s0)). unfold perform. rewrite H0. by apply IH. }
      rewrite Hdead by done. cbn. exists v, e. split; [by left|]. by eapply serve_throws.
  - assert (perform (Updates v') s = set_snapshot (api_snapshot v') s) as -> by (unfold perform; by rewrite Ha).
    apply (Hnext v' (set_snapshot (api_snapshot v') s)); [by exists h|done|done|by right].
Qed.

Lemma new_server_wp port sock binds listens thread : 0 ≤ port →
  wp (new_server port sock binds listens thread) (λ s r,
    alive s = true ∧ served s = [] ∧ snapshot s = api_snapshot new_view ∧
    match r with
    | Ok _ => if port =? 0 then listener s = None ∧ calls s = [] else server_ok s ∧ port ≤ 65535
    | Throw _ => open_fds (calls s) = ∅
    end) fresh_server.
Proof.
  intros Hp. unfold new_server. destruct (port =? 0); [by apply wp_ret|].
  apply wp_bind, wp_require; intros Hport; cbn [wp_next]; [|by split_and!]. apply wp_bind.
  unfold open_listener. destruct sock.
  - apply wp_ret. cbn [wp_next]. apply wp_bind, wp_modify. cbn [wp_next]. by split_and!.
  - apply wp_bind, wp_get. cbn [wp_next]. apply wp_bind, wp_modify. cbn [wp_next].
    apply wp_bind, wp_modify. cbn [wp_next]. apply wp_ret. cbn [wp_next].
    apply wp_bind, wp_modify. cbn [wp_next]. by split_and!.
  - apply wp_bind, wp_get. cbn [wp_next]. apply wp_bind, wp_modify. cbn [wp_next]. apply wp_ret. cbn [wp_next].
    apply wp_bind, wp_modify. cbn [wp_next]. destruct (negb binds || negb listens).
    + apply wp_bind, wp_modify. cbn [wp_next]. apply wp_bind, wp_modify. cbn [wp_next]. by split_and!.
    + unfold wp, st_catch, st_lift. destruct thread as [u|e]; cbn [fst snd st_modify]; split_and!; try done; try lia.
      exists 0%nat. split_and!; [done|cbn; lia|]. vm_compute. reflexivity.
Qed.
End serving.

Section server.
Context `{JsonDump}.

(** Without a port there is no thread. *)
Lemma idle_run l s : listener s = None → alive s = true →
  let s' := perform_all l s in
  alive s' = true ∧ listener s' = None ∧ calls s' = calls s ∧ served s' = served s.
Proof.
  cbn zeta. revert s. induction l as [|a l IH]; intros s Hl Ha; [done|].
  change (perform_all (a :: l) s) with (perform_all l (perform a s)).
  assert (perform a s = match a with Accepts _ => s | Updates v => set_snapshot (api_snapshot v) s end) as ->
    by (unfold perform; rewrite Ha, Hl; by destruct a).
  destruct a; [by apply IH|]. by apply (IH (set_snapshot _ s)).
Qed.
(** The life of a server, from the constructor's outcome on. *)
Lemma server_life port sock binds listens thread : 0 ≤ port →
  wp (new_server port sock binds listens thread) (λ s0 r,
    match r with
    | Throw _ => open_fds (calls s0) = ∅
    | Ok _ => ∀ l, let s := perform_all l s0 in
        if alive s then
          open_fds (calls (end_server s)) = ∅ ∧ served s = (if port =? 0 then [] else answers l new_view)
        else unprintable l
    end) fresh_server.
Proof.
  intros Hp. eapply wp_mono; [by apply new_server_wp|]. intros s0 [u|e] (Ha & Hsv & Hsn & Hcase); [|exact Hcase].
  intros l. cbn zeta. destruct (port =? 0).
  - destruct Hcase as [Hl Hc]. destruct (idle_run l s0 Hl Ha) as (-> & Hl' & Hc' & Hs'). cbn zeta in *.
    unfold end_server. by rewrite Hl', Hc', Hc, Hs'.
  - destruct Hcase as [Hok _]. pose proof (server_run l new_view s0 Hok Ha Hsn) as Hr. cbn zeta in Hr.
    destruct (alive (perform_all l s0)); [|exact Hr]. destruct Hr as [(h & Hl & Hh & Ho) Hs].
    rewrite Hsv in Hs. split; [|exact Hs]. unfold end_server. rewrite Hl.
    cbn [close_handle calls]. rewrite open_fds_snoc, Ho. cbn. set_solver.
Qed.
End server.

(** C29: The server leaks nothing and answers everybody alike: if its constructor
    throws, every handle it opened is closed; while it runs it holds its listening
    socket and the client it serves, and at the end nothing; each client gets the
    reply made from the view published last.  Only a view that the library's
    printer refuses ends the program: the thread does not catch its exception. *)
Theorem api_server `{JsonDump} port sock binds listens thread l : 0 ≤ port →
  let '(s0, r) := new_server port sock binds listens thread fresh_server in
  let s := perform_all l s0 in
  match r with
  | Throw _ => open_fds (calls s0) = ∅
  | Ok _ => if alive s then
        open_fds (calls (end_server s)) = ∅ ∧ served s = (if port =? 0 then [] else answers l new_view)
      else unprintable l
  end.
Proof.
  intros Hp. pose proof (server_life port sock binds listens thread Hp) as Hw. unfold wp in Hw.
  destruct (new_server port sock binds listens thread fresh_server) as [s0 [u|e]]; [apply Hw|exact Hw].
Qed.

(** Two clients, with a new view between them. *)
Definition sample_actions : list action :=
  [Accepts (Client sample_read [(true, Took 500)]); Accepts Blocking; Updates (set_pool "other" new_view);
   Accepts (Client [(true, Ended)] [(true, Broken)])].
Lemma api_server_witness :
  let s := perform_all (H := sample_dump) sample_actions (new_server 4068 Opened true true (Ok tt) fresh_server).1 in
  alive s = true ∧ length (served s) = 2%nat ∧ open_fds (calls (end_server s)) = ∅ ∧
  served s = answers (H := sample_dump) sample_actions new_view.
Proof.
  cbn zeta. split; [vm_compute; reflexivity|]. split; [vm_compute; reflexivity|].
  assert (alive (perform_all (H := sample_dump) sample_actions (new_server 4068 Opened true true (Ok tt) fresh_server).1) = true)
    as Ha by (vm_compute; reflexivity).
  pose proof (api_server (H := sample_dump) 4068 Opened true true (Ok tt) sample_actions ltac:(lia)) as Hs.
  destruct (new_server 4068 Opened true true (Ok tt) fresh_server) as [s0 [u|e]] eqn:E; [|vm_compute in E; discriminate].
  cbn [fst] in Ha |- *. cbn zeta in Hs. rewrite Ha in Hs. exact Hs.
Defined.
