(* ===== verification/Options.v ===== *)
(** * The command line

    [MineOptions] of src/include/yolo/stratum.hpp and src/src/main.cpp: parsing
    the arguments, the checks on them and the choice of what to run, which
    Program carries out. *)
From Stdlib Require Import SpecFloat.
From S2P Require Import Prelude Words Hex Targets Devices Nvml.

Record MineOptions := {
  o_sv2_authority : string; o_log_file : string; o_url : string; o_user : string; o_password : string;
  o_tui : string; o_cpu_variant : string; o_gpu_mode : string; o_devices : list Z; o_devices_explicit :
  bool; o_no_cpu : bool; o_no_gpu : bool; o_cpu_threads : Z; o_api_port : Z; o_block : Z; o_variant : Z;
  o_opencl_variant : Z; o_batch : Z; o_cpu_batch : Z; o_seconds : spec_float; o_warn_temperature : Z;
  o_alarm_temperature : Z; o_controls : GpuControls
}.
Definition default_options : MineOptions :=
  {| o_sv2_authority := EmptyString; o_log_file := EmptyString; o_url := EmptyString; o_user :=
     EmptyString; o_password := "x"; o_tui := "auto"; o_cpu_variant := "auto"; o_gpu_mode := "auto";
     o_devices := []; o_devices_explicit := false; o_no_cpu := false; o_no_gpu := false; o_cpu_threads
     := 0; o_api_port := 0; o_block := 0; o_variant := 3; o_opencl_variant := -1; o_batch := 2 ^ 26;
     o_cpu_batch := 16384; o_seconds := S754_zero false; o_warn_temperature := 75; o_alarm_temperature
     := 85; o_controls := {| c_core := []; c_memory := []; c_power := []; c_fan := [] |} |}.

(** Assignments to the options. *)
Definition set_sv2_authority (v : string) (o : MineOptions) : MineOptions :=
  {| o_sv2_authority := v; o_log_file := o_log_file o; o_url := o_url o; o_user := o_user o; o_password
     := o_password o; o_tui := o_tui o; o_cpu_variant := o_cpu_variant o; o_gpu_mode := o_gpu_mode o;
     o_devices := o_devices o; o_devices_explicit := o_devices_explicit o; o_no_cpu := o_no_cpu o;
     o_no_gpu := o_no_gpu o; o_cpu_threads := o_cpu_threads o; o_api_port := o_api_port o; o_block :=
     o_block o; o_variant := o_variant o; o_opencl_variant := o_opencl_variant o; o_batch := o_batch o;
     o_cpu_batch := o_cpu_batch o; o_seconds := o_seconds o; o_warn_temperature := o_warn_temperature o;
     o_alarm_temperature := o_alarm_temperature o; o_controls := o_controls o |}.
Definition set_log_file (v : string) (o : MineOptions) : MineOptions :=
  {| o_sv2_authority := o_sv2_authority o; o_log_file := v; o_url := o_url o; o_user := o_user o;
     o_password := o_password o; o_tui := o_tui o; o_cpu_variant := o_cpu_variant o; o_gpu_mode :=
     o_gpu_mode o; o_devices := o_devices o; o_devices_explicit := o_devices_explicit o; o_no_cpu :=
     o_no_cpu o; o_no_gpu := o_no_gpu o; o_cpu_threads := o_cpu_threads o; o_api_port := o_api_port o;
     o_block := o_block o; o_variant := o_variant o; o_opencl_variant := o_opencl_variant o; o_batch :=
     o_batch o; o_cpu_batch := o_cpu_batch o; o_seconds := o_seconds o; o_warn_temperature :=
     o_warn_temperature o; o_alarm_temperature := o_alarm_temperature o; o_controls := o_controls o |}.
Definition set_url (v : string) (o : MineOptions) : MineOptions :=
  {| o_sv2_authority := o_sv2_authority o; o_log_file := o_log_file o; o_url := v; o_user := o_user o;
     o_password := o_password o; o_tui := o_tui o; o_cpu_variant := o_cpu_variant o; o_gpu_mode :=
     o_gpu_mode o; o_devices := o_devices o; o_devices_explicit := o_devices_explicit o; o_no_cpu :=
     o_no_cpu o; o_no_gpu := o_no_gpu o; o_cpu_threads := o_cpu_threads o; o_api_port := o_api_port o;
     o_block := o_block o; o_variant := o_variant o; o_opencl_variant := o_opencl_variant o; o_batch :=
     o_batch o; o_cpu_batch := o_cpu_batch o; o_seconds := o_seconds o; o_warn_temperature :=
     o_warn_temperature o; o_alarm_temperature := o_alarm_temperature o; o_controls := o_controls o |}.
Definition set_user (v : string) (o : MineOptions) : MineOptions :=
  {| o_sv2_authority := o_sv2_authority o; o_log_file := o_log_file o; o_url := o_url o; o_user := v;
     o_password := o_password o; o_tui := o_tui o; o_cpu_variant := o_cpu_variant o; o_gpu_mode :=
     o_gpu_mode o; o_devices := o_devices o; o_devices_explicit := o_devices_explicit o; o_no_cpu :=
     o_no_cpu o; o_no_gpu := o_no_gpu o; o_cpu_threads := o_cpu_threads o; o_api_port := o_api_port o;
     o_block := o_block o; o_variant := o_variant o; o_opencl_variant := o_opencl_variant o; o_batch :=
     o_batch o; o_cpu_batch := o_cpu_batch o; o_seconds := o_seconds o; o_warn_temperature :=
     o_warn_temperature o; o_alarm_temperature := o_alarm_temperature o; o_controls := o_controls o |}.
Definition set_password (v : string) (o : MineOptions) : MineOptions :=
  {| o_sv2_authority := o_sv2_authority o; o_log_file := o_log_file o; o_url := o_url o; o_user :=
     o_user o; o_password := v; o_tui := o_tui o; o_cpu_variant := o_cpu_variant o; o_gpu_mode :=
     o_gpu_mode o; o_devices := o_devices o; o_devices_explicit := o_devices_explicit o; o_no_cpu :=
     o_no_cpu o; o_no_gpu := o_no_gpu o; o_cpu_threads := o_cpu_threads o; o_api_port := o_api_port o;
     o_block := o_block o; o_variant := o_variant o; o_opencl_variant := o_opencl_variant o; o_batch :=
     o_batch o; o_cpu_batch := o_cpu_batch o; o_seconds := o_seconds o; o_warn_temperature :=
     o_warn_temperature o; o_alarm_temperature := o_alarm_temperature o; o_controls := o_controls o |}.
Definition set_tui (v : string) (o : MineOptions) : MineOptions :=
  {| o_sv2_authority := o_sv2_authority o; o_log_file := o_log_file o; o_url := o_url o; o_user :=
     o_user o; o_password := o_password o; o_tui := v; o_cpu_variant := o_cpu_variant o; o_gpu_mode :=
     o_gpu_mode o; o_devices := o_devices o; o_devices_explicit := o_devices_explicit o; o_no_cpu :=
     o_no_cpu o; o_no_gpu := o_no_gpu o; o_cpu_threads := o_cpu_threads o; o_api_port := o_api_port o;
     o_block := o_block o; o_variant := o_variant o; o_opencl_variant := o_opencl_variant o; o_batch :=
     o_batch o; o_cpu_batch := o_cpu_batch o; o_seconds := o_seconds o; o_warn_temperature :=
     o_warn_temperature o; o_alarm_temperature := o_alarm_temperature o; o_controls := o_controls o |}.
Definition set_cpu_variant (v : string) (o : MineOptions) : MineOptions :=
  {| o_sv2_authority := o_sv2_authority o; o_log_file := o_log_file o; o_url := o_url o; o_user :=
     o_user o; o_password := o_password o; o_tui := o_tui o; o_cpu_variant := v; o_gpu_mode :=
     o_gpu_mode o; o_devices := o_devices o; o_devices_explicit := o_devices_explicit o; o_no_cpu :=
     o_no_cpu o; o_no_gpu := o_no_gpu o; o_cpu_threads := o_cpu_threads o; o_api_port := o_api_port o;
     o_block := o_block o; o_variant := o_variant o; o_opencl_variant := o_opencl_variant o; o_batch :=
     o_batch o; o_cpu_batch := o_cpu_batch o; o_seconds := o_seconds o; o_warn_temperature :=
     o_warn_temperature o; o_alarm_temperature := o_alarm_temperature o; o_controls := o_controls o |}.
Definition set_gpu_mode (v : string) (o : MineOptions) : MineOptions :=
  {| o_sv2_authority := o_sv2_authority o; o_log_file := o_log_file o; o_url := o_url o; o_user :=
     o_user o; o_password := o_password o; o_tui := o_tui o; o_cpu_variant := o_cpu_variant o;
     o_gpu_mode := v; o_devices := o_devices o; o_devices_explicit := o_devices_explicit o; o_no_cpu :=
     o_no_cpu o; o_no_gpu := o_no_gpu o; o_cpu_threads := o_cpu_threads o; o_api_port := o_api_port o;
     o_block := o_block o; o_variant := o_variant o; o_opencl_variant := o_opencl_variant o; o_batch :=
     o_batch o; o_cpu_batch := o_cpu_batch o; o_seconds := o_seconds o; o_warn_temperature :=
     o_warn_temperature o; o_alarm_temperature := o_alarm_temperature o; o_controls := o_controls o |}.
Definition set_devices (v : list Z) (o : MineOptions) : MineOptions :=
  {| o_sv2_authority := o_sv2_authority o; o_log_file := o_log_file o; o_url := o_url o; o_user :=
     o_user o; o_password := o_password o; o_tui := o_tui o; o_cpu_variant := o_cpu_variant o;
     o_gpu_mode := o_gpu_mode o; o_devices := v; o_devices_explicit := o_devices_explicit o; o_no_cpu :=
     o_no_cpu o; o_no_gpu := o_no_gpu o; o_cpu_threads := o_cpu_threads o; o_api_port := o_api_port o;
     o_block := o_block o; o_variant := o_variant o; o_opencl_variant := o_opencl_variant o; o_batch :=
     o_batch o; o_cpu_batch := o_cpu_batch o; o_seconds := o_seconds o; o_warn_temperature :=
     o_warn_temperature o; o_alarm_temperature := o_alarm_temperature o; o_controls := o_controls o |}.
Definition set_devices_explicit (v : bool) (o : MineOptions) : MineOptions :=
  {| o_sv2_authority := o_sv2_authority o; o_log_file := o_log_file o; o_url := o_url o; o_user :=
     o_user o; o_password := o_password o; o_tui := o_tui o; o_cpu_variant := o_cpu_variant o;
     o_gpu_mode := o_gpu_mode o; o_devices := o_devices o; o_devices_explicit := v; o_no_cpu := o_no_cpu
     o; o_no_gpu := o_no_gpu o; o_cpu_threads := o_cpu_threads o; o_api_port := o_api_port o; o_block :=
     o_block o; o_variant := o_variant o; o_opencl_variant := o_opencl_variant o; o_batch := o_batch o;
     o_cpu_batch := o_cpu_batch o; o_seconds := o_seconds o; o_warn_temperature := o_warn_temperature o;
     o_alarm_temperature := o_alarm_temperature o; o_controls := o_controls o |}.
Definition set_no_cpu (v : bool) (o : MineOptions) : MineOptions :=
  {| o_sv2_authority := o_sv2_authority o; o_log_file := o_log_file o; o_url := o_url o; o_user :=
     o_user o; o_password := o_password o; o_tui := o_tui o; o_cpu_variant := o_cpu_variant o;
     o_gpu_mode := o_gpu_mode o; o_devices := o_devices o; o_devices_explicit := o_devices_explicit o;
     o_no_cpu := v; o_no_gpu := o_no_gpu o; o_cpu_threads := o_cpu_threads o; o_api_port := o_api_port
     o; o_block := o_block o; o_variant := o_variant o; o_opencl_variant := o_opencl_variant o; o_batch
     := o_batch o; o_cpu_batch := o_cpu_batch o; o_seconds := o_seconds o; o_warn_temperature :=
     o_warn_temperature o; o_alarm_temperature := o_alarm_temperature o; o_controls := o_controls o |}.
Definition set_no_gpu (v : bool) (o : MineOptions) : MineOptions :=
  {| o_sv2_authority := o_sv2_authority o; o_log_file := o_log_file o; o_url := o_url o; o_user :=
     o_user o; o_password := o_password o; o_tui := o_tui o; o_cpu_variant := o_cpu_variant o;
     o_gpu_mode := o_gpu_mode o; o_devices := o_devices o; o_devices_explicit := o_devices_explicit o;
     o_no_cpu := o_no_cpu o; o_no_gpu := v; o_cpu_threads := o_cpu_threads o; o_api_port := o_api_port
     o; o_block := o_block o; o_variant := o_variant o; o_opencl_variant := o_opencl_variant o; o_batch
     := o_batch o; o_cpu_batch := o_cpu_batch o; o_seconds := o_seconds o; o_warn_temperature :=
     o_warn_temperature o; o_alarm_temperature := o_alarm_temperature o; o_controls := o_controls o |}.
Definition set_cpu_threads (v : Z) (o : MineOptions) : MineOptions :=
  {| o_sv2_authority := o_sv2_authority o; o_log_file := o_log_file o; o_url := o_url o; o_user :=
     o_user o; o_password := o_password o; o_tui := o_tui o; o_cpu_variant := o_cpu_variant o;
     o_gpu_mode := o_gpu_mode o; o_devices := o_devices o; o_devices_explicit := o_devices_explicit o;
     o_no_cpu := o_no_cpu o; o_no_gpu := o_no_gpu o; o_cpu_threads := v; o_api_port := o_api_port o;
     o_block := o_block o; o_variant := o_variant o; o_opencl_variant := o_opencl_variant o; o_batch :=
     o_batch o; o_cpu_batch := o_cpu_batch o; o_seconds := o_seconds o; o_warn_temperature :=
     o_warn_temperature o; o_alarm_temperature := o_alarm_temperature o; o_controls := o_controls o |}.
Definition set_api_port (v : Z) (o : MineOptions) : MineOptions :=
  {| o_sv2_authority := o_sv2_authority o; o_log_file := o_log_file o; o_url := o_url o; o_user :=
     o_user o; o_password := o_password o; o_tui := o_tui o; o_cpu_variant := o_cpu_variant o;
     o_gpu_mode := o_gpu_mode o; o_devices := o_devices o; o_devices_explicit := o_devices_explicit o;
     o_no_cpu := o_no_cpu o; o_no_gpu := o_no_gpu o; o_cpu_threads := o_cpu_threads o; o_api_port := v;
     o_block := o_block o; o_variant := o_variant o; o_opencl_variant := o_opencl_variant o; o_batch :=
     o_batch o; o_cpu_batch := o_cpu_batch o; o_seconds := o_seconds o; o_warn_temperature :=
     o_warn_temperature o; o_alarm_temperature := o_alarm_temperature o; o_controls := o_controls o |}.
Definition set_block (v : Z) (o : MineOptions) : MineOptions :=
  {| o_sv2_authority := o_sv2_authority o; o_log_file := o_log_file o; o_url := o_url o; o_user :=
     o_user o; o_password := o_password o; o_tui := o_tui o; o_cpu_variant := o_cpu_variant o;
     o_gpu_mode := o_gpu_mode o; o_devices := o_devices o; o_devices_explicit := o_devices_explicit o;
     o_no_cpu := o_no_cpu o; o_no_gpu := o_no_gpu o; o_cpu_threads := o_cpu_threads o; o_api_port :=
     o_api_port o; o_block := v; o_variant := o_variant o; o_opencl_variant := o_opencl_variant o;
     o_batch := o_batch o; o_cpu_batch := o_cpu_batch o; o_seconds := o_seconds o; o_warn_temperature :=
     o_warn_temperature o; o_alarm_temperature := o_alarm_temperature o; o_controls := o_controls o |}.
Definition set_variant (v : Z) (o : MineOptions) : MineOptions :=
  {| o_sv2_authority := o_sv2_authority o; o_log_file := o_log_file o; o_url := o_url o; o_user :=
     o_user o; o_password := o_password o; o_tui := o_tui o; o_cpu_variant := o_cpu_variant o;
     o_gpu_mode := o_gpu_mode o; o_devices := o_devices o; o_devices_explicit := o_devices_explicit o;
     o_no_cpu := o_no_cpu o; o_no_gpu := o_no_gpu o; o_cpu_threads := o_cpu_threads o; o_api_port :=
     o_api_port o; o_block := o_block o; o_variant := v; o_opencl_variant := o_opencl_variant o; o_batch
     := o_batch o; o_cpu_batch := o_cpu_batch o; o_seconds := o_seconds o; o_warn_temperature :=
     o_warn_temperature o; o_alarm_temperature := o_alarm_temperature o; o_controls := o_controls o |}.
Definition set_opencl_variant (v : Z) (o : MineOptions) : MineOptions :=
  {| o_sv2_authority := o_sv2_authority o; o_log_file := o_log_file o; o_url := o_url o; o_user :=
     o_user o; o_password := o_password o; o_tui := o_tui o; o_cpu_variant := o_cpu_variant o;
     o_gpu_mode := o_gpu_mode o; o_devices := o_devices o; o_devices_explicit := o_devices_explicit o;
     o_no_cpu := o_no_cpu o; o_no_gpu := o_no_gpu o; o_cpu_threads := o_cpu_threads o; o_api_port :=
     o_api_port o; o_block := o_block o; o_variant := o_variant o; o_opencl_variant := v; o_batch :=
     o_batch o; o_cpu_batch := o_cpu_batch o; o_seconds := o_seconds o; o_warn_temperature :=
     o_warn_temperature o; o_alarm_temperature := o_alarm_temperature o; o_controls := o_controls o |}.
Definition set_batch (v : Z) (o : MineOptions) : MineOptions :=
  {| o_sv2_authority := o_sv2_authority o; o_log_file := o_log_file o; o_url := o_url o; o_user :=
     o_user o; o_password := o_password o; o_tui := o_tui o; o_cpu_variant := o_cpu_variant o;
     o_gpu_mode := o_gpu_mode o; o_devices := o_devices o; o_devices_explicit := o_devices_explicit o;
     o_no_cpu := o_no_cpu o; o_no_gpu := o_no_gpu o; o_cpu_threads := o_cpu_threads o; o_api_port :=
     o_api_port o; o_block := o_block o; o_variant := o_variant o; o_opencl_variant := o_opencl_variant
     o; o_batch := v; o_cpu_batch := o_cpu_batch o; o_seconds := o_seconds o; o_warn_temperature :=
     o_warn_temperature o; o_alarm_temperature := o_alarm_temperature o; o_controls := o_controls o |}.
Definition set_cpu_batch (v : Z) (o : MineOptions) : MineOptions :=
  {| o_sv2_authority := o_sv2_authority o; o_log_file := o_log_file o; o_url := o_url o; o_user :=
     o_user o; o_password := o_password o; o_tui := o_tui o; o_cpu_variant := o_cpu_variant o;
     o_gpu_mode := o_gpu_mode o; o_devices := o_devices o; o_devices_explicit := o_devices_explicit o;
     o_no_cpu := o_no_cpu o; o_no_gpu := o_no_gpu o; o_cpu_threads := o_cpu_threads o; o_api_port :=
     o_api_port o; o_block := o_block o; o_variant := o_variant o; o_opencl_variant := o_opencl_variant
     o; o_batch := o_batch o; o_cpu_batch := v; o_seconds := o_seconds o; o_warn_temperature :=
     o_warn_temperature o; o_alarm_temperature := o_alarm_temperature o; o_controls := o_controls o |}.
Definition set_seconds (v : spec_float) (o : MineOptions) : MineOptions :=
  {| o_sv2_authority := o_sv2_authority o; o_log_file := o_log_file o; o_url := o_url o; o_user :=
     o_user o; o_password := o_password o; o_tui := o_tui o; o_cpu_variant := o_cpu_variant o;
     o_gpu_mode := o_gpu_mode o; o_devices := o_devices o; o_devices_explicit := o_devices_explicit o;
     o_no_cpu := o_no_cpu o; o_no_gpu := o_no_gpu o; o_cpu_threads := o_cpu_threads o; o_api_port :=
     o_api_port o; o_block := o_block o; o_variant := o_variant o; o_opencl_variant := o_opencl_variant
     o; o_batch := o_batch o; o_cpu_batch := o_cpu_batch o; o_seconds := v; o_warn_temperature :=
     o_warn_temperature o; o_alarm_temperature := o_alarm_temperature o; o_controls := o_controls o |}.
Definition set_warn_temperature (v : Z) (o : MineOptions) : MineOptions :=
  {| o_sv2_authority := o_sv2_authority o; o_log_file := o_log_file o; o_url := o_url o; o_user :=
     o_user o; o_password := o_password o; o_tui := o_tui o; o_cpu_variant := o_cpu_variant o;
     o_gpu_mode := o_gpu_mode o; o_devices := o_devices o; o_devices_explicit := o_devices_explicit o;
     o_no_cpu := o_no_cpu o; o_no_gpu := o_no_gpu o; o_cpu_threads := o_cpu_threads o; o_api_port :=
     o_api_port o; o_block := o_block o; o_variant := o_variant o; o_opencl_variant := o_opencl_variant
     o; o_batch := o_batch o; o_cpu_batch := o_cpu_batch o; o_seconds := o_seconds o; o_warn_temperature
     := v; o_alarm_temperature := o_alarm_temperature o; o_controls := o_controls o |}.
Definition set_alarm_temperature (v : Z) (o : MineOptions) : MineOptions :=
  {| o_sv2_authority := o_sv2_authority o; o_log_file := o_log_file o; o_url := o_url o; o_user :=
     o_user o; o_password := o_password o; o_tui := o_tui o; o_cpu_variant := o_cpu_variant o;
     o_gpu_mode := o_gpu_mode o; o_devices := o_devices o; o_devices_explicit := o_devices_explicit o;
     o_no_cpu := o_no_cpu o; o_no_gpu := o_no_gpu o; o_cpu_threads := o_cpu_threads o; o_api_port :=
     o_api_port o; o_block := o_block o; o_variant := o_variant o; o_opencl_variant := o_opencl_variant
     o; o_batch := o_batch o; o_cpu_batch := o_cpu_batch o; o_seconds := o_seconds o; o_warn_temperature
     := o_warn_temperature o; o_alarm_temperature := v; o_controls := o_controls o |}.
Definition set_controls (v : GpuControls) (o : MineOptions) : MineOptions :=
  {| o_sv2_authority := o_sv2_authority o; o_log_file := o_log_file o; o_url := o_url o; o_user :=
     o_user o; o_password := o_password o; o_tui := o_tui o; o_cpu_variant := o_cpu_variant o;
     o_gpu_mode := o_gpu_mode o; o_devices := o_devices o; o_devices_explicit := o_devices_explicit o;
     o_no_cpu := o_no_cpu o; o_no_gpu := o_no_gpu o; o_cpu_threads := o_cpu_threads o; o_api_port :=
     o_api_port o; o_block := o_block o; o_variant := o_variant o; o_opencl_variant := o_opencl_variant
     o; o_batch := o_batch o; o_cpu_batch := o_cpu_batch o; o_seconds := o_seconds o; o_warn_temperature
     := o_warn_temperature o; o_alarm_temperature := o_alarm_temperature o; o_controls := v |}.

Definition set_core_mhz (v : list Z) (o : MineOptions) : MineOptions :=
  set_controls {| c_core := v; c_memory := c_memory (o_controls o); c_power := c_power (o_controls o);
                  c_fan := c_fan (o_controls o) |} o.
Definition set_memory_mhz (v : list Z) (o : MineOptions) : MineOptions :=
  set_controls {| c_core := c_core (o_controls o); c_memory := v; c_power := c_power (o_controls o);
                  c_fan := c_fan (o_controls o) |} o.
Definition set_power_watts (v : list Z) (o : MineOptions) : MineOptions :=
  set_controls {| c_core := c_core (o_controls o); c_memory := c_memory (o_controls o); c_power := v;
                  c_fan := c_fan (o_controls o) |} o.
Definition set_fan_percent (v : list Z) (o : MineOptions) : MineOptions :=
  set_controls {| c_core := c_core (o_controls o); c_memory := c_memory (o_controls o);
                  c_power := c_power (o_controls o); c_fan := v |} o.

(** ** Numbers *)

(** [integer]: [std::stoull] reads all of the digits and refuses 2^64 and more. *)
Definition integer (s : string) (maximum : Z) : result Z :=
  let b := String.list_byte_of_string s in
  _ ← throw_if (bool_decide (b = []) || negb (forallb is_digit b)) "expected nonnegative integer";
  let n := dec_value b in
  if 2 ^ 64 <=? n then Throw std_out_of_range
  else _ ← throw_if (maximum <? n) "integer out of range"; Ok n.

(** The fields [text.find(',', pos)] cuts. *)
Fixpoint fields_from (field s : Bytes) : list Bytes :=
  match s with
  | [] => [field]
  | c :: s => if b2z c =? 44 then field :: fields_from [] s else fields_from (field ++ [c]) s
  end.
Fixpoint integers (fs : list Bytes) (maximum : Z) : result (list Z) :=
  match fs with
  | [] => Ok []
  | f :: fs =>
      n ← integer (String.string_of_list_byte f) maximum;
      ns ← integers fs maximum; Ok (n :: ns)
  end.
Definition numbers (text : string) (maximum : Z) : result (list Z) :=
  integers (fields_from [] (String.list_byte_of_string text)) maximum.

(** ** [std::stod] *)

Definition lower (c : byte) : Z := if (65 <=? b2z c) && (b2z c <=? 90) then b2z c + 32 else b2z c.
Definition hex_value (c : byte) : option Z :=
  if is_digit c then Some (b2z c - 48)
  else if (97 <=? lower c) && (lower c <=? 102) then Some (lower c - 87) else None.
Definition is_hex (c : byte) : bool := match hex_value c with Some _ => true | None => false end.
Definition starts_ci (word : string) (s : Bytes) : bool :=
  bool_decide (lower <$> take (String.length word) s = lower <$> String.list_byte_of_string word).

(** The digits before and after the point, and how many characters they take. *)
Definition mantissa (P : byte → bool) (s : Bytes) : Bytes * Bytes * nat :=
  let int := take_while P s in
  match drop_while P s with
  | c :: r => if b2z c =? 46 then (int, take_while P r, S (length int + length (take_while P r)))
              else (int, [], length int)
  | [] => (int, [], length int)
  end.
(** An exponent introduced by [letter], and its length; none without digits. *)
Definition exponent (letter : Z) (s : Bytes) : Z * nat :=
  match s with
  | c :: r =>
      if lower c =? letter then
        let '(neg, sign, r) := match r with
          | d :: r' => if b2z d =? 45 then (true, 1%nat, r') else if b2z d =? 43 then (false, 1%nat, r') else (false, 0%nat, r)
          | [] => (false, 0%nat, []) end in
        let ds := take_while is_digit r in
        if bool_decide (ds = []) then (0, 0%nat)
        else (if neg : bool then - dec_value ds else dec_value ds, S (sign + length ds))
      else (0, 0%nat)
  | [] => (0, 0%nat)
  end.

(** n * 10^e and n * 2^e to the nearest double. *)
Definition scale10 (neg : bool) (n e : Z) : spec_float :=
  match n with
  | Z.pos m =>
      if 0 <=? e then binary_normalize 53 1024 ((if neg then -1 else 1) * n * 10 ^ e) 0 neg
      else SFdiv 53 1024 (S754_finite neg m 0) (S754_finite false (Z.to_pos (10 ^ (- e))) 0)
  | _ => S754_zero neg
  end.
Definition scale2 (neg : bool) (n e : Z) : spec_float :=
  binary_normalize 53 1024 ((if neg then -1 else 1) * n) e neg.

(** [ERANGE]: an overflow, or a result below the normal range that is not exact;
    [num / den] is the exact value. *)
Definition out_of_range (num den : Z) (f : spec_float) : bool :=
  match f with
  | S754_infinity _ => true
  | S754_zero _ => negb (num =? 0)
  | S754_finite _ m e =>
      (Z.pos m * 2 ^ (e + 1074) <? 2 ^ 52) && negb (Z.pos m * den * 2 ^ (e + 1074) =? num * 2 ^ 1074)
  | S754_nan => false
  end.

Definition pow_part (b e : Z) : Z * Z := if 0 <=? e then (b ^ e, 1) else (1, b ^ (- e)).

(** The value and the number of characters read. *)
Definition stod (s : Bytes) : result (spec_float * nat) :=
  let ws := length (take_while is_space s) in
  let s := drop ws s in
  let '(neg, sign) := match s with
    | c :: _ => if b2z c =? 45 then (true, 1%nat) else if b2z c =? 43 then (false, 1%nat) else (false, 0%nat)
    | [] => (false, 0%nat) end in
  let s := drop sign s in
  let used k := (ws + sign + k)%nat in
  let '(hi, hf, hk) := mantissa is_hex (drop 2 s) in
  if starts_ci "infinity" s then Ok (S754_infinity neg, used 8%nat)
  else if starts_ci "inf" s then Ok (S754_infinity neg, used 3%nat)
  else if starts_ci "nan" s then Ok (S754_nan, used 3%nat)
  else if starts_ci "0x" s && negb (bool_decide (hi ++ hf = [])) then
    let n := fold_left (λ v c, v * 16 + default 0 (hex_value c)) (hi ++ hf) 0 in
    let '(e, k) := exponent 112 (drop (2 + hk) s) in
    let e := e - 4 * Z.of_nat (length hf) in
    let f := scale2 neg n e in
    if out_of_range (n * (pow_part 2 e).1) (pow_part 2 e).2 f then Throw std_out_of_range
    else Ok (f, used (2 + hk + k)%nat)
  else
    let '(di, df, dk) := mantissa is_digit s in
    if bool_decide (di ++ df = []) then Throw std_invalid_argument
    else
      let n := dec_value (di ++ df) in
      let '(e, k) := exponent 101 (drop dk s) in
      let e := e - Z.of_nat (length df) in
      let f := scale10 neg n e in
      if out_of_range (n * (pow_part 10 e).1) (pow_part 10 e).2 f then Throw std_out_of_range
      else Ok (f, used (dk + k)%nat).

Definition isfinite (f : spec_float) : bool :=
  match f with S754_finite _ _ _ | S754_zero _ => true | _ => false end.

(** [--seconds] *)
Definition positive_seconds (s : string) : result spec_float :=
  '(v, used) ← stod (String.list_byte_of_string s);
  _ ← throw_if (negb (used =? String.length s)%nat || negb (isfinite v) || SFleb v (S754_zero false))
        "seconds must be positive and finite";
  Ok v.

(** ** The argument loop *)

(** The variables [main] fills. *)
Record Args := {
  opts : MineOptions; bench : bool; seconds_set : bool; list_devices : bool; demo : bool; help : bool
}.
Definition no_args : Args :=
  {| opts := default_options; bench := false; seconds_set := false; list_devices := false;
     demo := false; help := false |}.
Definition set_opts (f : MineOptions → MineOptions) (a : Args) : Args :=
  {| opts := f (opts a); bench := bench a; seconds_set := seconds_set a;
     list_devices := list_devices a; demo := demo a; help := help a |}.

(** The branches without a value. *)
Definition flag_of (a : string) (s : Args) : option Args :=
  if bool_decide (a = "--benchmark") then
    Some {| opts := opts s; bench := true; seconds_set := seconds_set s;
            list_devices := list_devices s; demo := demo s; help := help s |}
  else if bool_decide (a = "--no-cpu") then Some (set_opts (set_no_cpu true) s)
  else if bool_decide (a = "--no-gpu") || bool_decide (a = "--cpu") then Some (set_opts (set_no_gpu true) s)
  else if bool_decide (a = "--tui") then Some (set_opts (set_tui "on") s)
  else if bool_decide (a = "--no-tui") then Some (set_opts (set_tui "off") s)
  else if bool_decide (a = "--list-devices") then
    Some {| opts := opts s; bench := bench s; seconds_set := seconds_set s;
            list_devices := true; demo := demo s; help := help s |}
  else if bool_decide (a = "--tui-demo") then
    Some {| opts := opts s; bench := bench s; seconds_set := seconds_set s;
            list_devices := list_devices s; demo := true; help := help s |}
  else if bool_decide (a = "--help") || bool_decide (a = "-h") then
    Some {| opts := opts s; bench := bench s; seconds_set := seconds_set s;
            list_devices := list_devices s; demo := demo s; help := true |}
  else None.

Definition as_int (set : Z → MineOptions → MineOptions) (maximum : Z) (v : string) (s : Args) : result Args :=
  n ← integer v maximum; Ok (set_opts (set n) s).
Definition as_batch (set : Z → MineOptions → MineOptions) (maximum : Z) (msg v : string) (s : Args) : result Args :=
  n ← integer v maximum; _ ← throw_if (n =? 0) msg; Ok (set_opts (set n) s).
Definition as_list (set : list Z → MineOptions → MineOptions) (maximum : Z) (v : string) (s : Args) : result Args :=
  l ← numbers v maximum; Ok (set_opts (set l) s).
Definition as_text (set : string → MineOptions → MineOptions) (v : string) (s : Args) : result Args :=
  Ok (set_opts (set v) s).
Definition as_devices (v : string) (s : Args) : result Args :=
  l ← numbers v 255;
  _ ← throw_if (negb (bool_decide (NoDup l))) "duplicate GPU device";
  Ok (set_opts (λ o, set_devices_explicit true (set_devices l o)) s).
Definition as_seconds (v : string) (s : Args) : result Args :=
  f ← positive_seconds v;
  Ok {| opts := set_seconds f (opts s); bench := bench s; seconds_set := true;
        list_devices := list_devices s; demo := demo s; help := help s |}.

(** The branches that take a value. *)
Definition valued : list (string * (string → Args → result Args)) :=
  [("--gpu-device", as_devices); ("-d", as_devices);
   ("--gpu-backend", as_text set_gpu_mode); ("--cpu-variant", as_text set_cpu_variant);
   ("--cpu-threads", as_int set_cpu_threads 128); ("--block", as_int set_block 1024);
   ("--opencl-variant", as_int set_opencl_variant 3); ("--variant", as_int set_variant 6);
   ("--batch", as_batch set_batch (2 ^ 28) "batch must be positive");
   ("--cpu-batch", as_batch set_cpu_batch (2 ^ 20) "CPU batch must be positive");
   ("--seconds", as_seconds);
   ("--sv2-authority", as_text set_sv2_authority); ("--url", as_text set_url);
   ("--user", as_text set_user); ("--log-file", as_text set_log_file);
   ("--api-port", as_int set_api_port 65535); ("--password", as_text set_password);
   ("--gpu-core-clock", as_list set_core_mhz 10000); ("--gpu-mem-clock", as_list set_memory_mhz 100000);
   ("--powerlimit", as_list set_power_watts 2000); ("--gpu-fan-speed", as_list set_fan_percent 100);
   ("--gpu-temp-warn", as_int set_warn_temperature 120);
   ("--gpu-temp-alarm", as_int set_alarm_temperature 120)].
Fixpoint branch (a : string) (l : list (string * (string → Args → result Args)))
    : option (string → Args → result Args) :=
  match l with
  | [] => None
  | (name, f) :: l => if bool_decide (a = name) then Some f else branch a l
  end.

(** The loop over [argv]; none when [--version] ends the program. *)
Fixpoint parse (argv : list string) (s : Args) : result (option Args) :=
  match argv with
  | [] => Ok (Some s)
  | a :: rest =>
      if bool_decide (a = "--version") then Ok None
      else match flag_of a s with
      | Some s => parse rest s
      | None =>
          match branch a valued with
          | Some f =>
              match rest with
              | [] => Throw (runtime_error ("missing value for " +:+ a))
              | v :: rest => s ← f v s; parse rest s
              end
          | None => Throw (runtime_error ("unknown argument: " +:+ a))
          end
      end
  end.

(** ** What to run *)

(** What [main] goes on to do, or the exit status it returns at once. *)
Inductive command :=
| Exit (code : Z)
| ListDevices (o : MineOptions)
| Demo (seconds : spec_float)
| Mine (o : MineOptions)
| Benchmark (o : MineOptions).

(** The checks that follow the loop, in their order. *)
Definition check_args (a : Args) : result unit :=
  let o := opts a in
  _ ← throw_if (negb (bool_decide (o_cpu_variant o = "auto")) &&
                negb (bool_decide (o_cpu_variant o = "scalar")) &&
                negb (bool_decide (o_cpu_variant o = "avx2")))
        "CPU variant must be auto, scalar or avx2";
  _ ← throw_if (1 <? Z.b2z (bench a) + Z.b2z (demo a) + Z.b2z (list_devices a))
        "choose one inspection/benchmark mode";
  _ ← throw_if (list_devices a && requested (o_controls o))
        "--list-devices cannot apply hardware settings";
  _ ← throw_if ((o_alarm_temperature o <=? o_warn_temperature o) || (o_warn_temperature o =? 0))
        "temperature thresholds require 0 < warn < alarm";
  throw_if ((bench a || demo a || list_devices a) && negb (bool_decide (o_url o = EmptyString)))
    "inspection/benchmark mode cannot be combined with --url".

Definition ten : spec_float := binary_normalize 53 1024 10 0 false.
(** Mining or the benchmark. *)
Definition choose_run (a : Args) : result command :=
  let o := opts a in
  _ ← throw_if (o_no_cpu o && o_no_gpu o) "No mining devices enabled (--no-cpu and --no-gpu)";
  _ ← throw_if (o_no_gpu o && o_devices_explicit o) "--gpu-device conflicts with --no-gpu";
  if negb (bool_decide (o_url o = EmptyString)) then Ok (Mine o)
  else if negb (bench a) then Ok (Exit 1)
  else Ok (Benchmark (if seconds_set a then o else set_seconds ten o)).
Definition dispatch (a : Args) : result command :=
  if demo a then
    _ ← throw_if (requested (o_controls (opts a))) "demo cannot apply hardware settings";
    Ok (Demo (if seconds_set a then o_seconds (opts a) else ten))
  else if list_devices a then Ok (ListDevices (opts a))
  else choose_run a.

Definition main_command (argv : list string) : result command :=
  parsed ← parse argv no_args;
  match parsed with
  | None => Ok (Exit 0)
  | Some a =>
      if help a || bool_decide (argv = []) then Ok (Exit 0)
      else _ ← check_args a; dispatch a
  end.

(** ** Properties *)

(** The ranges every value read from the command line keeps. *)
Record options_ok (o : MineOptions) : Prop := {
  ok_batch : 0 < o_batch o ≤ 2 ^ 28;
  ok_cpu_batch : 0 < o_cpu_batch o ≤ 2 ^ 20;
  ok_threads : 0 ≤ o_cpu_threads o ≤ 128;
  ok_port : 0 ≤ o_api_port o ≤ 65535;
  ok_tuning : 0 ≤ o_block o ≤ 1024 ∧ 0 ≤ o_variant o ≤ 6 ∧ -1 ≤ o_opencl_variant o ≤ 3;
  ok_devices : NoDup (o_devices o) ∧ Forall (λ d, 0 ≤ d ≤ 255) (o_devices o) ∧
    (o_devices_explicit o = true → o_devices o ≠ []);
  ok_controls : Forall (λ v, 0 ≤ v ≤ 10000) (c_core (o_controls o)) ∧
    Forall (λ v, 0 ≤ v ≤ 100000) (c_memory (o_controls o)) ∧
    Forall (λ v, 0 ≤ v ≤ 2000) (c_power (o_controls o)) ∧
    Forall (λ v, 0 ≤ v ≤ 100) (c_fan (o_controls o));
  ok_temperatures : 0 ≤ o_warn_temperature o ≤ 120 ∧ 0 ≤ o_alarm_temperature o ≤ 120;
}.
(** [o.seconds] is zero, for no limit, or what [--seconds] accepts. *)
Definition seconds_ok (o : MineOptions) : Prop :=
  o_seconds o = S754_zero false ∨
  (isfinite (o_seconds o) = true ∧ SFleb (o_seconds o) (S754_zero false) = false).

Lemma integer_Ok s maximum n : integer s maximum = Ok n →
  0 ≤ n ≤ maximum ∧ forallb is_digit (String.list_byte_of_string s) = true ∧
  n = dec_value (String.list_byte_of_string s).
Proof.
  unfold integer. intros H. apply bind_Ok in H as (u & Hd & H). apply throw_if_Ok in Hd.
  apply orb_false_iff in Hd as [_ Hd]. apply negb_false_iff in Hd.
  destruct (2 ^ 64 <=? _); [discriminate|]. inv_ok. bool_lia.
  pose proof (dec_value_nonneg _ Hd). split_and!; try done.
Qed.

Lemma integers_Ok fs maximum ns : integers fs maximum = Ok ns →
  Forall (λ n, 0 ≤ n ≤ maximum) ns ∧ length ns = length fs.
Proof.
  revert ns. induction fs as [|f fs IH]; intros ns; cbn; [by intros [= <-]|].
  intros H. apply bind_Ok in H as (n & Hn & H). apply bind_Ok in H as (ms & Hm & H).
  injection H as <-. destruct (IH ms Hm) as [? ?]. cbn. split; [|lia]. constructor; [|done].
  by apply integer_Ok in Hn as [? _].
Qed.

Lemma fields_from_nonempty f s : fields_from f s ≠ [].
Proof. revert f. induction s as [|c s IH]; intros f; cbn; [done|]. by destruct (_ =? _). Qed.

Lemma numbers_Ok text maximum ns : numbers text maximum = Ok ns →
  Forall (λ n, 0 ≤ n ≤ maximum) ns ∧ ns ≠ [].
Proof.
  intros [Hf Hl]%integers_Ok. split; [done|]. intros ->.
  by destruct (fields_from [] _) eqn:E; [apply fields_from_nonempty in E|].
Qed.

Lemma positive_seconds_Ok s v : positive_seconds s = Ok v →
  isfinite v = true ∧ SFleb v (S754_zero false) = false.
Proof.
  unfold positive_seconds. intros H. apply bind_Ok in H as ([f used] & _ & H).
  apply bind_Ok in H as (u & Hc & H). apply throw_if_Ok in Hc. injection H as <-.
  apply orb_false_iff in Hc as [Hc Hs]. apply orb_false_iff in Hc as [_ Hf].
  by apply negb_false_iff in Hf.
Qed.

Definition args_ok (a : Args) : Prop := options_ok (opts a) ∧ seconds_ok (opts a).

Lemma no_args_ok : args_ok no_args.
Proof. split; [|by left]. constructor; cbn; split_and!; try lia; constructor. Qed.

Lemma flag_of_ok a s s' : args_ok s → flag_of a s = Some s' → args_ok s'.
Proof.
  intros [[] Hs] H. unfold flag_of in H.
  repeat (case_match; [injection H as <-; split; [by constructor|exact Hs]|]). discriminate.
Qed.

(** Options that differ in one group of fields. *)
Ltac same_options Hok :=
  constructor;
  [first [exact (ok_batch _ Hok)|idtac]|first [exact (ok_cpu_batch _ Hok)|idtac]
  |first [exact (ok_threads _ Hok)|idtac]|first [exact (ok_port _ Hok)|idtac]
  |first [exact (ok_tuning _ Hok)|idtac]|first [exact (ok_devices _ Hok)|idtac]
  |first [exact (ok_controls _ Hok)|idtac]|first [exact (ok_temperatures _ Hok)|idtac]].

Lemma as_text_ok set : (∀ v o, options_ok o → seconds_ok o → options_ok (set v o) ∧ seconds_ok (set v o)) →
  ∀ v s s', args_ok s → as_text set v s = Ok s' → args_ok s'.
Proof. intros Hset v s s' [Hok Hs] H. injection H as <-. exact (Hset v _ Hok Hs). Qed.

Lemma as_int_ok set maximum :
  (∀ n o, 0 ≤ n ≤ maximum → options_ok o → seconds_ok o → options_ok (set n o) ∧ seconds_ok (set n o)) →
  ∀ v s s', args_ok s → as_int set maximum v s = Ok s' → args_ok s'.
Proof.
  intros Hset v s s' [Hok Hs] H. apply bind_Ok in H as (n & [Hn _]%integer_Ok & H). injection H as <-.
  exact (Hset n _ Hn Hok Hs).
Qed.

Lemma as_batch_ok set maximum msg :
  (∀ n o, 0 < n ≤ maximum → options_ok o → seconds_ok o → options_ok (set n o) ∧ seconds_ok (set n o)) →
  ∀ v s s', args_ok s → as_batch set maximum msg v s = Ok s' → args_ok s'.
Proof.
  intros Hset v s s' [Hok Hs] H. apply bind_Ok in H as (n & [Hn _]%integer_Ok & H).
  apply bind_Ok in H as (u & H0%throw_if_Ok & H). injection H as <-.
  apply (Hset n); [bool_lia|done..].
Qed.

Lemma as_list_ok set maximum :
  (∀ l o, Forall (λ n, 0 ≤ n ≤ maximum) l → options_ok o → seconds_ok o →
    options_ok (set l o) ∧ seconds_ok (set l o)) →
  ∀ v s s', args_ok s → as_list set maximum v s = Ok s' → args_ok s'.
Proof.
  intros Hset v s s' [Hok Hs] H. apply bind_Ok in H as (l & [Hl _]%numbers_Ok & H). injection H as <-.
  exact (Hset l _ Hl Hok Hs).
Qed.

Lemma as_devices_ok v s s' : args_ok s → as_devices v s = Ok s' → args_ok s'.
Proof.
  intros [Hok Hs] H. apply bind_Ok in H as (l & [Hl Hne]%numbers_Ok & H).
  apply bind_Ok in H as (u & Hd%throw_if_Ok & H). injection H as <-.
  apply negb_false_iff, bool_decide_eq_true in Hd. split; [|exact Hs]. same_options Hok. by split_and!.
Qed.

Lemma as_seconds_ok v s s' : args_ok s → as_seconds v s = Ok s' → args_ok s'.
Proof.
  intros [Hok Hs] H. apply bind_Ok in H as (f & Hf%positive_seconds_Ok & H). injection H as <-.
  split; [same_options Hok|by right].
Qed.

Lemma valued_ok : Forall (λ p, ∀ v s s', args_ok s → p.2 v s = Ok s' → args_ok s') valued.
Proof.
  unfold valued. repeat apply Forall_cons_2; [..|apply Forall_nil_2]; cbn [snd].
  all: first [exact as_devices_ok | exact as_seconds_ok | apply as_text_ok | apply as_int_ok
             | apply as_batch_ok | apply as_list_ok].
  all: first [intros ? ? Hn Hok Hs|intros ? ? Hok Hs]; (split; [same_options Hok|exact Hs]); cbn.
  all: pose proof (ok_tuning _ Hok); pose proof (ok_temperatures _ Hok); destruct (ok_controls _ Hok) as (?&?&?&?).
  all: try assumption; split_and!; (assumption || lia).
Qed.

Lemma branch_ok a l f v s s' : Forall (λ p, ∀ v s s', args_ok s → p.2 v s = Ok s' → args_ok s') l →
  branch a l = Some f → args_ok s → f v s = Ok s' → args_ok s'.
Proof.
  induction 1 as [|[n g] l Hg _ IH]; cbn; [done|]. case_bool_decide; [|exact IH].
  intros [= ->]. apply Hg.
Qed.

Lemma parse_ok argv s a : args_ok s → parse argv s = Ok (Some a) → args_ok a.
Proof.
  assert (∀ n argv s, (length argv ≤ n)%nat → args_ok s → parse argv s = Ok (Some a) → args_ok a) as Hn;
    [|by eapply Hn].
  clear. induction n as [|n IH]; intros [|x rest] s Hl Hs; cbn [parse length] in *; try lia; try (intros [= <-]; exact Hs).
  destruct (bool_decide _); [done|]. destruct (flag_of x s) as [s1|] eqn:Hf.
  - apply IH; [lia|]. by eapply flag_of_ok.
  - destruct (branch x valued) as [f|] eqn:Hb; [|done]. destruct rest as [|v rest]; [done|].
    intros H. apply bind_Ok in H as (s1 & Hs1 & H). revert H. apply IH; [cbn in Hl; lia|].
    eapply branch_ok; [apply valued_ok|exact Hb|exact Hs|exact Hs1].
Qed.

(** The options of a command line that starts mining. *)
Lemma command_options argv o : main_command argv = Ok (Mine o) →
  options_ok o ∧ seconds_ok o ∧ o_url o ≠ EmptyString ∧
  0 < o_warn_temperature o < o_alarm_temperature o ∧
  (o_cpu_variant o = "auto" ∨ o_cpu_variant o = "scalar" ∨ o_cpu_variant o = "avx2") ∧
  o_no_cpu o && o_no_gpu o = false ∧ o_no_gpu o && o_devices_explicit o = false.
Proof.
  unfold main_command. intros H. apply bind_Ok in H as ([a|] & Hp & H); [|discriminate].
  apply parse_ok in Hp as [Hok Hsec]; [|exact no_args_ok].
  destruct (help a || _); [discriminate|]. apply bind_Ok in H as (u & Hc & H).
  unfold check_args in Hc. cbn zeta in Hc.
  apply bind_Ok in Hc as (? & Hx%throw_if_Ok & Hc). apply bind_Ok in Hc as (? & _ & Hc).
  apply bind_Ok in Hc as (? & _ & Hc). apply bind_Ok in Hc as (? & Hx2%throw_if_Ok & _).
  unfold dispatch in H.
  destruct (demo a); [apply bind_Ok in H as (? & _ & H); discriminate|].
  destruct (list_devices a); [discriminate|]. unfold choose_run in H. cbn zeta in H.
  apply bind_Ok in H as (? & Hcpu%throw_if_Ok & H). apply bind_Ok in H as (? & Hgpu%throw_if_Ok & H).
  destruct (negb (bool_decide (o_url (opts a) = _))) eqn:Hu; [|destruct (negb (bench a)); discriminate].
  injection H as <-. apply negb_true_iff, bool_decide_eq_false in Hu.
  apply orb_false_iff in Hx2 as [Hx2 Hw0]. destruct (ok_temperatures _ Hok). bool_lia.
  split_and!; try done; try lia.
  repeat (apply andb_false_iff in Hx as [Hx|Hx]); apply negb_false_iff, bool_decide_eq_true in Hx; auto.
Qed.

(** C36: A command line starts mining only with options in their ranges: positive
    bounded batches, at most 128 CPU threads, distinct device numbers, control
    values within the published limits, thresholds in order, a pool URL, and at
    least one kind of device. *)
Theorem mine_options_ok argv o : main_command argv = Ok (Mine o) →
  options_ok o ∧ seconds_ok o ∧ o_url o ≠ EmptyString ∧
  0 < o_warn_temperature o < o_alarm_temperature o ∧
  (o_cpu_variant o = "auto" ∨ o_cpu_variant o = "scalar" ∨ o_cpu_variant o = "avx2") ∧
  o_no_cpu o && o_no_gpu o = false ∧ o_no_gpu o && o_devices_explicit o = false.
Proof. apply command_options. Qed.

Definition sample_argv : list string :=
  ["--url"; "stratum+tcp://pool:4444"; "--user"; "address.rig"; "-d"; "0,2"; "--batch"; "1048576";
   "--gpu-temp-warn"; "70"; "--seconds"; "1.5"]%string.
Definition mined (c : result command) : MineOptions :=
  match c with Ok (Mine o) => o | _ => default_options end.

Lemma mine_options_ok_witness :
  let o := mined (main_command sample_argv) in
  o_devices o = [0; 2] ∧ o_batch o = 1048576 ∧ options_ok o ∧ 0 < o_warn_temperature o < o_alarm_temperature o.
Proof.
  cbn zeta. split; [vm_compute; reflexivity|]. split; [vm_compute; reflexivity|].
  assert (main_command sample_argv = Ok (Mine (mined (main_command sample_argv)))) as H
    by (vm_compute; reflexivity).
  destruct (mine_options_ok sample_argv _ H) as (Hok & _ & _ & Hw & _). exact (conj Hok Hw).
Defined.
