(* ===== verification/Coordinator.v ===== *)
(** * The coordinator

    The main thread of [mine] in src/src/miner.cpp: handling the pool's messages,
    publishing work, checking and submitting the shares the threads found,
    accounting, time-outs, draining and the figures shown.  The
    protocol in use is an interface, [Protocol]; its two implementations are in
    Protocols.  Times are readings of the steady clock in nanoseconds. *)
From Stdlib Require Import SpecFloat.
From S2P Require Import Prelude Words Hex Blake Targets Work Json Amd Options Workers View.

(** ** The protocol *)

(** [v2 ? ... : ...] of the main loop, one implementation per protocol. *)
Class Protocol (P : Type) := {
  (** What one read of the connection delivers. *)
  incoming : Type;
  (** The messages of a read: [v2->receive(socket.read_bytes())], [socket.read()]. *)
  arrive : incoming → stM P (list json);
  (** [job], at a message: [v2->current], [state.receive(message)]. *)
  on_event : json → stM P (option Job);
  authorized : P → bool;
  (** [v2->current], [state.current] *)
  live : P → option Job;
  is_valid : P → Job → bool;
  (** Submission of a job's nonce under a number: [v2->submit], [socket.send]. *)
  send_share : MineOptions → Job → Z → Z → stM P unit;
}.

(** ** State *)

Record Pending := { sent : Z; p_row : Z }.

(** The variables of one connection ([proto] to [drain_until]) and those that
    outlive it.  [log] is the list of events shown. *)
Record Coord (P : Type) := {
  proto : P; c_work : option Job; pending : gmap Z Pending; nextid : Z; received : Z; activated : bool;
  draining : bool; drain_until : Z; view : DashboardView; log : list (string * Severity); had_work :
  bool; fatal : bool; backoff : Z; last_update : Z; last_hashes : list Z; thermal : list Z
}.
Arguments proto {P} _.
Arguments c_work {P} _.
Arguments pending {P} _.
Arguments nextid {P} _.
Arguments received {P} _.
Arguments activated {P} _.
Arguments draining {P} _.
Arguments drain_until {P} _.
Arguments view {P} _.
Arguments log {P} _.
Arguments had_work {P} _.
Arguments fatal {P} _.
Arguments backoff {P} _.
Arguments last_update {P} _.
Arguments last_hashes {P} _.
Arguments thermal {P} _.
Arguments Build_Coord {P}.

Section assignments.
Context {P : Type}.
Definition set_proto (v : P) (c : Coord P) : Coord P :=
  Build_Coord v (c_work c) (pending c) (nextid c) (received c) (activated c) (draining c) (drain_until
     c) (view c) (log c) (had_work c) (fatal c) (backoff c) (last_update c) (last_hashes c) (thermal c).
Definition set_c_work (v : option Job) (c : Coord P) : Coord P :=
  Build_Coord (proto c) v (pending c) (nextid c) (received c) (activated c) (draining c) (drain_until c)
     (view c) (log c) (had_work c) (fatal c) (backoff c) (last_update c) (last_hashes c) (thermal c).
Definition set_pending (v : gmap Z Pending) (c : Coord P) : Coord P :=
  Build_Coord (proto c) (c_work c) v (nextid c) (received c) (activated c) (draining c) (drain_until c)
     (view c) (log c) (had_work c) (fatal c) (backoff c) (last_update c) (last_hashes c) (thermal c).
Definition set_nextid (v : Z) (c : Coord P) : Coord P :=
  Build_Coord (proto c) (c_work c) (pending c) v (received c) (activated c) (draining c) (drain_until c)
     (view c) (log c) (had_work c) (fatal c) (backoff c) (last_update c) (last_hashes c) (thermal c).
Definition set_received (v : Z) (c : Coord P) : Coord P :=
  Build_Coord (proto c) (c_work c) (pending c) (nextid c) v (activated c) (draining c) (drain_until c)
     (view c) (log c) (had_work c) (fatal c) (backoff c) (last_update c) (last_hashes c) (thermal c).
Definition set_activated (v : bool) (c : Coord P) : Coord P :=
  Build_Coord (proto c) (c_work c) (pending c) (nextid c) (received c) v (draining c) (drain_until c)
     (view c) (log c) (had_work c) (fatal c) (backoff c) (last_update c) (last_hashes c) (thermal c).
Definition set_draining (v : bool) (c : Coord P) : Coord P :=
  Build_Coord (proto c) (c_work c) (pending c) (nextid c) (received c) (activated c) v (drain_until c)
     (view c) (log c) (had_work c) (fatal c) (backoff c) (last_update c) (last_hashes c) (thermal c).
Definition set_drain_until (v : Z) (c : Coord P) : Coord P :=
  Build_Coord (proto c) (c_work c) (pending c) (nextid c) (received c) (activated c) (draining c) v
     (view c) (log c) (had_work c) (fatal c) (backoff c) (last_update c) (last_hashes c) (thermal c).
Definition set_view (v : DashboardView) (c : Coord P) : Coord P :=
  Build_Coord (proto c) (c_work c) (pending c) (nextid c) (received c) (activated c) (draining c)
     (drain_until c) v (log c) (had_work c) (fatal c) (backoff c) (last_update c) (last_hashes c)
     (thermal c).
Definition set_log (v : list (string * Severity)) (c : Coord P) : Coord P :=
  Build_Coord (proto c) (c_work c) (pending c) (nextid c) (received c) (activated c) (draining c)
     (drain_until c) (view c) v (had_work c) (fatal c) (backoff c) (last_update c) (last_hashes c)
     (thermal c).
Definition set_had_work (v : bool) (c : Coord P) : Coord P :=
  Build_Coord (proto c) (c_work c) (pending c) (nextid c) (received c) (activated c) (draining c)
     (drain_until c) (view c) (log c) v (fatal c) (backoff c) (last_update c) (last_hashes c) (thermal
     c).
Definition set_fatal (v : bool) (c : Coord P) : Coord P :=
  Build_Coord (proto c) (c_work c) (pending c) (nextid c) (received c) (activated c) (draining c)
     (drain_until c) (view c) (log c) (had_work c) v (backoff c) (last_update c) (last_hashes c)
     (thermal c).
Definition set_backoff (v : Z) (c : Coord P) : Coord P :=
  Build_Coord (proto c) (c_work c) (pending c) (nextid c) (received c) (activated c) (draining c)
     (drain_until c) (view c) (log c) (had_work c) (fatal c) v (last_update c) (last_hashes c) (thermal
     c).
Definition set_last_update (v : Z) (c : Coord P) : Coord P :=
  Build_Coord (proto c) (c_work c) (pending c) (nextid c) (received c) (activated c) (draining c)
     (drain_until c) (view c) (log c) (had_work c) (fatal c) (backoff c) v (last_hashes c) (thermal c).
Definition set_last_hashes (v : list Z) (c : Coord P) : Coord P :=
  Build_Coord (proto c) (c_work c) (pending c) (nextid c) (received c) (activated c) (draining c)
     (drain_until c) (view c) (log c) (had_work c) (fatal c) (backoff c) (last_update c) v (thermal c).
Definition set_thermal (v : list Z) (c : Coord P) : Coord P :=
  Build_Coord (proto c) (c_work c) (pending c) (nextid c) (received c) (activated c) (draining c)
     (drain_until c) (view c) (log c) (had_work c) (fatal c) (backoff c) (last_update c) (last_hashes c)
     v.
End assignments.

Fixpoint st_iter {S A} (f : A → stM S unit) (l : list A) : stM S unit :=
  match l with [] => mret tt | a :: l => _ ← f a; st_iter f l end.

Definition seconds_ns : Z := 1000000000.

Section coordinator.
Context {P : Type} `{Protocol P} `{FloatPrinter} (o : MineOptions).

Definition with_proto {A} (m : stM P A) : stM (Coord P) A := λ c,
  let '(p, r) := m (proto c) in (set_proto p c, r).
Definition on_view (f : DashboardView → DashboardView) : stM (Coord P) unit :=
  st_modify (λ c, set_view (f (view c)) c).
(** [ui.event(message, severity)] *)
Definition say (message : string) (s : Severity) : stM (Coord P) unit :=
  st_modify (λ c, set_log (log c ++ [(message, s)]) c).
(** [auto &device = view.devices[row]] *)
Definition on_device (row : Z) (f : DeviceView → DeviceView) (w : DashboardView) : DashboardView :=
  set_devices (alter f (Z.to_nat row) (devices w)) w.
Definition label_of (row : Z) (w : DashboardView) : string := label (devices w !!! Z.to_nat row).

(** ** A message of the pool *)

Definition member (msg : json) (key : string) : json := default JNull (find msg key).

(** [if (message.contains("method")) ...].  A difficulty message has one numeric
    parameter by now: both protocols checked it. *)
Definition report_method (msg : json) : stM (Coord P) unit :=
  match find msg "method" with
  | None => mret tt
  | Some m =>
      method ← st_lift (get_string m);
      if bool_decide (method = "mining.set_difficulty") then
        let d := dump_number (nth 0 (elements (member msg "params")) JNull) in
        _ ← on_view (set_difficulty d);
        say ("Vardiff retarget -> " +:+ d +:+ " (next job)") info
      else if bool_decide (method = "mining.set_extranonce") then say "Extranonce updated (next job)" info
      else if bool_decide (method = "client.show_message") then
        match elements (member msg "params") with
        | JString text :: _ => say ("Pool: " +:+ text) info
        | _ => mret tt
        end
      else mret tt
  end.

Definition reject_reason (msg : json) : string :=
  match member msg "error" with
  | JArray (_ :: JString reason :: _) => reason
  | _ => "unspecified pool rejection"
  end.
(** The pool's error code, zero without one. *)
Definition reject_code (msg : json) : result Z :=
  match member msg "error" with
  | JArray (e :: _) => if is_number_integer e then get_int e else Ok 0
  | _ => Ok 0
  end.

Definition share_accepted (row : Z) : stM (Coord P) unit :=
  _ ← on_view (λ w, set_accepted (u64 (accepted w + 1)) w);
  _ ← on_view (on_device row (λ d, set_d_accepted (u64 (d_accepted d + 1)) d));
  c ← st_get;
  say ("Share accepted (" +:+ label_of row (view c) +:+ ") #" +:+ pretty (accepted (view c))) success.

Definition share_refused (msg : json) (row : Z) : stM (Coord P) unit :=
  code ← st_lift (reject_code msg);
  _ ← (if code =? 21 then
         _ ← on_view (λ w, set_stale (u64 (stale w + 1)) w);
         on_view (on_device row (λ d, set_d_stale (u64 (d_stale d + 1)) d))
       else
         _ ← on_view (λ w, set_rejected (u64 (rejected w + 1)) w);
         on_view (on_device row (λ d, set_d_rejected (u64 (d_rejected d + 1)) d)));
  c ← st_get;
  say ("Share rejected (" +:+ label_of row (view c) +:+ ", " +:+ reject_reason msg +:+ ", code " +:+
       pretty code +:+ ")") (if code =? 21 then warning else error_severity).

(** [if (message.contains("id") && ...)] *)
Definition report_reply (msg : json) : stM (Coord P) unit :=
  match find msg "id" with
  | Some i =>
      if is_number_integer i then
        id ← st_lift (get_int64 i);
        let ok := eq_true (member msg "result") in
        _ ← (if id =? 2 then say (if ok then "Extranonce subscription supported"
               else "Extranonce subscription unavailable on this endpoint") info
             else mret tt);
        c ← st_get;
        match pending c !! id with
        | None => mret tt
        | Some p =>
            _ ← (if ok then share_accepted (p_row p) else share_refused msg (p_row p));
            st_modify (λ c, set_pending (delete id (pending c)) c)
        end
      else mret tt
  | None => mret tt
  end.

(** [if (!draining && authorized && (job || !activated))] *)
Definition publish_work (auth : bool) (job : option Job) : stM (Coord P) unit :=
  c ← st_get;
  if negb (draining c) && auth && (bool_decide (is_Some job) || negb (activated c)) then
    _ ← st_modify (λ c, set_c_work (live (proto c)) c);
    _ ← st_modify (λ c, set_activated (bool_decide (is_Some (c_work c))) c);
    c ← st_get;
    if activated c then
      _ ← st_modify (set_backoff 1);
      _ ← st_modify (set_had_work true);
      on_view (set_v_state "MINING")
    else mret tt
  else mret tt.

(** The body of [for (auto &message : messages)]. *)
Definition on_message (now : Z) (msg : json) : stM (Coord P) unit :=
  _ ← st_modify (set_received now);
  job ← with_proto (on_event msg);
  c ← st_get;
  let auth := authorized (proto c) in
  _ ← report_method msg;
  _ ← report_reply msg;
  publish_work auth job.

(** ** The shares found *)

(** The locked block that takes the queue.  A failed thread ends the program. *)
Definition take_queue (s : Shared) : stM (Coord P) (list Found) :=
  match failure s with
  | Some m =>
      if bool_decide (m = EmptyString) then mret (found s)
      else _ ← st_modify (set_fatal true); st_throw m
  | None => mret (found s)
  end.

(** The body of [for (const auto &f : queue)]. *)
Definition submit_found (now : Z) (f : Found) : stM (Coord P) unit :=
  c ← st_get;
  if draining c then mret tt
  else if negb (is_valid (proto c) (f_job f)) then mret tt
  else
    _ ← st_require (negb (4096 <=? size (pending c))%nat) "too many outstanding shares";
    let header := store_le (header (j_work (f_job f))) 32 (f_nonce f) in
    hash ← st_lift (blake2b256 header);
    _ ← (if negb (meets hash (target (j_work (f_job f)))) then
           _ ← st_modify (set_fatal true); st_throw "independent submit-time hash check failed"
         else mret tt);
    _ ← (if meets hash (j_network_target (f_job f)) then
           _ ← on_view (λ w, set_block_candidates (u64 (block_candidates w + 1)) w);
           say ("Block candidate (" +:+ label_of (f_row f) (view c) +:+ ") - awaiting pool confirmation") success
         else mret tt);
    _ ← with_proto (send_share o (f_job f) (f_nonce f) (nextid c));
    st_modify (λ c, set_nextid (nextid c + 1)
      (set_pending (<[nextid c := {| sent := now; p_row := f_row f |}]> (pending c)) c)).

(** ** Time *)

(** The checks after the queue, and [view.pending]. *)
Definition check_timeouts (now : Z) : stM (Coord P) unit :=
  c ← st_get;
  _ ← st_require (negb (120 * seconds_ns <? now - received c)) "pool receive timeout";
  _ ← st_require (negb (existsb (λ p, 60 * seconds_ns <? now - sent (snd p)) (map_to_list (pending c))))
        "share response timeout";
  on_view (set_v_pending (Z.of_nat (size (pending c)))).

(** The condition of the loop, where [now] is read if it is needed. *)
Definition running (expired : bool) (now : Z) (c : Coord P) : bool :=
  negb expired || (negb (draining c) && negb (bool_decide (pending c = ∅))) ||
  (draining c && negb (bool_decide (pending c = ∅)) && (now <? drain_until c)).

(** [if (expired() && !draining)] *)
Definition start_drain (expired : bool) (now : Z) : stM (Coord P) unit :=
  c ← st_get;
  if expired && negb (draining c) then
    _ ← st_modify (set_draining true);
    st_modify (set_drain_until (now + 5 * seconds_ns))
  else mret tt.

(** ** The figures shown *)

Definition seconds_of (ns : Z) : spec_float := SFdiv 53 1024 (f64_of_Z ns) (f64_of_Z seconds_ns).
(** .25 and .75 *)
Definition quarter : spec_float := SFdiv 53 1024 (f64_of_Z 1) (f64_of_Z 4).
Definition three_quarters : spec_float := SFdiv 53 1024 (f64_of_Z 3) (f64_of_Z 4).

(** The thermal state of a device: 0 normal, 1 warm, 2 hot; -1 before the first reading. *)
Definition thermal_level (temperature : Z) : Z :=
  if o_alarm_temperature o <=? temperature then 2
  else if o_warn_temperature o <=? temperature then 1 else 0.
Definition thermal_event (label : string) (temperature old level : Z) : option (string * Severity) :=
  if level =? 2 then
    Some (label +:+ " temperature " +:+ pretty temperature +:+ "C ALARM", error_severity)
  else if level =? 1 then Some (label +:+ " temperature warning " +:+ pretty temperature +:+ "C", warning)
  else if 0 <? old then Some (label +:+ " temperature recovered", success)
  else None.

(** The body of the loop over the devices. *)
Definition update_rate (delta : spec_float) (last : Z) (d : DeviceView) : DeviceView :=
  if SFltb (S754_zero false) delta then
    let instant := SFdiv 53 1024 (f64_of_Z (u64 (d_hashes d - last))) delta in
    set_hashes_per_second
      (if SFeqb (hashes_per_second d) (S754_zero false) then instant
       else SFadd 53 1024 (SFmul 53 1024 quarter instant)
              (SFmul 53 1024 three_quarters (hashes_per_second d))) d
  else d.
Definition update_thermal (i : nat) (d : DeviceView) : stM (Coord P) unit :=
  c ← st_get;
  match temperature (sensors d) with
  | None => mret tt
  | Some t =>
      let level := thermal_level t in
      if level =? thermal c !!! i then mret tt
      else
        _ ← match thermal_event (label d) t (thermal c !!! i) level with
            | Some (m, s) => say m s
            | None => mret tt
            end;
        st_modify (λ c, set_thermal (<[i := level]> (thermal c)) c)
  end.
Definition update_device (delta : spec_float) (i : nat) : stM (Coord P) unit :=
  c ← st_get;
  let d := devices (view c) !!! i in
  _ ← on_view (λ w, set_hashes (u64 (hashes w + d_hashes d)) w);
  _ ← on_view (on_device (Z.of_nat i) (update_rate delta (last_hashes c !!! i)));
  _ ← st_modify (λ c, set_last_hashes (<[i := d_hashes d]> (last_hashes c)) c);
  update_thermal i d.

(** [update(force)]: [slots] are the rows and hash counts of the threads,
    [readings] the latest samples of the GPUs, [begin] when mining started. *)
Definition slot_total (slots : list (Z * Z)) (row : nat) : Z :=
  fold_left (λ n s, if fst s =? Z.of_nat row then u64 (n + snd s) else n) slots 0.
Definition update (force : bool) (begin now : Z) (slots : list (Z * Z)) (readings : list GpuReadings)
    : stM (Coord P) unit :=
  c ← st_get;
  let delta := seconds_of (now - last_update c) in
  if negb force && SFltb delta quarter then mret tt
  else
    _ ← on_view (set_elapsed (seconds_of (now - begin)));
    _ ← on_view (λ w, set_devices (imap (λ i d, set_d_hashes (slot_total slots i) d) (devices w)) w);
    _ ← on_view (set_hashes 0);
    _ ← on_view (λ w, set_devices (imap (λ i d,
          match readings !! i with Some r => set_sensors r d | None => d end) (devices w)) w);
    c ← st_get;
    _ ← st_iter (update_device delta) (seq 0 (length (devices (view c))));
    st_modify (set_last_update now).

(** ** One iteration, and the two ends of a connection *)

(** The variables of a new connection to [p]. *)
Definition connected (p : P) (now : Z) (c : Coord P) : Coord P :=
  set_proto p (set_c_work None (set_pending ∅ (set_nextid 10 (set_received now (set_activated false
    (set_draining false (set_drain_until now c))))))).
Definition begin_connection (p : P) (now : Z) : stM (Coord P) unit :=
  _ ← on_view (set_v_state "CONNECTING");
  _ ← st_modify (connected p now);
  say ("Connected to " +:+ o_url o) info.

(** What an iteration meets: the tests of [expired()], the clock, the read, the
    shared variables when the queue is taken, and the figures. *)
Record Env := {
  e_expired : bool;
  e_drain_now : Z;
  e_read : incoming;
  e_message_time : nat → Z;
  e_shared : Shared;
  e_share_time : nat → Z;
  e_now : Z;
  e_begin : Z; e_update_now : Z; e_slots : list (Z * Z); e_readings : list GpuReadings
}.

Definition turn (e : Env) : stM (Coord P) unit :=
  messages ← with_proto (arrive (e_read e));
  _ ← st_iter (λ im, on_message (e_message_time e (fst im)) (snd im)) (imap pair messages);
  queue ← take_queue (e_shared e);
  _ ← st_iter (λ jf, submit_found (e_share_time e (fst jf)) (snd jf)) (imap pair queue);
  _ ← check_timeouts (e_now e);
  update false (e_begin e) (e_update_now e) (e_slots e) (e_readings e).
Definition iteration (e : Env) : stM (Coord P) unit :=
  _ ← start_drain (e_expired e) (e_drain_now e); turn e.
End coordinator.

(** ** The ledger of shares *)

Section ledger.
Context {P : Type} `{Protocol P} `{FloatPrinter} (o : MineOptions).

(** Shares answered, and shares answered or outstanding. *)
Definition answered (w : DashboardView) : Z := accepted w + rejected w + stale w.
Definition ledger (c : Coord P) : Z := answered (view c) + Z.of_nat (size (pending c)).

(** The counters have not wrapped, and pending numbers come from [nextid]. *)
Definition counters_ok (c : Coord P) : Prop :=
  0 ≤ accepted (view c) ∧ 0 ≤ rejected (view c) ∧ 0 ≤ stale (view c) ∧ ledger c < 2 ^ 64 ∧
  (size (pending c) ≤ 4096)%nat ∧ 10 ≤ nextid c ∧
  ∀ id p, pending c !! id = Some p → 10 ≤ id < nextid c.

(** What handling messages does to the ledger: shares are answered, none appears. *)
Record settles (c c' : Coord P) : Prop := {
  st_ok : counters_ok c';
  st_ledger : ledger c' = ledger c;
  st_nextid : nextid c' = nextid c;
  st_pending : pending c' ⊆ pending c;
  st_counts : accepted (view c) ≤ accepted (view c') ∧ rejected (view c) ≤ rejected (view c') ∧
    stale (view c) ≤ stale (view c');
  st_drain : draining c' = draining c ∧ drain_until c' = drain_until c;
  st_work : draining c = true → c_work c' = c_work c;
  st_backoff : backoff c' = backoff c ∨ backoff c' = 1;
}.

Lemma settles_refl c : counters_ok c → settles c c.
Proof. intros Hok. constructor; try done. by left. Qed.
Lemma settles_trans c1 c2 c3 : settles c1 c2 → settles c2 c3 → settles c1 c3.
Proof.
  intros [_ L1 N1 P1 (?&?&?) [D1 U1] W1 B1] [O2 L2 N2 P2 (?&?&?) [D2 U2] W2 B2].
  constructor; [done|congruence|congruence|by etrans|lia|split; congruence| |destruct B1, B2; auto with congruence].
  intros Hd. rewrite W2 by congruence. auto.
Qed.

(** States that agree on everything the ledger mentions. *)
Definition same_books (c c' : Coord P) : Prop :=
  accepted (view c') = accepted (view c) ∧ rejected (view c') = rejected (view c) ∧
  stale (view c') = stale (view c) ∧ pending c' = pending c ∧ nextid c' = nextid c ∧
  draining c' = draining c ∧ drain_until c' = drain_until c ∧
  (draining c = true → c_work c' = c_work c) ∧ (backoff c' = backoff c ∨ backoff c' = 1).
Lemma same_books_refl c : same_books c c.
Proof. unfold same_books. split_and!; try done. by left. Qed.
Lemma same_books_trans c1 c2 c3 : same_books c1 c2 → same_books c2 c3 → same_books c1 c3.
Proof.
  intros (?&?&?&?&?&?&?& W1 & B1) (?&?&?&?&?&?&?& W2 & B2). unfold same_books. split_and!; try congruence.
  - intros Hd. rewrite W2 by congruence. auto.
  - destruct B1, B2; auto with congruence.
Qed.
Lemma same_books_settles c c' : counters_ok c → same_books c c' → settles c c'.
Proof.
  intros Hok (Ha & Hr & Hs & Hp & Hn & Hd & Hu & Hw & Hb). pose proof Hok as (?&?&?&?&?&?&?).
  assert (ledger c' = ledger c) as Hl by (unfold ledger, answered; congruence).
  constructor; [|done|done|by rewrite Hp|lia|done|done|done].
  unfold counters_ok. rewrite Hl, Ha, Hr, Hs, Hp, Hn. by split_and!.
Qed.

(** Code that touches nothing the ledger mentions. *)
Class Quiet {A} (m : stM (Coord P) A) : Prop := quiet_wp c : wp m (λ c' _, same_books c c') c.
#[export] Instance quiet_bind {A B} (m : stM (Coord P) A) (k : A → stM (Coord P) B) :
  Quiet m → (∀ a, Quiet (k a)) → Quiet (m ≫= k).
Proof.
  intros Hm Hk c. apply wp_bind. eapply wp_mono; [apply Hm|]. intros c1 [a|e] H1; [|done].
  cbn [wp_next]. eapply wp_mono; [apply Hk|]. intros c2 r H2. by eapply same_books_trans.
Qed.
#[export] Instance quiet_ret {A} (a : A) : Quiet (mret a).
Proof. intros c. apply wp_ret, same_books_refl. Qed.
#[export] Instance quiet_get : Quiet st_get.
Proof. intros c. apply wp_get, same_books_refl. Qed.
#[export] Instance quiet_lift {A} (r : result A) : Quiet (st_lift r).
Proof. intros c. apply wp_lift, same_books_refl. Qed.
#[export] Instance quiet_require b msg : Quiet (st_require b msg).
Proof. intros c. exact (same_books_refl c). Qed.
#[export] Instance quiet_say m s : Quiet (say m s).
Proof. intros c. exact (same_books_refl c). Qed.
#[export] Instance quiet_with_proto {A} (m : stM P A) : Quiet (with_proto m).
Proof. intros c. unfold wp, with_proto. destruct (m (proto c)) as [p r]. exact (same_books_refl c). Qed.
#[export] Instance quiet_iter {A} (f : A → stM (Coord P) unit) l : (∀ a, Quiet (f a)) → Quiet (st_iter f l).
Proof. intros Hf. induction l as [|a l IH]; cbn [st_iter]; apply _. Qed.
(** An assignment to anything else. *)
Ltac quiet := lazymatch goal with |- Quiet (st_modify _) => idtac | |- Quiet (on_view _) => idtac end;
  let c := fresh in intros c; exact (same_books_refl c).
#[local] Hint Extern 0 (Quiet (st_modify _)) => quiet : typeclass_instances.
#[local] Hint Extern 0 (Quiet (on_view _)) => quiet : typeclass_instances.

#[export] Instance quiet_report_method msg : Quiet (report_method msg).
Proof. unfold report_method. destruct (find msg "method"); [|apply _]. apply quiet_bind; [apply _|]. intros m. repeat case_match; apply _. Qed.
#[export] Instance quiet_take s : Quiet (take_queue s).
Proof.
  unfold take_queue. destruct (failure s); [|apply _]. case_bool_decide; [apply _|].
  apply quiet_bind; [apply _|]. intros _ c. exact (same_books_refl c).
Qed.
#[export] Instance quiet_timeouts now : Quiet (check_timeouts now).
Proof. unfold check_timeouts. apply _. Qed.
#[export] Instance quiet_update force begin now slots readings : Quiet (update o force begin now slots readings).
Proof.
  unfold update. apply quiet_bind; [apply _|]. intros c. case_match; [apply _|].
  do 5 (apply quiet_bind; [apply _|intros ?]). apply quiet_bind; [|apply _].
  apply quiet_iter. intros i. unfold update_device, update_thermal.
  do 5 (apply quiet_bind; [apply _|intros ?]). case_match; [|apply _]. case_match; [apply _|].
  apply quiet_bind; [case_match; [|apply _]; case_match; apply _|apply _].
Qed.

(** Code that answers shares and does nothing else to the ledger. *)
Class Settles {A} (m : stM (Coord P) A) : Prop :=
  settles_wp c : counters_ok c → wp m (λ c' _, settles c c') c.
#[export] Instance quiet_settles {A} (m : stM (Coord P) A) : Quiet m → Settles m | 10.
Proof. intros Hm c Hok. eapply wp_mono; [apply Hm|]. intros c' r. by apply same_books_settles. Qed.

#[export] Instance settles_bind {A B} (m : stM (Coord P) A) (k : A → stM (Coord P) B) :
  Settles m → (∀ a, Settles (k a)) → Settles (m ≫= k).
Proof.
  intros Hm Hk c Hok. apply wp_bind. eapply wp_mono; [by apply Hm|]. intros c1 [a|e] H1; [|done].
  cbn [wp_next]. eapply wp_mono; [apply Hk, st_ok with c, H1|]. intros c2 r H2. by eapply settles_trans.
Qed.
#[export] Instance settles_iter {A} (f : A → stM (Coord P) unit) l : (∀ a, Settles (f a)) → Settles (st_iter f l).
Proof. intros Hf. induction l as [|a l IH]; cbn [st_iter]; apply _. Qed.

(** An answer moves one share from the outstanding to a counter. *)
Lemma settles_delete c id p w : counters_ok c → pending c !! id = Some p →
  answered w = answered (view c) + 1 → accepted (view c) ≤ accepted w →
  rejected (view c) ≤ rejected w → stale (view c) ≤ stale w →
  ∀ l, settles c (set_pending (delete id (pending c)) (set_log l (set_view w c))).
Proof.
  intros (?&?&?&?&?&?& Hids) Hp Ha ??? l.
  assert (size (pending c) = S (size (delete id (pending c)))) as Hsz.
  { rewrite <- (insert_delete_id (pending c) id p Hp) at 1. apply map_size_insert_None, lookup_delete_eq. }
  constructor; cbn; try done.
  - unfold counters_ok, ledger in *. cbn. rewrite Ha. split_and!; try lia.
    intros id' p' [_ ?]%lookup_delete_Some. by eapply Hids.
  - unfold ledger. cbn. lia.
  - apply delete_subseteq.
  - by left.
Qed.

Lemma u64_counter x c : 0 ≤ x → x ≤ answered (view c) → ledger c < 2 ^ 64 → (0 < size (pending c))%nat →
  u64 (x + 1) = x + 1.
Proof. intros ???. unfold ledger in *. intros ?. apply u64_small. unfold is_u64. lia. Qed.

#[export] Instance settles_report_reply msg : Settles (report_reply msg).
Proof.
  unfold report_reply. destruct (find msg "id") as [i|]; [|apply _].
  destruct (is_number_integer i); [|apply _]. apply settles_bind; [apply _|]. intros id.
  apply settles_bind; [destruct (id =? 2); apply _|]. intros _ c Hok.
  apply wp_bind, wp_get. cbn [wp_next]. destruct (pending c !! id) as [p|] eqn:Hp; [|by apply wp_ret, settles_refl].
  assert (0 < size (pending c))%nat as Hsz.
  { destruct (size (pending c)) eqn:E; [|lia]. apply map_size_empty_inv in E. rewrite E in Hp. set_solver. }
  pose proof Hok as (?&?&?& Hl & _).
  apply wp_bind. destruct (eq_true (member msg "result")).
  - unfold share_accepted, on_view, say. wp_steps. apply (settles_delete c id p); try done; cbn;
      unfold answered; cbn; rewrite (u64_counter _ c) by (unfold answered; lia || done); lia.
  - unfold share_refused. apply wp_bind, wp_lift. destruct (reject_code msg) as [code|e];
      [|cbn [wp_next]; by apply settles_refl]. cbn [wp_next]. apply wp_bind.
    destruct (code =? 21); unfold on_view, say; wp_steps; (apply (settles_delete c id p); try done; cbn;
      unfold answered; cbn; rewrite (u64_counter _ c) by (unfold answered; lia || done); lia).
Qed.

#[export] Instance settles_publish auth job : Settles (publish_work auth job).
Proof.
  intros c Hok. unfold publish_work. apply wp_bind, wp_get. cbn [wp_next].
  destruct (draining c) eqn:Hd; [by apply wp_ret, settles_refl|]. cbn [negb andb].
  destruct (auth && _); [|by apply wp_ret, settles_refl]. unfold on_view. wp_steps.
  case_match; wp_steps; apply same_books_settles; try done; unfold same_books; cbn; rewrite Hd; split_and!; try done; auto.
Qed.

#[export] Instance settles_on_message now msg : Settles (on_message now msg).
Proof. unfold on_message. apply _. Qed.

(** What an iteration does: submissions enter the ledger under new numbers. *)
Record books (n : Z) (c c' : Coord P) : Prop := {
  bk_ok : counters_ok c';
  bk_ledger : ledger c' = ledger c + (nextid c' - nextid c);
  bk_nextid : 0 ≤ nextid c' - nextid c ≤ n;
  bk_counts : accepted (view c) ≤ accepted (view c') ∧ rejected (view c) ≤ rejected (view c') ∧
    stale (view c) ≤ stale (view c');
  bk_drain : draining c = true → draining c' = true ∧ drain_until c' = drain_until c ∧
    nextid c' = nextid c ∧ c_work c' = c_work c;
  bk_backoff : backoff c' = backoff c ∨ backoff c' = 1;
}.

Lemma settles_books n c c' : 0 ≤ n → settles c c' → books n c c'.
Proof.
  intros Hn [? ? Hid ? ? [Hd Hu] Hw ?]. constructor; [done|lia|lia|done| |done]. intros D.
  split_and!; [congruence|done|done|auto].
Qed.
Lemma books_trans n m k c1 c2 c3 : n + m ≤ k → books n c1 c2 → books m c2 c3 → books k c1 c3.
Proof.
  intros Hk [_ L1 N1 (?&?&?) D1 B1] [O2 L2 N2 (?&?&?) D2 B2].
  constructor; [done|lia|lia|lia| |destruct B1, B2; auto with congruence].
  intros D. destruct (D1 D) as (Hd & Hu & Hi & Hw), (D2 Hd) as (?&?&?&?). split_and!; congruence.
Qed.

Lemma submit_found_books now f c : counters_ok c → ledger c + 1 < 2 ^ 64 →
  wp (submit_found o now f) (λ c' _, books 1 c c') c.
Proof.
  intros Hok Hl. assert (∀ c', same_books c c' → books 1 c c') as Hsame.
  { intros c' Hc. apply settles_books; [lia|]. by apply same_books_settles. }
  unfold submit_found. apply wp_bind, wp_get. cbn [wp_next].
  pose proof (same_books_refl c) as Hrefl.
  destruct (draining c) eqn:Hd; [by apply wp_ret, Hsame|].
  destruct (negb (is_valid _ _)); [by apply wp_ret, Hsame|].
  apply wp_bind, wp_require; intros Hsz; cbn [wp_next]; [|by apply Hsame].
  apply negb_true_iff, Nat.leb_gt in Hsz.
  apply wp_bind, wp_lift. destruct (blake2b256 _) as [hash|]; cbn [wp_next]; [|by apply Hsame].
  apply wp_bind. destruct (negb (meets hash (target _))).
  { unfold wp. cbn. apply Hsame. exact Hrefl. }
  apply wp_ret. cbn [wp_next]. apply wp_bind.
  assert (∀ c', same_books c c' →
    wp (_ ← with_proto (send_share o (f_job f) (f_nonce f) (nextid c));
        st_modify (λ c, set_nextid (nextid c + 1)
          (set_pending (<[nextid c := {| sent := now; p_row := f_row f |}]> (pending c)) c)))
      (λ c' _, books 1 c c') c') as Hsend.
  { intros c' Hc. apply wp_bind. unfold wp at 1, with_proto.
    destruct (send_share o _ _ _ (proto c')) as [p [u|e]]; cbn [fst snd wp_next]; [|by apply Hsame].
    apply wp_modify. destruct Hc as (Ha & Hr & Hs & Hp & Hn & Hdr & Hu & _ & Hback).
    destruct Hok as (?&?&?&?&?&?& Hids).
    assert (pending c !! nextid c = None) as Hfresh.
    { destruct (pending c !! nextid c) eqn:E; [apply Hids in E; lia|done]. }
    assert (ledger (set_nextid (nextid c' + 1) (set_pending
      (<[nextid c' := {| sent := now; p_row := f_row f |}]> (pending c')) (set_proto p c'))) = ledger c + 1) as Hled.
    { unfold ledger, answered. cbn. rewrite Ha, Hr, Hs, Hp, Hn, map_size_insert_None by done. lia. }
    constructor; cbn; try lia; [|congruence].
    unfold counters_ok. rewrite Hled. cbn. rewrite Ha, Hr, Hs, Hp, Hn, map_size_insert_None by done.
    split_and!; try lia. intros id q. destruct (decide (id = nextid c)) as [->|]; [lia|].
    rewrite lookup_insert_ne by done. intros ?%Hids. lia. }
  destruct (meets hash (j_network_target _)).
  - unfold wp. cbn. apply Hsend. exact Hrefl.
  - apply wp_ret. cbn [wp_next]. by apply Hsend.
Qed.

Lemma submit_all_books {A} (g : A → stM (Coord P) unit) l c : 
  (∀ a c, counters_ok c → ledger c + 1 < 2 ^ 64 → wp (g a) (λ c' _, books 1 c c') c) →
  counters_ok c → ledger c + Z.of_nat (length l) < 2 ^ 64 →
  wp (st_iter g l) (λ c' _, books (Z.of_nat (length l)) c c') c.
Proof.
  intros Hg. revert c. induction l as [|a l IH]; intros c Hok Hl; cbn [st_iter].
  { apply wp_ret, settles_books; [done|by apply settles_refl]. }
  cbn [length] in *. apply wp_bind. eapply wp_mono; [apply Hg; [done|lia]|]. intros c1 [u|e] Hb; cbn [wp_next].
  - pose proof Hb as [Hok1 Hl1 Hn1 _ _].
    eapply wp_mono; [apply IH; [done|lia]|]. intros c2 r Hb2. apply (books_trans 1 (Z.of_nat (length l)) _ c c1 c2); [lia|exact Hb|exact Hb2].
  - eapply (books_trans 1 0); [|exact Hb|apply settles_books; [lia|apply settles_refl, Hb]]. lia.
Qed.

(** The queue an iteration takes. *)
Definition queue_size (e : Env) : Z := Z.of_nat (length (found (e_shared e))).

Lemma start_drain_books b now c : counters_ok c →
  wp (start_drain b now) (λ c' r, books 0 c c' ∧ c_work c' = c_work c ∧ r = Ok tt ∧
    (b = true → draining c = false → draining c' = true ∧ drain_until c' = now + 5 * seconds_ns)) c.
Proof.
  intros Hok. assert (books 0 c c) as Hrefl by (apply settles_books; [done|by apply settles_refl]).
  unfold start_drain. apply wp_bind, wp_get. cbn [wp_next].
  destruct b; cbn [andb]; [|by apply wp_ret]. destruct (draining c) eqn:Hd; cbn [negb]; [by apply wp_ret|].
  unfold wp. cbn. split_and!; try done. destruct Hrefl. constructor; cbn; try done. by rewrite Hd.
Qed.

Lemma books_next {A B} n m k (x : stM (Coord P) A) (g : A → stM (Coord P) B) c : 0 ≤ m → n + m ≤ k → counters_ok c →
  wp x (λ c' _, books n c c') c →
  (∀ a c', x c = (c', Ok a) → books n c c' → wp (g a) (λ c'' _, books m c' c'') c') →
  wp (x ≫= g) (λ c' _, books k c c') c.
Proof.
  intros Hm Hk Hok Hx Hg. apply wp_bind. unfold wp in Hx |- *. destruct (x c) as [c1 [a|e]] eqn:E; cbn [fst snd wp_next] in *.
  - eapply wp_mono; [by apply Hg|]. intros c2 r H2. by apply (books_trans n m k c c1 c2).
  - apply (books_trans n m k c c1 c1); [done..|]. apply settles_books; [done|]. apply settles_refl, Hx.
Qed.

Lemma settles_next {A} (x : stM (Coord P) A) c : Settles x → counters_ok c → wp x (λ c' _, books 0 c c') c.
Proof. intros Hx Hok. eapply wp_mono; [by apply Hx|]. intros c' r. by apply settles_books. Qed.

Lemma take_queue_found s (c c' : Coord P) q : take_queue s c = (c', Ok q) → q = found s.
Proof.
  unfold take_queue. destruct (failure s) as [m|]; [case_bool_decide|].
  - by intros [= _ <-].
  - unfold mbind, stM_bind. cbn. done.
  - by intros [= _ <-].
Qed.

Lemma turn_books e c : counters_ok c → ledger c + queue_size e < 2 ^ 64 →
  wp (turn o e) (λ c' _, books (queue_size e) c c') c.
Proof.
  intros Hok Hl. unfold turn, queue_size in *.
  apply (books_next 0 (queue_size e)); try (unfold queue_size; lia); [done|apply settles_next; [apply _|done]|].
  intros msgs c1 _ H1. pose proof H1 as [Ok1 L1 N1 _ _].
  apply (books_next 0 (queue_size e)); try (unfold queue_size; lia); [done|apply settles_next; [apply _|apply H1]|].
  intros u c2 _ H2. pose proof H2 as [Ok2 L2 N2 _ _].
  apply (books_next 0 (queue_size e)); try (unfold queue_size; lia); [done|apply settles_next; [apply _|apply H2]|].
  intros q c3 Hq H3. pose proof H3 as [Ok3 L3 N3 _ _]. apply take_queue_found in Hq as ->.
  apply (books_next (queue_size e) 0); try (unfold queue_size; lia); [done| |].
  { unfold queue_size. rewrite <- (length_imap pair). apply submit_all_books; [|done|rewrite length_imap; lia].
    intros a c' Hok' Hl'. by apply submit_found_books. }
  intros u' c4 _ H4. pose proof H4 as [Ok4 _ _ _ _].
  apply (books_next 0 0); try lia; [done|apply settles_next; [apply _|apply H4]|].
  intros u'' c5 _ H5. apply settles_next; [apply _|apply H5].
Qed.

Lemma iteration_books e c : counters_ok c → ledger c + queue_size e < 2 ^ 64 →
  wp (iteration o e) (λ c' _, books (queue_size e) c c') c.
Proof.
  intros Hok Hl. unfold iteration.
  apply (books_next 0 (queue_size e)); try (unfold queue_size; lia); [done| |].
  - eapply wp_mono; [by apply start_drain_books|]. intros c' r H'. apply H'.
  - intros u c' _ H'. pose proof H' as [? ? ? _ _]. apply turn_books; [apply H'|lia].
Qed.

(** ** The loop of a connection *)

(** One turn of [while]: the test, then the body. *)
Record Tick := { t_expired : bool; t_now : Z; t_env : Env }.

(** The loop over the turns given: the result is [None] when they run out. *)
Fixpoint connection (ticks : list Tick) (c : Coord P) : Coord P * option (result unit) :=
  match ticks with
  | [] => (c, None)
  | t :: ticks =>
      if running (t_expired t) (t_now t) c then
        match iteration o (t_env t) c with
        | (c, Ok _) => connection ticks c
        | (c, Throw e) => (c, Some (Throw e))
        end
      else (c, Some (Ok tt))
  end.

Definition queued_shares (ticks : list Tick) : Z := foldr (λ t n, queue_size (t_env t) + n) 0 ticks.

Lemma queued_shares_nonneg ticks : 0 ≤ queued_shares ticks.
Proof.
  induction ticks as [|t ticks IH]; [done|].
  change (0 ≤ queue_size (t_env t) + queued_shares ticks). unfold queue_size. lia.
Qed.

Lemma connection_books ticks c c' r : connection ticks c = (c', r) → counters_ok c →
  ledger c + queued_shares ticks < 2 ^ 64 → books (queued_shares ticks) c c'.
Proof.
  revert c. induction ticks as [|t ticks IH]; intros c; cbn [connection].
  { intros [= <- <-] Hok _. by apply settles_books, settles_refl. }
  pose proof (queued_shares_nonneg ticks) as Hn.
  change (queued_shares (t :: ticks)) with (queue_size (t_env t) + queued_shares ticks).
  assert (0 ≤ queue_size (t_env t)) by (unfold queue_size; lia).
  destruct (running _ _ c); [|intros [= <- <-] Hok _; apply settles_books; [lia|by apply settles_refl]].
  intros Hc Hok Hl. pose proof (iteration_books (t_env t) c Hok) as Hb. unfold wp in Hb.
  destruct (iteration o (t_env t) c) as [c1 [u|e]]; cbn [fst] in Hb.
  - destruct Hb as [Hok1 Hl1 Hn1 Hc1 Hd1]; [lia|].
    apply (books_trans (queue_size (t_env t)) (queued_shares ticks) _ c c1 c'); [lia|done|].
    apply (IH c1 Hc); [done|lia].
  - injection Hc as <- <-. apply (books_trans (queue_size (t_env t)) 0 _ c c1 c1); [lia|apply Hb; lia|].
    apply settles_books; [done|]. apply settles_refl, Hb. lia.
Qed.

(** C10: Every share a connection submits is accounted for: the shares submitted so
    far (one per number from 10 on) are those answered (accepted, rejected or
    stale) during the connection and those pending, whatever the pool sends and
    however the connection ends.  At most 4096 are pending, each under a number
    that was used, and no counter ever decreases. *)
Theorem connection_ledger ticks c c' r : connection ticks c = (c', r) →
  pending c = ∅ → nextid c = 10 → 0 ≤ accepted (view c) → 0 ≤ rejected (view c) → 0 ≤ stale (view c) →
  answered (view c) + queued_shares ticks < 2 ^ 64 →
  answered (view c') + Z.of_nat (size (pending c')) = answered (view c) + (nextid c' - 10) ∧
  (size (pending c') ≤ 4096)%nat ∧ (∀ id p, pending c' !! id = Some p → 10 ≤ id < nextid c') ∧
  accepted (view c) ≤ accepted (view c') ∧ rejected (view c) ≤ rejected (view c') ∧
  stale (view c) ≤ stale (view c').
Proof.
  intros Hc Hp Hn Ha Hr Hs Hb. pose proof (queued_shares_nonneg ticks).
  assert (ledger c = answered (view c)) as Hl by (unfold ledger; rewrite Hp, map_size_empty; lia).
  assert (counters_ok c) as Hok.
  { unfold counters_ok. rewrite Hl, Hp, Hn, map_size_empty. split_and!; try lia.
    intros id p. by rewrite lookup_empty. }
  destruct (connection_books ticks c c' r Hc Hok) as [(_&_&_&_&Hsz&_&Hids) Hl' Hid (?&?&?) _]; [lia|].
  rewrite Hl, Hn in Hl'. unfold ledger in Hl'. by split_and!.
Qed.

(** ** Stopping *)

Lemma drain_loop ticks c : draining c = true → counters_ok c → ledger c + queued_shares ticks < 2 ^ 64 →
  Forall (λ t, t_expired t = true) ticks → Exists (λ t, drain_until c ≤ t_now t) ticks →
  ∃ c' r, connection ticks c = (c', Some r) ∧ nextid c' = nextid c ∧ c_work c' = c_work c.
Proof.
  intros Hd. revert Hd. revert c. induction ticks as [|t ticks IH]; intros c Hd Hok Hl He Hex.
  { by apply Exists_nil in Hex. }
  apply Forall_cons in He as [Ht He]. cbn [connection].
  destruct (running (t_expired t) (t_now t) c) eqn:Hrun; [|eauto].
  pose proof (queued_shares_nonneg ticks) as Hn.
  change (queued_shares (t :: ticks)) with (queue_size (t_env t) + queued_shares ticks) in Hl.
  assert (0 ≤ queue_size (t_env t)) by (unfold queue_size; lia).
  pose proof (iteration_books (t_env t) c Hok) as Hb. unfold wp in Hb.
  destruct (iteration o (t_env t) c) as [c1 [u|e]]; cbn [fst] in Hb;
    (destruct Hb as [Hok1 Hl1 Hn1 Hc1 Hd1]; [lia|]; destruct (Hd1 Hd) as (Hdr & Hu & Hi & Hw)).
  - destruct (IH c1) as (c' & r & Hc & Hi' & Hw'); [done|done|lia|done| |].
    + apply Exists_cons in Hex as [Hnow|Hex]; [|by rewrite Hu].
      exfalso. unfold running in Hrun. rewrite Ht, Hd in Hrun. cbn in Hrun.
      rewrite (proj2 (Z.ltb_ge _ _)), andb_false_r in Hrun by done. discriminate.
    + exists c', r. split_and!; [done|congruence|congruence].
  - exists c1, (Throw e). by split_and!.
Qed.

(** C31: A stop request ends the connection: once [expired()] holds inside a turn, the
    loop leaves at the latest at the first test five seconds later, whatever the
    pool sends or withholds; until then no share is submitted and the threads get
    no new job. *)
Theorem drain_terminates t ticks c : draining c = false → counters_ok c →
  ledger c + queued_shares (t :: ticks) < 2 ^ 64 →
  e_expired (t_env t) = true → Forall (λ t, t_expired t = true) ticks →
  Exists (λ t', e_drain_now (t_env t) + 5 * seconds_ns ≤ t_now t') ticks →
  ∃ c' r, connection (t :: ticks) c = (c', Some r) ∧ nextid c' = nextid c ∧ c_work c' = c_work c.
Proof.
  intros Hd Hok Hl He Hall Hex. cbn [connection]. destruct (running _ _ c); [|eauto].
  pose proof (queued_shares_nonneg ticks) as Hn.
  change (queued_shares (t :: ticks)) with (queue_size (t_env t) + queued_shares ticks) in Hl.
  assert (0 ≤ queue_size (t_env t)) by (unfold queue_size; lia).
  unfold iteration. set (e := t_env t) in *.
  pose proof (start_drain_books (e_expired e) (e_drain_now e) c Hok) as Hs. unfold wp in Hs.
  unfold mbind at 1, stM_bind at 1. destruct (start_drain _ _ c) as [c1 r1]. cbn [fst snd] in Hs.
  destruct Hs as ([Hok1 Hl1 Hn1 _ _] & Hw1 & -> & Hdr). destruct (Hdr He Hd) as [Hd1 Hu1].
  pose proof (turn_books e c1 Hok1) as Hb. unfold wp in Hb.
  destruct (turn o e c1) as [c2 [u|ex]]; cbn [fst] in Hb;
    (destruct Hb as [Hok2 Hl2 Hn2 _ Hd2]; [lia|]; destruct (Hd2 Hd1) as (Hdr2 & Hu2 & Hi2 & Hw2)).
  - destruct (drain_loop ticks c2) as (c' & r & Hc & Hi' & Hw'); [done|done|lia|done|by rewrite Hu2, Hu1|].
    exists c', r. split_and!; [done|lia|congruence].
  - exists c2, (Throw ex). split_and!; [done|lia|congruence].
Qed.
End ledger.

(** ** An example

    A protocol that accepts everything, two shares, one of them answered. *)
Module Demo.
#[local] Instance protocol : Protocol (list Z) := {|
  incoming := list json;
  arrive := λ ms, mret ms;
  on_event := λ _, mret None;
  authorized := λ _, true;
  live := λ _, Some (sample_job false);
  is_valid := λ _ _, true;
  send_share := λ _ _ _ id, st_modify (λ l, l ++ [id]);
|}.
#[local] Instance printer : FloatPrinter := λ _, "1"%string.

Definition idle : Coord (list Z) :=
  {| proto := []; c_work := None; pending := ∅; nextid := 10; received := 0; activated := false;
     draining := false; drain_until := 0;
     view := set_devices [new_device "CPU" "scalar x1" EmptyString] new_view; log := [];
     had_work := false; fatal := false; backoff := 4; last_update := 0; last_hashes := [0]; thermal := [-1] |}.

Definition share : Found := {| f_job := sample_job false; f_nonce := 5; f_row := 0 |}.
Definition accepted_reply (id : Z) : json := JObject [("id", JInt id); ("result", JBool true)]%string.
Definition env (expired : bool) (ms : list json) (q : list Found) (now : Z) : Env :=
  {| e_expired := expired; e_drain_now := now; e_read := ms; e_message_time := λ _, now;
     e_shared := set_found q no_work; e_share_time := λ _, now; e_now := now; e_begin := 0;
     e_update_now := now; e_slots := [(0, 7)]; e_readings := [] |}.
Definition tick (expired : bool) (ms : list json) (q : list Found) (now : Z) : Tick :=
  {| t_expired := expired; t_now := now; t_env := env expired ms q now |}.

Definition ticks : list Tick :=
  [tick false [JObject []] [share; share] 1000; tick false [accepted_reply 10] [] 2000].
(** A stop request, and two tests of the loop: one within, one after five seconds. *)
Definition stop_ticks : list Tick :=
  [tick true [] [share] 3000; tick true [] [] 4000; tick true [] [] (6 * seconds_ns)].
Definition busy : Coord (list Z) := (connection default_options ticks idle).1.

Lemma connection_ledger_witness :
  let c' := busy in
  proto c' = [10; 11] ∧ accepted (view c') = 1 ∧ v_state (view c') = "MINING"%string ∧ backoff c' = 1 ∧
  answered (view c') + Z.of_nat (size (pending c')) = answered (view idle) + (nextid c' - 10).
Proof.
  cbn zeta. do 4 (split; [vm_compute; reflexivity|]).
  refine (proj1 (connection_ledger default_options ticks idle busy None _ eq_refl eq_refl _ _ _ _));
    [|vm_compute; congruence..|vm_compute; reflexivity].
  unfold busy. rewrite (surjective_pairing (connection _ _ _)) at 1. f_equal.
Defined.

Lemma drain_terminates_witness :
  ∃ c' r, connection default_options stop_ticks busy = (c', Some r) ∧ nextid c' = nextid busy ∧
    c_work c' = c_work busy.
Proof.
  apply (drain_terminates default_options (tick true [] [share] 3000)
    [tick true [] [] 4000; tick true [] [] (6 * seconds_ns)] busy).
  - vm_compute. reflexivity.
  - by_compute.
  - vm_compute. reflexivity.
  - reflexivity.
  - repeat constructor.
  - right. left. vm_compute. congruence.
Defined.
End Demo.
