(* ===== verification/Figures.v ===== *)
(** * The figures shown

    What the lambda [update] of [mine] in src/src/miner.cpp does to the view and to
    the log: a reference definition of a refreshed device and of the temperature
    alerts, and that Coordinator.update computes them. *)
From Stdlib Require Import SpecFloat.
From S2P Require Import Prelude Words Json Amd Options Workers View Coordinator.

(** ** The reference *)

Section reference.
Context (o : MineOptions) (slots : list (Z * Z)) (readings : list GpuReadings) (delta : spec_float).

(** A device with the counters of its threads and its last sample. *)
Definition refreshed (i : nat) (d : DeviceView) : DeviceView :=
  let d := set_d_hashes (slot_total slots i) d in
  match readings !! i with Some r => set_sensors r d | None => d end.
Definition shown_device (last : Z) (i : nat) (d : DeviceView) : DeviceView :=
  update_rate delta last (refreshed i d).

(** The level of a device after a sample, and the alert it raises. *)
Definition level_after (old : Z) (d : DeviceView) : Z :=
  match temperature (sensors d) with Some t => thermal_level o t | None => old end.
Definition alerts (old : Z) (d : DeviceView) : list (string * Severity) :=
  match temperature (sensors d) with
  | Some t => if thermal_level o t =? old then [] else option_list (thermal_event (label d) t old (thermal_level o t))
  | None => []
  end.
End reference.

(** ** The loop over the devices *)

Section loop.
Context {P : Type} `{Protocol P} `{FloatPrinter} (o : MineOptions) (delta : spec_float).

(** Devices, last counters and levels, seen together. *)
Record Row := { r_device : DeviceView; r_last : Z; r_level : Z }.
Definition set_rows (rows : list Row) (total : Z) (l : list (string * Severity)) (c : Coord P) : Coord P :=
  set_view (set_hashes total (set_devices (r_device <$> rows) (view c)))
    (set_log l (set_last_hashes (r_last <$> rows) (set_thermal (r_level <$> rows) c))).
Definition next_row (r : Row) : Row :=
  {| r_device := update_rate delta (r_last r) (r_device r); r_last := d_hashes (r_device r);
     r_level := level_after o (r_level r) (r_device r) |}.

Lemma update_rate_same last d : label (update_rate delta last d) = label d ∧ sensors (update_rate delta last d) = sensors d ∧
  d_hashes (update_rate delta last d) = d_hashes d.
Proof. unfold update_rate. by destruct (SFltb _ _). Qed.

Lemma fmap_middle {A B} (f : A → B) done r rest : f <$> (done ++ r :: rest) = (f <$> done) ++ f r :: (f <$> rest).
Proof. by rewrite fmap_app. Qed.
Lemma insert_middle {A B} (f : A → B) (done : list A) r rest x :
  <[length done := x]> (f <$> (done ++ r :: rest)) = (f <$> done) ++ x :: (f <$> rest).
Proof. rewrite fmap_middle, <- (Nat.add_0_r (length done)), <- (length_fmap f done). exact (insert_app_r _ _ 0 x). Qed.
Lemma alter_middle {A B} (f : A → B) (g : B → B) (done : list A) r rest :
  alter g (length done) (f <$> (done ++ r :: rest)) = (f <$> done) ++ g (f r) :: (f <$> rest).
Proof. rewrite fmap_middle, <- (Nat.add_0_r (length done)), <- (length_fmap f done). exact (alter_app_r _ _ _ 0). Qed.
Lemma total_middle {A B} `{Inhabited B} (f : A → B) (done : list A) r rest :
  (f <$> (done ++ r :: rest)) !!! length done = f r.
Proof. rewrite fmap_middle. apply list_lookup_total_middle. by rewrite length_fmap. Qed.

Lemma update_thermal_eq i d (c : Coord P) : (i < length (thermal c))%nat →
  update_thermal o i d c =
  (set_log (log c ++ alerts o (thermal c !!! i) d)
     (set_thermal (<[i := level_after o (thermal c !!! i) d]> (thermal c)) c), Ok tt).
Proof.
  intros Hi. unfold update_thermal, alerts, level_after. rewrite st_bind_eq. cbn [st_get].
  assert (<[i := thermal c !!! i]> (thermal c) = thermal c) as Hid.
  { apply list_insert_id. by apply list_lookup_lookup_total_lt. }
  destruct (temperature (sensors d)) as [t|]; [|by rewrite Hid, app_nil_r; destruct c].
  destruct (thermal_level o t =? thermal c !!! i) eqn:E.
  - apply Z.eqb_eq in E. by rewrite E, Hid, app_nil_r; destruct c.
  - destruct (thermal_event _ _ _ _) as [[m s]|]; [done|]. cbn [option_list]. by rewrite app_nil_r; destruct c.
Qed.

Lemma update_device_row done r rest total l (c : Coord P) :
  update_device o delta (length done) (set_rows (done ++ r :: rest) total l c) =
  (set_rows (done ++ next_row r :: rest) (u64 (total + d_hashes (r_device r))) (l ++ alerts o (r_level r) (r_device r)) c, Ok tt).
Proof.
  unfold update_device, on_view, st_modify, st_get, mbind, stM_bind, set_rows, on_device.
  cbn [view set_view devices set_devices set_hashes hashes last_hashes set_last_hashes set_log set_thermal thermal].
  rewrite Nat2Z.id, !total_middle, alter_middle, insert_middle.
  rewrite update_thermal_eq by (cbn; rewrite length_fmap, length_app; cbn; lia).
  cbn [thermal log set_last_hashes set_view set_log set_thermal]. rewrite total_middle, insert_middle, !fmap_middle. done.
Qed.

Fixpoint total_after (total : Z) (rows : list Row) : Z :=
  match rows with [] => total | r :: rows => total_after (u64 (total + d_hashes (r_device r))) rows end.

Lemma update_devices_rows done rest total l (c : Coord P) :
  st_iter (update_device o delta) (seq (length done) (length rest)) (set_rows (done ++ rest) total l c) =
  (set_rows (done ++ (next_row <$> rest)) (total_after total rest)
     (l ++ (rest ≫= λ r, alerts o (r_level r) (r_device r))) c, Ok tt).
Proof.
  revert done total l. induction rest as [|r rest IH]; intros done total l; cbn [length seq st_iter total_after].
  { by rewrite !app_nil_r. }
  rewrite st_bind_eq, update_device_row. specialize (IH (done ++ [next_row r]) (u64 (total + d_hashes (r_device r)))
    (l ++ alerts o (r_level r) (r_device r))).
  rewrite length_app, Nat.add_1_r, <- !app_assoc in IH. exact IH.
Qed.
End loop.

(** ** Sums of counters *)

Definition sum (l : list Z) : Z := foldr Z.add 0 l.

Lemma sum_cons x l : sum (x :: l) = x + sum l.
Proof. done. Qed.
Arguments sum : simpl never.

Lemma u64_idem x : u64 (u64 x) = u64 x.
Proof. unfold u64. by rewrite Z.mod_mod. Qed.
Lemma u64_add_l x y : u64 (u64 x + y) = u64 (x + y).
Proof. unfold u64. by rewrite Zplus_mod_idemp_l. Qed.
Lemma u64_add_r x y : u64 (x + u64 y) = u64 (x + y).
Proof. unfold u64. by rewrite Zplus_mod_idemp_r. Qed.

Lemma sum_u64 l : u64 (sum (u64 <$> l)) = u64 (sum l).
Proof.
  induction l as [|x l IH]; [done|]. rewrite fmap_cons, !sum_cons, u64_add_l.
  by rewrite <- u64_add_r, IH, u64_add_r.
Qed.

Lemma total_after_sum total rows : u64 total = total →
  total_after total rows = u64 (total + sum (d_hashes ∘ r_device <$> rows)).
Proof.
  revert total. induction rows as [|r rows IH]; intros total Ht; cbn [total_after].
  - cbn. by rewrite Z.add_0_r.
  - rewrite IH by apply u64_idem. rewrite fmap_cons, sum_cons, u64_add_l. unfold compose. f_equal. lia.
Qed.

(** The counters of the threads of a row. *)
Definition counts_of (slots : list (Z * Z)) (row : nat) : list Z :=
  snd <$> filter (λ s, s.1 = Z.of_nat row) slots.

Lemma slot_total_sum slots row : slot_total slots row = u64 (sum (counts_of slots row)).
Proof.
  unfold slot_total, counts_of.
  assert (∀ n, u64 n = n → fold_left (λ n s, if s.1 =? Z.of_nat row then u64 (n + s.2) else n) slots n =
    u64 (n + sum (snd <$> filter (λ s, s.1 = Z.of_nat row) slots))) as Hgen; [|by rewrite Hgen].
  induction slots as [|[k x] slots IH]; intros n Hn; cbn [fold_left]; [cbn; by rewrite Z.add_0_r|].
  rewrite filter_cons. cbn [fst snd]. destruct (Z.eqb_spec k (Z.of_nat row)) as [->|Hne].
  - rewrite decide_True by done. rewrite fmap_cons, sum_cons, IH by apply u64_idem. cbn [snd].
    rewrite u64_add_l. f_equal. lia.
  - rewrite decide_False by done. by apply IH.
Qed.

Lemma sum_add_at (f : nat → Z) k x start n : (start ≤ k < start + n)%nat →
  sum ((λ i, (if decide (i = k) then x else 0) + f i) <$> seq start n) = x + sum (f <$> seq start n).
Proof.
  assert (∀ s m, (k < s)%nat → sum ((λ i, (if decide (i = k) then x else 0) + f i) <$> seq s m) = sum (f <$> seq s m)) as Hno.
  { intros s m. revert s. induction m as [|m IH]; intros s Hs; [done|]. cbn [seq]. rewrite !fmap_cons, !sum_cons.
    rewrite decide_False, IH by lia. lia. }
  revert start. induction n as [|n IH]; intros start Hk; [lia|]. cbn [seq]. rewrite !fmap_cons, !sum_cons.
  destruct (decide (start = k)) as [->|Hne]; [rewrite Hno by lia|rewrite IH by lia]; lia.
Qed.

(** Every thread has a row, so the rows together hold all counters. *)
Lemma sum_rows slots n : Forall (λ s, 0 ≤ s.1 < Z.of_nat n) slots →
  sum (sum ∘ counts_of slots <$> seq 0 n) = sum slots.*2.
Proof.
  induction 1 as [|[k x] slots Hk _ IH]; cbn [fst] in *.
  - induction (seq 0 n) as [|i l IH]; [done|]. rewrite fmap_cons, sum_cons, IH. done.
  - rewrite fmap_cons, sum_cons, <- IH. cbn [snd].
    rewrite <- (sum_add_at (sum ∘ counts_of slots) (Z.to_nat k) x) by lia. f_equal. apply list_fmap_ext. intros i y _.
    unfold compose, counts_of. rewrite filter_cons. cbn [fst snd].
    destruct (decide (k = Z.of_nat y)) as [->|Hne].
    + by rewrite decide_True by lia.
    + by rewrite decide_False by lia.
Qed.

(** ** Refreshing the figures *)

Definition join_rows (ds : list DeviceView) (ls ts : list Z) : list Row :=
  zip_with (λ d x, {| r_device := d; r_last := x.1; r_level := x.2 |}) ds (zip ls ts).

Lemma join_rows_parts ds ls ts : length ls = length ds → length ts = length ds →
  r_device <$> join_rows ds ls ts = ds ∧ r_last <$> join_rows ds ls ts = ls ∧ r_level <$> join_rows ds ls ts = ts.
Proof.
  unfold join_rows. revert ls ts. induction ds as [|d ds IH]; intros [|x ls] [|t ts]; try done.
  intros [= Hl] [= Ht]. destruct (IH ls ts Hl Ht) as (H1 & H2 & H3). cbn. by rewrite H1, H2, H3.
Qed.
Lemma next_rows_parts o delta ds ls ts : length ls = length ds → length ts = length ds →
  let rows := next_row o delta <$> join_rows ds ls ts in
  r_device <$> rows = zip_with (update_rate delta) ls ds ∧ r_last <$> rows = d_hashes <$> ds ∧
  r_level <$> rows = zip_with (level_after o) ts ds ∧
  (join_rows ds ls ts ≫= λ r, alerts o (r_level r) (r_device r)) = concat (zip_with (alerts o) ts ds).
Proof.
  unfold join_rows. revert ls ts. induction ds as [|d ds IH]; intros [|x ls] [|t ts]; try done.
  intros [= Hl] [= Ht]. destruct (IH ls ts Hl Ht) as (H1 & H2 & H3 & H4). cbn in *. by rewrite H1, H2, H3, H4.
Qed.

Lemma imap_imap {A B C} (f : nat → B → C) (g : nat → A → B) l : imap f (imap g l) = imap (λ i x, f i (g i x)) l.
Proof. apply list_eq. intros i. rewrite !list_lookup_imap. by destruct (l !! i). Qed.

Section update.
Context {P : Type} `{Protocol P} `{FloatPrinter} (o : MineOptions).

(** The new state as one assignment. *)
Lemma update_eq force begin now slots readings (c : Coord P) :
  length (last_hashes c) = length (devices (view c)) → length (thermal c) = length (devices (view c)) →
  let delta := seconds_of (now - last_update c) in
  let ds := imap (refreshed slots readings) (devices (view c)) in
  negb force && SFltb delta quarter = false →
  update o force begin now slots readings c =
  (set_last_update now
    (set_rows (next_row o delta <$> join_rows ds (last_hashes c) (thermal c)) (total_after 0 (join_rows ds (last_hashes c) (thermal c)))
       (log c ++ (join_rows ds (last_hashes c) (thermal c) ≫= λ r, alerts o (r_level r) (r_device r)))
       (set_view (set_elapsed (seconds_of (now - begin)) (view c)) c)), Ok tt).
Proof.
  cbn zeta. intros Hl Ht Hf. set (ds := imap _ _). set (rows := join_rows _ _ _).
  assert (length ds = length (devices (view c))) as Hd by apply length_imap.
  destruct (join_rows_parts ds (last_hashes c) (thermal c)) as (H1 & H2 & H3); [lia..|]. fold rows in H1, H2, H3.
  unfold update. rewrite st_bind_eq. cbn [st_get]. cbn zeta. rewrite Hf.
  unfold on_view, st_modify. rewrite !st_bind_eq. cbn [view set_view devices set_devices set_hashes set_elapsed].
  rewrite imap_imap. change (imap (λ i x, match readings !! i with Some r => _ | None => _ end) (devices (view c))) with ds.
  cbn [st_get devices view set_view set_devices]. set (c1 := set_view (set_devices ds _) _).
  assert (c1 = set_rows ([] ++ rows) 0 (log c) (set_view (set_elapsed (seconds_of (now - begin)) (view c)) c)) as ->.
  { unfold set_rows. cbn [app]. rewrite H1, H2, H3. by destruct c. }
  assert (length ds = length rows) as Hn by (rewrite <- H1 at 1; apply length_fmap).
  rewrite st_bind_eq, Hn. pose proof (update_devices_rows o (seconds_of (now - last_update c)) [] rows 0 (log c)
    (set_view (set_elapsed (seconds_of (now - begin)) (view c)) c)) as Hu. cbn [length] in Hu. by rewrite Hu.
Qed.
End update.

(** The new state, part by part. *)
Lemma update_parts {P} `{Protocol P} `{FloatPrinter} o force begin now slots readings (c c' : Coord P) r :
  length (last_hashes c) = length (devices (view c)) → length (thermal c) = length (devices (view c)) →
  Forall (λ s, 0 ≤ s.1 < Z.of_nat (length (devices (view c)))) slots →
  update o force begin now slots readings c = (c', r) →
  r = Ok tt ∧
  let delta := seconds_of (now - last_update c) in
  let ds := imap (refreshed slots readings) (devices (view c)) in
  if negb force && SFltb delta quarter then c' = c
  else
    devices (view c') = zip_with (update_rate delta) (last_hashes c) ds ∧
    (∀ i d, devices (view c') !! i = Some d → d_hashes d = u64 (sum (counts_of slots i))) ∧
    View.hashes (view c') = u64 (sum slots.*2) ∧ elapsed (view c') = seconds_of (now - begin) ∧
    last_hashes c' = d_hashes <$> devices (view c') ∧ last_update c' = now ∧
    thermal c' = zip_with (level_after o) (thermal c) ds ∧
    log c' = log c ++ concat (zip_with (alerts o) (thermal c) ds).
Proof.
  intros Hl Ht Hs. cbn zeta. destruct (negb force && SFltb (seconds_of (now - last_update c)) quarter) eqn:Hf.
  { unfold update. rewrite st_bind_eq. cbn [st_get]. cbn zeta. rewrite Hf. intros [= <- <-]. done. }
  rewrite update_eq by done. intros [= <- <-]. split; [done|]. set (ds := imap _ _).
  assert (length ds = length (devices (view c))) as Hd by apply length_imap.
  destruct (join_rows_parts ds (last_hashes c) (thermal c)) as (H1 & H2 & H3); [lia..|].
  destruct (next_rows_parts o (seconds_of (now - last_update c)) ds (last_hashes c) (thermal c)) as (N1 & N2 & N3 & N4); [lia..|].
  assert (∀ i d, ds !! i = Some d → d_hashes d = slot_total slots i) as Htot.
  { intros i d. unfold ds. rewrite list_lookup_imap. destruct (devices (view c) !! i) as [d0|]; [|done].
    intros [= <-]. unfold refreshed. by destruct (readings !! i). }
  cbn [view set_last_update set_rows set_view set_hashes set_devices devices View.hashes set_elapsed elapsed
    set_log set_last_hashes set_thermal last_hashes last_update thermal log].
  rewrite N1, N2, N3, N4. split_and!; try done.
  - intros i d Hi. rewrite <- slot_total_sum. apply lookup_zip_with_Some in Hi as (x & d0 & -> & _ & Hi).
    rewrite (proj2 (proj2 (update_rate_same _ x d0))). by apply Htot.
  - rewrite total_after_sum by done. rewrite <- (sum_rows slots (length (devices (view c)))) by done.
    rewrite list_fmap_compose, H1, Z.add_0_l.
    assert (d_hashes <$> ds = u64 <$> (sum ∘ counts_of slots <$> seq 0 (length (devices (view c))))) as ->; [|apply sum_u64].
    apply list_eq. intros i. rewrite !list_lookup_fmap. destruct (ds !! i) as [d|] eqn:Hi.
    + rewrite lookup_seq_lt by (apply lookup_lt_Some in Hi; lia). cbn. by rewrite (Htot i d Hi), slot_total_sum.
    + by rewrite lookup_seq_ge by (apply lookup_ge_None in Hi; lia).
  - apply list_eq. intros i. rewrite !list_lookup_fmap, lookup_zip_with. destruct (ds !! i) as [d|] eqn:Hi.
    + destruct (lookup_lt_is_Some_2 (last_hashes c) i) as [x Hx]; [apply lookup_lt_Some in Hi; lia|]. rewrite Hx. cbn.
      by rewrite (proj2 (proj2 (update_rate_same _ x d))).
    + by destruct (last_hashes c !! i).
Qed.

(** C32: What a refresh shows.  Without a force and less than a quarter of a second after
    the last one nothing happens.  Otherwise the hash count of each row is the sum of
    the counters of its threads and the total is the sum of all counters (as 64-bit
    numbers), GPUs show their last sample, rates are smoothed from the difference to
    the counts seen last, those are remembered, and the log gets exactly the alerts
    of the devices whose temperature changed its level, in the order of the rows. *)
Theorem update_figures {P} `{Protocol P} `{FloatPrinter} o force begin now slots readings (c c' : Coord P) r :
  length (last_hashes c) = length (devices (view c)) → length (thermal c) = length (devices (view c)) →
  Forall (λ s, 0 ≤ s.1 < Z.of_nat (length (devices (view c)))) slots →
  update o force begin now slots readings c = (c', r) →
  r = Ok tt ∧
  let delta := seconds_of (now - last_update c) in
  let ds := imap (refreshed slots readings) (devices (view c)) in
  if negb force && SFltb delta quarter then c' = c
  else
    devices (view c') = zip_with (update_rate delta) (last_hashes c) ds ∧
    (∀ i d, devices (view c') !! i = Some d → d_hashes d = u64 (sum (counts_of slots i))) ∧
    View.hashes (view c') = u64 (sum slots.*2) ∧ elapsed (view c') = seconds_of (now - begin) ∧
    last_hashes c' = d_hashes <$> devices (view c') ∧ last_update c' = now ∧
    thermal c' = zip_with (level_after o) (thermal c) ds ∧
    log c' = log c ++ concat (zip_with (alerts o) (thermal c) ds).
Proof. apply update_parts. Qed.

(** A card that becomes hot, and three threads on two rows. *)
Module Refresh.
Import Coordinator.Demo.
#[local] Existing Instances protocol printer.

Definition before : Coord (list Z) :=
  set_view (set_devices [new_device "GPU0" "card" "0000:01:00.0"; new_device "CPU" "scalar x2" EmptyString] new_view)
    (set_log [] (set_last_hashes [5; 0] (set_thermal [1; -1] idle))).
Definition hot : GpuReadings :=
  {| temperature := Some 91; fan_percent := None; core_mhz := None; memory_mhz := None; utilization := None;
     watts := None; power_limit := None; error := EmptyString |}.
Definition counters : list (Z * Z) := [(0, 10); (1, 7); (1, 4)].

Lemma update_figures_witness :
  let x := update default_options false 0 1000000000 counters [hot] before in
  View.hashes (view x.1) = 21 ∧ d_hashes <$> devices (view x.1) = [10; 11] ∧
  log x.1 = [("GPU0 temperature 91C ALARM"%string, error_severity)] ∧ thermal x.1 = [2; -1].
Proof.
  intros x. assert (x = (x.1, x.2)) as Hx by apply surjective_pairing.
  destruct (update_figures default_options false 0 1000000000 counters [hot] before x.1 x.2 eq_refl eq_refl
    ltac:(by_compute) Hx) as (_ & _ & _ & Htotal & _ & _ & _ & Ht & Hlog).
  rewrite Ht, Hlog, Htotal. split_and!; vm_compute; reflexivity.
Defined.
End Refresh.
