(* ===== verification/Mine.v ===== *)
(** * The reconnection loop

    The outer loop of [mine] in src/src/miner.cpp: one connection after the
    other, what follows a connection that failed, and the exit status.  Opening
    the socket and the first messages of the protocol are an input of each
    attempt; Program supplies the latter. *)
From Stdlib Require Import SpecFloat.
From S2P Require Import Prelude Words Json Amd Options Workers View Coordinator.

Section mine.
Context {P : Type} `{Protocol P} `{FloatPrinter} (o : MineOptions).

(** ** After a failure *)

(** One round of the wait: the test of [expired()] and what [update] sees. *)
Record Pause := { u_expired : bool; u_now : Z; u_slots : list (Z * Z); u_readings : list GpuReadings }.
(** The wait of [n] tenths of a second; false while it lasts. *)
Fixpoint pause (begin : Z) (n : nat) (rounds : list Pause) : stM (Coord P) bool :=
  match n, rounds with
  | O, _ => mret true
  | S _, [] => mret false
  | S n, u :: rounds =>
      if u_expired u then mret true
      else _ ← update o false begin (u_now u) (u_slots u) (u_readings u); pause begin n rounds
  end.
(** [catch (const std::exception &e)]: the state shown, the wait and the doubled delay. *)
Definition session_stopped (begin : Z) (rounds : list Pause) (e : exn) : stM (Coord P) bool :=
  c ← st_get;
  _ ← on_view (set_v_state (if fatal c then "DEVICE ERROR" else "RECONNECTING"));
  _ ← say ("Session stopped: " +:+ what e +:+
           (if fatal c then EmptyString else "; reconnect in " +:+ pretty (backoff c) +:+ "s")) error_severity;
  if fatal c then mret true
  else
    waited ← pause begin (Z.to_nat (backoff c * 10)) rounds;
    if (waited : bool) then
      _ ← st_modify (λ c, set_backoff (Z.min (backoff c * 2) 30) c); mret true
    else mret false.

(** ** The loop *)

(** What an attempt meets: the loop's test, how opening the connection ends, the
    turns of its loop and the rounds of the wait after it. *)
Record Attempt := {
  a_expired : bool; a_open : result P; a_now : Z; a_ticks : list (@Tick P _); a_begin : Z; a_pauses : list Pause
}.

(** The state, whether the attempt is over, and for the books: the shares it
    submitted and those without an answer. *)
Record Run := { r_coord : Coord P; r_over : bool; r_submitted : Z; r_unanswered : Z }.

(** The body of the outer loop. *)
Definition attempt (a : Attempt) (c : Coord P) : Run :=
  let stop c e := session_stopped (a_begin a) (a_pauses a) e c in
  let over (x : Coord P * result bool) := match snd x with Ok b => b | Throw _ => true end in
  let c := fst (on_view (set_v_state "CONNECTING") c) in
  match a_open a with
  | Throw e =>
      let x := stop c e in {| r_coord := fst x; r_over := over x; r_submitted := 0; r_unanswered := 0 |}
  | Ok p =>
      let c := fst (begin_connection o p (a_now a) c) in
      let '(c, r) := connection o (a_ticks a) c in
      let x := match r with
               | None => (c, Ok false)
               | Some (Ok _) => (c, Ok true)
               | Some (Throw e) => stop c e
               end in
      {| r_coord := fst x; r_over := over x;
         r_submitted := nextid c - 10; r_unanswered := Z.of_nat (size (pending c)) |}
  end.

(** [while (!expired() && !fatal)] *)
Fixpoint mine_loop (attempts : list Attempt) (c : Coord P) : Run :=
  match attempts with
  | [] => {| r_coord := c; r_over := false; r_submitted := 0; r_unanswered := 0 |}
  | a :: attempts =>
      if a_expired a || fatal c then {| r_coord := c; r_over := true; r_submitted := 0; r_unanswered := 0 |}
      else
        let r := attempt a c in
        if r_over r then
          let r' := mine_loop attempts (r_coord r) in
          {| r_coord := r_coord r'; r_over := r_over r';
             r_submitted := r_submitted r + r_submitted r'; r_unanswered := r_unanswered r + r_unanswered r' |}
        else r
  end.

(** The value [mine] returns. *)
Definition exit_code (c : Coord P) : Z :=
  if fatal c then 1 else if negb (rejected (view c) =? 0) then 2 else if had_work c then 0 else 1.

(** ** The books of a whole run *)

#[export] Instance quiet_pause begin n rounds : Quiet (pause begin n rounds).
Proof.
  revert rounds. induction n as [|n IH]; intros [|u rounds]; cbn [pause]; try apply _.
  destruct (u_expired u); apply _.
Qed.

(** What stays between two connections. *)
Definition run_ok (c : Coord P) : Prop :=
  0 ≤ accepted (view c) ∧ 0 ≤ rejected (view c) ∧ 0 ≤ stale (view c) ∧ 1 ≤ backoff c ≤ 30.
Definition counts_grow (c c' : Coord P) : Prop :=
  accepted (view c) ≤ accepted (view c') ∧ rejected (view c) ≤ rejected (view c') ∧ stale (view c) ≤ stale (view c').

Lemma session_stopped_books begin rounds e c : run_ok c →
  wp (session_stopped begin rounds e) (λ c' _, run_ok c' ∧ counts_grow c c' ∧ answered (view c') = answered (view c)) c.
Proof.
  intros (?&?&?&?). unfold session_stopped. apply wp_bind, wp_get. cbn [wp_next].
  unfold on_view, say. do 2 (apply wp_bind, wp_modify; cbn [wp_next]).
  destruct (fatal c).
  { apply wp_ret. unfold run_ok, counts_grow, answered. cbn. split_and!; try done; lia. }
  set (c1 := set_log _ _). pose proof (quiet_wp (m := pause begin (Z.to_nat (backoff c * 10)) rounds) c1) as Hq.
  apply wp_bind. eapply wp_mono; [exact Hq|]. intros c2 r (Ha & Hr & Hs & _ & _ & _ & _ & _ & Hb). cbn in Ha, Hr, Hs, Hb.
  assert (run_ok c2 ∧ counts_grow c c2 ∧ answered (view c2) = answered (view c)) as Hc2.
  { unfold run_ok, counts_grow, answered. rewrite Ha, Hr, Hs. split_and!; try done; lia. }
  destruct r as [[]|ex]; cbn [wp_next]; [|by apply wp_ret|exact Hc2].
  wp_steps. unfold run_ok, counts_grow, answered in *. cbn [backoff view set_backoff]. lia.
Qed.

Definition queued_total (attempts : list Attempt) : Z :=
  foldr (λ a n, queued_shares (a_ticks a) + n) 0 attempts.
Lemma queued_total_nonneg attempts : 0 ≤ queued_total attempts.
Proof.
  induction attempts as [|a l IH]; [done|]. change (0 ≤ queued_shares (a_ticks a) + queued_total l).
  pose proof (queued_shares_nonneg (a_ticks a)). lia.
Qed.

(** The books of one attempt. *)
Definition balanced (c : Coord P) (n connections : Z) (r : Run) : Prop :=
  run_ok (r_coord r) ∧ counts_grow c (r_coord r) ∧
  answered (view (r_coord r)) + r_unanswered r = answered (view c) + r_submitted r ∧
  0 ≤ r_submitted r ≤ n ∧ 0 ≤ r_unanswered r ≤ 4096 * connections.

Lemma attempt_balanced a c : run_ok c → answered (view c) + queued_shares (a_ticks a) < 2 ^ 64 →
  balanced c (queued_shares (a_ticks a)) 1 (attempt a c).
Proof.
  intros Hok Hl. pose proof (queued_shares_nonneg (a_ticks a)) as Hn. pose proof Hok as (?&?&?&?).
  unfold attempt. cbn zeta. set (c0 := fst (on_view (set_v_state "CONNECTING") c)).
  assert (run_ok c0) as Hok0 by exact Hok.
  destruct (a_open a) as [p|e].
  - set (c1 := fst (begin_connection o p (a_now a) c0)).
    assert (counters_ok c1 ∧ ledger c1 = answered (view c)) as [Hc1 Hl1].
    { assert (pending c1 = ∅) as Hp by done. assert (answered (view c1) = answered (view c)) as Hv by done.
      assert (ledger c1 = answered (view c)) as E by (unfold ledger; rewrite Hp, map_size_empty; lia).
      split; [|exact E]. unfold counters_ok. rewrite E, Hp, map_size_empty.
      change (nextid c1) with 10. split_and!; try done; lia. }
    destruct (connection o (a_ticks a) c1) as [c2 r] eqn:Hc.
    destruct (connection_books _ _ _ _ _ Hc Hc1) as [(?&?&?&_&Hsz&?&_) Hl2 Hn2 (?&?&?) _ Hb]; [lia|].
    change (nextid c1) with 10 in Hl2, Hn2. change (backoff c1) with (backoff c) in Hb.
    change (accepted (view c1)) with (accepted (view c)) in *.
    change (rejected (view c1)) with (rejected (view c)) in *.
    change (stale (view c1)) with (stale (view c)) in *.
    assert (run_ok c2) as Hok2 by (unfold run_ok; lia).
    unfold ledger in Hl1, Hl2.
    assert (∀ c3 b, run_ok c3 → counts_grow c2 c3 → answered (view c3) = answered (view c2) →
      balanced c (queued_shares (a_ticks a)) 1
        {| r_coord := c3; r_over := b; r_submitted := nextid c2 - 10; r_unanswered := Z.of_nat (size (pending c2)) |}) as Hbal.
    { intros c3 b Hr3 (?&?&?) E. unfold balanced, counts_grow. cbn. split; [done|]. unfold ledger in *. lia. }
    destruct r as [[u|e]|]; cbn [fst snd].
    + apply Hbal; [done|by unfold counts_grow|done].
    + pose proof (session_stopped_books (a_begin a) (a_pauses a) e c2 Hok2) as Hs. unfold wp in Hs.
      destruct (session_stopped _ _ e c2) as [c3 r3]. destruct Hs as (?&?&?). by apply Hbal.
    + apply Hbal; [done|by unfold counts_grow|done].
  - pose proof (session_stopped_books (a_begin a) (a_pauses a) e c0 Hok0) as Hs. unfold wp in Hs.
    destruct (session_stopped _ _ e c0) as [c3 r3]. destruct Hs as (Hok3&(?&?&?)&E). cbn [fst snd] in *.
    change (answered (view c0)) with (answered (view c)) in E.
    unfold balanced, counts_grow. cbn. split_and!; try done; lia.
Qed.

Lemma mine_loop_balanced attempts c : run_ok c → answered (view c) + queued_total attempts < 2 ^ 64 →
  balanced c (queued_total attempts) (Z.of_nat (length attempts)) (mine_loop attempts c).
Proof.
  revert c. induction attempts as [|a attempts IH]; intros c Hok Hl.
  { unfold balanced, counts_grow, queued_total. cbn. split_and!; try done; lia. }
  change (queued_total (a :: attempts)) with (queued_shares (a_ticks a) + queued_total attempts) in *.
  pose proof (queued_total_nonneg attempts). pose proof (queued_shares_nonneg (a_ticks a)).
  cbn [mine_loop]. destruct (a_expired a || fatal c).
  { unfold balanced, counts_grow. cbn [r_coord r_submitted r_unanswered length]. split; [done|]. lia. }
  pose proof (attempt_balanced a c Hok ltac:(lia)) as (Hok1 & (?&?&?) & Hb1 & Hs1 & Hu1).
  destruct (r_over (attempt a c)).
  - destruct (IH (r_coord (attempt a c)) Hok1 ltac:(lia)) as (Hok2 & (?&?&?) & Hb2 & Hs2 & Hu2).
    unfold balanced, counts_grow. cbn [r_coord r_submitted r_unanswered length]. split; [exact Hok2|]. lia.
  - unfold balanced, counts_grow. cbn [length]. split; [exact Hok1|]. lia.
Qed.

Lemma mine_loop_over attempts c : r_over (mine_loop attempts c) = true →
  fatal (r_coord (mine_loop attempts c)) = true ∨ Exists (λ a, a_expired a = true) attempts.
Proof.
  revert c. induction attempts as [|a attempts IH]; intros c; [done|]. cbn [mine_loop].
  destruct (a_expired a) eqn:E; [intros _; right; by left|]. destruct (fatal c) eqn:F; cbn [orb]; [by left|].
  destruct (r_over (attempt a c)) eqn:R; [|congruence]. cbn [r_over r_coord].
  intros [?|?]%IH; [by left|right; by right].
Qed.

(** C24: The books of a whole run, over any number of connections, however each one
    ends: every share submitted was accepted, refused or called stale, or was
    still without an answer when its connection ended; no counter ever decreases;
    the delay before a reconnection stays between 1 and 30 seconds; and the loop
    is left only on request or after a device error, whose exit status is 1. *)
Theorem mine_books attempts c r : mine_loop attempts c = r → run_ok c →
  answered (view c) + queued_total attempts < 2 ^ 64 →
  answered (view (r_coord r)) + r_unanswered r = answered (view c) + r_submitted r ∧
  0 ≤ r_submitted r ≤ queued_total attempts ∧
  0 ≤ r_unanswered r ≤ 4096 * Z.of_nat (length attempts) ∧
  accepted (view c) ≤ accepted (view (r_coord r)) ∧ rejected (view c) ≤ rejected (view (r_coord r)) ∧
  stale (view c) ≤ stale (view (r_coord r)) ∧
  1 ≤ backoff (r_coord r) ≤ 30 ∧
  (r_over r = true → (fatal (r_coord r) = true ∧ exit_code (r_coord r) = 1) ∨
    Exists (λ a, a_expired a = true) attempts).
Proof.
  intros <- Hok Hl.
  destruct (mine_loop_balanced attempts c Hok Hl) as ((_&_&_& Hb) & (?&?&?) & ? & ? & ?).
  split_and!; try done; try lia. intros [Hf|?]%mine_loop_over; [left|by right].
  split; [done|]. unfold exit_code. by rewrite Hf.
Qed.
End mine.

(** ** An example *)

Module Demo.
Import Coordinator.Demo.
#[local] Existing Instance protocol.
#[local] Existing Instance printer.

(** A connection that cannot be opened, one that mines and is then asked to stop,
    and the test that ends the loop. *)
Definition failing : Attempt :=
  {| a_expired := false; a_open := Throw (runtime_error "pool connection failed"); a_now := 0; a_ticks := [];
     a_begin := 0; a_pauses := replicate 40 {| u_expired := false; u_now := 0; u_slots := [(0, 7)]; u_readings := [] |} |}.
Definition mining (expired : bool) : Attempt :=
  {| a_expired := expired; a_open := Ok []; a_now := 0; a_ticks := ticks ++ stop_ticks; a_begin := 0; a_pauses := [] |}.

Lemma mine_books_witness :
  let r := mine_loop default_options [failing; mining false; mining true] idle in
  r_over r = true ∧ r_submitted r = 2 ∧ r_unanswered r = 1 ∧ accepted (view (r_coord r)) = 1 ∧
  exit_code (r_coord r) = 0 ∧
  answered (view (r_coord r)) + r_unanswered r = answered (view idle) + r_submitted r.
Proof.
  cbn zeta. do 5 (split; [vm_compute; reflexivity|]).
  refine (proj1 (mine_books default_options [failing; mining false; mining true] idle _ eq_refl _ _)).
  - split_and!; vm_compute; congruence.
  - vm_compute. reflexivity.
Defined.
End Demo.
