(* ===== verification/Protocols.v ===== *)
(** * The two protocols

    [Stratum V1] ([StratumState] with the lines written to the socket) and
    [Stratum V2] ([sv2::Session]) as implementations of the coordinator's
    [Protocol], and the laws the coordinator relies on. *)
From stdpp Require Import sorting.
From S2P Require Import Prelude Words Hex Blake Targets Work Json Options Workers View Coordinator.
From S2P Require Sv2 Noise Stratum Session.

(** ** The laws of a protocol *)

Class ProtocolLaws (P : Type) `{Protocol P} := {
  inv : P → Prop;
  (** Jobs are numbered; the counter is the last number used. *)
  counter : P → Z;
  (** The counter moves forward, a new live job has a new number, and
      authorization is not withdrawn. *)
  extends (p p' : P) : Prop := inv p' ∧ counter p ≤ counter p' ∧
    (live p' = live p ∨ ∃ j, live p' = Some j ∧ counter p < j_generation j) ∧
    (authorized p = true → authorized p' = true);
  (** The live job is well formed, and may be submitted once authorized. *)
  live_ok p j : inv p → live p = Some j → job_ok j ∧ 0 < j_generation j ≤ counter p ∧
    (authorized p = true → is_valid p j = true);
  (** A read or a message that is handled issues at most 1024 jobs. *)
  arrive_ok b p : inv p → counter p + 1024 < 2 ^ 64 →
    wp (arrive b) (λ p' r, is_ok r = true → extends p p') p;
  on_event_ok m p : inv p → counter p + 1024 < 2 ^ 64 →
    wp (on_event m) (λ p' r, is_ok r = true → extends p p') p;
  (** A message that reports no job leaves the live job alone... *)
  on_event_none m p p' : inv p → counter p + 1024 < 2 ^ 64 → on_event m p = (p', Ok None) →
    authorized p' = true → live p' = live p;
  (** ... and so does a read, unless every message reports the live job. *)
  arrive_live b p p' ms : arrive b p = (p', Ok ms) → live p' = live p ∨
    ∀ m q q', on_event m q = (q', Ok None) → authorized q' = false;
  send_share_ok o j n id p : inv p → wp (send_share o j n id)
    (λ p' r, is_ok r = true → inv p' ∧ counter p' = counter p ∧ live p' = live p ∧
      authorized p' = authorized p) p;
  (** Submitting retires no job. *)
  send_share_valid o j n id p : wp (send_share o j n id)
    (λ p' r, is_ok r = true → ∀ k, is_valid p' k = is_valid p k) p;
}.

(** ** Stratum V1 *)

(** What the socket makes of each line written to it: sent in full, or the
    exception of [send].  The requests of a connection have different numbers, so
    no line is written twice. *)
Definition Link : Type := json → result unit.
(** The protocol's state, the lines sent in full and the socket. *)
Record V1 := { v1_state : Stratum.StratumState; v1_sent : list json; v1_link : Link }.
Definition on_state {A} (m : stM Stratum.StratumState A) : stM V1 A := λ v,
  let '(s, r) := m (v1_state v) in ({| v1_state := s; v1_sent := v1_sent v; v1_link := v1_link v |}, r).
(** [socket.send(j)] *)
Definition v1_write (j : json) : stM V1 unit :=
  v ← st_get;
  _ ← st_lift (v1_link v j);
  st_modify (λ v, {| v1_state := v1_state v; v1_sent := v1_sent v ++ [j]; v1_link := v1_link v |}).

Definition request (id : Z) (method : string) (params : list json) : json :=
  JObject [("id", JInt id); ("method", JString method); ("params", JArray params)]%string.
(** The requests that open a connection. *)
Definition v1_hello (o : MineOptions) : list json :=
  [request 1 "mining.subscribe" [JString "supryolo/0.2.1"];
   request 2 "mining.extranonce.subscribe" [];
   request 3 "mining.authorize" [JString (o_user o); JString (o_password o)]].
Definition v1_open (k : Link) (o : MineOptions) : result V1 :=
  let '(v, r) := st_iter v1_write (v1_hello o)
                   {| v1_state := Stratum.initial_state; v1_sent := []; v1_link := k |} in
  _ ← r; Ok v.
(** A connection whose requests are sent. *)
Definition v1_start (k : Link) (o : MineOptions) : V1 :=
  {| v1_state := Stratum.initial_state; v1_sent := v1_hello o; v1_link := k |}.
Definition submit_line (o : MineOptions) (j : Job) (nonce id : Z) : json :=
  request id "mining.submit"
    [JString (o_user o); JString (j_id j); JString (j_en2 j); JString (j_ntime j);
     JString (hex (store_le (replicate 8 x00) 0 nonce))].

(** What arrives is the outcome of [socket.read()]. *)
#[export] Instance v1_protocol `{BigNum} `{FloatPrinter} : Protocol V1 := {|
  incoming := result (list json);
  arrive := λ r, st_lift r;
  on_event := λ m, on_state (Stratum.receive m);
  authorized := λ v, Stratum.authorized (v1_state v);
  live := λ v, Stratum.current (v1_state v);
  is_valid := λ v j, Stratum.valid (v1_state v) j;
  send_share := λ o j n id, v1_write (submit_line o j n id);
|}.

(** ** Stratum V2 *)

#[export] Instance v2_protocol `{Noise.NoiseCrate} : Protocol Session.Session := {|
  incoming := Bytes;
  arrive := λ b, Session.receive b;
  on_event := λ _ s, (s, Ok (Session.current s));
  authorized := λ s, bool_decide (is_Some (Session.current s));
  live := λ s, Session.current s;
  is_valid := λ s j, Session.valid s j;
  send_share := λ _ j n id,
    _ ← st_require (negb (2 ^ 32 - 1 <? id)) "SV2 sequence exhausted; reconnecting";
    Session.submit j n (u32 id);
|}.

(** ** Stratum V1 keeps the laws *)

Section v1.
Context {BN : BigNum} {BL : BigNumLaws BN} {FP : FloatPrinter}.

(** A line is sent, or nothing changes. *)
Lemma v1_write_cases j v : v1_write j v =
  match v1_link v j with
  | Ok _ => ({| v1_state := v1_state v; v1_sent := v1_sent v ++ [j]; v1_link := v1_link v |}, Ok tt)
  | Throw e => (v, Throw e)
  end.
Proof. unfold v1_write. rewrite !st_bind_eq. cbn [st_get]. by destruct (v1_link v j) as [[]|]. Qed.

Lemma v1_open_start k o v : v1_open k o = Ok v → v = v1_start k o.
Proof.
  unfold v1_open, v1_hello. cbn [st_iter]. rewrite !st_bind_eq, v1_write_cases. cbn [v1_link v1_sent v1_state app].
  do 3 (match goal with |- context [k ?j] => destruct (k j) as [[]|] end; [|done];
        rewrite ?st_bind_eq, ?v1_write_cases; cbn [v1_link v1_sent v1_state app]).
  intros Hv. cbn in Hv. apply Ok_inj in Hv as <-. reflexivity.
Qed.

(** The current job is the last one numbered, and its number is on file. *)
Definition v1_inv (v : V1) : Prop :=
  let s := v1_state v in
  Stratum.stratum_ok s ∧ length (Stratum.next_target s) = 32%nat ∧
  ∀ j, Stratum.current s = Some j → job_ok j ∧ 0 < j_generation j ≤ Stratum.generation s ∧
    j_epoch j = Stratum.epoch s ∧ Stratum.valid_ids s !! j_id j = Some (j_generation j).

(** The staged target always has 32 bytes. *)
Lemma receive_target m s : length (Stratum.next_target s) = 32%nat →
  wp (Stratum.receive m) (λ s' _, length (Stratum.next_target s') = 32%nat) s.
Proof.
  intros Hl. set (Q := λ s : Stratum.StratumState, length (Stratum.next_target s) = 32%nat).
  assert (∀ {A B} (x : stM Stratum.StratumState A) (k : A → stM Stratum.StratumState B) s,
    wp x (λ s' _, Q s') s → (∀ a s', Q s' → wp (k a) (λ s'' _, Q s'') s') → wp (x ≫= k) (λ s' _, Q s') s) as Hbind.
  { intros A B x k s0 Hx Hk. apply wp_bind. eapply wp_mono; [exact Hx|]. intros s' [a|e] HQ; cbn [wp_next]; auto. }
  assert (∀ e n msg s, Q s → wp (Stratum.receive_sizes e n msg) (λ s' _, Q s') s) as Hsizes.
  { intros e n msg s0 H0. unfold Stratum.receive_sizes. repeat (apply Hbind; [done|intros ? ? ?]). done. }
  unfold Stratum.receive. apply Hbind; [done|intros _ s1 H1].
  destruct (contains m "method").
  - do 4 (apply Hbind; [done|intros ? ? ?]). repeat case_match.
    + unfold Stratum.receive_difficulty. apply Hbind; [done|intros ? ? ?].
      apply wp_bind, wp_lift. destruct (difficulty_target _) as [t|] eqn:Ht; cbn [wp_next]; [|done].
      apply difficulty_target_length in Ht. by wp_steps.
    + unfold Stratum.receive_extranonce. apply Hbind; [done|intros ? ? ?].
      apply Hbind; [by apply Hsizes|intros ? ? ?]. done.
    + unfold Stratum.receive_notify. do 4 (apply Hbind; [done|intros ? ? ?]).
      apply Hbind; [done|intros ? ? ?]. apply Hbind; [by case_match|intros ? ? ?].
      do 2 (apply Hbind; [done|intros ? ? ?]). apply Hbind; [by case_match|intros ? ? ?].
      unfold Stratum.issue_job. repeat (apply Hbind; [done|intros ? ? ?]). done.
    + done.
  - destruct (find m "id"); [|done]. case_match; [|done]. apply Hbind; [done|intros ? ? ?].
    unfold Stratum.receive_reply.
    apply Hbind; [case_match; [|done]; do 2 (apply Hbind; [done|intros ? ? ?]); by apply Hsizes|intros ? ? ?].
    apply Hbind; [case_match; [|done]; apply Hbind; [done|intros ? ? ?]; done|intros ? ? ?]. done.
Qed.

Lemma v1_receive m v : v1_inv v → Stratum.generation (v1_state v) + 1 < 2 ^ 64 →
  wp (on_state (Stratum.receive m)) (λ v' r, is_ok r = true →
    v1_inv v' ∧ Stratum.generation (v1_state v) ≤ Stratum.generation (v1_state v') ∧
    (Stratum.authorized (v1_state v) = true → Stratum.authorized (v1_state v') = true) ∧
    match r with
    | Ok None => Stratum.current (v1_state v') = Stratum.current (v1_state v)
    | Ok (Some j) => Stratum.current (v1_state v') = Some j ∧ Stratum.generation (v1_state v) < j_generation j
    | Throw _ => True
    end) v.
Proof.
  intros (Hok & Ht & Hcur) Hg. pose proof (Stratum.receive_wp m _ Hok Hg) as Hw.
  pose proof (receive_target m _ Ht) as Ht'. unfold wp, on_state in *.
  destruct (Stratum.receive m (v1_state v)) as [s' [r|e]]; cbn [fst snd] in *; [|done]. intros _.
  destruct Hw as [(Hok' & Hg' & He' & Hi' & Hc' & Ha' & Hr)|(Hok' & Ha' & Hg' & Hr)].
  - destruct r; [done|]. unfold v1_inv. cbn [v1_state]. rewrite Hg', He', Hi', Hc'. split_and!; [done|done|done|lia|done|done].
  - destruct r as [j|]; [|done]. destruct Hr as [clean [Hcl _ _ Hs Hgen Hep _ Htg (prev & c1 & c2 & _ & _ & _ & Hhd) _ [_ Htm]]].
    apply sia_work_length in Hhd. pose proof Hok as (_ & _ & _ & Hg0 & _). unfold is_u64 in Hg0.
    unfold v1_inv. cbn [v1_state]. rewrite <- Ha'. rewrite Hs in Hok', Ht' |- *. cbn. split_and!; try done; try lia.
    intros j' [= <-]. rewrite Hgen, lookup_insert_eq. split_and!; try done; try lia.
    unfold job_ok. rewrite Htg, Htm. split_and!; try done; unfold is_u64, is_u32; lia.
Qed.

#[export] Instance v1_laws : ProtocolLaws V1.
Proof.
  refine {| inv := v1_inv; counter := λ v, Stratum.generation (v1_state v) |}.
  - intros v j (_ & _ & Hcur) Hl. destruct (Hcur j Hl) as (Hj & Hg & He & Hi). split_and!; try done; try lia.
    intros Ha. unfold is_valid, v1_protocol, Stratum.valid. cbn in Ha. by rewrite Ha, He, Hi, !Z.eqb_refl.
  - intros ms v Hv _. unfold wp. cbn. intros _. split_and!; [done|lia|by left|done].
  - intros m v Hv Hg. eapply wp_mono; [apply (v1_receive m v Hv); lia|]. intros v' r Hw Hr.
    destruct (Hw Hr) as (Hv' & Hle & Ha & Hcase). split_and!; [done|done| |done].
    destruct r as [[j|]|]; [right; by exists j|by left|done].
  - intros m v v' Hv Hg He _. pose proof (v1_receive m v Hv ltac:(lia)) as Hw. unfold wp in Hw.
    cbn [on_event v1_protocol] in He. rewrite He in Hw. by apply Hw.
  - intros ms v v' ms' He. injection He as <- _. by left.
  - intros o j n id v Hv. unfold wp. cbn [send_share v1_protocol]. rewrite v1_write_cases. by destruct (v1_link v _).
  - intros o j n id v. unfold wp. cbn [send_share v1_protocol]. rewrite v1_write_cases. by destruct (v1_link v _).
Defined.
End v1.

(** ** Stratum V2 keeps the laws *)

Section v2.
Context {NC : Noise.NoiseCrate}.
Import Session.

(** Lengths, and the numbering of the current job. *)
Definition v2_wf (s : Session) : Prop :=
  length (s_target s) = 32%nat ∧ length (previous s) = 32%nat ∧ 0 ≤ generation s ∧
  ∀ j, current s = Some j → job_ok j ∧ 0 < j_generation j ≤ generation s.

(** A step that numbers at most [n] jobs. *)
Definition v2_step (n : Z) (s s' : Session) : Prop :=
  v2_wf s' ∧ generation s ≤ generation s' ≤ generation s + n ∧
  (current s' = current s ∨ ∃ j, current s' = Some j ∧ generation s < j_generation j).

Lemma v2_step_refl n s : 0 ≤ n → v2_wf s → v2_step n s s.
Proof. intros ??. split; [done|]. split; [lia|by left]. Qed.
Lemma v2_step_trans n m k s1 s2 s3 : n + m ≤ k → v2_step n s1 s2 → v2_step m s2 s3 → v2_step k s1 s3.
Proof.
  intros Hk (_ & Hg & Hc) (Hw & Hg' & Hc'). split; [done|]. split; [lia|].
  destruct Hc' as [->|(j & ? & ?)]; [done|right; exists j; split; [done|lia]].
Qed.

Lemma v2_wf_same s s' : same_jobs s s' → v2_wf s → v2_wf s'.
Proof.
  intros (_ & _ & _ & _ & Hg & _ & Hc & Ht & _ & Hp & _). unfold v2_wf. by rewrite Hg, Hc, Ht, Hp.
Qed.
Lemma v2_step_same n s s' : 0 ≤ n → same_jobs s s' → v2_wf s → v2_step n s s'.
Proof.
  intros Hn Hs Hw. split; [by eapply v2_wf_same|]. destruct Hs as (_&_&_&_& Hg &_& Hc &_). rewrite Hg, Hc.
  split; [lia|by left].
Qed.

Lemma same_jobs_refl s : same_jobs s s.
Proof. by split_and!. Qed.
Lemma same_jobs_trans s1 s2 s3 : same_jobs s1 s2 → same_jobs s2 s3 → same_jobs s1 s3.
Proof. unfold same_jobs. intros H1 H2. destruct_and!. split_and!; congruence. Qed.

Lemma same_jobs_bind {A B} (m : stM Session A) (k : A → stM Session B) s :
  wp m (λ s' _, same_jobs s s') s → (∀ a s', same_jobs s s' → wp (k a) (λ s'' _, same_jobs s' s'') s') →
  wp (m ≫= k) (λ s' _, same_jobs s s') s.
Proof.
  intros Hm Hk. apply wp_bind. eapply wp_mono; [exact Hm|]. intros s' [a|e] Hs; cbn [wp_next]; [|done].
  eapply wp_mono; [by apply Hk|]. intros s'' r. by apply same_jobs_trans.
Qed.

(** The handlers that only answer shares. *)
Lemma settle_loop_jobs fuel out s : wp (settle_loop fuel out) (λ s' _, same_jobs s s') s.
Proof.
  revert out s. induction fuel as [|fuel IH]; intros out s; cbn [settle_loop]; [apply same_jobs_refl|].
  apply wp_bind, wp_get. cbn [wp_next]. destruct (batches s) as [|b rest]; [apply same_jobs_refl|].
  cbn zeta. apply same_jobs_bind; [apply same_jobs_refl|]. intros _ s1 _.
  destruct (negb _); [apply same_jobs_refl|].
  apply same_jobs_bind; [by split_and!|]. intros _ s2 _. apply same_jobs_bind; [by split_and!|]. intros _ s3 _. apply IH.
Qed.
Lemma settle_jobs out s : wp (settle out) (λ s' _, same_jobs s s') s.
Proof. unfold settle. apply wp_bind, wp_get. apply settle_loop_jobs. Qed.
Lemma on_accepted_jobs m out s : wp (on_accepted m out) (λ s' _, same_jobs s s') s.
Proof.
  unfold on_accepted. apply wp_bind, wp_get. cbn [wp_next]. apply same_jobs_bind; [apply same_jobs_refl|].
  intros _ s1 _. do 2 (apply same_jobs_bind; [by split_and!|intros _ ? _]). apply settle_jobs.
Qed.
Lemma on_rejected_jobs m out s : wp (on_rejected m out) (λ s' _, same_jobs s s') s.
Proof.
  unfold on_rejected. apply wp_bind, wp_get. cbn [wp_next]. apply same_jobs_bind; [apply same_jobs_refl|].
  intros _ s1 _. apply same_jobs_bind; [by split_and!|intros _ ? _]. apply settle_jobs.
Qed.

(** [activate] numbers one job and makes it current. *)
Lemma activated_step k st t s s' j : activated k st t s s' j → length (s_target s) = 32%nat →
  length (previous s) = 32%nat → is_u32 t → 0 ≤ generation s → generation s + 1 < 2 ^ 64 → v2_step 1 s s'.
Proof.
  intros [(h & Hh & Hj) _ Hcur Hgen (_ & _ & _ & _ & _ & Ht & Hp & _) _ _] Hlt Hlp Htime Hg Hg1.
  rewrite u64_small in Hgen by (unfold is_u64; lia).
  assert (job_ok j ∧ j_generation j = generation s + 1) as [Hok Hjg].
  { subst j. unfold job_ok, activated_job. cbn. rewrite u64_small by (unfold is_u64; lia).
    apply standard_work_length in Hh; [|done]. split_and!; try done; [|unfold is_u64; lia].
    unfold min_hash. by destruct (lexicographical_compare _ _). }
  split; [|split; [lia|right; exists j; split; [done|lia]]].
  unfold v2_wf. rewrite Ht, Hp, Hgen, Hcur. split_and!; try done; try lia. intros j' [= <-]. split; [done|lia].
Qed.

Lemma activate_step k st t s : length (s_target s) = 32%nat → length (previous s) = 32%nat →
  is_u32 t → 0 ≤ generation s → generation s + 1 < 2 ^ 64 →
  wp (activate k st t) (λ s' r, is_ok r = true → v2_step 1 s s') s.
Proof.
  intros Hlt Hlp Ht Hg Hg1. pose proof (activate_wp k st t s) as Ha.
  unfold wp in *. destruct (activate k st t s) as [s' [u|e]]; cbn in *; [|done]. intros _.
  destruct Ha as (j & Ha). by apply (activated_step k st t s s' j).
Qed.

(** Every decoded message numbers at most one job. *)
Lemma on_message_step m out s : Sv2.Wire.message_ok m → v2_wf s → generation s + 1 < 2 ^ 64 →
  wp (on_message m out) (λ s' r, is_ok r = true → v2_step 1 s s') s.
Proof.
  intros Hm Hw Hg. pose proof Hw as (Hlt & Hlp & Hg0 & Hcur). unfold on_message. apply wp_bind.
  set (Q := λ (s' : Session) (r : result (list json)), is_ok r = true → v2_step 1 s s').
  assert (∀ s' r, Q s' r → wp_next (λ out, mret (out ++ [JObject []])) Q s' r) as Hend by by intros s' [?|?].
  assert (∀ {A} (x : stM Session A) (k : A → stM Session (list json)),
    wp x (λ s' r, is_ok r = true → v2_step 1 s s') s → (∀ a s', wp (k a) (λ s'' _, s'' = s') s') →
    wp (x ≫= k) Q s) as Hquiet.
  { intros A x k Hx Hk. apply wp_bind. eapply wp_mono; [exact Hx|]. intros s' [a|e] Hs; cbn [wp_next]; [|done].
    eapply wp_mono; [apply Hk|]. intros s'' r -> _. by apply Hs. }
  assert (∀ (x : stM Session (list json)), wp x (λ s' _, same_jobs s s') s → wp x Q s) as Hsame.
  { intros x Hx. eapply wp_mono; [exact Hx|]. intros s' r Hs _. by apply v2_step_same. }
  destruct m as [m|m|m|m|m|m|m|m]; (eapply wp_mono; [|exact Hend]).
  - apply Hquiet; [|done]. unfold on_setup. apply wp_bind, wp_get. cbn [wp_next].
    apply wp_bind, wp_require; intros _; cbn [wp_next]; [|done].
    apply wp_bind, wp_lift. destruct (Sv2.open_standard _ _ _ _); cbn [wp_next]; [|done].
    apply wp_bind. eapply wp_mono; [apply send_wp|]. intros s1 [u|e] [Hj _]; [|done]. cbn [wp_next].
    apply wp_modify. intros _. destruct (v2_step_same 1 s s1 ltac:(lia) Hj Hw) as (Hw1 & ?). by split.
  - apply Hquiet; [|done]. unfold on_open. apply wp_bind, wp_get. cbn [wp_next].
    apply wp_bind, wp_require; intros _; cbn [wp_next]; [|done].
    apply wp_bind, wp_require; intros _; cbn [wp_next]; [|done]. wp_steps. intros _.
    destruct Hm as (_ & _ & [Ht _] & _). split; [by split_and!|]. split; [cbn; lia|by left].
  - apply Hquiet; [|done]. unfold on_new_job. apply wp_bind, wp_get. cbn [wp_next].
    apply wp_bind, wp_require; intros _; cbn [wp_next]; [|done].
    apply wp_bind, wp_require; intros _; cbn [wp_next]; [|done]. cbn zeta. apply wp_bind, wp_modify. cbn [wp_next].
    destruct Hm as (_ & _ & Ht & _). destruct (Sv2.nj_ntime m) as [t|]; [by (eapply wp_mono; [by apply activate_step|]; intros s' r Hs; exact Hs)|].
    apply wp_ret. intros _. split; [by split_and!|]. split; [cbn; lia|by left].
  - apply Hquiet; [|done]. unfold on_prev_hash. apply wp_bind, wp_get. cbn [wp_next].
    apply wp_bind, wp_require; intros _; cbn [wp_next]; [|done].
    destruct (jobs s !! Sv2.ph_job m) as [st|]; [|done].
    apply wp_bind, wp_require; intros _; cbn [wp_next]; [|done].
    apply wp_bind, wp_lift. destruct (compact_target _); cbn [wp_next]; [|done].
    do 6 (apply wp_bind, wp_modify; cbn [wp_next]). destruct Hm as (_ & _ & Hh & Ht & _).
    eapply wp_mono; [by apply activate_step|]. intros s' r Hs. exact Hs.
  - unfold on_target. apply wp_bind, wp_get. cbn [wp_next].
    apply wp_bind, wp_require; intros _; cbn [wp_next]; [|done]. wp_steps. intros _.
    destruct Hm as (_ & Ht & _). split; [by split_and!|]. split; [cbn; lia|by left].
  - apply Hsame, on_accepted_jobs.
  - apply Hsame, on_rejected_jobs.
  - done.
Qed.

Lemma on_frames_step fs out s : v2_wf s → generation s + Z.of_nat (length fs) < 2 ^ 64 →
  wp (on_frames fs out) (λ s' r, is_ok r = true → v2_step (Z.of_nat (length fs)) s s') s.
Proof.
  revert out s. induction fs as [|f fs IH]; intros out s Hw Hg; cbn [on_frames length] in *.
  { apply wp_ret. intros _. by apply v2_step_refl. }
  apply wp_bind, wp_lift. destruct (Sv2.decode f) as [m|e] eqn:Hd; cbn [wp_next]; [|done].
  apply Sv2.decode_cases in Hd as [_ [Hm _]%Sv2.decode_value_sound].
  apply wp_bind. eapply wp_mono; [apply (on_message_step m out s Hm Hw); lia|].
  intros s1 [out1|e] Hs; cbn [wp_next]; [|done]. specialize (Hs eq_refl). pose proof Hs as (Hw1 & Hg1 & _).
  eapply wp_mono; [apply IH; [done|lia]|]. intros s2 r Hs2 Hr.
  eapply v2_step_trans; [|exact Hs|by apply Hs2]. lia.
Qed.

(** A read completes at most 1024 frames. *)
Lemma receive_loop_count fuel c out n : (length out ≤ 1024)%nat →
  wp (Noise.receive_loop fuel c out) (λ _ r, match r with Ok (_, fs) => (length fs ≤ 1024)%nat | _ => True end) n.
Proof.
  revert c out n. induction fuel as [|fuel IH]; intros c out n Hl; cbn [Noise.receive_loop]; [done|].
  apply wp_bind. unfold wp at 1. destruct (Noise.receive_step c n) as [n1 [[c1|c1|c1 f]|e]]; cbn [fst snd wp_next].
  - done.
  - by apply IH.
  - cbn zeta. apply wp_bind, wp_require; intros Hc; cbn [wp_next]; [|done].
    apply IH. by apply negb_true_iff, Nat.ltb_ge in Hc.
  - done.
Qed.
Lemma noise_receive_count b n n' fs : Noise.receive b n = (n', Ok fs) → (length fs ≤ 1024)%nat.
Proof.
  unfold Noise.receive. destruct (Noise.receive_body b n) as [n1 [fs1|e]] eqn:E; [|discriminate].
  intros [= _ <-]. revert E. unfold Noise.receive_body.
  assert (wp (Noise.receive_body b) (λ _ r, match r with Ok fs => (length fs ≤ 1024)%nat | _ => True end) n) as Hw.
  { unfold Noise.receive_body. apply wp_bind, wp_get. cbn [wp_next].
    apply wp_bind, wp_require; intros _; cbn [wp_next]; [|done].
    apply wp_bind, wp_require; intros _; cbn [wp_next]; [|done].
    apply wp_bind, wp_modify. cbn [wp_next]. apply wp_bind, wp_get. cbn [wp_next].
    apply wp_bind. eapply wp_mono; [apply receive_loop_count; cbn; lia|].
    intros n2 [[c fs2]|e] Hl; cbn [wp_next]; [|done]. by wp_steps. }
  fold (Noise.receive_body b). intros E. unfold wp in Hw. by rewrite E in Hw.
Qed.

Lemma receive_frames_step b s : v2_wf s → generation s + 1024 < 2 ^ 64 →
  wp (receive_frames b) (λ s' r, is_ok r = true → v2_step 1024 s s') s.
Proof.
  intros Hw Hg. unfold receive_frames. apply wp_bind. unfold wp at 1, with_noise.
  destruct (Noise.receive b (noise s)) as [n [fs|e]] eqn:E; cbn [fst snd wp_next]; [|done].
  apply noise_receive_count in E. eapply wp_mono; [apply (on_frames_step fs [] (set_noise n s)); [exact Hw|cbn; lia]|].
  intros s' r Hs Hr. destruct (Hs Hr) as (? & Hg' & ?). cbn in Hg'. split; [done|]. split; [lia|done].
Qed.

Lemma receive_step b s : v2_wf s → generation s + 1024 < 2 ^ 64 →
  wp (receive b) (λ s' r, is_ok r = true → v2_step 1024 s s') s.
Proof.
  intros Hw Hg. unfold receive. apply wp_bind, wp_get. cbn [wp_next].
  destruct (phase s =? 0); [|by apply receive_frames_step].
  apply wp_bind, wp_modify. cbn [wp_next]. apply wp_bind, wp_get. cbn [wp_next].
  set (s1 := set_handshake (handshake s ++ b) s).
  apply wp_bind, wp_require; intros _; cbn [wp_next]; [|done].
  destruct (_ <? 234)%nat; [apply wp_ret; intros _; exact (v2_step_refl 1024 s ltac:(lia) Hw)|].
  apply wp_bind. eapply wp_mono; [apply with_noise_same|]. intros s2 [u|e] [Hj _]; [|done]. cbn [wp_next].
  apply wp_bind, wp_modify. cbn [wp_next]. apply wp_bind, wp_modify. cbn [wp_next].
  apply wp_bind, wp_lift. destruct (Sv2.setup _ _ _); cbn [wp_next]; [|done].
  set (s3 := set_phase 1 (set_handshake [] s2)).
  assert (v2_step 0 s s3) as Hs3.
  { destruct (v2_step_same 0 s1 s2 ltac:(lia) Hj Hw) as (Hw2 & Hg2 & Hc2). by split. }
  apply wp_bind. eapply wp_mono; [apply send_wp|]. intros s4 [u'|e] [Hj4 _]; [|done]. cbn [wp_next].
  pose proof (v2_step_same 0 s3 s4 ltac:(lia) Hj4 (proj1 Hs3)) as Hs4.
  pose proof (v2_step_trans 0 0 0 s s3 s4 ltac:(lia) Hs3 Hs4) as Hs5. pose proof Hs5 as (Hw4 & Hg4 & _).
  eapply wp_mono; [apply (receive_frames_step _ s4 Hw4); lia|]. intros s' r Hs' Hr.
  eapply (v2_step_trans 0 1024); [|exact Hs5|by apply Hs']. lia.
Qed.

Definition v2_inv (s : Session) : Prop := session_ok s ∧ v2_wf s.

#[export] Instance v2_laws : ProtocolLaws Session.
Proof.
  refine {| inv := v2_inv; counter := generation |}.
  - intros s j [Hok (_ & _ & _ & Hcur)] Hl. destruct (Hcur j Hl) as [Hj Hg]. split_and!; try done; try lia.
    intros _. by apply Hok.
  - intros b s [Hok Hw] Hg. pose proof (receive_step b s Hw Hg) as Hs. pose proof (session_receive_wp b s Hok) as Ho.
    unfold wp in *. cbn [arrive v2_protocol]. destruct (receive b s) as [s' [ms|e]]; cbn in *; [|done].
    intros _. destruct (Hs eq_refl) as (Hw' & Hg' & Hc). split; [by split|]. split; [lia|]. split; [done|].
    destruct Hc as [->|(j & -> & _)]; [done|]. intros _. by apply bool_decide_eq_true.
  - intros m s Hs _. unfold wp. cbn. intros _. split; [done|]. split; [lia|]. split; [by left|done].
  - intros m s s' _ _ He _. cbn in He. by injection He as <- _.
  - intros b s s' ms _. right. intros m q q' He. cbn in He. injection He as <- He. cbn.
    by rewrite He.
  - intros o j n id s [Hok Hw]. cbn [send_share v2_protocol]. apply wp_bind, wp_require; intros _; cbn [wp_next]; [|done].
    eapply wp_mono; [by apply submit_wp|]. intros s' [u|e] Hs; [|done]. intros _.
    destruct Hs as (Hok' & _ & _ & _ & _ & _ & _ & Hj). split_and!; [split; [done|by eapply v2_wf_same]|..].
    + by destruct Hj as (_&_&_&_&?&_).
    + by destruct Hj as (_&_&_&_&_&_&?&_).
    + destruct Hj as (_&_&_&_&_&_& Hc &_). cbn. by rewrite Hc.
  - intros o j n id s. cbn [send_share v2_protocol]. apply wp_bind, wp_require; intros _; cbn [wp_next]; [|done].
    unfold submit. apply wp_bind, wp_get. cbn [wp_next]. apply wp_bind, wp_require; intros _; cbn [wp_next]; [|done].
    do 2 (apply wp_bind, wp_modify; cbn [wp_next]).
    apply wp_bind, wp_lift. destruct (Sv2.submit_standard _ _ _ _ _ _); cbn [wp_next]; [|done].
    eapply wp_mono; [apply send_wp|]. intros s' r [Hj _] _ k. exact (valid_same _ _ k Hj).
Defined.
End v2.

(** ** New connections *)

Lemma v1_initial_inv k o : v1_inv (v1_start k o).
Proof. split; [apply Stratum.initial_state_ok|]. by split. Qed.

Lemma v2_initial_inv `{Noise.NoiseCrate} key h p u r s :
  Session.new_session key h p u r = Ok s → v2_inv s.
Proof.
  intros Hs. split; [by eapply Session.new_session_ok|]. revert Hs. unfold Session.new_session.
  destruct (Noise.new_noise key) as [[n first]|e]; [|discriminate]. intros Hs. apply Ok_inj in Hs as <-.
  by split_and!.
Qed.
