(* ===== verification/System.v ===== *)
(** * The miner as a whole

    One connection of [mine] in src/src/miner.cpp: the coordinator of
    Coordinator, the mining threads of Workers and a protocol of Protocols, with
    every interleaving of the threads' locked blocks and the coordinator's. *)
From Stdlib Require Import SpecFloat.
From S2P Require Import Prelude Words Hex Blake Targets Work Json Options Workers View Coordinator Protocols.
From S2P Require Sv2 Stratum.

#[export] Instance Work_eq_dec : EqDecision Work.
Proof. solve_decision. Defined.
#[export] Instance Job_eq_dec : EqDecision Job.
Proof. solve_decision. Defined.

(** ** The state and its steps *)

(** Where the coordinator is in its loop. *)
Inductive phase :=
| Waiting
| Handling (ms : list json)
| Taking
| Submitting (q : list Found)
| Failed (e : exn).

(** The threads and what they share, the coordinator, and a history: the shares
    submitted, with their numbers. *)
Record System (P : Type) := {
  pool : Pool; coord : Coord P; at_phase : phase; submitted : list (Z * Found)
}.
Arguments pool {P} _.
Arguments coord {P} _.
Arguments at_phase {P} _.
Arguments submitted {P} _.
Arguments Build_System {P}.

Definition after {A} (r : result A) (k : A → phase) : phase :=
  match r with Ok a => k a | Throw e => Failed e end.

(** The coordinator's [work] as the threads see it. *)
Definition publish_to (p : Pool) (w : option Job) : Pool :=
  if decide (work (shared p) = w) then p
  else {| shared := set_work w (shared p); workers := workers p;
          issued := issued p ++ option_list w; scans := scans p |}.
Definition empty_queue (p : Pool) : Pool :=
  {| shared := set_found [] (shared p); workers := workers p; issued := issued p; scans := scans p |}.

Section system.
Context {P : Type} `{ProtocolLaws P} `{FloatPrinter}.
Context (backend : nat → Backend) (o : MineOptions).

Inductive thread_step : Pool → Pool → Prop :=
| thread_runs p i w s w' new : workers p !! i = Some w → worker_step backend i (shared p) w = (s, w', new) →
    thread_step p {| shared := s; workers := <[i := w']> (workers p); issued := issued p; scans := scans p ++ new |}
| thread_stops p i w : workers p !! i = Some w → w_stage w = Looping →
    thread_step p {| shared := shared p; workers := <[i := with_stage Stopped w]> (workers p);
                     issued := issued p; scans := scans p |}
| thread_breaks p i w e : workers p !! i = Some w → w_stage w = Looping → Forall (λ x, e_worker x ≠ i) (scans p) →
    thread_step p {| shared := set_failure (what e) (shared p); workers := <[i := with_stage Stopped w]> (workers p);
                     issued := issued p; scans := scans p |}.

Inductive system_step : System P → System P → Prop :=
| sys_thread p p' c ph l : thread_step p p' → system_step (Build_System p c ph l) (Build_System p' c ph l)
(** The head of the loop: a stop request is noticed, the figures are refreshed. *)
| sys_drain p c c' r b now l : start_drain b now c = (c', r) →
    system_step (Build_System p c Waiting l) (Build_System p c' Waiting l)
| sys_update p c c' r force begin now slots readings l : update o force begin now slots readings c = (c', r) →
    system_step (Build_System p c Waiting l) (Build_System p c' (after r (λ _, Waiting)) l)
(** A read.  A connection issues fewer than 2^64 - 1024 jobs. *)
| sys_read p c c' r b l : counter (proto c) + 1024 < 2 ^ 64 → with_proto (arrive b) c = (c', r) →
    system_step (Build_System p c Waiting l) (Build_System p c' (after r Handling) l)
| sys_message p c c' r now m ms l : counter (proto c) + 1024 < 2 ^ 64 → on_message now m c = (c', r) →
    system_step (Build_System p c (Handling (m :: ms)) l)
      (Build_System (publish_to p (c_work c')) c' (after r (λ _, Handling ms)) l)
| sys_handled p c l : system_step (Build_System p c (Handling []) l) (Build_System p c Taking l)
| sys_take p c c' r l : take_queue (shared p) c = (c', r) →
    system_step (Build_System p c Taking l)
      (Build_System (if is_ok r then empty_queue p else p) c' (after r Submitting) l)
| sys_submit p c c' r now f q l : submit_found o now f c = (c', r) →
    system_step (Build_System p c (Submitting (f :: q)) l)
      (Build_System p c' (after r (λ _, Submitting q))
        (l ++ if nextid c =? nextid c' then [] else [(nextid c, f)]))
| sys_check p c c' r now l : check_timeouts now c = (c', r) →
    system_step (Build_System p c (Submitting []) l) (Build_System p c' (after r (λ _, Waiting)) l)
(** The connection fails under a read or a write. *)
| sys_io p c ph e l : system_step (Build_System p c ph l) (Build_System p c (Failed e) l).

(** A new connection: threads that have done nothing, a protocol without a job. *)
Definition system_start (s : System P) : Prop :=
  pool_start (pool s) ∧ at_phase s = Waiting ∧ submitted s = [] ∧ fatal (coord s) = false ∧
  inv (proto (coord s)) ∧ live (proto (coord s)) = None ∧
  ∃ now c, coord s = connected (proto (coord s)) now c.
End system.

(** ** What the coordinator's code leaves alone *)

Section core.
Context {P : Type} `{Protocol P} `{FloatPrinter} (o : MineOptions).

Definition same_core (c c' : Coord P) : Prop :=
  proto c' = proto c ∧ c_work c' = c_work c ∧ activated c' = activated c ∧
  draining c' = draining c ∧ fatal c' = fatal c ∧ nextid c' = nextid c.

Lemma same_core_trans c1 c2 c3 : same_core c1 c2 → same_core c2 c3 → same_core c1 c3.
Proof. unfold same_core. intros H1 H2. destruct_and!. split_and!; congruence. Qed.

Class Keeps {A} (m : stM (Coord P) A) : Prop := keeps_wp c : wp m (λ c' _, same_core c c') c.

#[export] Instance keeps_bind {A B} (m : stM (Coord P) A) (k : A → stM (Coord P) B) :
  Keeps m → (∀ a, Keeps (k a)) → Keeps (m ≫= k).
Proof.
  intros Hm Hk c. apply wp_bind. eapply wp_mono; [apply Hm|]. intros c1 [a|e] H1; [|done].
  cbn [wp_next]. eapply wp_mono; [apply Hk|]. intros c2 r H2. by eapply same_core_trans.
Qed.
#[export] Instance keeps_ret {A} (a : A) : Keeps (mret a).
Proof. by intros c. Qed.
#[export] Instance keeps_get : Keeps st_get.
Proof. by intros c. Qed.
#[export] Instance keeps_lift {A} (r : result A) : Keeps (st_lift r).
Proof. by intros c. Qed.
#[export] Instance keeps_require b msg : Keeps (st_require b msg).
Proof. by intros c. Qed.
#[export] Instance keeps_say m s : Keeps (say m s).
Proof. by intros c. Qed.
#[export] Instance keeps_view f : Keeps (on_view f).
Proof. by intros c. Qed.
Lemma keeps_modify (f : Coord P → Coord P) : (∀ c, same_core c (f c)) → Keeps (st_modify f).
Proof. intros Hf c. apply Hf. Qed.
#[export] Instance keeps_iter {A} (f : A → stM (Coord P) unit) l : (∀ a, Keeps (f a)) → Keeps (st_iter f l).
Proof. intros Hf. induction l as [|a l IH]; cbn [st_iter]; apply _. Qed.

#[export] Instance keeps_method msg : Keeps (report_method msg).
Proof. unfold report_method. destruct (find msg "method"); [|apply _]. apply keeps_bind; [apply _|]. intros m. repeat case_match; apply _. Qed.
#[export] Instance keeps_reply msg : Keeps (report_reply msg).
Proof.
  unfold report_reply, share_accepted, share_refused. destruct (find msg "id"); [|apply _].
  case_match; [|apply _]. apply keeps_bind; [apply _|intros id]. apply keeps_bind; [case_match; apply _|intros _].
  apply keeps_bind; [apply _|intros c]. case_match; [|apply _].
  apply keeps_bind; [|intros _; by apply keeps_modify]. case_match; [apply _|].
  apply keeps_bind; [apply _|intros code]. apply keeps_bind; [case_match; apply _|apply _].
Qed.
#[export] Instance keeps_timeouts now : Keeps (check_timeouts now).
Proof. unfold check_timeouts. apply _. Qed.
#[export] Instance keeps_update force begin now slots readings : Keeps (update o force begin now slots readings).
Proof.
  unfold update. apply keeps_bind; [apply _|]. intros c. case_match; [apply _|].
  do 5 (apply keeps_bind; [apply _|intros ?]). apply keeps_bind; [|intros _; by apply keeps_modify].
  apply keeps_iter. intros i. unfold update_device, update_thermal. apply keeps_bind; [apply _|intros ?].
  do 2 (apply keeps_bind; [apply _|intros ?]). apply keeps_bind; [by apply keeps_modify|intros ?].
  apply keeps_bind; [apply _|intros ?]. case_match; [|apply _]. case_match; [apply _|].
  apply keeps_bind; [case_match; [|apply _]; case_match; apply _|intros ?]. by apply keeps_modify.
Qed.

(** A message: the protocol's step, then perhaps new work. *)
Definition publishes (c : Coord P) (p' : P) (job : option Job) : bool :=
  negb (draining c) && authorized p' && (bool_decide (is_Some job) || negb (activated c)).

Lemma publish_work_spec auth job c :
  wp (publish_work auth job) (λ c' r, is_ok r = true ∧ proto c' = proto c ∧ draining c' = draining c ∧
    fatal c' = fatal c ∧ nextid c' = nextid c ∧
    if negb (draining c) && auth && (bool_decide (is_Some job) || negb (activated c))
    then c_work c' = live (proto c) ∧ activated c' = bool_decide (is_Some (live (proto c)))
    else c_work c' = c_work c ∧ activated c' = activated c) c.
Proof.
  unfold publish_work. apply wp_bind, wp_get. cbn [wp_next]. destruct (negb (draining c) && auth && _); [|by split_and!].
  wp_steps. case_match; unfold on_view; wp_steps; by split_and!.
Qed.

Lemma on_message_spec now m c c' r : on_message now m c = (c', r) →
  ∃ p' r', on_event m (proto c) = (p', r') ∧ proto c' = p' ∧ draining c' = draining c ∧ fatal c' = fatal c ∧
    nextid c' = nextid c ∧
    match r' with
    | Ok job => if is_ok r && publishes c p' job
                then c_work c' = live p' ∧ activated c' = bool_decide (is_Some (live p'))
                else c_work c' = c_work c ∧ activated c' = activated c
    | Throw _ => is_ok r = false ∧ c_work c' = c_work c ∧ activated c' = activated c
    end.
Proof.
  intros Hm. assert (wp (on_message now m) (λ c' r, ∃ p' r', on_event m (proto c) = (p', r') ∧ proto c' = p' ∧
    draining c' = draining c ∧ fatal c' = fatal c ∧ nextid c' = nextid c ∧
    match r' with
    | Ok job => if is_ok r && publishes c p' job
                then c_work c' = live p' ∧ activated c' = bool_decide (is_Some (live p'))
                else c_work c' = c_work c ∧ activated c' = activated c
    | Throw _ => is_ok r = false ∧ c_work c' = c_work c ∧ activated c' = activated c
    end) c) as Hw; [|by unfold wp in Hw; rewrite Hm in Hw]. clear Hm c' r.
  unfold on_message. apply wp_bind, wp_modify. cbn [wp_next]. apply wp_bind. unfold wp at 1, with_proto.
  cbn [proto set_received]. destruct (on_event m (proto c)) as [p' [job|e]] eqn:He; cbn [fst snd wp_next].
  2:{ exists p', (Throw e). by split_and!. }
  apply wp_bind, wp_get. cbn [wp_next]. cbn [proto set_proto]. set (c1 := set_proto p' (set_received now c)).
  apply wp_bind. eapply wp_mono; [apply keeps_method|]. intros c2 [u|e] H2; cbn [wp_next].
  2:{ exists p', (Ok job). destruct H2 as (->&->&->&->&->&->). by split_and!. }
  apply wp_bind. eapply wp_mono; [apply keeps_reply|]. intros c3 [u'|e] H3; cbn [wp_next].
  2:{ exists p', (Ok job). destruct (same_core_trans _ _ _ H2 H3) as (->&->&->&->&->&->). by split_and!. }
  destruct (same_core_trans _ _ _ H2 H3) as (Hp & Hw & Ha & Hd & Hf & Hn).
  eapply wp_mono; [apply publish_work_spec|]. intros c4 r (Hr & Hp4 & Hd4 & Hf4 & Hn4 & Hcase).
  exists p', (Ok job). rewrite Hp4, Hd4, Hf4, Hn4, Hp, Hd, Hf, Hn. split_and!; try done.
  rewrite Hr. cbn [andb]. unfold publishes. rewrite Hd, Ha, Hw, Hp in Hcase. exact Hcase.
Qed.

(** A share the threads found passes the check before it is submitted. *)
Lemma submit_found_spec now f c c' r : length (header (j_work (f_job f))) = 80%nat →
  meets (nonce_hash (header (j_work (f_job f))) (f_nonce f)) (target (j_work (f_job f))) = true →
  submit_found o now f c = (c', r) →
  c_work c' = c_work c ∧ activated c' = activated c ∧ draining c' = draining c ∧ fatal c' = fatal c ∧
  match r with
  | Ok _ => (proto c' = proto c ∧ nextid c' = nextid c ∧
       (draining c = true ∨ is_valid (proto c) (f_job f) = false)) ∨
      (send_share o (f_job f) (f_nonce f) (nextid c) (proto c) = (proto c', Ok tt) ∧
       is_valid (proto c) (f_job f) = true ∧ draining c = false ∧ nextid c' = nextid c + 1)
  | Throw _ => nextid c' = nextid c ∧ (proto c' = proto c ∨
      ∃ e, send_share o (f_job f) (f_nonce f) (nextid c) (proto c) = (proto c', Throw e))
  end.
Proof.
  intros Hl Hm He. assert (wp (submit_found o now f) (λ c' r, c_work c' = c_work c ∧ activated c' = activated c ∧
    draining c' = draining c ∧ fatal c' = fatal c ∧
    match r with
    | Ok _ => (proto c' = proto c ∧ nextid c' = nextid c ∧
         (draining c = true ∨ is_valid (proto c) (f_job f) = false)) ∨
        (send_share o (f_job f) (f_nonce f) (nextid c) (proto c) = (proto c', Ok tt) ∧
         is_valid (proto c) (f_job f) = true ∧ draining c = false ∧ nextid c' = nextid c + 1)
    | Throw _ => nextid c' = nextid c ∧ (proto c' = proto c ∨
        ∃ e, send_share o (f_job f) (f_nonce f) (nextid c) (proto c) = (proto c', Throw e))
    end) c) as Hw; [|by unfold wp in Hw; rewrite He in Hw]. clear He c' r.
  unfold submit_found. apply wp_bind, wp_get. cbn [wp_next].
  destruct (draining c) eqn:Hd; [apply wp_ret; split_and!; auto; left; auto|].
  destruct (is_valid (proto c) (f_job f)) eqn:Hv; cbn [negb]; [|apply wp_ret; split_and!; auto; left; auto].
  apply wp_bind, wp_require; intros _; cbn [wp_next]; [|split_and!; auto]. cbn zeta.
  destruct (nonce_hash_ok (header (j_work (f_job f))) (f_nonce f) Hl) as [Hb _].
  unfold nonce_header in Hb. rewrite Hb. apply wp_bind, wp_lift. cbn [wp_next]. rewrite Hm. cbn [negb].
  apply wp_bind, wp_ret. cbn [wp_next]. apply wp_bind.
  set (hash := nonce_hash _ _). assert (Keeps (if meets hash (j_network_target (f_job f)) then
           _ ← on_view (λ w, set_block_candidates (u64 (block_candidates w + 1)) w);
           say ("Block candidate (" +:+ label_of (f_row f) (view c) +:+ ") - awaiting pool confirmation") success
         else mret tt)) as Hk by (case_match; apply _).
  eapply wp_mono; [apply Hk|]. intros c1 [u|e] (Hp & Hw & Ha & Hd1 & Hf & Hn); cbn [wp_next];
    [|split_and!; try congruence; by left].
  apply wp_bind. unfold wp at 1, with_proto. rewrite Hp.
  destruct (send_share o _ _ _ (proto c)) as [p' [u'|e]] eqn:Hs; cbn [fst snd wp_next];
    [|cbn; split_and!; try congruence; right; by exists e].
  apply wp_modify. cbn. split_and!; try congruence. right. destruct u'. split_and!; congruence.
Qed.

(** What leaves the protocol alone. *)
Lemma start_drain_proto b now (c c' : Coord P) r : start_drain b now c = (c', r) → proto c' = proto c.
Proof.
  unfold start_drain. rewrite st_bind_eq. cbn [st_get]. by destruct (b && negb (draining c)); intros [= <- _].
Qed.
Lemma take_queue_proto s (c c' : Coord P) r : take_queue s c = (c', r) → proto c' = proto c.
Proof. unfold take_queue. destruct (failure s); [case_bool_decide|]; by intros [= <- _]. Qed.
Lemma keeps_proto {A} (m : stM (Coord P) A) `{!Keeps m} c c' r : m c = (c', r) → proto c' = proto c.
Proof. intros He. pose proof (keeps_wp (m := m) c) as Hk. unfold wp in Hk. rewrite He in Hk. apply Hk. Qed.
End core.

(** ** What the threads leave alone *)

Lemma reserve_frame batch s s' r : reserve batch s = (s', r) → work s' = work s ∧ failure s' = failure s.
Proof.
  unfold reserve. rewrite st_bind_eq. cbn [st_get]. destruct (work s) as [j|] eqn:Hw; [|by intros [= <- _]; rewrite Hw].
  destruct (j_sv2 j); [|by intros [= <- _]; rewrite Hw].
  rewrite st_bind_eq. destruct (_ =? _); unfold mbind, stM_bind, st_get, st_lift, st_modify, mret, stM_ret;
    destruct (Sv2.partition _ _ _ _); intros [= <- _]; by rewrite <- Hw.
Qed.

Lemma worker_step_frame backend i s w s' w' new : worker_step backend i s w = (s', w', new) →
  work s' = work s ∧ (is_Some (failure s) → is_Some (failure s')).
Proof.
  unfold worker_step, fail. destruct (w_stage w) as [|t|j ns|].
  - destruct (reserve (w_batch w) s) as [s1 r] eqn:E. apply reserve_frame in E as [Hw Hf].
    destruct r as [[[j c]|]|e]; [destruct (assign _ _ _ _ _ _) as [[[g cur] t]|e]|..];
      intros [= <- _ _]; (split; [exact Hw|]); cbn; rewrite ?Hf; eauto.
  - destruct (scan _ _ _); intros [= <- _ _]; split; cbn; eauto.
  - destruct (publish j (w_row w) ns s) as [s1 r] eqn:E.
    assert (work s1 = work s ∧ failure s1 = failure s) as [Hw Hf].
    { revert E. unfold publish, mbind, stM_bind, st_get, st_require, st_modify, throw_if.
      destruct (negb (negb _)); by intros [= <- _]. }
    destruct r; intros [= <- _ _]; (split; [exact Hw|]); cbn; rewrite ?Hf; eauto.
  - intros [= <- _ _]. eauto.
Qed.

Lemma thread_step_frame backend p p' : thread_step backend p p' →
  pool_step backend p p' ∧ work (shared p') = work (shared p) ∧ issued p' = issued p ∧
  (∃ new, scans p' = scans p ++ new) ∧ (is_Some (failure (shared p)) → is_Some (failure (shared p'))).
Proof.
  intros [p0 i w s w' new Hi Hs|p0 i w Hi Hs|p0 i w e Hi Hs Hn]; cbn [shared issued scans].
  - destruct (worker_step_frame _ _ _ _ _ _ _ Hs) as [Hw Hf]. split_and!; [by econstructor|done|done|by eexists|done].
  - split_and!; [by econstructor|done|done|by exists []; rewrite app_nil_r|done].
  - split_and!; [by eapply step_broken|done|done|by exists []; rewrite app_nil_r|by eexists].
Qed.

(** ** The invariant of the system *)

Section invariant.
Context {P : Type} `{ProtocolLaws P} `{FloatPrinter}.
Context (backend : nat → Backend) (o : MineOptions).
Context (Hlaws : ∀ i, @BackendLaws (backend i)).

(** The threads' job is the live one, or the live one is newer than all published. *)
Definition newest (c : Coord P) (p : Pool) : Prop :=
  work (shared p) = live (proto c) ∨
  ∃ l, live (proto c) = Some l ∧ ∀ j, j ∈ issued p → j_generation j < j_generation l.

(** A published job is replaced as soon as a message is handled. *)
Definition fresh (c : Coord P) : Prop := activated c = true → authorized (proto c) = true ∧
  (draining c = false →
   c_work c = live (proto c) ∨ ∀ m (q q' : P), on_event m q = (q', Ok None) → authorized q' = false).

Definition genuine_share (p : Pool) (f : Found) : Prop := genuine (scans p) (f_job f) (f_nonce f).

(** While the connection lives. *)
Definition alive (s : System P) : Prop :=
  inv (proto (coord s)) ∧ (∀ j, j ∈ issued (pool s) → j_generation j ≤ counter (proto (coord s))) ∧
  newest (coord s) (pool s) ∧ fresh (coord s) ∧
  match at_phase s with Submitting q => Forall (genuine_share (pool s)) q | _ => True end.

Definition system_inv (s : System P) : Prop :=
  pool_inv (pool s) ∧ c_work (coord s) = work (shared (pool s)) ∧
  Forall (λ x, genuine_share (pool s) x.2) (submitted s) ∧
  fst <$> submitted s = seqZ 10 (nextid (coord s) - 10) ∧ 10 ≤ nextid (coord s) ∧
  (fatal (coord s) = true → is_Some (failure (shared (pool s)))) ∧
  match at_phase s with Failed _ => True | _ => alive s end.

Lemma alive_inv s : system_inv s → (∀ e, at_phase s ≠ Failed e) → alive s.
Proof. intros (_ & _ & _ & _ & _ & _ & Ha) Hp. destruct (at_phase s); try done. by destruct (Hp e). Qed.

Lemma genuine_share_grows p p' f : (∃ new, scans p' = scans p ++ new) → genuine_share p f → genuine_share p' f.
Proof. unfold genuine_share. intros [new ->]. apply genuine_mono. Qed.

Lemma start_inv s : system_start s → system_inv s.
Proof.
  intros (Hp & Hph & Hs & Hf & Hi & Hl & now & c & Hc). pose proof Hp as (Hsh & Hiss & _).
  unfold system_inv. rewrite Hs, Hf, Hph, Hsh. split_and!; try done.
  - by apply pool_start_inv.
  - by rewrite Hc.
  - by rewrite Hc.
  - by rewrite Hc.
  - unfold alive. rewrite Hph, Hiss. split_and!; try done.
    + intros j Hj. by apply elem_of_nil in Hj.
    + left. by rewrite Hsh, Hl.
    + intros Ha. by rewrite Hc in Ha.
Qed.

Lemma thread_inv p p' c ph l : thread_step backend p p' →
  system_inv (Build_System p c ph l) → system_inv (Build_System p' c ph l).
Proof.
  intros Ht (Hp & Hw & Hg & Hids & Hn & Hf & Ha).
  destruct (thread_step_frame _ _ _ Ht) as (Hst & Hwork & Hiss & Hsc & Hfail).
  unfold system_inv. cbn [pool coord at_phase submitted] in *. split_and!; try done.
  - by eapply pool_step_inv.
  - congruence.
  - eapply Forall_impl; [exact Hg|]. intros x. by apply genuine_share_grows.
  - auto.
  - destruct ph; try done; destruct Ha as (Hi & Hc & Hne & Hfr & Hq); unfold alive, newest in *;
      cbn [pool coord at_phase] in *; rewrite Hwork, Hiss; split_and!; try done.
    eapply Forall_impl; [exact Hq|]. intros x. by apply genuine_share_grows.
Qed.

(** A step of the coordinator that keeps the core changes nothing here. *)
Lemma core_inv p c c' ph ph' l : same_core c c' → (∀ e, ph ≠ Failed e) →
  match ph' with Submitting q' => Forall (genuine_share p) q' | _ => True end →
  system_inv (Build_System p c ph l) → system_inv (Build_System p c' ph' l).
Proof.
  intros (Hpr & Hw & Ha & Hd & Hfa & Hn) Hph Hq Hs. pose proof (alive_inv _ Hs Hph) as (Hi & Hc & Hne & Hfr & _).
  destruct Hs as (Hp & Hwork & Hg & Hids & Hn10 & Hf & _). unfold system_inv, alive, newest, fresh in *.
  cbn [pool coord at_phase submitted] in *. rewrite Hw, Hn, Hfa, Hpr, Ha, Hd.
  split_and!; try done. by destruct ph'.
Qed.

(** Extending the protocol keeps published jobs older than the counter. *)
Lemma extends_newest p c p' : pool_inv p → newest c p → extends (proto c) p' →
  (∀ j, j ∈ issued p → j_generation j ≤ counter (proto c)) →
  (∀ j, j ∈ issued p → j_generation j ≤ counter p') ∧
  (work (shared p) = live p' ∨ ∃ l, live p' = Some l ∧ ∀ j, j ∈ issued p → j_generation j < j_generation l).
Proof.
  intros Hp Hne (_ & Hle & Hl & _) Hc. split; [intros j Hj; specialize (Hc j Hj); lia|].
  destruct Hl as [->|(l & Hl & Hgt)]; [exact Hne|]. right. exists l. split; [done|].
  intros j Hj. specialize (Hc j Hj). lia.
Qed.

(** Publishing the live job is a step of the pool, or nothing. *)
Lemma publish_to_step p (q : P) : pool_inv p → inv q →
  (work (shared p) = live q ∨ ∃ l, live q = Some l ∧ ∀ j, j ∈ issued p → j_generation j < j_generation l) →
  rtc (pool_step backend) p (publish_to p (live q)) ∧ work (shared (publish_to p (live q))) = live q ∧
  (∀ j, j ∈ issued (publish_to p (live q)) → j ∈ issued p ∨ live q = Some j) ∧
  scans (publish_to p (live q)) = scans p ∧
  failure (shared (publish_to p (live q))) = failure (shared p).
Proof.
  intros Hp Hq Hne. unfold publish_to. destruct (decide (work (shared p) = live q)) as [He|He].
  { split_and!; try done. by left. }
  destruct Hne as [Hne|(l & Hl & Hlt)]; [done|]. rewrite Hl. cbn [option_list].
  destruct (live_ok q l Hq Hl) as (Hok & [Hpos _] & _).
  split_and!; try done.
  - apply rtc_once. apply step_work; [done|]. split; [done|]. apply Forall_forall. intros j Hj. by apply Hlt.
  - intros j [Hj|Hj%list_elem_of_singleton]%elem_of_app; [by left|right; by subst].
Qed.

Lemma publish_to_known p w j : j ∈ issued (publish_to p w) → j ∈ issued p ∨ (work (shared p) ≠ w ∧ w = Some j).
Proof.
  unfold publish_to. destruct (decide _) as [|Hne]; [by left|]. cbn [issued].
  intros [?|Hj]%elem_of_app; [by left|]. right. split; [done|]. destruct w; [|by apply elem_of_nil in Hj].
  apply list_elem_of_singleton in Hj. by subst.
Qed.

Lemma publish_same p w : work (shared p) = w → publish_to p w = p.
Proof. intros Hw. unfold publish_to. by rewrite decide_True. Qed.

Lemma start_drain_inv p c c' r b now l : start_drain b now c = (c', r) →
  system_inv (Build_System p c Waiting l) → system_inv (Build_System p c' Waiting l).
Proof.
  unfold start_drain. rewrite st_bind_eq. cbn [st_get]. destruct (b && negb (draining c)); [|by intros [= <- _]].
  cbn. intros [= <- _] (Hp & Hw & Hg & Hids & Hn & Hf & (Hi & Hc & Hne & Hfr & Hq)).
  unfold system_inv, alive. cbn in *. split_and!; try done. intros Ha. by destruct (Hfr Ha).
Qed.

Lemma after_inv {A} p c l (r : result A) k : system_inv (Build_System p c Waiting l) →
  (∀ a, r = Ok a → system_inv (Build_System p c (k a) l)) → system_inv (Build_System p c (after r k) l).
Proof.
  intros Hs Hk. destruct r as [a|e]; [by apply Hk|]. destruct Hs as (?&?&?&?&?&?&_). by split_and!.
Qed.

Lemma failed_inv p c ph l e : system_inv (Build_System p c ph l) → system_inv (Build_System p c (Failed e) l).
Proof. intros (?&?&?&?&?&?&_). by split_and!. Qed.

Lemma read_inv p c c' r b l : counter (proto c) + 1024 < 2 ^ 64 → with_proto (arrive b) c = (c', r) →
  system_inv (Build_System p c Waiting l) → system_inv (Build_System p c' (after r Handling) l).
Proof.
  intros Hb He (Hp & Hw & Hg & Hids & Hn & Hf & (Hi & Hc & Hne & Hfr & _)). cbn in *.
  unfold with_proto in He. pose proof (arrive_ok b (proto c) Hi Hb) as Hx.
  pose proof (arrive_live b (proto c)) as Hlive.
  unfold wp in Hx. destruct (arrive b (proto c)) as [p' r']. injection He as <- <-.
  destruct r' as [ms|e]; cbn [after]; [|by split_and!]. cbn in Hx. specialize (Hx eq_refl).
  destruct (extends_newest p c p' Hp Hne Hx Hc) as [Hc' Hne']. unfold system_inv, alive, newest, fresh in *. cbn.
  split_and!; try done; [apply Hx|]. intros Ha. destruct (Hfr Ha) as [Hau Hl].
  split; [by apply Hx|]. intros Hd.
  destruct (Hlive p' ms eq_refl) as [->|Hrep]; [by apply Hl|by right].
Qed.

Lemma message_inv p c c' r now m ms l : counter (proto c) + 1024 < 2 ^ 64 → on_message now m c = (c', r) →
  system_inv (Build_System p c (Handling (m :: ms)) l) →
  system_inv (Build_System (publish_to p (c_work c')) c' (after r (λ _, Handling ms)) l).
Proof.
  intros Hb He (Hp & Hw & Hg & Hids & Hn & Hf & (Hi & Hc & Hne & Hfr & _)). cbn in *.
  destruct (on_message_spec now m c c' r He) as (p' & r' & Hev & Hpr & Hd & Hfa & Hni & Hcase).
  pose proof (on_event_ok m (proto c) Hi Hb) as Hx. unfold wp in Hx. rewrite Hev in Hx. cbn in Hx.
  (* no new work *)
  assert (c_work c' = c_work c → system_inv (Build_System (publish_to p (c_work c')) c' (Failed (std_invalid_argument)) l)) as Hsame.
  { intros Hwc. rewrite publish_same by congruence. unfold system_inv. cbn. rewrite Hni, Hfa. split_and!; try done. congruence. }
  destruct r' as [job|ex].
  2:{ destruct Hcase as (Hr & Hwc & _). destruct r; [done|]. eapply (failed_inv _ _ (Failed std_invalid_argument)), Hsame, Hwc. }
  specialize (Hx eq_refl). destruct (extends_newest p c p' Hp Hne Hx Hc) as [Hc' Hne'].
  destruct (is_ok r && publishes c p' job) eqn:Hpub.
  - destruct Hcase as [Hwc Hac]. apply andb_true_iff in Hpub as [Hr Hpub].
    destruct (publish_to_step p p' Hp (proj1 Hx) Hne') as (Hstep & Hwp & Hiss & Hsc & Hfl).
    rewrite Hwc. unfold system_inv, alive, newest, fresh, genuine_share. cbn. rewrite Hsc, Hfl, Hni, Hfa, Hpr.
    destruct r as [u|]; [|done]. cbn [after]. split_and!; try done.
    + clear -Hp Hstep Hlaws. induction Hstep as [|p1 p2 p3 Hs _ IH]; [done|]. apply IH. by eapply pool_step_inv.
    + congruence.
    + apply Hx.
    + intros j Hj. destruct (Hiss j Hj) as [Hj'|Hj']; [by apply Hc'|].
      destruct (live_ok p' j (proj1 Hx) Hj') as (_ & [_ ?] & _). done.
    + by left.
    + intros _. split; [|by left]. unfold publishes in Hpub. by destruct (authorized p'), (draining c).
  - destruct Hcase as [Hwc Hac]. specialize (Hsame Hwc). destruct r as [u|ex]; [|by eapply failed_inv].
    cbn [after]. destruct Hsame as (?&?&?&?&?&?&_).
    rewrite publish_same in * by congruence. unfold system_inv. cbn in *. split_and!; try done.
    unfold alive, newest, fresh. cbn. rewrite Hpr, Hd, Hac, Hwc. split_and!; [apply Hx|done|done| |done].
    intros Hact. destruct (Hfr Hact) as [Hau Hl]. split; [by apply Hx|]. intros Hdr.
    cbn [is_ok andb] in Hpub. unfold publishes in Hpub. rewrite Hdr, Hact in Hpub.
    assert (authorized p' = true) as Hau' by by apply Hx. rewrite Hau' in Hpub. cbn in Hpub.
    destruct job as [j|]; [done|]. destruct (Hl Hdr) as [Hl'|Hrep]; [|by right]. left.
    rewrite Hl'. symmetry. by apply (on_event_none m).
Qed.

Lemma take_inv p c c' r l : take_queue (shared p) c = (c', r) →
  system_inv (Build_System p c Taking l) →
  system_inv (Build_System (if is_ok r then empty_queue p else p) c' (after r Submitting) l).
Proof.
  intros He (Hp & Hw & Hg & Hids & Hn & Hf & (Hi & Hc & Hne & Hfr & _)). cbn in *.
  assert (Forall (genuine_share p) (found (shared p))) as Hq by by destruct Hp as (_ & _ & _ & _ & _ & _ & Hq).
  assert (pool_inv (empty_queue p)) as Hp' by (eapply (pool_step_inv backend Hlaws p); [done|constructor]).
  assert (system_inv (Build_System (empty_queue p) c (Submitting (found (shared p))) l)) as Hok
    by (unfold system_inv, alive, newest, fresh in *; by split_and!).
  unfold take_queue in He. destruct (failure (shared p)) as [msg|] eqn:Hfail; [case_bool_decide|].
  - by injection He as <- <-.
  - cbn in He. injection He as <- <-. cbn. split_and!; try done.
  - by injection He as <- <-.
Qed.

Lemma submit_inv p c c' r now f q l : submit_found o now f c = (c', r) →
  system_inv (Build_System p c (Submitting (f :: q)) l) →
  system_inv (Build_System p c' (after r (λ _, Submitting q))
    (l ++ if nextid c =? nextid c' then [] else [(nextid c, f)])).
Proof.
  intros He (Hp & Hw & Hg & Hids & Hn & Hf & (Hi & Hc & Hne & Hfr & Hq)). cbn in *.
  apply Forall_cons in Hq as [Hgf Hq]. destruct (genuine_spec p _ _ Hp Hgf) as (Hlen & _ & Hm & _).
  destruct (submit_found_spec o now f c c' r Hlen Hm He) as (Hwc & Hac & Hd & Hfa & Hcase).
  assert (nextid c' = nextid c → system_inv (Build_System p c' (Failed std_invalid_argument) l)) as Hsame.
  { intros Hni. unfold system_inv. cbn. rewrite Hni, Hfa. split_and!; try done. congruence. }
  destruct r as [u|e]; cbn [after].
  2:{ destruct Hcase as [Hni _]. rewrite Hni, Z.eqb_refl, app_nil_r. eapply failed_inv, Hsame, Hni. }
  destruct Hcase as [(Hpr & Hni & _)|(Hsend & Hv & Hdr & Hni)].
  - rewrite Hni, Z.eqb_refl, app_nil_r. destruct (Hsame Hni) as (?&?&?&?&?&?&_). cbn in *.
    unfold system_inv. cbn. split_and!; try done. unfold alive, newest, fresh. cbn. rewrite Hpr, Hwc, Hac, Hd. by split_and!.
  - rewrite (proj2 (Z.eqb_neq _ _)) by lia.
    pose proof (send_share_ok o (f_job f) (f_nonce f) (nextid c) (proto c) Hi) as Hs. unfold wp in Hs.
    rewrite Hsend in Hs. cbn in Hs. destruct (Hs eq_refl) as (Hi' & Hco & Hli & Hau).
    unfold system_inv, alive, newest, fresh. cbn. rewrite Hwc, Hac, Hd, Hfa, Hni, Hco, Hli, Hau. split_and!; try done; try lia.
    + apply Forall_app. split; [done|by apply Forall_singleton].
    + rewrite fmap_app, Hids. cbn. replace (nextid c + 1 - 10) with ((nextid c - 10) + 1) by lia.
      rewrite seqZ_app by lia. f_equal. rewrite seqZ_cons by lia. cbn. rewrite seqZ_nil by lia.
      f_equal. lia.
Qed.

Lemma system_step_inv s s' : system_inv s → system_step backend o s s' → system_inv s'.
Proof.
  intros Hs Hstep. destruct Hstep.
  - by eapply thread_inv.
  - by eapply start_drain_inv.
  - match goal with Hu : update _ _ _ _ _ _ _ = _ |- _ =>
      pose proof (keeps_update o force begin now slots readings c) as Hk; unfold wp in Hk; rewrite Hu in Hk end.
    destruct r as [u|e]; cbn [after]; apply (core_inv p c c' Waiting); done.
  - by eapply read_inv.
  - by eapply message_inv.
  - by apply (core_inv p c c (Handling [])).
  - by eapply take_inv.
  - by eapply submit_inv.
  - match goal with Hu : check_timeouts _ _ = _ |- _ =>
      pose proof (keeps_timeouts now c) as Hk; unfold wp in Hk; rewrite Hu in Hk end.
    destruct r as [u|e]; cbn [after]; apply (core_inv p c c' (Submitting [])); done.
  - by eapply failed_inv.
Qed.

Lemma system_reachable_inv s0 s : system_start s0 → rtc (system_step backend o) s0 s → system_inv s.
Proof.
  intros Hstart Hr. apply start_inv in Hstart. induction Hr as [|s1 s2 s3 Hs _ IH]; [done|].
  apply IH. by eapply system_step_inv.
Qed.

(** [s1] to [s2] is the submission of share [f] under number [id]: it heads the
    queue in hand, the connection is not draining, the protocol calls its job
    valid, and it takes the submission for the next number. *)
Definition submission (s1 s2 : System P) (id : Z) (f : Found) : Prop :=
  (∃ q, at_phase s1 = Submitting (f :: q)) ∧ draining (coord s1) = false ∧ nextid (coord s1) = id ∧
  is_valid (proto (coord s1)) (f_job f) = true ∧
  send_share o (f_job f) (f_nonce f) id (proto (coord s1)) = (proto (coord s2), Ok tt).

(** A step extends the history by nothing, or is a submission. *)
Lemma step_submission s s' : system_inv s → system_step backend o s s' →
  submitted s' = submitted s ∨ ∃ id f, submitted s' = submitted s ++ [(id, f)] ∧ submission s s' id f.
Proof.
  intros Hinv Hstep. destruct Hstep as [| | | | | | |p c c' r now f q l He| |]; try by left.
  destruct (alive_inv _ Hinv) as (_ & _ & _ & _ & Hq); [done|]. cbn in Hq. apply Forall_cons in Hq as [Hg _].
  destruct Hinv as (Hp & _). cbn in Hp. destruct (genuine_spec p _ _ Hp Hg) as (Hlen & _ & Hm & _).
  destruct (submit_found_spec o now f c c' r Hlen Hm He) as (_ & _ & _ & _ & Hcase). cbn [submitted].
  destruct r as [u|e]; [|left; by rewrite (proj1 Hcase), Z.eqb_refl, app_nil_r].
  destruct Hcase as [(_ & -> & _)|(Hsend & Hv & Hd & Hn)]; [left; by rewrite Z.eqb_refl, app_nil_r|].
  right. exists (nextid c), f. rewrite (proj2 (Z.eqb_neq _ _)) by lia. split; [done|].
  split; [by exists q|]. by split_and!.
Qed.

Lemma submitted_history s0 s id f : system_start s0 → rtc (system_step backend o) s0 s → (id, f) ∈ submitted s →
  ∃ s1 s2, rtc (system_step backend o) s0 s1 ∧ system_step backend o s1 s2 ∧ rtc (system_step backend o) s2 s ∧
    submission s1 s2 id f.
Proof.
  intros Hstart Hr. revert id f. refine (rtc_ind_r (λ s, ∀ id f, (id, f) ∈ submitted s → ∃ s1 s2,
    rtc (system_step backend o) s0 s1 ∧ system_step backend o s1 s2 ∧ rtc (system_step backend o) s2 s ∧
    submission s1 s2 id f) s0 _ _ s Hr).
  { destruct Hstart as (_ & _ & -> & _). intros id f Hin. by apply elem_of_nil in Hin. }
  intros s1 s2 Hr1 Hs IH id f Hin.
  destruct (step_submission s1 s2 (system_reachable_inv _ _ Hstart Hr1) Hs) as [Heq|(id' & f' & Heq & Hsub)];
    rewrite Heq in Hin; [|apply elem_of_app in Hin as [Hin|[= -> ->]%list_elem_of_singleton]; [|by exists s1, s2]].
  all: destruct (IH id f Hin) as (t1 & t2 & ? & ? & ? & ?); exists t1, t2; split_and!; try done; by eapply rtc_r.
Qed.

(** C8: Every share a connection submits is genuine, under every interleaving of
    threads and coordinator and whatever the pool sends.  Shares are numbered 10,
    11, ... in order.  Each was found by a scan the threads started: it lies in the
    range of that scan, the job scanned was published (with its time rolled, for
    Stratum V2), and its digest meets the target of that job.  Each was sent by a
    step of the run before which the protocol called its job valid and the
    connection was not draining.  The independent check before submission never
    fails: the program only reports a device error when a thread has failed. *)
Theorem submissions_genuine s0 s : system_start s0 → rtc (system_step backend o) s0 s →
  fst <$> submitted s = seqZ 10 (Z.of_nat (length (submitted s))) ∧
  (∀ id f, (id, f) ∈ submitted s →
    (length (header (j_work (f_job f))) = 80%nat ∧ is_u64 (f_nonce f) ∧
     meets (nonce_hash (header (j_work (f_job f))) (f_nonce f)) (target (j_work (f_job f))) = true ∧
     ∃ j, j ∈ issued (pool s) ∧ (f_job f = j ∨ j_sv2 j = true ∧ ∃ t, f_job f = roll_time j t)) ∧
    (∃ e, e ∈ scans (pool s) ∧ t_job (e_task e) = f_job f ∧
     t_start (e_task e) ≤ f_nonce f < t_start (e_task e) + t_count (e_task e)) ∧
    (∃ s1 s2, rtc (system_step backend o) s0 s1 ∧ system_step backend o s1 s2 ∧ rtc (system_step backend o) s2 s ∧
     draining (coord s1) = false ∧ nextid (coord s1) = id ∧ is_valid (proto (coord s1)) (f_job f) = true ∧
     send_share o (f_job f) (f_nonce f) id (proto (coord s1)) = (proto (coord s2), Ok tt))) ∧
  (fatal (coord s) = true → is_Some (failure (shared (pool s)))).
Proof.
  intros Hstart Hr. destruct (system_reachable_inv s0 s Hstart Hr) as (Hp & _ & Hg & Hids & Hn & Hf & _).
  split; [|split; [intros id f Hin; split; [|split]|exact Hf]].
  - rewrite Hids. f_equal. apply (f_equal length) in Hids. rewrite length_fmap, length_seqZ in Hids. lia.
  - rewrite Forall_forall in Hg. apply genuine_spec; [exact Hp|]. exact (Hg _ Hin).
  - rewrite Forall_forall in Hg. destruct (Hg _ Hin) as (e & He & Hj & _ & Hrange & _). by exists e.
  - destruct (submitted_history s0 s id f Hstart Hr Hin) as (s1 & s2 & ? & ? & ? & _ & ?). by exists s1, s2.
Qed.

(** C23: The threads work on the protocol's live job.  Once a message has been handled
    in any reachable state, with the miner authorized and outside a shutdown, the job
    they are given is the protocol's current one, and it is a job the protocol would
    accept shares for.  During a shutdown, or without authorization, the message
    changes nothing the threads see: they keep the job they have.  (A connection
    issues fewer than 2^64 - 1024 jobs.) *)
Theorem work_is_live s0 s now m ms c' : system_start s0 → rtc (system_step backend o) s0 s →
  at_phase s = Handling (m :: ms) → counter (proto (coord s)) + 1024 < 2 ^ 64 →
  on_message now m (coord s) = (c', Ok tt) →
  if negb (draining (coord s)) && authorized (proto c')
  then work (shared (publish_to (pool s) (c_work c'))) = live (proto c') ∧
       ∀ j, live (proto c') = Some j → is_valid (proto c') j = true
  else publish_to (pool s) (c_work c') = pool s.
Proof.
  intros Hstart Hr Hph Hb He. pose proof (system_reachable_inv s0 s Hstart Hr) as Hs.
  destruct (alive_inv s Hs) as (Hi & _ & _ & Hfr & _); [by rewrite Hph|]. destruct Hs as (_ & Hw & _).
  destruct (on_message_spec now m (coord s) c' (Ok tt) He) as (p' & r' & Hev & Hpr & _ & _ & _ & Hcase).
  pose proof (on_event_ok m (proto (coord s)) Hi Hb) as Hx. unfold wp in Hx. rewrite Hev in Hx. cbn in Hx.
  destruct r' as [job|ex]; [|by destruct Hcase]. specialize (Hx eq_refl). rewrite Hpr in *.
  cbn [is_ok andb] in Hcase. unfold publishes in Hcase.
  destruct (negb (draining (coord s)) && authorized p') eqn:Hgo.
  2:{ destruct Hcase as [-> _]. by apply publish_same. }
  apply andb_true_iff in Hgo as [Hd%negb_true_iff Hau]. cbn [andb] in Hcase.
  split; [|intros j Hj; by destruct (live_ok p' j (proj1 Hx) Hj) as (_ & _ & Hv); auto].
  assert (c_work c' = live p') as ->.
  2:{ unfold publish_to. by destruct (decide _). }
  destruct (activated (coord s)) eqn:Hact; [|rewrite orb_true_r in Hcase; by destruct Hcase].
  destruct job as [j|]; [by destruct Hcase|]. cbn in Hcase. destruct Hcase as [-> _].
  destruct (Hfr Hact) as [Hau0 Hl]. destruct (Hl Hd) as [->|Hrep].
  - symmetry. by apply (on_event_none m).
  - rewrite (Hrep m _ _ Hev) in Hau. discriminate.
Qed.
End invariant.

(** ** What a Stratum V1 pool receives *)

Section wire.
Context {BN : BigNum} {BL : BigNumLaws BN} {FP : FloatPrinter}.
Context (backend : nat → Backend) (o : MineOptions).

Definition share_line (x : Z * Found) : json := submit_line o (f_job x.2) (f_nonce x.2) x.1.
Definition wire_ok (s : System V1) : Prop :=
  v1_sent (proto (coord s)) = v1_hello o ++ (share_line <$> submitted s).

Lemma v1_send_Ok j n id v v' : send_share o j n id v = (v', Ok tt) →
  v' = {| v1_state := v1_state v; v1_sent := v1_sent v ++ [submit_line o j n id]; v1_link := v1_link v |}.
Proof. cbn [send_share v1_protocol]. rewrite v1_write_cases. destruct (v1_link v _); [|done]. by intros [= <-]. Qed.
Lemma v1_send_Throw j n id v v' e : send_share o j n id v = (v', Throw e) → v' = v.
Proof. cbn [send_share v1_protocol]. rewrite v1_write_cases. destruct (v1_link v _); [done|]. by intros [= <- _]. Qed.

Lemma on_state_sent {A} (m : stM Stratum.StratumState A) v : v1_sent (on_state m v).1 = v1_sent v.
Proof. unfold on_state. by destruct (m (v1_state v)). Qed.

Lemma system_step_wire s s' : system_inv s → wire_ok s → system_step backend o s s' → wire_ok s'.
Proof.
  intros Hinv Hs Hstep. destruct Hstep as [|p c c' r b now l He|p c c' r force begin now slots readings l He
    |p c c' r b l _ He|p c c' r now m ms l _ He| |p c c' r l He|p c c' r now f q l He|p c c' r now l He|];
    unfold wire_ok in *; cbn [pool coord at_phase submitted] in *; try exact Hs.
  - revert He. unfold start_drain. rewrite st_bind_eq. cbn [st_get].
    destruct (b && negb (draining c)); by intros [= <- _].
  - pose proof (keeps_update o force begin now slots readings c) as Hk. unfold wp in Hk. rewrite He in Hk.
    destruct Hk as (Hpr & _). cbn in Hpr. by rewrite Hpr.
  - cbn in He. by injection He as <- _.
  - destruct (on_message_spec now m c c' r He) as (p' & r' & Hev & -> & _).
    cbn [on_event v1_protocol] in Hev. rewrite <- Hs.
    rewrite <- (on_state_sent (Stratum.receive m) (proto c)). by rewrite Hev.
  - revert He. unfold take_queue. destruct (failure (shared p)); [case_bool_decide|]; by intros [= <- _].
  - destruct (alive_inv _ Hinv) as (_ & _ & _ & _ & Hq); [done|]. cbn in Hq. apply Forall_cons in Hq as [Hg _].
    destruct Hinv as (Hp & _). cbn in Hp. destruct (genuine_spec p _ _ Hp Hg) as (Hlen & _ & Hm & _).
    destruct (submit_found_spec o now f c c' r Hlen Hm He) as (_ & _ & _ & _ & Hcase).
    destruct r as [u|e].
    + destruct Hcase as [(-> & -> & _)|(Hsend & _ & _ & Hn)]; [by rewrite Z.eqb_refl, app_nil_r|].
      rewrite (proj2 (Z.eqb_neq _ _)) by lia. apply v1_send_Ok in Hsend as ->.
      change (v1_sent (proto c) ++ [share_line (nextid c, f)] =
        v1_hello o ++ (share_line <$> (l ++ [(nextid c, f)]))).
      by rewrite Hs, fmap_app, (assoc_L app).
    + destruct Hcase as [Hn [->|(e' & ->%v1_send_Throw)]]; by rewrite Hn, Z.eqb_refl, app_nil_r.
  - pose proof (keeps_timeouts now c) as Hk. unfold wp in Hk. rewrite He in Hk.
    destruct Hk as (Hpr & _). cbn in Hpr. by rewrite Hpr.
Qed.

(** All a Stratum V1 pool ever receives on a connection: the three opening
    requests, then one [mining.submit] per submitted share, in order, with the
    share's own number, the job's identifier, extranonce2 and time, and its nonce. *)
Theorem v1_wire k s0 s : (∀ i, @BackendLaws (backend i)) → system_start s0 → proto (coord s0) = v1_start k o →
  rtc (system_step backend o) s0 s →
  v1_sent (proto (coord s)) = v1_hello o ++ (share_line <$> submitted s).
Proof.
  intros Hlaws Hstart Hp Hr. apply start_inv in Hstart as Hinv.
  assert (wire_ok s0) as Hw.
  { unfold wire_ok. destruct Hstart as (_ & _ & -> & _). by rewrite Hp, app_nil_r. }
  clear Hstart Hp. induction Hr as [|s1 s2 s3 Hs _ IH]; [exact Hw|].
  apply IH; [by eapply system_step_inv|by eapply system_step_wire].
Qed.
End wire.

(** ** Schedules of steps *)

Section schedules.
Context {P : Type} `{ProtocolLaws P} `{FloatPrinter} (backend : nat → Backend) (o : MineOptions).

Inductive action := Thread (i : nat) | Read (b : incoming (P := P)) | Handle | Handled | Take | Submit | CheckTime.
Definition perform (a : action) (s : System P) : option (System P) :=
  let '(Build_System p c ph l) := s in
  match a, ph with
  | Thread i, _ =>
      w ← workers p !! i;
      let '(s, w', new) := worker_step backend i (shared p) w in
      Some (Build_System {| shared := s; workers := <[i := w']> (workers p); issued := issued p; scans := scans p ++ new |} c ph l)
  | Read b, Waiting =>
      if counter (proto c) + 1024 <? 2 ^ 64 then
        let '(c', r) := with_proto (arrive b) c in
        Some (Build_System p c' (after r Handling) l)
      else None
  | Handle, Handling (m :: ms) =>
      if counter (proto c) + 1024 <? 2 ^ 64 then
        let '(c', r) := on_message 0 m c in
        Some (Build_System (publish_to p (c_work c')) c' (after r (λ _, Handling ms)) l)
      else None
  | Handled, Handling [] => Some (Build_System p c Taking l)
  | Take, Taking =>
      let '(c', r) := take_queue (shared p) c in
      Some (Build_System (if is_ok r then empty_queue p else p) c' (after r Submitting) l)
  | Submit, Submitting (f :: q) =>
      let '(c', r) := submit_found o 0 f c in
      Some (Build_System p c' (after r (λ _, Submitting q)) (l ++ if nextid c =? nextid c' then [] else [(nextid c, f)]))
  | CheckTime, Submitting [] =>
      let '(c', r) := check_timeouts 0 c in Some (Build_System p c' (after r (λ _, Waiting)) l)
  | _, _ => None
  end.
Fixpoint schedule (l : list action) (s : System P) : System P :=
  match l with
  | [] => s
  | a :: l => match perform a s with Some s' => schedule l s' | None => s end
  end.

Lemma perform_step a s s' : perform a s = Some s' → system_step backend o s s'.
Proof.
  destruct s as [p c ph l]. unfold perform. destruct a as [i|rs| | | | |]; destruct ph as [|[|m ms]| |[|f q]|e]; try discriminate;
    try (destruct (workers p !! i) as [w|] eqn:Hi; [|discriminate]; cbn [mbind option_bind];
         destruct (worker_step _ _ _ _) as [[s1 w'] new] eqn:Hs; intros [= <-]; apply sys_thread; by econstructor);
    try (destruct (_ <? _) eqn:Hb; [|discriminate]; apply Z.ltb_lt in Hb);
    try match goal with |- (let '(_, _) := ?x in _) = _ → _ => destruct x as [c' r] eqn:Hx end;
    intros [= <-]; by econstructor.
Qed.
Lemma schedule_reachable l s : rtc (system_step backend o) s (schedule l s).
Proof.
  revert s. induction l as [|a l IH]; intros s; [done|]. cbn [schedule].
  destruct (perform a s) as [s'|] eqn:E; [|done]. eapply rtc_l; [by eapply perform_step|apply IH].
Qed.
End schedules.

(** ** An example run *)

Module Run.
(** Difficulties print as a tiny number, so that every digest is a share. *)
#[local] Instance printer : FloatPrinter := λ _, "1e-20"%string.

Definition options : MineOptions := set_user "address.rig" default_options.
(** A socket that sends everything. *)
Definition link : Link := λ _, Ok tt.
Definition coordinator : Coord V1 :=
  connected (v1_start link options) 0
    {| proto := v1_start link options; c_work := None; pending := ∅; nextid := 0; received := 0; activated := false;
       draining := false; drain_until := 0;
       view := set_devices [new_device "CPU" "scalar x2" EmptyString] new_view; log := [];
       had_work := false; fatal := false; backoff := 1; last_update := 0; last_hashes := [0]; thermal := [-1] |}.
Definition start : System V1 :=
  {| pool := sample_pool; coord := coordinator; at_phase := Waiting; submitted := [] |}.

Definition replies : list json :=
  [Stratum.Session1.subscribed; Stratum.Session1.authorized_reply;
   JObject [("method", JString "mining.set_difficulty"); ("params", JArray [JFloat (S754_zero false)])]%string;
   Stratum.Session1.notify "a" true].

Lemma start_ok : system_start start.
Proof.
  split_and!; try done; [exact sample_pool_start|exact (v1_initial_inv link options)|].
  by eexists _, _.
Qed.

(** The job arrives, two threads each find a share on it, and the coordinator
    submits the first thread's while the second is still scanning. *)
Definition to_last_message : list action := [Read (Ok replies); Handle; Handle; Handle].
Definition to_submission : list action :=
  to_last_message ++ [Handle; Thread 0; Thread 1; Thread 0; Thread 0; Handled; Take; Submit].

Lemma submissions_genuine_witness :
  let s := schedule cpu_backends options to_submission start in
  fst <$> submitted s = [10] ∧ length (v1_sent (proto (coord s))) = 4%nat ∧
  ∀ id f, (id, f) ∈ submitted s →
    ∃ s1 s2, rtc (system_step cpu_backends options) start s1 ∧ system_step cpu_backends options s1 s2 ∧
      rtc (system_step cpu_backends options) s2 s ∧ draining (coord s1) = false ∧ nextid (coord s1) = id ∧
      is_valid (proto (coord s1)) (f_job f) = true ∧
      send_share options (f_job f) (f_nonce f) id (proto (coord s1)) = (proto (coord s2), Ok tt).
Proof.
  intros s. split; [vm_compute; reflexivity|]. split; [vm_compute; reflexivity|]. intros id f Hin.
  exact (proj2 (proj2 (proj1 (proj2 (submissions_genuine cpu_backends options cpu_backends_laws start s
    start_ok (schedule_reachable cpu_backends options _ _))) id f Hin))).
Defined.

Lemma work_is_live_witness :
  let s := schedule cpu_backends options to_last_message start in
  let c' := (on_message 0 (Stratum.Session1.notify "a" true) (coord s)).1 in
  is_Some (live (proto c')) ∧ work (shared (publish_to (pool s) (c_work c'))) = live (proto c') ∧
  ∀ j, live (proto c') = Some j → is_valid (proto c') j = true.
Proof.
  intros s c'. split; [by_compute|].
  assert (at_phase s = Handling [Stratum.Session1.notify "a" true]) as Hph by (vm_compute; reflexivity).
  assert (counter (proto (coord s)) + 1024 < 2 ^ 64) as Hb by (vm_compute; reflexivity).
  assert (on_message 0 (Stratum.Session1.notify "a" true) (coord s) = (c', Ok tt)) as He by (vm_compute; reflexivity).
  assert (negb (draining (coord s)) && authorized (proto c') = true) as Hgo by (vm_compute; reflexivity).
  pose proof (work_is_live cpu_backends options cpu_backends_laws start s 0 (Stratum.Session1.notify "a" true) [] c'
    start_ok (schedule_reachable cpu_backends options _ _) Hph Hb He) as H.
  rewrite Hgo in H. exact H.
Defined.

Lemma v1_wire_witness :
  let s := schedule cpu_backends options to_submission start in
  v1_sent (proto (coord s)) = v1_hello options ++ (share_line options <$> submitted s) ∧
  submitted s ≠ [].
Proof.
  intros s. split; [|vm_compute; discriminate].
  exact (v1_wire cpu_backends options link start s cpu_backends_laws start_ok eq_refl (schedule_reachable cpu_backends options _ _)).
Defined.
End Run.
