(* ===== verification/Refine.v ===== *)
(** * The loop as written, with the threads around it

    Coordinator models one connection of [mine] (src/src/miner.cpp) as the code
    reads: a sequential loop whose shared variables are an input.  System models
    it as steps interleaved with the threads'.  Here the loop runs beside the
    threads - they step between any two of its locked blocks, and the shared
    variables it meets are theirs - and is shown to refine both: it computes what
    Coordinator's [connection] computes, and it is a run of System. *)
From S2P Require Import Prelude Words Hex Blake Targets Work Json Options Workers View Coordinator Protocols System.

#[export] Instance Found_eq_dec : EqDecision Found.
Proof. solve_decision. Defined.
#[export] Instance Shared_eq_dec : EqDecision Shared.
Proof. solve_decision. Defined.

(** ** Code beside the threads *)

(** What a piece of the coordinator's code may do: from a pool and a coordinator to
    a pool, a coordinator and a result. *)
Definition act (P A : Type) : Type := Pool → Coord P → Pool → Coord P → result A → Prop.
#[export] Instance act_bind {P} : MBind (act P) := λ A B k x p c p' c' r,
  (∃ e, x p c p' c' (Throw e) ∧ r = Throw e) ∨ ∃ a p1 c1, x p c p1 c1 (Ok a) ∧ k a p1 c1 p' c' r.
(** A loop over a list, left at the first exception. *)
Fixpoint act_iter {P A} (f : A → act P unit) (l : list A) : act P unit :=
  match l with
  | [] => λ p c p' c' r, p' = p ∧ c' = c ∧ r = Ok tt
  | a :: l => _ ← f a; act_iter f l
  end.

Section live.
Context {P : Type} `{ProtocolLaws P} `{FloatPrinter} (backend : nat → Backend) (o : MineOptions).

(** The threads run, then a piece of code that shares nothing with them but what
    [g] does to the pool at its end. *)
Definition atomic {A} (ready : Coord P → Prop) (m : stM (Coord P) A) (g : Coord P → Pool → Pool) : act P A :=
  λ p c p' c' r, ∃ p1, rtc (thread_step backend) p p1 ∧ ready c ∧ m c = (c', r) ∧ p' = g c' p1.
Definition alone {A} (m : stM (Coord P) A) : act P A := atomic (λ _, True) m (λ _ p, p).

(** A connection issues fewer than 2^64 - 1024 jobs. *)
Definition few_jobs (c : Coord P) : Prop := counter (proto c) + 1024 < 2 ^ 64.

(** The locked block that takes the queue: the shared variables are the threads'. *)
Definition taking (e : Env) : act P (list Found) := λ p c p' c' r,
  ∃ p1, rtc (thread_step backend) p p1 ∧ e_shared e = shared p1 ∧ take_queue (shared p1) c = (c', r) ∧
    p' = if is_ok r then empty_queue p1 else p1.

(** [turn] and [iteration] of Coordinator, line by line. *)
Definition live_turn (e : Env) : act P unit :=
  messages ← atomic few_jobs (with_proto (arrive (e_read e))) (λ _ p, p);
  _ ← act_iter (λ im, atomic few_jobs (on_message (e_message_time e (fst im)) (snd im))
                        (λ c p, publish_to p (c_work c))) (imap pair messages);
  queue ← taking e;
  _ ← act_iter (λ jf, alone (submit_found o (e_share_time e (fst jf)) (snd jf))) (imap pair queue);
  _ ← alone (check_timeouts (e_now e));
  alone (update o false (e_begin e) (e_update_now e) (e_slots e) (e_readings e)).
Definition live_iteration (e : Env) : act P unit :=
  _ ← alone (start_drain (e_expired e) (e_drain_now e)); live_turn e.

(** [connection], the loop over the turns given. *)
Fixpoint live_connection (ticks : list Tick) : Pool → Coord P → Pool → Coord P → option (result unit) → Prop :=
  match ticks with
  | [] => λ p c p' c' r, p' = p ∧ c' = c ∧ r = None
  | t :: ticks => λ p c p' c' r,
      if running (t_expired t) (t_now t) c then
        (∃ e, live_iteration (t_env t) p c p' c' (Throw e) ∧ r = Some (Throw e)) ∨
        ∃ p1 c1, live_iteration (t_env t) p c p1 c1 (Ok tt) ∧ live_connection ticks p1 c1 p' c' r
      else p' = p ∧ c' = c ∧ r = Some (Ok tt)
  end.

(** ** It computes what the sequential code computes *)

Definition forgets {A} (x : act P A) (m : stM (Coord P) A) : Prop :=
  ∀ p c p' c' r, x p c p' c' r → m c = (c', r).

Lemma forgets_bind {A B} (x : act P A) (m : stM (Coord P) A) (y : A → act P B) (k : A → stM (Coord P) B) :
  forgets x m → (∀ a, forgets (y a) (k a)) → forgets (x ≫= y) (m ≫= k).
Proof.
  intros Hx Hy p c p' c' r Hr. rewrite st_bind_eq.
  destruct Hr as [(e & He & ->)|(a & p1 & c1 & Ha & Hk)]; [by rewrite (Hx _ _ _ _ _ He)|].
  rewrite (Hx _ _ _ _ _ Ha). by eapply Hy.
Qed.
Lemma forgets_atomic {A} ready (m : stM (Coord P) A) g : forgets (atomic ready m g) m.
Proof. by intros p c p' c' r (p1 & _ & _ & Hm & _). Qed.
Lemma forgets_iter {A} (f : A → act P unit) (g : A → stM (Coord P) unit) l : (∀ a, forgets (f a) (g a)) →
  forgets (act_iter f l) (st_iter g l).
Proof.
  intros Hf. induction l as [|a l IH]; cbn [act_iter st_iter]; [by intros p c p' c' r (_ & -> & ->)|].
  by apply forgets_bind.
Qed.

Lemma turn_forgets e : forgets (live_iteration e) (iteration o e).
Proof.
  unfold live_iteration, iteration, live_turn, turn. apply forgets_bind; [apply forgets_atomic|intros _].
  apply forgets_bind; [apply forgets_atomic|intros ms].
  apply forgets_bind; [apply forgets_iter; intros im; apply forgets_atomic|intros _].
  apply forgets_bind; [by intros p c p' c' r (p1 & _ & -> & Hq & _)|intros q].
  apply forgets_bind; [apply forgets_iter; intros jf; apply forgets_atomic|intros _].
  apply forgets_bind; [apply forgets_atomic|intros _]. apply forgets_atomic.
Qed.

Lemma live_computes ticks p c p' c' r : live_connection ticks p c p' c' r → connection o ticks c = (c', r).
Proof.
  revert p c. induction ticks as [|t ticks IH]; intros p c; cbn [live_connection connection].
  - by intros (_ & -> & ->).
  - destruct (running _ _ c); [|by intros (_ & -> & ->)].
    intros [(e & He & ->)|(p1 & c1 & Hi & Hl)].
    + by rewrite (turn_forgets _ _ _ _ _ _ He).
    + rewrite (turn_forgets _ _ _ _ _ _ Hi). by eapply IH.
Qed.

(** ** It is a run of the system *)

(** The message a step of the system handles. *)
Definition handled (s s' : System P) : list json :=
  match at_phase s, at_phase s' with
  | Handling (m :: ms), Handling ms' => if (length ms' =? length ms)%nat then [m] else []
  | _, _ => []
  end.
Lemma handled_same s s' : at_phase s' = at_phase s → handled s s' = [].
Proof.
  unfold handled. intros ->. destruct (at_phase s) as [|[|m ms]| | |]; try done. cbn [length].
  by rewrite (proj2 (Nat.eqb_neq _ _)) by lia.
Qed.

(** Runs of the system with the messages handled on the way. *)
Inductive path (s0 : System P) : list json → System P → Prop :=
| path_start : path s0 [] s0
| path_step ms s s' : path s0 ms s → system_step backend o s s' → path s0 (ms ++ handled s s') s'.

Lemma path_trans s1 ms1 s2 ms2 s3 : path s1 ms1 s2 → path s2 ms2 s3 → path s1 (ms1 ++ ms2) s3.
Proof.
  intros Hp1 Hp2. induction Hp2 as [|ms s s' _ IH Hs]; [by rewrite app_nil_r|].
  rewrite (assoc_L app). by econstructor.
Qed.
Lemma path_once s s' : system_step backend o s s' → path s (handled s s') s'.
Proof. intros Hs. apply (path_step s [] s s'); [constructor|done]. Qed.
Lemma path_reachable s0 ms s : path s0 ms s → rtc (system_step backend o) s0 s.
Proof. induction 1; [done|]. by eapply rtc_r. Qed.

(** From phase [ph] a piece of code leads to the phase [k] of its result.  What it
    handles meanwhile is [E] of the result; a part of that if it throws. *)
Definition hears {A} (E : A → list json → Prop) (r : result A) (ms : list json) : Prop :=
  match r with
  | Ok a => E a ms
  | Throw _ => ms = [] ∨ ∃ a all, E a all ∧ ms `prefix_of` all
  end.
Definition moves {A} (x : act P A) (ph : phase) (k : A → phase) (E : A → list json → Prop) : Prop :=
  ∀ p c p' c' r l, x p c p' c' r → ∃ new ms, hears E r ms ∧
    path (Build_System p c ph l) ms (Build_System p' c' (after r k) (l ++ new)).

(** Computations that handle no message. *)
Definition silent {A} : A → list json → Prop := λ _ ms, ms = [].

Lemma threads_move p p' c ph l : rtc (thread_step backend) p p' → path (Build_System p c ph l) [] (Build_System p' c ph l).
Proof.
  induction 1 as [|p1 p2 p3 Ht _ IH]; [constructor|]. change (@nil json) with (@nil json ++ []).
  eapply path_trans; [|exact IH]. rewrite <- (handled_same (Build_System p1 c ph l) (Build_System p2 c ph l)) by done.
  by apply path_once, sys_thread.
Qed.

Lemma moves_bind {A B} (x : act P A) (y : A → act P B) ph k1 k2 E1 E2 (E : B → list json → Prop) :
  moves x ph k1 E1 → (∀ a, moves (y a) (k1 a) k2 (E2 a)) →
  (∀ a ms, E1 a ms → ms = [] ∨ ∃ b all, E b all ∧ ms `prefix_of` all) →
  (∀ a b ms ms', E1 a ms → E2 a b ms' → E b (ms ++ ms')) →
  moves (x ≫= y) ph k2 E.
Proof.
  intros Hx Hy Hsome Hall p c p' c' r l [(e & He & ->)|(a & p1 & c1 & Ha & Hk)].
  - destruct (Hx _ _ _ _ _ l He) as (new & ms & Hh & Hp). exists new, ms. split; [|exact Hp].
    destruct Hh as [->|(a & all & HE & Hpre)]; [by left|].
    destruct (Hsome a all HE) as [->|(b & all' & HE' & Hpre')].
    + left. by apply prefix_nil_inv in Hpre.
    + right. exists b, all'. split; [done|]. by etrans.
  - destruct (Hx _ _ _ _ _ l Ha) as (new & ms & Hh & Hp). destruct (Hy a _ _ _ _ _ (l ++ new) Hk) as (new' & ms' & Hh' & Hp').
    exists (new ++ new'), (ms ++ ms'). rewrite (assoc_L app). split; [|by eapply path_trans].
    cbn [hears] in Hh. destruct r as [b|e]; cbn [hears] in *; [by eapply Hall|].
    destruct Hh' as [->|(b & all & HE & Hpre)].
    + rewrite app_nil_r. by apply (Hsome a).
    + right. exists b, (ms ++ all). split; [by eapply Hall|by apply prefix_app].
Qed.
(** The common case: the first part is silent. *)
Lemma moves_then {A B} (x : act P A) (y : A → act P B) ph k1 k2 (E : B → list json → Prop) :
  moves x ph k1 silent → (∀ a, moves (y a) (k1 a) k2 E) → moves (x ≫= y) ph k2 E.
Proof.
  intros Hx Hy. eapply (moves_bind _ _ _ _ _ silent (λ _, E)); [exact Hx|exact Hy|by left|].
  by intros a b ms ms' ->.
Qed.

(** A piece of code that is one step. *)
Lemma moves_atomic {A} ready (m : stM (Coord P) A) g ph k (E : A → list json → Prop) :
  (∀ p c c' r l, ready c → m c = (c', r) → ∃ new,
    let s := Build_System p c ph l in let s' := Build_System (g c' p) c' (after r k) (l ++ new) in
    system_step backend o s s' ∧ hears E r (handled s s')) →
  moves (atomic ready m g) ph k E.
Proof.
  intros Hs p c p' c' r l (p1 & Ht & Hready & Hm & ->). destruct (Hs p1 c c' r l Hready Hm) as (new & Hstep & Hh).
  eexists new, _. split; [exact Hh|]. change (handled _ _) with ([] ++ handled (Build_System p1 c ph l)
    (Build_System (g c' p1) c' (after r k) (l ++ new))).
  eapply path_trans; [by apply threads_move|]. by apply path_once.
Qed.
Lemma moves_still {A} ready (m : stM (Coord P) A) g ph k (E : A → list json → Prop) :
  (∀ p c c' r l, ready c → m c = (c', r) →
    let s := Build_System p c ph l in let s' := Build_System (g c' p) c' (after r k) l in
    system_step backend o s s' ∧ hears E r (handled s s')) →
  moves (atomic ready m g) ph k E.
Proof. intros Hs. apply moves_atomic. intros p c c' r l Hr Hm. exists []. rewrite app_nil_r. by apply Hs. Qed.

Lemma snd_imap_pair {A} (l : list A) : snd <$> imap pair l = l.
Proof. rewrite fmap_imap. etrans; [by apply (imap_ext _ (const id))|]. rewrite imap_const. apply list_fmap_id. Qed.

(** The loops over the messages and over the queue. *)
Lemma moves_messages (t : nat → Z) l :
  moves (act_iter (λ im, atomic few_jobs (on_message (t im.1) im.2) (λ c p, publish_to p (c_work c))) l)
    (Handling l.*2) (λ _, Handling []) (λ _ ms, ms = l.*2).
Proof.
  induction l as [|[i m] l IH]; cbn [act_iter].
  - intros p c p' c' r h (-> & -> & ->). exists [], []. rewrite app_nil_r. split; [done|constructor].
  - rewrite fmap_cons. apply (moves_bind _ _ _ (λ _, Handling l.*2) _ (λ _ ms, ms = [m]) (λ _ _ ms, ms = l.*2)).
    + apply moves_still. intros p c c' r h Hf Hm. cbn zeta.
      split; [by apply (sys_message _ _ p c c' r (t i) m l.*2 h)|].
      unfold handled. cbn [at_phase]. destruct r; cbn [after hears]; [by rewrite Nat.eqb_refl|by left].
    + intros _. exact IH.
    + intros _ ms ->. right. exists tt, (m :: l.*2). split; [done|]. by exists l.*2.
    + by intros _ _ ms ms' -> ->.
Qed.
Lemma moves_queue (t : nat → Z) l :
  moves (act_iter (λ jf, alone (submit_found o (t jf.1) jf.2)) l) (Submitting l.*2) (λ _, Submitting []) silent.
Proof.
  induction l as [|[j f] l IH]; cbn [act_iter].
  - intros p c p' c' r h (-> & -> & ->). exists [], []. rewrite app_nil_r. split; [done|constructor].
  - rewrite fmap_cons. apply (moves_then _ _ _ (λ _, Submitting l.*2)); [|intros _; exact IH]. apply moves_atomic.
    intros p c c' r h _ Hm. eexists. cbn zeta. split; [by apply (sys_submit _ _ p c c' r (t j) f l.*2 h)|].
    destruct r; [done|by left].
Qed.
Lemma moves_taking e : moves (taking e) (Handling []) Submitting silent.
Proof.
  intros p c p' c' r l (p1 & Ht & _ & Hq & ->). exists [], []. rewrite app_nil_r. split; [destruct r; [done|by left]|].
  refine (path_trans _ [] _ [] _ (threads_move _ _ _ _ _ Ht) (path_trans _ [] _ [] _ (path_once _ _ (sys_handled _ _ _ _ _)) _)).
  exact (path_once _ _ (sys_take _ _ _ _ _ r _ Hq)).
Qed.

(** What a read delivers. *)
Definition delivers (e : Env) (ms : list json) : Prop := ∃ q q' : P, arrive (e_read e) q = (q', Ok ms).

Lemma turn_moves e : moves (live_iteration e) Waiting (λ _, Waiting) (λ _, delivers e).
Proof.
  unfold live_iteration, live_turn. apply (moves_then _ _ _ (λ _, Waiting)).
  { apply moves_still. intros p c c' r l _ Hm. assert (r = Ok tt) as ->; [|by split; [eapply sys_drain|]].
    revert Hm. unfold start_drain. rewrite st_bind_eq. cbn [st_get]. by destruct (_ && _); intros [= _ <-]. }
  intros _. apply (moves_bind _ _ _ Handling _ (λ ms all, all = [] ∧ delivers e ms) (λ ms _ all, all = ms)).
  { apply moves_still. intros p c c' r l Hf Hm. cbn zeta. split; [by eapply sys_read|].
    destruct r as [ms|ex]; [|by left]. split; [done|]. unfold with_proto in Hm.
    destruct (arrive (e_read e) (proto c)) as [q' r'] eqn:Ha. injection Hm as _ ->. by eexists _, _. }
  2:{ intros ms all [-> _]. by left. }
  2:{ by intros ms _ all all' [-> Hd] ->. }
  intros ms. apply (moves_bind _ _ _ (λ _, Handling []) _ (λ _ all, all = ms) (λ _, silent)).
  { pose proof (moves_messages (e_message_time e) (imap pair ms)) as Hm. by rewrite snd_imap_pair in Hm. }
  2:{ intros _ all ->. right. by exists tt, ms. }
  2:{ intros _ _ all all' -> ->. by rewrite app_nil_r. }
  intros _. eapply moves_then; [apply moves_taking|]. intros q. apply (moves_then _ _ _ (λ _, Submitting [])).
  { pose proof (moves_queue (e_share_time e) (imap pair q)) as Hm. by rewrite snd_imap_pair in Hm. }
  intros _. apply (moves_then _ _ _ (λ _, Waiting)).
  - apply moves_still. intros p c c' r l _ Hm. cbn zeta. split; [by eapply sys_check|]. destruct r; [done|by left].
  - intros _. apply moves_still. intros p c c' r l _ Hm. cbn zeta. split; [by eapply sys_update|]. destruct r; [done|by left].
Qed.

(** The phase a connection ends in. *)
Definition last_phase (r : option (result unit)) : phase :=
  match r with Some (Throw e) => Failed e | _ => Waiting end.

(** The messages handled are those the reads deliver, in order; the last read's
    only in part if handling them ends the connection. *)
Lemma live_moves ticks p c p' c' r l : live_connection ticks p c p' c' r →
  ∃ new ms n reads, path (Build_System p c Waiting l) ms (Build_System p' c' (last_phase r) (l ++ new)) ∧
    Forall2 (λ t, delivers (t_env t)) (take n ticks) reads ∧ ms `prefix_of` concat reads.
Proof.
  revert p c l. induction ticks as [|t ticks IH]; intros p c l; cbn [live_connection].
  - intros (-> & -> & ->). exists [], [], 0%nat, []. rewrite app_nil_r. split_and!; [constructor|constructor|done].
  - destruct (running _ _ c).
    2:{ intros (-> & -> & ->). exists [], [], 0%nat, []. rewrite app_nil_r. split_and!; [constructor|constructor|done]. }
    intros [(e & He & ->)|(p1 & c1 & Hi & Hl)].
    + destruct (turn_moves _ _ _ _ _ _ l He) as (new & ms & Hh & Hp). exists new, ms.
      destruct Hh as [->|(_ & all & Hd & Hpre)].
      * exists 0%nat, []. split_and!; [exact Hp|constructor|done].
      * exists 1%nat, [all]. split_and!; [exact Hp|by repeat constructor|]. cbn. by rewrite app_nil_r.
    + destruct (turn_moves _ _ _ _ _ _ l Hi) as (new & ms & Hd & Hp). cbn [hears] in Hd.
      destruct (IH _ _ (l ++ new) Hl) as (new' & ms' & n & reads & Hp' & Hr & Hpre).
      exists (new ++ new'), (ms ++ ms'), (S n), (ms :: reads). rewrite (assoc_L app).
      split_and!; [by eapply path_trans|by constructor|by apply prefix_app].
Qed.

(** A connection from its start. *)
Lemma live_from_start ticks p c p' c' r : (∀ i, @BackendLaws (backend i)) →
  system_start (Build_System p c Waiting []) → live_connection ticks p c p' c' r →
  ∃ shares ms n reads,
    path (Build_System p c Waiting []) ms (Build_System p' c' (last_phase r) shares) ∧
    fst <$> shares = seqZ 10 (nextid c' - 10) ∧ 10 ≤ nextid c' ∧
    Forall2 (λ t, delivers (t_env t)) (take n ticks) reads ∧ ms `prefix_of` concat reads.
Proof.
  intros Hlaws Hs Hl. destruct (live_moves _ _ _ _ _ _ [] Hl) as (shares & ms & n & reads & Hp & Hd & Hpre).
  exists shares, ms, n, reads. cbn [app] in Hp.
  destruct (system_reachable_inv backend o Hlaws _ _ Hs (path_reachable _ _ _ Hp)) as (_ & _ & _ & Hids & Hn & _).
  by split_and!.
Qed.

(** C5: The loop as written refines the interleaved system.  Let the loop of a
    connection run beside the threads, which step between any two of its locked
    blocks.  Then it computes exactly what the sequential [connection] computes
    from the reads and the shared variables it met; and it is a run of the system
    from its start, in which the messages handled are those its reads delivered,
    in order, and the shares submitted are those it numbered - so what holds of
    every run of the system holds of the loop. *)
Theorem loop_refines ticks p c p' c' r : (∀ i, @BackendLaws (backend i)) →
  system_start (Build_System p c Waiting []) → live_connection ticks p c p' c' r →
  connection o ticks c = (c', r) ∧
  ∃ shares ms n reads,
    path (Build_System p c Waiting []) ms (Build_System p' c' (last_phase r) shares) ∧
    fst <$> shares = seqZ 10 (nextid c' - 10) ∧ 10 ≤ nextid c' ∧
    Forall2 (λ t, delivers (t_env t)) (take n ticks) reads ∧ ms `prefix_of` concat reads.
Proof. intros Hlaws Hs Hl. split; [by eapply live_computes|by apply live_from_start]. Qed.

(** ** Running a schedule

    Which threads step before each locked block, as a list; [None] if the shared
    variables of an input are not the threads', or the schedule runs out. *)
Definition exec (A : Type) : Type := list (list nat) → Pool → Coord P → option (list (list nat) * (Pool * Coord P * result A)).
Definition exec_bind {A B} (x : exec A) (k : A → exec B) : exec B := λ ks p c,
  match x ks p c with
  | Some (ks, (p, c, Ok a)) => k a ks p c
  | Some (ks, (p, c, Throw e)) => Some (ks, (p, c, Throw e))
  | None => None
  end.
Fixpoint exec_iter {A} (f : A → exec unit) (l : list A) : exec unit :=
  match l with [] => λ ks p c, Some (ks, (p, c, Ok tt)) | a :: l => exec_bind (f a) (λ _, exec_iter f l) end.
Definition exec_atomic {A} (ready : Coord P → bool) (m : stM (Coord P) A) (g : Coord P → Pool → Pool) : exec A := λ ks p c,
  match ks with
  | [] => None
  | k :: ks => if ready c then
                 let x := m c in Some (ks, (g x.1 (run_workers backend k p), x.1, x.2)) else None
  end.
Definition exec_alone {A} (m : stM (Coord P) A) : exec A := exec_atomic (λ _, true) m (λ _ p, p).
Definition few (c : Coord P) : bool := counter (proto c) + 1024 <? 2 ^ 64.
Definition exec_taking (e : Env) : exec (list Found) := λ ks p c,
  match ks with
  | [] => None
  | k :: ks =>
      let p := run_workers backend k p in
      if bool_decide (e_shared e = shared p) then
        let x := take_queue (shared p) c in
        Some (ks, (if is_ok x.2 then empty_queue p else p, x.1, x.2)) else None
  end.
Definition exec_iteration (e : Env) : exec unit :=
  exec_bind (exec_alone (start_drain (e_expired e) (e_drain_now e))) (λ _,
  exec_bind (exec_atomic few (with_proto (arrive (e_read e))) (λ _ p, p)) (λ messages,
  exec_bind (exec_iter (λ im, exec_atomic few (on_message (e_message_time e (fst im)) (snd im))
               (λ c p, publish_to p (c_work c))) (imap pair messages)) (λ _,
  exec_bind (exec_taking e) (λ queue,
  exec_bind (exec_iter (λ jf, exec_alone (submit_found o (e_share_time e (fst jf)) (snd jf))) (imap pair queue)) (λ _,
  exec_bind (exec_alone (check_timeouts (e_now e))) (λ _,
  exec_alone (update o false (e_begin e) (e_update_now e) (e_slots e) (e_readings e)))))))).
Fixpoint exec_connection (ticks : list Tick) (ks : list (list nat)) (p : Pool) (c : Coord P)
    : option (Pool * Coord P * option (result unit)) :=
  match ticks with
  | [] => Some (p, c, None)
  | t :: ticks =>
      if running (t_expired t) (t_now t) c then
        match exec_iteration (t_env t) ks p c with
        | Some (ks, (p, c, Ok _)) => exec_connection ticks ks p c
        | Some (_, (p, c, Throw e)) => Some (p, c, Some (Throw e))
        | None => None
        end
      else Some (p, c, Some (Ok tt))
  end.

Definition performs {A} (x : act P A) (ex : exec A) : Prop := ∀ ks p c ks' p' c' r,
  ex ks p c = Some (ks', (p', c', r)) → x p c p' c' r.

Lemma run_workers_threads ks p : rtc (thread_step backend) p (run_workers backend ks p).
Proof.
  revert p. induction ks as [|i ks IH]; intros p; [apply rtc_refl|]. unfold run_workers.
  rewrite fold_left_cons. destruct (workers p !! i) as [w|] eqn:Hi; [|apply IH].
  eapply rtc_l; [|apply IH]. cbn zeta. eapply thread_runs; [exact Hi|]. by rewrite <- !surjective_pairing.
Qed.
Lemma performs_bind {A B} (x : act P A) (k : A → act P B) ex ek :
  performs x ex → (∀ a, performs (k a) (ek a)) → performs (x ≫= k) (exec_bind ex ek).
Proof.
  intros Hx Hk ks p c ks' p' c' r. unfold exec_bind.
  destruct (ex ks p c) as [[ks1 [[p1 c1] [a|e]]]|] eqn:E; [|intros [= <- <- <- <-]|done]; apply Hx in E.
  - intros Hr. right. exists a, p1, c1. split; [done|]. by eapply Hk.
  - left. by exists e.
Qed.
Lemma performs_iter {A} (f : A → act P unit) ef l : (∀ a, performs (f a) (ef a)) → performs (act_iter f l) (exec_iter ef l).
Proof.
  intros Hf. induction l as [|a l IH]; cbn [act_iter exec_iter]; [by intros ks p c ks' p' c' r [= _ <- <- <-]|].
  by apply performs_bind.
Qed.
Lemma performs_atomic {A} (ready : Coord P → Prop) readyb (m : stM (Coord P) A) g :
  (∀ c, readyb c = true → ready c) → performs (atomic ready m g) (exec_atomic readyb m g).
Proof.
  intros Hr [|k ks] p c ks' p' c' r; [done|]. cbn [exec_atomic]. destruct (readyb c) eqn:E; [|done].
  intros [= _ <- <- <-]. exists (run_workers backend k p). split_and!; [apply run_workers_threads|auto| |done].
  by destruct (m c).
Qed.
Lemma performs_taking e : performs (taking e) (exec_taking e).
Proof.
  intros [|k ks] p c ks' p' c' r; [done|]. unfold exec_taking. case_bool_decide as He; [|done].
  intros [= _ <- <- <-]. exists (run_workers backend k p). split_and!; [apply run_workers_threads|done| |done].
  by destruct (take_queue _ c).
Qed.

Lemma performs_iteration e : performs (live_iteration e) (exec_iteration e).
Proof.
  assert (∀ c, few c = true → few_jobs c) as Hfew by (intros c; apply Z.ltb_lt).
  apply performs_bind; [by apply performs_atomic|intros _]. apply performs_bind; [by apply performs_atomic|intros ms].
  apply performs_bind; [apply performs_iter; intros im; by apply performs_atomic|intros _].
  apply performs_bind; [apply performs_taking|intros q].
  apply performs_bind; [apply performs_iter; intros jf; by apply performs_atomic|intros _].
  apply performs_bind; [by apply performs_atomic|intros _]. by apply performs_atomic.
Qed.

(** A schedule that runs is a live connection. *)
Lemma exec_live ticks ks p c p' c' r : exec_connection ticks ks p c = Some (p', c', r) →
  live_connection ticks p c p' c' r.
Proof.
  revert ks p c. induction ticks as [|t ticks IH]; intros ks p c; cbn [exec_connection live_connection].
  - by intros [= <- <- <-].
  - destruct (running _ _ c); [|by intros [= <- <- <-]].
    destruct (exec_iteration _ ks p c) as [[ks1 [[p1 c1] [[]|e]]]|] eqn:E; [|intros [= <- <- <-]|done];
      apply performs_iteration in E.
    + intros Hr. right. exists p1, c1. split; [done|]. by eapply IH.
    + left. by exists e.
Qed.
End live.

(** ** An example

    Two threads find a share each while the coordinator handles its messages and
    submits: the first turn takes one, the second turn the other. *)
Module Beside.
Import System.Run.
#[local] Existing Instance System.Run.printer.

Definition env (r : result (list json)) (s : Shared) : Env (P := V1) :=
  {| e_expired := false; e_drain_now := 0; e_read := r; e_message_time := λ _, 0; e_shared := s;
     e_share_time := λ _, 0; e_now := 0; e_begin := 0; e_update_now := 0; e_slots := []; e_readings := [] |}.
Definition tick (ms : list json) (s : Shared) : Tick (P := V1) :=
  {| t_expired := false; t_now := 0; t_env := env (Ok ms) s |}.

(** The job arrives with the last of four messages; then thread 0 takes a range,
    scans and queues; thread 1 takes one. *)
Definition at_first_take : Pool := Eval vm_compute in
  run_workers cpu_backends [0; 1; 0; 0]%nat
    (publish_to sample_pool (c_work (st_iter (on_message 0) replies coordinator).1)).
Definition at_second_take : Pool := Eval vm_compute in run_workers cpu_backends [1; 1]%nat (empty_queue at_first_take).
Definition ticks : list (Tick (P := V1)) := [tick replies (shared at_first_take); tick [] (shared at_second_take)].
Definition threads : list (list nat) := [[]; []; []; []; []; []; [0; 1; 0; 0]; []; []; []; []; [1]; [1]; []; []; []]%nat.

Lemma loop_refines_witness :
  let '(p', c', r) := default (sample_pool, coordinator, None) (exec_connection cpu_backends options ticks threads sample_pool coordinator) in
  r = None ∧ nextid c' = 12 ∧ connection options ticks coordinator = (c', r) ∧
  ∃ shares ms n reads, path cpu_backends options start ms (Build_System p' c' (last_phase r) shares) ∧
    fst <$> shares = seqZ 10 (nextid c' - 10) ∧ 10 ≤ nextid c' ∧
    Forall2 (λ t, delivers (t_env t)) (take n ticks) reads ∧ ms `prefix_of` concat reads.
Proof.
  assert (match exec_connection cpu_backends options ticks threads sample_pool coordinator with
    | Some (_, c', r) => bool_decide (r = None) && (nextid c' =? 12) | None => false end = true) as Hr by (vm_compute; reflexivity).
  pose proof (exec_live cpu_backends options ticks threads sample_pool coordinator) as Hl.
  destruct (exec_connection _ _ _ _ _ _) as [[[p' c'] r]|]; [|discriminate Hr]. cbn [default].
  apply andb_true_iff in Hr as [Hr Hn]. apply bool_decide_eq_true_1 in Hr. apply Z.eqb_eq in Hn.
  split; [exact Hr|]. split; [exact Hn|].
  exact (loop_refines cpu_backends options ticks sample_pool coordinator p' c' r cpu_backends_laws start_ok (Hl p' c' r eq_refl)).
Defined.
End Beside.
