(* ===== verification/Delivery.v ===== *)
(** * Delivery of shares

    What becomes of the solutions the scans cover: in every interleaving each of
    them is in one place - with its thread, in the queue, in the coordinator's hand,
    submitted, dropped for a stated reason, or lost by a thread or a connection that
    failed - and none is submitted twice.  Then progress: the steps that carry a
    solution from a thread to the queue, or end the thread with the reason, and from
    the queue to the pool. *)
From stdpp Require Import sorting.
From S2P Require Import Prelude Words Hex Blake Targets Work Json Options Workers View Coordinator Protocols System.

(** ** Where shares are *)

Definition shares_of (row : Z) (j : Job) (ns : list Z) : list Found :=
  (λ n, {| f_job := j; f_nonce := n; f_row := row |}) <$> ns.
Definition solutions_of (t : Task) : list Z := solutions (j_work (t_job t)) (t_start t) (t_count t).
Definition row_of (ws : list Worker) (i : nat) : Z := from_option w_row 0 (ws !! i).

(** The shares of all scans started... *)
Definition shares_scanned (ws : list Worker) (l : list Entry) : list Found :=
  l ≫= λ e, shares_of (row_of ws (e_worker e)) (t_job (e_task e)) (solutions_of (e_task e)).
(** ... and those a thread has not queued yet. *)
Definition in_flight (w : Worker) : list Found :=
  match w_stage w with
  | Scanning t => shares_of (w_row w) (t_job t) (solutions_of t)
  | Publishing j ns => shares_of (w_row w) j ns
  | _ => []
  end.
Definition waiting (p : Pool) : list Found := (workers p ≫= in_flight) ++ found (shared p).

(** What identifies a share. *)
Definition key (f : Found) : Job * Z := (f_job f, f_nonce f).

(** ** Lists *)

Lemma bind_insert_perm {A B} (f : A → list B) (l : list A) i x y : l !! i = Some x →
  f x ++ (<[i := y]> l ≫= f) ≡ₚ f y ++ (l ≫= f).
Proof.
  intros Hi. rewrite (insert_take_drop l i y) by by eapply lookup_lt_Some.
  rewrite <- (take_drop_middle l i x Hi) at 3. rewrite !bind_app, !bind_cons. solve_Permutation.
Qed.

Lemma row_of_insert ws i w w' k : ws !! i = Some w → w_row w' = w_row w → row_of (<[i := w']> ws) k = row_of ws k.
Proof.
  intros Hi Hr. unfold row_of. destruct (decide (i = k)) as [<-|Hne].
  - rewrite list_lookup_insert_eq by (by eapply lookup_lt_Some). by rewrite Hi.
  - by rewrite list_lookup_insert_ne by done.
Qed.

Lemma shares_scanned_rows ws ws' l : (∀ k, row_of ws' k = row_of ws k) → shares_scanned ws' l = shares_scanned ws l.
Proof. intros Hr. unfold shares_scanned. apply list_bind_ext; [|done]. intros e. by rewrite Hr. Qed.

(** ** A step of a thread *)

Section threads.
Context (backend : nat → Backend).

Lemma reserve_found batch s s' r : reserve batch s = (s', r) → found s' = found s.
Proof.
  pose proof (reserve_spec batch s) as Hr. intros E. rewrite E in Hr. revert Hr.
  destruct (work s) as [j|]; [|by intros [-> _]]. destruct (j_sv2 j); [|by intros [-> _]].
  cbn zeta. destruct (Sv2.partition _ _ _ _); by intros [-> _].
Qed.

(** What a step of thread [i] does to the shares: [gone] are lost. *)
Definition share_step (w w' : Worker) (q q' : list Found) (new : list Entry) (gone : list Found) : Prop :=
  (new ≫= λ e, shares_of (w_row w) (t_job (e_task e)) (solutions_of (e_task e))) ++ in_flight w ++ q
    ≡ₚ in_flight w' ++ q' ++ gone.

Lemma fail_shares e s w q s' w' new : fail e s w = (s', w', new) → found s = q →
  w_row w' = w_row w ∧ new = [] ∧ share_step w w' q (found s') new (in_flight w) ∧ failure s' ≠ None.
Proof.
  unfold fail. intros [= <- <- <-] <-. split_and!; try done. unfold share_step. cbn. solve_Permutation.
Qed.

(** A thread loses shares only when it fails. *)
Lemma worker_step_shares i s w s' w' new : @BackendLaws (backend i) →
  (∀ t, w_stage w = Scanning t → task_ok t) → worker_step backend i s w = (s', w', new) →
  w_row w' = w_row w ∧ Forall (λ e, e_worker e = i) new ∧
  ∃ gone, share_step w w' (found s) (found s') new gone ∧ (failure s' = None → gone = []).
Proof.
  intros Hl Ht Hstep.
  assert (∀ e s1, fail e s1 w = (s', w', new) → found s1 = found s → w_row w' = w_row w ∧
    Forall (λ e, e_worker e = i) new ∧
    ∃ gone, share_step w w' (found s) (found s') new gone ∧ (failure s' = None → gone = [])) as Hfail.
  { intros e s1 Hf Hq. destruct (fail_shares _ _ _ _ _ _ _ Hf Hq) as (Hr & -> & Hs & Hn).
    split_and!; [done|constructor|]. by exists (in_flight w). }
  unfold worker_step in Hstep. destruct (w_stage w) as [|t|j ns|] eqn:Hst.
  - destruct (reserve (w_batch w) s) as [s1 r] eqn:E. apply reserve_found in E as Hf.
    destruct r as [[[j c]|]|e]; [|injection Hstep as <- <- <-|by eapply Hfail].
    + destruct (assign _ _ _ _ _ _) as [[[g cur] t]|e]; [|by eapply Hfail]. injection Hstep as <- <- <-.
      split_and!; [done|by apply Forall_singleton|]. exists []. split; [|done].
      unfold share_step, in_flight. rewrite Hst, Hf. cbn. solve_Permutation.
    + split_and!; [done|constructor|]. exists []. split; [|done]. unfold share_step. rewrite Hf. cbn. solve_Permutation.
  - destruct (scan _ _ _) as [r|e] eqn:Hscan; [|by eapply Hfail]. injection Hstep as <- <- <-.
    destruct (Ht t eq_refl) as (Hh & Htl & Hstart & Hcnt).
    destruct (scan_exact _ _ _ Hh Htl Hstart Hcnt r Hscan) as (_ & _ & Hns).
    split_and!; [done|constructor|]. exists []. split; [|done]. unfold share_step, in_flight. rewrite Hst.
    cbn [with_scan w_stage w_row mbind list_bind app]. unfold shares_of, solutions_of. rewrite Hns. solve_Permutation.
  - revert Hstep. unfold publish, mbind, stM_bind, st_get, st_require, st_modify, throw_if.
    destruct (negb (negb _)); intros Hstep; [by eapply Hfail|]. injection Hstep as <- <- <-.
    split_and!; [done|constructor|]. exists []. split; [|done]. unfold share_step, in_flight. rewrite Hst. cbn. solve_Permutation.
  - injection Hstep as <- <- <-. split_and!; [done|constructor|]. exists []. split; [|done].
    unfold share_step. cbn. solve_Permutation.
Qed.
End threads.

Lemma shares_scanned_app ws l new : shares_scanned ws (l ++ new) = shares_scanned ws l ++ shares_scanned ws new.
Proof. apply bind_app. Qed.

Lemma scanning_task_ok p i w t : pool_inv p → workers p !! i = Some w → w_stage w = Scanning t → task_ok t.
Proof.
  intros (_ & _ & _ & _ & _ & Hw & _) Hi Hst. destruct (Hw i w Hi) as (_ & _ & _ & Hs & _).
  unfold stage_ok in Hs. rewrite Hst in Hs. apply Hs.
Qed.

(** A thread at the head of its loop ends and has nothing in flight. *)
Lemma stopped_shares p s i w rest : workers p !! i = Some w → w_stage w = Looping → found s = found (shared p) →
  let p' := {| shared := s; workers := <[i := with_stage Stopped w]> (workers p); issued := issued p; scans := scans p |} in
  shares_scanned (workers p) (scans p) ≡ₚ waiting p ++ rest → shares_scanned (workers p') (scans p') ≡ₚ waiting p' ++ rest.
Proof.
  cbn zeta. intros Hi Hst Hf Hbal. unfold waiting in *. cbn [workers shared scans].
  rewrite (shares_scanned_rows (workers p)) by (intros k; by apply (row_of_insert _ _ w)).
  rewrite Hbal, Hf. pose proof (bind_insert_perm in_flight (workers p) i w (with_stage Stopped w) Hi) as Hb.
  assert (in_flight w = []) as Hw by (unfold in_flight; by rewrite Hst).
  rewrite Hw in Hb. cbn [in_flight with_stage w_stage app] in Hb. by rewrite Hb.
Qed.

(** A thread's step moves the shares of the scan it starts to those waiting. *)
Lemma thread_step_shares backend p p' : (∀ i, @BackendLaws (backend i)) → pool_inv p → thread_step backend p p' →
  ∃ gone, (∀ rest, shares_scanned (workers p) (scans p) ≡ₚ waiting p ++ rest →
    shares_scanned (workers p') (scans p') ≡ₚ waiting p' ++ gone ++ rest) ∧
  (failure (shared p') = None → gone = []).
Proof.
  intros Hl Hp Hstep. destruct Hstep as [p0 i w s w' new Hi Hs|p0 i w Hi Hst|p0 i w e Hi Hst _]; cbn [shared workers scans].
  - destruct (worker_step_shares backend i _ _ _ _ _ (Hl i) (λ t, scanning_task_ok p0 i w t Hp Hi) Hs)
      as (Hrow & Hnew & gone & Hsh & Hg).
    exists gone. split; [|exact Hg]. intros rest Hbal. unfold waiting in *. cbn [workers shared].
    rewrite (shares_scanned_rows (workers p0)) by (intros k; by apply (row_of_insert _ _ w)).
    rewrite shares_scanned_app, Hbal.
    assert (shares_scanned (workers p0) new =
      new ≫= λ e, shares_of (w_row w) (t_job (e_task e)) (solutions_of (e_task e))) as ->.
    { unfold shares_scanned. apply Forall_bind_ext. eapply Forall_impl; [exact Hnew|]. intros e ->. unfold row_of. by rewrite Hi. }
    pose proof (bind_insert_perm in_flight (workers p0) i w w' Hi) as Hb. unfold share_step in Hsh.
    apply (Permutation_app_inv_l (in_flight w')).
    set (N := new ≫= _) in *. set (B := workers p0 ≫= _) in *. set (B' := <[i:=w']> _ ≫= _) in *.
    transitivity ((in_flight w' ++ B) ++ N ++ found (shared p0) ++ rest); [solve_Permutation|].
    rewrite <- Hb. transitivity ((N ++ in_flight w ++ found (shared p0)) ++ B' ++ rest); [solve_Permutation|].
    rewrite Hsh. solve_Permutation.
  - exists []. split; [|done]. intros rest Hbal. by apply (stopped_shares p0 (shared p0)).
  - exists []. split; [|done]. intros rest Hbal. by apply (stopped_shares p0 (set_failure (what e) (shared p0))).
Qed.

(** ** No share is found twice *)

Lemma solutions_range t x : x ∈ solutions_of t → t_start t ≤ x < t_start t + t_count t.
Proof. unfold solutions_of, solutions. intros [_ Hx]%list_elem_of_filter. apply elem_of_seqZ in Hx. lia. Qed.
Lemma solutions_NoDup t : NoDup (solutions_of t).
Proof. unfold solutions_of, solutions. apply NoDup_filter. apply NoDup_seqZ. Qed.
Lemma shares_of_keys row j ns : key <$> shares_of row j ns = pair j <$> ns.
Proof. unfold shares_of. by rewrite <- list_fmap_compose. Qed.

Lemma elem_of_shares ws l k : k ∈ key <$> shares_scanned ws l →
  ∃ e, e ∈ l ∧ t_job (e_task e) = k.1 ∧ in_range e k.2.
Proof.
  intros (f & -> & (e & Hf & He)%list_elem_of_bind)%list_elem_of_fmap.
  apply list_elem_of_fmap in Hf as (n & -> & Hn). apply solutions_range in Hn. exists e. done.
Qed.

(** A share's job tells the published job it comes from. *)
Lemma entry_generation jobs e : entry_ok jobs e → j_generation (t_job (e_task e)) = e_generation e.
Proof.
  intros (_ & _ & He). unfold e_generation. destruct (j_sv2 (e_base e)).
  - by destruct He as (b & pt & _ & _ & ->).
  - by destruct He as (_ & -> & _).
Qed.

Lemma shares_scanned_NoDup jobs ws l : jobs_ok jobs → Forall (entry_ok jobs) l → StronglySorted follows l →
  NoDup (key <$> shares_scanned ws l).
Proof.
  intros Hj Hl Hs. induction Hs as [|e l _ IH He]; [constructor|]. apply Forall_cons in Hl as [Hok Hl].
  change (shares_scanned ws (e :: l)) with
    (shares_of (row_of ws (e_worker e)) (t_job (e_task e)) (solutions_of (e_task e)) ++ shares_scanned ws l).
  rewrite fmap_app. apply NoDup_app. split_and!; [|intros k Hk Hk'|by apply IH].
  - rewrite shares_of_keys. apply NoDup_fmap_2; [apply _|]. apply solutions_NoDup.
  - rewrite shares_of_keys in Hk. apply list_elem_of_fmap in Hk as (n & -> & Hn). apply solutions_range in Hn.
    apply elem_of_shares in Hk' as (e' & Hin & Hjob & Hr). cbn in Hjob, Hr.
    rewrite Forall_forall in Hl, He. pose proof (Hl e' Hin) as Hok'.
    assert (e_base e = e_base e') as Hb.
    { apply (same_generation jobs); [exact Hj|apply Hok|apply Hok'|].
      change (e_generation e = e_generation e'). by rewrite <- (entry_generation jobs e), <- (entry_generation jobs e'), Hjob. }
    apply (ordered_disjoint jobs e e' n Hok Hok' Hb (He e' Hin)); [exact Hn|exact Hr|by rewrite Hjob].
Qed.

(** ** Every share is accounted for *)

Section conservation.
Context {P : Type} `{ProtocolLaws P} `{FloatPrinter}.
Context (backend : nat → Backend) (o : MineOptions).
Context (Hlaws : ∀ i, @BackendLaws (backend i)).

(** The shares the coordinator holds. *)
Definition in_hand (s : System P) : list Found := match at_phase s with Submitting q => q | _ => [] end.

(** The share a step drops, with the coordinator that dropped it. *)
Definition dropped_by (s s' : System P) : list (Coord P * Found) :=
  match at_phase s, at_phase s' with
  | Submitting (f :: q), Submitting q' =>
      if (length q' =? length q)%nat && (length (submitted s') =? length (submitted s))%nat then [(coord s, f)] else []
  | _, _ => []
  end.

(** A run, with the shares dropped on the way. *)
Inductive run (s0 : System P) : list (Coord P * Found) → System P → Prop :=
| run_start : run s0 [] s0
| run_step D s s' : run s0 D s → system_step backend o s s' → run s0 (D ++ dropped_by s s') s'.

(** The shares of all scans are where they should be; [gone] are those lost. *)
Definition balanced (D : list (Coord P * Found)) (s : System P) (gone : list Found) : Prop :=
  shares_scanned (workers (pool s)) (scans (pool s)) ≡ₚ
    waiting (pool s) ++ in_hand s ++ (snd <$> submitted s) ++ (snd <$> D) ++ gone.
Definition refused (x : Coord P * Found) : Prop :=
  draining x.1 = true ∨ is_valid (proto x.1) (f_job x.2) = false.

Lemma run_reachable s0 D s : run s0 D s → rtc (system_step backend o) s0 s.
Proof. induction 1; [done|]. by eapply rtc_r. Qed.

(** Only a thread that fails and a connection that fails lose shares. *)
Definition excused (s : System P) (by_thread by_connection : list Found) : Prop :=
  (by_thread = [] ∨ failure (shared (pool s)) ≠ None) ∧ (by_connection = [] ∨ ∃ e, at_phase s = Failed e).
Definition accounted (D : list (Coord P * Found)) (s : System P) : Prop :=
  Forall refused D ∧ ∃ by_thread by_connection,
    balanced D s (by_thread ++ by_connection) ∧ excused s by_thread by_connection.

Lemma dropped_same_phase s s' : at_phase s' = at_phase s → dropped_by s s' = [].
Proof.
  unfold dropped_by. intros ->. destruct (at_phase s) as [| | |[|f q]|]; try done. cbn [length].
  by rewrite (proj2 (Nat.eqb_neq _ _)) by lia.
Qed.

(** A step that leaves the shares of the threads and the history alone. *)
Lemma accounted_same D s s' : accounted D s → dropped_by s s' = [] →
  workers (pool s') = workers (pool s) → scans (pool s') = scans (pool s) →
  found (shared (pool s')) = found (shared (pool s)) → submitted s' = submitted s →
  failure (shared (pool s')) = failure (shared (pool s)) →
  (in_hand s' = in_hand s ∧ ∀ e, at_phase s ≠ Failed e) ∨ (∃ e, at_phase s' = Failed e) →
  accounted (D ++ dropped_by s s') s'.
Proof.
  intros (Hr & gt & gc & Hb & Hgt & Hgc) -> Hw Hs Hf Hsub Hfa Hh. rewrite app_nil_r. split; [done|].
  unfold excused. rewrite Hfa. destruct Hh as [[Hh Hne]|Hfl].
  - exists gt, gc. unfold balanced, waiting. rewrite Hw, Hs, Hf, Hsub, Hh. split_and!; [exact Hb|done|].
    destruct Hgc as [|[e He]]; [by left|]. by destruct (Hne e).
  - exists gt, (in_hand s ++ gc). split_and!; [|done|by right]. unfold balanced, waiting in *.
    rewrite Hw, Hs, Hf, Hsub, Hb. destruct Hfl as [e He]. unfold in_hand at 2. rewrite He. solve_Permutation.
Qed.

Lemma thread_accounted D p p' c ph l : pool_inv p → thread_step backend p p' →
  accounted D (Build_System p c ph l) →
  accounted (D ++ dropped_by (Build_System p c ph l) (Build_System p' c ph l)) (Build_System p' c ph l).
Proof.
  intros Hp Hs (Hr & gt & gc & Hb & Hgt & Hgc). rewrite dropped_same_phase, app_nil_r by done. split; [done|].
  destruct (thread_step_shares backend p p' Hlaws Hp Hs) as (lost & Hl & Hn).
  destruct (thread_step_frame _ _ _ Hs) as (_ & _ & _ & _ & Hfail).
  exists (lost ++ gt), gc. split; [|split; [cbn [pool] in Hgt |- *|exact Hgc]].
  - unfold balanced in *. cbn [pool coord at_phase submitted in_hand] in *. rewrite (Hl _ Hb). solve_Permutation.
  - destruct (failure (shared p')) eqn:E; [by right|]. rewrite (Hn eq_refl).
    destruct Hgt as [->|Hf]; [by left|]. apply not_eq_None_Some in Hf. destruct (Hfail Hf). congruence.
Qed.

Lemma take_accounted D p c c' r l : take_queue (shared p) c = (c', r) →
  let s := Build_System p c Taking l in
  let s' := Build_System (if is_ok r then empty_queue p else p) c' (after r Submitting) l in
  accounted D s → accounted (D ++ dropped_by s s') s'.
Proof.
  intros He s s' Hs. destruct r as [q|e]; cbn [is_ok after] in s'.
  2:{ apply accounted_same; try done. right. by exists e. }
  apply take_queue_found in He as ->. destruct Hs as (Hr & gt & gc & Hb & Hgt & Hgc).
  change (dropped_by s s') with (@nil (Coord P * Found)). rewrite app_nil_r. split; [done|].
  exists gt, gc. split; [|split; [exact Hgt|by left; destruct Hgc as [|[e' Hf]]]].
  unfold balanced, waiting in *. cbn in *. rewrite Hb. solve_Permutation.
Qed.

Lemma submit_accounted D p c c' r now f q l : pool_inv p → genuine_share p f → submit_found o now f c = (c', r) →
  let s := Build_System p c (Submitting (f :: q)) l in
  let s' := Build_System p c' (after r (λ _, Submitting q))
              (l ++ if nextid c =? nextid c' then [] else [(nextid c, f)]) in
  accounted D s → accounted (D ++ dropped_by s s') s'.
Proof.
  intros Hp Hgf He s s' Hs. destruct (genuine_spec p _ _ Hp Hgf) as (Hlen & _ & Hm & _).
  destruct (submit_found_spec o now f c c' r Hlen Hm He) as (_ & _ & _ & _ & Hcase).
  destruct r as [u|e]; cbn [after] in s'.
  2:{ destruct Hcase as [Hni _]. apply accounted_same; try done; [|right; by exists e].
      cbn. by rewrite Hni, Z.eqb_refl, app_nil_r. }
  destruct Hs as (Hr & gt & gc & Hb & Hgt & Hgc).
  assert (excused s' gt gc) as Hg' by (split; [exact Hgt|left; by destruct Hgc as [|[e' Hf]]]).
  destruct Hcase as [(_ & Hni & Hdrop)|(_ & _ & _ & Hni)].
  - assert (dropped_by s s' = [(c, f)]) as ->.
    { unfold dropped_by. cbn. by rewrite Hni, Z.eqb_refl, app_nil_r, !Nat.eqb_refl. }
    split; [by apply Forall_app; split; [|apply Forall_singleton]|]. exists gt, gc. split; [|done].
    unfold balanced, waiting in *. cbn [s s' in_hand pool at_phase submitted workers scans shared] in *.
    rewrite Hb, Hni, Z.eqb_refl, app_nil_r, fmap_app. cbn. solve_Permutation.
  - assert (dropped_by s s' = []) as ->.
    { unfold dropped_by. cbn. rewrite (proj2 (Z.eqb_neq _ _)) by lia. rewrite length_app. cbn.
      by rewrite (proj2 (Nat.eqb_neq (_ + 1) _)), andb_false_r by lia. }
    rewrite app_nil_r. split; [done|]. exists gt, gc. split; [|done].
    unfold balanced, waiting in *. cbn [s s' in_hand pool at_phase submitted workers scans shared] in *.
    rewrite Hb, (proj2 (Z.eqb_neq _ _)) by lia. rewrite fmap_app. cbn. solve_Permutation.
Qed.

(** A step of the coordinator that touches no share. *)
Ltac untouched := apply accounted_same; try done;
  first [by left | by right; eexists].

Lemma step_accounted D s s' : system_inv s → system_step backend o s s' → accounted D s →
  accounted (D ++ dropped_by s s') s'.
Proof.
  intros Hinv Hstep Hs. destruct Hstep.
  - apply thread_accounted; [apply Hinv|done|done].
  - untouched.
  - destruct r; untouched.
  - destruct r; untouched.
  - unfold publish_to. destruct (decide _); destruct r; untouched.
  - untouched.
  - by apply take_accounted.
  - destruct (alive_inv _ Hinv) as (_ & _ & _ & _ & Hq); [done|]. cbn in Hq. apply Forall_cons in Hq as [Hg _].
    eapply submit_accounted; [apply Hinv|done..].
  - destruct r; untouched.
  - apply accounted_same; try done; [|by right; eexists].
    unfold dropped_by. cbn. by destruct ph as [| | |[|]|].
Qed.

Lemma run_accounted s0 D s : system_start s0 → run s0 D s → system_inv s ∧ accounted D s.
Proof.
  intros Hstart. induction 1 as [|D s s' _ [Hinv IH] Hs].
  - split; [by apply start_inv|]. split; [done|]. exists [], [].
    destruct Hstart as ((Hsh & _ & Hsc & _ & Hf) & Hph & Hsub & _). split; [|by split; left].
    unfold balanced, waiting, in_hand. rewrite Hsc, Hsub, Hph, Hsh. cbn. rewrite !app_nil_r.
    assert (workers (pool s0) ≫= in_flight = []) as ->; [|done].
    induction Hf as [|w ws (_ & _ & Hst & _) _ IH]; [done|]. rewrite bind_cons, IH. unfold in_flight. by rewrite Hst.
  - split; [by eapply system_step_inv|by apply step_accounted].
Qed.

(** What a run accounts for is pairwise different in job or nonce. *)
Lemma accounted_NoDup D s gone : system_inv s → balanced D s gone →
  NoDup (key <$> (waiting (pool s) ++ in_hand s ++ (snd <$> submitted s) ++ (snd <$> D) ++ gone)).
Proof.
  intros ((Hj & _ & Hent & Hso & _) & _) Hb.
  pose proof (shares_scanned_NoDup _ (workers (pool s)) _ Hj Hent Hso) as Hnd.
  unfold balanced in Hb. by rewrite Hb in Hnd.
Qed.

(** C11: No share is lost.  In every interleaving, failing ones included, the
    solutions of all scans the threads started are: with the thread that scans
    them, in the queue, in the coordinator's hand, submitted, or dropped because
    their job had been retired or the miner is shutting down - each exactly as often
    as it was found.  What is lost otherwise was lost by a thread that failed, and
    then the failure is recorded for the coordinator, or was in the coordinator's
    hand when the connection failed.  No two of all these shares agree in job and
    nonce, so no share is in two of the places or twice in one. *)
Theorem no_share_lost s0 D s : system_start s0 → run s0 D s → ∃ by_thread by_connection,
  let places := waiting (pool s) ++ in_hand s ++ (snd <$> submitted s) ++ (snd <$> D) ++
                by_thread ++ by_connection in
  shares_scanned (workers (pool s)) (scans (pool s)) ≡ₚ places ∧ NoDup (key <$> places) ∧
  Forall refused D ∧
  (by_thread = [] ∨ failure (shared (pool s)) ≠ None) ∧ (by_connection = [] ∨ ∃ e, at_phase s = Failed e).
Proof.
  intros Hstart Hr. destruct (run_accounted s0 D s Hstart Hr) as (Hinv & HD & gt & gc & Hb & Hgt & Hgc).
  exists gt, gc. cbn zeta. split_and!; try done. by apply (accounted_NoDup D s).
Qed.

Lemma submitted_NoDup s0 s : system_start s0 → rtc (system_step backend o) s0 s →
  NoDup (key ∘ snd <$> submitted s).
Proof.
  intros Hstart Hr. assert (∃ D, run s0 D s) as [D Hrun].
  { apply rtc_ind_r with (P := λ s, ∃ D, run s0 D s) in Hr as [D Hrun]; [by exists D| |].
    - exists []. constructor.
    - intros s1 s2 _ Hs [D HD]. eexists. by econstructor. }
  destruct (run_accounted s0 D s Hstart Hrun) as (Hinv & _ & gt & gc & Hb & _).
  pose proof (accounted_NoDup D s _ Hinv Hb) as Hnd. rewrite !fmap_app in Hnd. rewrite list_fmap_compose.
  apply NoDup_app in Hnd as (_ & _ & Hnd). apply NoDup_app in Hnd as (_ & _ & Hnd).
  by apply NoDup_app in Hnd as (Hnd & _ & _).
Qed.
(** C12: No share is submitted twice: in every interleaving and whatever the pool
    sends, the shares submitted on a connection are pairwise different in their job
    (generation and time included) or in their nonce. *)
Theorem no_duplicate_share s0 s : system_start s0 → rtc (system_step backend o) s0 s →
  NoDup (key ∘ snd <$> submitted s).
Proof. apply submitted_NoDup. Qed.
End conservation.

(** ** Progress: from the published job to the queue *)

Section scanning.
Context (backend : nat → Backend).

(** Steps of anyone but thread [i]: other threads, and the coordinator. *)
Definition others (i : nat) (p p' : Pool) : Prop :=
  pool_step backend p p' ∧ workers p' !! i = workers p !! i.

(** The range thread [i] is about to take of job [j]. *)
Definition next_task (p : Pool) (i : nat) (w : Worker) (j : Job) : result (Z * Z * Task) :=
  let reserved := if j_sv2 j then if shared_generation (shared p) =? j_generation j then shared_cursor (shared p) else 0 else 0 in
  assign (Z.of_nat i) (w_batch w) j reserved (w_generation w) (w_cursor w).

Lemma others_worker i p p' : rtc (others i) p p' → workers p' !! i = workers p !! i.
Proof. induction 1 as [|p1 p2 p3 [_ Hw] _ IH]; congruence. Qed.

Lemma run_worker i p w : workers p !! i = Some w → run_workers backend [i] p =
  let r := worker_step backend i (shared p) w in
  {| shared := r.1.1; workers := <[i := r.1.2]> (workers p); issued := issued p; scans := scans p ++ r.2 |}.
Proof. intros Hi. unfold run_workers. cbn [fold_left]. by rewrite Hi. Qed.

Lemma run_worker_lookup i p w : workers p !! i = Some w →
  workers (run_workers backend [i] p) !! i = Some (worker_step backend i (shared p) w).1.2.
Proof.
  intros Hi. rewrite (run_worker i p w Hi). cbn zeta. cbn [workers].
  by rewrite list_lookup_insert_eq by (by eapply lookup_lt_Some).
Qed.

(** Taking a range succeeds exactly when [next_task] does. *)
Lemma take_range p i w j g c t : w_stage w = Looping → work (shared p) = Some j →
  next_task p i w j = Ok (g, c, t) →
  ∃ s e, worker_step backend i (shared p) w = (s, with_task g c t w, [e]) ∧ e_worker e = i ∧ e_base e = j ∧ e_task e = t.
Proof.
  intros Hst Hw Hn. unfold worker_step. rewrite Hst. pose proof (reserve_spec (w_batch w) (shared p)) as Hr.
  destruct (reserve (w_batch w) (shared p)) as [s r]. rewrite Hw in Hr. unfold next_task in Hn.
  destruct (j_sv2 j) eqn:Hv.
  - cbn zeta in Hr. set (c0 := if shared_generation _ =? _ then _ else 0) in *.
    assert (∃ pt, Sv2.partition (j_time32 j) 0 c0 (w_batch w) = Ok pt) as [pt Hpt].
    { revert Hn. unfold assign. destruct (if j_generation j =? w_generation w then _ else _). rewrite Hv.
      destruct (Sv2.partition _ _ _ _) as [pt|]; [by exists pt|discriminate]. }
    rewrite Hpt in Hr. destruct Hr as [_ ->]. rewrite Hn. by eexists _, _.
  - destruct Hr as [_ ->]. rewrite Hn. by eexists _, _.
Qed.

(** ... and fails exactly when [next_task] does, with the same exception. *)
Lemma take_range_fails p i w j e : w_stage w = Looping → work (shared p) = Some j →
  next_task p i w j = Throw e →
  ∃ s, worker_step backend i (shared p) w = fail e s w ∧ found s = found (shared p).
Proof.
  intros Hst Hw Hn. unfold worker_step. rewrite Hst. destruct (reserve (w_batch w) (shared p)) as [s r] eqn:E.
  pose proof (reserve_found _ _ _ _ E) as Hf. pose proof (reserve_spec (w_batch w) (shared p)) as Hr.
  rewrite E, Hw in Hr. exists s. unfold next_task in Hn. destruct (j_sv2 j) eqn:Hv.
  - cbn zeta in Hr. set (c0 := if shared_generation _ =? _ then _ else 0) in *.
    destruct (Sv2.partition (j_time32 j) 0 c0 (w_batch w)) as [pt|e'] eqn:Hpt; destruct Hr as [_ ->].
    + by rewrite Hn.
    + split; [|done]. f_equal. revert Hn. unfold assign.
      destruct (if j_generation j =? w_generation w then _ else _). rewrite Hv, Hpt. by intros [= ->].
  - destruct Hr as [_ ->]. by rewrite Hn.
Qed.

(** Thread [i] ends with its message recorded; the queue is left as it is. *)
Definition ended (i : nat) (p p' : Pool) (msg : string) : Prop :=
  failure (shared p') = Some msg ∧ found (shared p') = found (shared p) ∧
  ∃ w', workers p' !! i = Some w' ∧ w_stage w' = Stopped.

Lemma run_fails p i w e s : workers p !! i = Some w → worker_step backend i (shared p) w = fail e s w →
  found s = found (shared p) → ended i p (run_workers backend [i] p) (what e).
Proof.
  intros Hi Hstep Hf. pose proof (run_worker_lookup i p w Hi) as Hl. unfold ended. rewrite Hl.
  rewrite (run_worker i p w Hi), Hstep. split_and!; [done|exact Hf|]. by eexists.
Qed.

(** The second step: the scan. *)
Lemma scan_step p i w t : workers p !! i = Some w → w_stage w = Scanning t →
  match @scan (backend i) (j_work (t_job t)) (t_start t) (t_count t) with
  | Throw e => ended i p (run_workers backend [i] p) (what e)
  | Ok r => found (shared (run_workers backend [i] p)) = found (shared p) ∧
            workers (run_workers backend [i] p) !! i = Some (with_scan (t_job t) r w)
  end.
Proof.
  intros Hi Hst. pose proof (run_worker_lookup i p w Hi) as Hl.
  destruct (scan _ _ _) as [r|e] eqn:Hscan.
  - rewrite Hl, (run_worker i p w Hi). unfold worker_step. by rewrite Hst, Hscan.
  - apply (run_fails p i w e (shared p)); [done| |done]. unfold worker_step. by rewrite Hst, Hscan.
Qed.

(** The third: the queue. *)
Lemma publish_step p i w j ns : workers p !! i = Some w → w_stage w = Publishing j ns →
  let p' := run_workers backend [i] p in
  if 8192 <? Z.of_nat (length (found (shared p))) + Z.of_nat (length ns)
  then ended i p p' "share queue overflow"
  else found (shared p') = found (shared p) ++ shares_of (w_row w) j ns ∧
       workers p' !! i = Some (with_stage Looping w).
Proof.
  intros Hi Hst p'. pose proof (run_worker_lookup i p w Hi) as Hl. subst p'.
  destruct (8192 <? _) eqn:Hfull.
  - apply (run_fails p i w (runtime_error "share queue overflow") (shared p)); [done| |done].
    unfold worker_step. rewrite Hst. unfold publish, mbind, stM_bind, st_get, st_require, st_modify, throw_if.
    by rewrite Hfull.
  - rewrite Hl, (run_worker i p w Hi). unfold worker_step. rewrite Hst.
    unfold publish, mbind, stM_bind, st_get, st_require, st_modify, throw_if. by rewrite Hfull.
Qed.

(** Steps of other threads are steps of others. *)
Lemma run_others i ks p : i ∉ ks → rtc (others i) p (run_workers backend ks p).
Proof.
  revert p. induction ks as [|k ks IH]; intros p Hk; [done|]. apply not_elem_of_cons in Hk as [Hne Hk].
  change (run_workers backend (k :: ks) p) with (run_workers backend ks (run_workers backend [k] p)).
  destruct (workers p !! k) as [w|] eqn:Hw.
  - eapply rtc_l; [|by apply IH]. rewrite (run_worker k p w Hw). split.
    + apply (step_worker backend p k w _ _ _ Hw). cbn zeta. by rewrite <- !surjective_pairing.
    + cbn [workers]. by rewrite list_lookup_insert_ne by done.
  - assert (run_workers backend [k] p = p) as ->; [|by apply IH]. unfold run_workers. cbn [fold_left]. by rewrite Hw.
Qed.

(** C14: Work gets done, or the failure is recorded: a thread at the head of its loop
    that finds a job takes three steps of its own, whatever the other threads, the
    coordinator and new jobs do in between.  The first takes the range of
    [next_task]; the second scans it and leaves the queue alone; the third appends
    exactly the solutions of the range to the queue, under the thread's own row, if
    with them the queue holds at most 8192 shares then, and the thread is back at
    the head with the range counted.  If the nonces are exhausted, the scan throws or
    the queue has no room, that step appends nothing: it records the message of the
    exception as the failure the coordinator reports, and the thread ends. *)
Theorem solutions_reach_queue p0 p p1 p2 i w j :
  (∀ k, @BackendLaws (backend k)) → pool_start p0 → rtc (pool_step backend) p0 p →
  workers p !! i = Some w → w_stage w = Looping → work (shared p) = Some j →
  let q1 := run_workers backend [i] p in let q2 := run_workers backend [i] p1 in
  let q3 := run_workers backend [i] p2 in
  rtc (others i) q1 p1 → rtc (others i) q2 p2 →
  match next_task p i w j with
  | Throw e => ended i p q1 (what e)
  | Ok (g, c, t) =>
      (∃ e, scans q1 = scans p ++ [e] ∧ e_worker e = i ∧ e_base e = j ∧ e_task e = t) ∧
      match @scan (backend i) (j_work (t_job t)) (t_start t) (t_count t) with
      | Throw e => ended i p1 q2 (what e)
      | Ok _ =>
          0 < t_count t ∧ found (shared q2) = found (shared p1) ∧
          if 8192 <? Z.of_nat (length (found (shared p2))) + Z.of_nat (length (solutions_of t))
          then ended i p2 q3 "share queue overflow"
          else found (shared q3) ≡ₚ found (shared p2) ++ shares_of (w_row w) (t_job t) (solutions_of t) ∧
               ∃ w', workers q3 !! i = Some w' ∧ w_stage w' = Looping ∧ w_hashes w' = u64 (w_hashes w + t_count t)
      end
  end.
Proof.
  intros Hl H0 Hr Hi Hst Hw q1 q2 q3 Hp1 Hp2. destruct (next_task p i w j) as [[[g c] t]|e] eqn:Hn.
  2:{ destruct (take_range_fails p i w j e Hst Hw Hn) as (s & Hstep & Hf). by apply (run_fails p i w e s). }
  destruct (take_range p i w j g c t Hst Hw Hn) as (s & e & Hstep & He & Hb & Ht).
  pose proof (run_worker_lookup i p w Hi) as Hi1. rewrite Hstep in Hi1. cbn [fst snd] in Hi1.
  assert (task_ok t) as (Hh & Htl & Hs & Hc).
  { eapply (scanning_task_ok q1); [|exact Hi1|done].
    apply (pool_reachable_inv backend Hl p0); [done|]. etrans; [exact Hr|apply run_workers_reachable]. }
  split; [exists e; subst q1; rewrite (run_worker i p w Hi), Hstep; by split_and!|].
  fold q1 in Hi1. rewrite <- (others_worker i _ _ Hp1) in Hi1.
  pose proof (scan_step p1 i _ t Hi1 eq_refl) as H2. fold q2 in H2.
  destruct (scan _ _ _) as [r|e2] eqn:Hscan; [|exact H2]. destruct H2 as [Hf2 Hi2].
  destruct (scan_exact _ _ _ Hh Htl Hs Hc r Hscan) as (Hrange & Hhash & Hns).
  split; [unfold range_ok in Hrange; unfold is_u32 in Hc; bool_lia|]. split; [exact Hf2|].
  rewrite <- (others_worker i _ _ Hp2) in Hi2.
  pose proof (publish_step p2 i _ (t_job t) (nonces r) Hi2 eq_refl) as H3. cbn zeta in H3. fold q3 in H3.
  assert (length (nonces r) = length (solutions_of t)) as Hlen by (unfold solutions_of; by rewrite Hns).
  rewrite Hlen in H3. destruct (8192 <? _); [exact H3|]. destruct H3 as [-> Hi3]. split.
  - unfold shares_of, solutions_of. by rewrite Hns.
  - eexists. split; [exact Hi3|]. split; [done|]. cbn. by rewrite Hhash.
Qed.
End scanning.

(** ** Stopping *)

Section stopping.
Context (backend : nat → Backend).

(** A step of a thread that was asked to stop: the test of the loop ends it. *)
Definition stop_step (i : nat) (s : Shared) (w : Worker) : Shared * Worker * list Entry :=
  match w_stage w with Looping => (s, with_stage Stopped w, []) | _ => worker_step backend i s w end.
(** [join]: the steps of the thread, each from the variables it meets. *)
Fixpoint join (i : nat) (ss : list Shared) (w : Worker) : Worker * list Entry :=
  match ss with
  | [] => (w, [])
  | s :: ss => let '(_, w, new) := stop_step i s w in let '(w, later) := join i ss w in (w, new ++ later)
  end.
Definition steps_left (w : Worker) : nat :=
  match w_stage w with Scanning _ => 3 | Publishing _ _ => 2 | Looping => 1 | Stopped => 0 end.

Lemma stop_step_left i s w s' w' new : stop_step i s w = (s', w', new) →
  new = [] ∧ (steps_left w' ≤ steps_left w - 1)%nat.
Proof.
  unfold stop_step, worker_step, steps_left, fail. destruct (w_stage w) as [|t|j ns|] eqn:Hst.
  - intros [= <- <- <-]. by split.
  - destruct (scan _ _ _); intros [= <- <- <-]; split; try done; cbn; lia.
  - destruct (publish _ _ _ _) as [s1 [u|e]]; intros [= <- <- <-]; split; try done; cbn; lia.
  - intros [= <- <- <-]. by rewrite Hst.
Qed.

(** Stopping is prompt: whatever the other threads and the coordinator do to the
    shared variables meanwhile, a thread that was asked to stop ends after at most
    three steps of its own - the scan it is in, the hand-over of its shares and the
    loop's test - and takes no further range.  So [join] returns. *)
Theorem join_returns i ss w : (3 ≤ length ss)%nat →
  w_stage (join i ss w).1 = Stopped ∧ (join i ss w).2 = [].
Proof.
  intros Hl. assert (steps_left w ≤ length ss)%nat as Hr by (unfold steps_left; destruct (w_stage w); lia).
  clear Hl. revert w Hr. induction ss as [|s ss IH]; intros w Hr; cbn [join].
  - unfold steps_left in Hr. destruct (w_stage w) eqn:E; cbn in *; try lia. done.
  - destruct (stop_step i s w) as [[s' w'] new] eqn:E. apply stop_step_left in E as [-> Hle].
    destruct (IH w') as [H1 H2]; [cbn in Hr; lia|]. by destruct (join i ss w').
Qed.
End stopping.

(** ** Progress: from the queue to the pool *)

Section progress.
Context {P : Type} `{ProtocolLaws P} `{FloatPrinter} (o : MineOptions).

(** Consecutive submissions that succeed, numbered from [id] on. *)
Inductive sends : list Found → Z → P → P → Prop :=
| sends_nil id p : sends [] id p p
| sends_cons f l id p p1 p' : send_share o (f_job f) (f_nonce f) id p = (p1, Ok tt) →
    sends l (id + 1) p1 p' → sends (f :: l) id p p'.

(** A share the submit-time check accepts. *)
Definition sound (f : Found) : Prop := length (header (j_work (f_job f))) = 80%nat ∧
  meets (nonce_hash (header (j_work (f_job f))) (f_nonce f)) (target (j_work (f_job f))) = true.

#[export] Instance sound_dec f : Decision (sound f).
Proof. unfold sound. apply _. Defined.

(** What one share of the queue leads to. *)
Definition table_full : exn := runtime_error "too many outstanding shares".
Definition submitted_one (now : Z) (f : Found) (c c' : Coord P) (r : result unit) : Prop :=
  draining c' = draining c ∧
  if draining c || negb (is_valid (proto c) (f_job f)) then c' = c ∧ r = Ok tt
  else if (4096 <=? size (pending c))%nat then c' = c ∧ r = Throw table_full
  else match send_share o (f_job f) (f_nonce f) (nextid c) (proto c) with
       | (p, Ok _) => r = Ok tt ∧ proto c' = p ∧ nextid c' = nextid c + 1 ∧
           pending c' = <[nextid c := {| sent := now; p_row := f_row f |}]> (pending c)
       | (p, Throw e) => r = Throw e ∧ proto c' = p ∧ nextid c' = nextid c ∧ pending c' = pending c
       end.

Lemma submit_found_cases now f c : sound f → wp (submit_found o now f) (submitted_one now f c) c.
Proof.
  intros [Hl Hm]. unfold submit_found, submitted_one. apply wp_bind, wp_get. cbn [wp_next].
  destruct (draining c) eqn:Hd; [by apply wp_ret|].
  destruct (is_valid (proto c) (f_job f)); cbn [negb orb]; [|by apply wp_ret].
  apply wp_bind, wp_require; intros Hsz; cbn [wp_next].
  2:{ apply negb_false_iff in Hsz. by rewrite Hsz. }
  apply negb_true_iff in Hsz. rewrite Hsz. cbn zeta.
  destruct (nonce_hash_ok (header (j_work (f_job f))) (f_nonce f) Hl) as [Hb _].
  unfold nonce_header in Hb. rewrite Hb. apply wp_bind, wp_lift. cbn [wp_next]. rewrite Hm. cbn [negb].
  apply wp_bind, wp_ret. cbn [wp_next]. apply wp_bind.
  assert (∀ c1, proto c1 = proto c → pending c1 = pending c → nextid c1 = nextid c → draining c1 = false →
    wp (_ ← with_proto (send_share o (f_job f) (f_nonce f) (nextid c));
        st_modify (λ c, set_nextid (nextid c + 1)
          (set_pending (<[nextid c := {| sent := now; p_row := f_row f |}]> (pending c)) c)))
      (λ c' r, draining c' = false ∧
        match send_share o (f_job f) (f_nonce f) (nextid c) (proto c) with
        | (p, Ok _) => r = Ok tt ∧ proto c' = p ∧ nextid c' = nextid c + 1 ∧
            pending c' = <[nextid c := {| sent := now; p_row := f_row f |}]> (pending c)
        | (p, Throw e) => r = Throw e ∧ proto c' = p ∧ nextid c' = nextid c ∧ pending c' = pending c
        end) c1) as Hsend.
  { intros c1 Hp Hpe Hn Hdr. apply wp_bind. unfold wp at 1, with_proto. rewrite Hp.
    destruct (send_share o _ _ _ (proto c)) as [p [u|e]]; cbn [fst snd wp_next]; [|by split_and!].
    apply wp_modify. cbn. by rewrite Hpe, Hn. }
  destruct (meets _ (j_network_target _)); [|apply wp_ret; cbn [wp_next]; by apply Hsend].
  unfold on_view, say. apply wp_bind, wp_modify. cbn [wp_next]. apply wp_modify. cbn [wp_next]. by apply Hsend.
Qed.

Lemma sends_app l l' id p p1 p' : sends l id p p1 → sends l' (id + Z.of_nat (length l)) p1 p' →
  sends (l ++ l') id p p'.
Proof.
  induction 1 as [id p|f l id p p1 p2 Hs _ IH]; cbn [app length].
  - by rewrite Z.add_0_r.
  - intros Hl'. econstructor; [done|]. apply IH. by replace (id + 1 + Z.of_nat (length l)) with (id + Z.of_nat (S (length l))) by lia.
Qed.
Lemma sends_valid l id p p' : sends l id p p' → ∀ j, is_valid p' j = is_valid p j.
Proof.
  induction 1 as [id p|f l id p p1 p' Hs _ IH]; [done|]. intros j. rewrite IH.
  pose proof (send_share_valid o (f_job f) (f_nonce f) id p) as Hv. unfold wp in Hv. rewrite Hs in Hv. by apply Hv.
Qed.

(** The outcome of submitting a queue [q] from [c]: the first [k] of its valid shares
    are sent and pending, and if there are more something stands in the way. *)
Record delivered (q : list Found) (c c' : Coord P) (r : result unit) (k : nat) (p : P) : Prop := {
  dl_sends : sends (take k (filter (λ f, is_valid (proto c) (f_job f) = true) q)) (nextid c) (proto c) p;
  dl_nextid : nextid c' = nextid c + Z.of_nat k;
  dl_pending : ∀ i f, (i < k)%nat → filter (λ f, is_valid (proto c) (f_job f) = true) q !! i = Some f →
    p_row <$> pending c' !! (nextid c + Z.of_nat i) = Some (f_row f);
  dl_old : ∀ id, id < nextid c → pending c' !! id = pending c !! id;
  dl_end : (k = length (filter (λ f, is_valid (proto c) (f_job f) = true) q) ∧ proto c' = p) ∨
    (r = Throw table_full ∧ (4096 ≤ size (pending c'))%nat) ∨
    ∃ f e, filter (λ f, is_valid (proto c) (f_job f) = true) q !! k = Some f ∧ r = Throw e ∧
      send_share o (f_job f) (f_nonce f) (nextid c') p = (proto c', Throw e);
}.

Lemma submit_all_delivered (t : nat → Z) l c : Forall (λ jf, sound jf.2) l → draining c = false →
  wp (st_iter (λ jf, submit_found o (t jf.1) jf.2) l)
    (λ c' r, draining c' = false ∧ ∃ k p, delivered (snd <$> l) c c' r k p) c.
Proof.
  intros Hg. revert c. induction Hg as [|[n f] l Hf _ IH]; intros c Hd; cbn [st_iter].
  { apply wp_ret. split; [done|]. exists 0%nat, (proto c). split; cbn; try (constructor || lia); try done; by left. }
  apply wp_bind. eapply wp_mono; [by apply (submit_found_cases (t n) f)|]. intros c1 r [Hd1 Hcase].
  rewrite Hd in Hd1, Hcase. cbn [orb fst snd] in Hcase. rewrite fmap_cons. cbn [snd].
  set (V := λ f : Found, is_valid (proto c) (f_job f) = true).
  destruct (is_valid (proto c) (f_job f)) eqn:Hv; cbn [negb] in Hcase.
  2:{ destruct Hcase as [-> ->]. cbn [wp_next]. eapply wp_mono; [by apply IH|]. intros c' r (Hd' & k & p & [Hs Hn Hp Ho He]).
      split; [done|]. exists k, p. assert (filter V (f :: (snd <$> l)) = filter V (snd <$> l)) as E.
      { rewrite filter_cons. unfold V. rewrite Hv. by case_decide. }
      unfold V in *. by split; rewrite ?E. }
  assert (filter V (f :: (snd <$> l)) = f :: filter V (snd <$> l)) as E.
  { rewrite filter_cons. unfold V. rewrite Hv. by case_decide. }
  destruct (4096 <=? size (pending c))%nat eqn:Hsz.
  { destruct Hcase as [-> ->]. cbn [wp_next]. split; [done|]. exists 0%nat, (proto c).
    split; [constructor|lia|intros; lia|by intros ? ?; rewrite ?Hpe|]. right. left. split; [done|]. by apply Nat.leb_le in Hsz. }
  destruct (send_share o _ _ _ _) as [p1 [u|e]] eqn:Hs.
  2:{ destruct Hcase as (-> & Hp & Hn & Hpe). cbn [wp_next]. split; [done|]. exists 0%nat, (proto c).
      split; [constructor|lia|intros; lia|by intros ? ?; rewrite ?Hpe|]. right. right. exists f, e. unfold V in E. rewrite E, Hn, Hp. by split_and!. }
  destruct Hcase as (-> & Hp & Hn & Hpe). cbn [wp_next]. destruct u.
  eapply wp_mono; [by apply IH|]. intros c' r (Hd' & k & p & [Hs' Hn' Hp' Ho' He']).
  pose proof (send_share_valid o (f_job f) (f_nonce f) (nextid c) (proto c)) as Hval. unfold wp in Hval.
  rewrite Hs in Hval. cbn in Hval. specialize (Hval eq_refl).
  assert (filter (λ f, is_valid (proto c1) (f_job f) = true) (snd <$> l) = filter V (snd <$> l)) as E'.
  { apply list_filter_iff. intros x. unfold V. by rewrite Hp, Hval. }
  rewrite E' in Hs', Hp', He'. split; [done|]. exists (S k), p. split.
  - unfold V in E. rewrite E. cbn [take]. econstructor; [exact Hs|]. by rewrite <- Hp, <- Hn.
  - lia.
  - intros i f' Hi Hf'. unfold V in E. rewrite E in Hf'. destruct i as [|i].
    + injection Hf' as <-. rewrite Z.add_0_r, Ho', Hpe, lookup_insert_eq by lia. done.
    + cbn in Hf'. rewrite <- (Hp' i f' ltac:(lia) Hf'), Hn. do 2 f_equal. lia.
  - intros id Hid. rewrite Ho', Hpe, lookup_insert_ne by lia. done.
  - unfold V in *. rewrite E. cbn [length lookup list_lookup]. rewrite Hn in *.
    destruct He' as [(-> & ?)|[?|?]]; [left|right; by left|right; by right]. by split_and!.
Qed.

(** What an iteration does last: the time-outs and the figures. *)
Definition reckon (e : Env) : stM (Coord P) unit :=
  _ ← check_timeouts (e_now e);
  update o false (e_begin e) (e_update_now e) (e_slots e) (e_readings e).

Lemma reckon_quiet e c : wp (reckon e)
  (λ c' _, proto c' = proto c ∧ nextid c' = nextid c ∧ pending c' = pending c) c.
Proof.
  assert (Keeps (reckon e)) as Hk by (unfold reckon; apply _).
  assert (Quiet (reckon e)) as Hq by (unfold reckon; apply _).
  specialize (Hk c). specialize (Hq c). unfold wp in *. destruct Hk as (Hp & _ & _ & _ & _ & Hn).
  destruct Hq as (_ & _ & _ & Hpe & _). by split_and!.
Qed.

Lemma delivered_quiet q c c1 c2 r r' k p : delivered q c c1 r k p → proto c2 = proto c1 → nextid c2 = nextid c1 →
  pending c2 = pending c1 → (is_ok r = false → r' = r) → delivered q c c2 r' k p.
Proof.
  intros [Hs Hn Hpe Ho He] Hp Hid Hpend Hr. split; [exact Hs|lia|by rewrite Hpend|by rewrite Hpend|].
  rewrite Hp, Hid, Hpend. destruct He as [?|[[-> ?]|(f & e & ? & -> & ?)]]; [by left|right; left|right; right].
  - by rewrite Hr.
  - exists f, e. by rewrite Hr.
Qed.

(** What an iteration does first: the read and its messages. *)
Definition hear (e : Env) : stM (Coord P) unit :=
  messages ← with_proto (arrive (e_read e));
  st_iter (λ im, on_message (e_message_time e im.1) im.2) (imap pair messages).

(** C13: The queue an iteration takes reaches the pool in that iteration: outside a
    shutdown, and with no thread failed, the valid shares of the queue are
    submitted one after the other under consecutive numbers and each is pending
    with its device's row, unless 4096 shares are pending already or the
    connection refuses a submission - and then all before it were submitted and
    the iteration throws. *)
Theorem queue_is_submitted e c c1 c' r : hear e c = (c1, Ok tt) → draining c1 = false →
  failure (e_shared e) = None → Forall sound (found (e_shared e)) → turn o e c = (c', r) →
  ∃ k p, delivered (found (e_shared e)) c1 c' r k p.
Proof.
  intros Hh Hd Hf Hq. unfold turn, hear in *. rewrite st_bind_eq in *.
  destruct (with_proto (arrive (e_read e)) c) as [c0 [ms|ex]]; [|done].
  rewrite st_bind_eq, Hh, st_bind_eq. unfold take_queue. rewrite Hf. cbn [mret stM_ret]. rewrite st_bind_eq.
  pose proof (submit_all_delivered (e_share_time e) (imap pair (found (e_shared e))) c1) as Hs.
  assert (snd <$> imap pair (found (e_shared e)) = found (e_shared e)) as Himap
    by (rewrite fmap_imap; etrans; [by apply (imap_ext _ (const id))|]; rewrite imap_const; apply list_fmap_id).
  rewrite Himap in Hs. unfold wp in Hs.
  rewrite <- Himap in Hq. apply (Forall_fmap snd sound) in Hq. specialize (Hs Hq Hd).
  destruct (st_iter _ _ c1) as [c2 r2]. cbn [fst snd] in Hs. destruct Hs as (_ & k & p & Hdel).
  destruct r2 as [u|ex]; intros Hturn.
  - pose proof (reckon_quiet e c2) as Ht. unfold wp in Ht. change (reckon e c2 = (c', r)) in Hturn. rewrite Hturn in Ht. destruct Ht as (?&?&?).
    exists k, p. by eapply delivered_quiet.
  - injection Hturn as <- <-. by exists k, p.
Qed.
End progress.

(** ** An example run *)

Module Delivered.
Import Run.
#[local] Existing Instance Run.printer.

(** The shares a schedule drops. *)
Fixpoint drops (l : list action) (s : System V1) : list (Coord V1 * Found) :=
  match l with
  | [] => []
  | a :: l => match perform cpu_backends options a s with Some s' => dropped_by s s' ++ drops l s' | None => [] end
  end.
Lemma schedule_run s0 l D s : run cpu_backends options s0 D s → run cpu_backends options s0 (D ++ drops l s) (schedule cpu_backends options l s).
Proof.
  revert D s. induction l as [|a l IH]; intros D s Hr; cbn [drops schedule]; [by rewrite app_nil_r|].
  destruct (perform cpu_backends options a s) as [s'|] eqn:E; [|by rewrite app_nil_r]. rewrite (assoc_L app). apply IH.
  econstructor; [done|]. by eapply perform_step.
Qed.

(** The second thread's share follows in the next turn of the loop. *)
Definition both : list action := to_submission ++ [CheckTime; Thread 1; Thread 1; Read (Ok []); Handled; Take; Submit].

Lemma nothing_gone {A} (l a b c d gt gc : list A) : l ≡ₚ a ++ b ++ c ++ d ++ gt ++ gc →
  gt = [] → gc = [] → l ≡ₚ a ++ b ++ c ++ d.
Proof. intros Hl -> ->. by rewrite !app_nil_r in Hl. Qed.

Lemma no_share_lost_witness :
  let s := schedule cpu_backends options to_submission start in
  length (shares_scanned (workers (pool s)) (scans (pool s))) = 2%nat ∧ length (submitted s) = 1%nat ∧
  shares_scanned (workers (pool s)) (scans (pool s)) ≡ₚ
    waiting (pool s) ++ in_hand s ++ (snd <$> submitted s) ++ (snd <$> drops to_submission start).
Proof.
  intros s. assert ((length (shares_scanned (workers (pool s)) (scans (pool s))), length (submitted s),
    failure (shared (pool s)), at_phase s) = (2%nat, 1%nat, None, Submitting [])) as Hs by (vm_compute; reflexivity).
  apply pair_eq in Hs as [[[Hl Hn]%pair_eq Hok]%pair_eq Hph]. split; [exact Hl|]. split; [exact Hn|].
  destruct (no_share_lost cpu_backends options cpu_backends_laws start (drops to_submission start) s start_ok
    (schedule_run start to_submission [] start (run_start _ _ start))) as (gt & gc & Hb & _ & _ & Hgt & Hgc).
  apply (nothing_gone _ _ _ _ _ gt gc Hb).
  - destruct Hgt as [Hgt|Hf]; [exact Hgt|]. destruct (Hf Hok).
  - destruct Hgc as [Hgc|[e He]]; [exact Hgc|]. rewrite Hph in He. discriminate.
Defined.

Lemma no_duplicate_share_witness :
  let s := schedule cpu_backends options both start in
  fst <$> submitted s = [10; 11] ∧ NoDup (key ∘ snd <$> submitted s).
Proof.
  intros s. split; [vm_compute; reflexivity|].
  exact (no_duplicate_share cpu_backends options cpu_backends_laws start s start_ok (schedule_reachable cpu_backends options both start)).
Defined.

(** A range of one nonce, the other thread stepping between. *)
Lemma solutions_reach_queue_witness :
  let p := sample_start false in
  let p1 := run_workers cpu_backends [1]%nat (run_workers cpu_backends [0]%nat p) in
  let p2 := run_workers cpu_backends [1; 1]%nat (run_workers cpu_backends [0]%nat p1) in
  let p3 := run_workers cpu_backends [0]%nat p2 in
  let t := {| t_job := sample_job false; t_start := 0; t_count := 1 |} in
  length (found (shared p3)) = 2%nat ∧
  found (shared p3) ≡ₚ found (shared p2) ++ shares_of 0 (t_job t) (solutions_of t).
Proof.
  intros p p1 p2 p3 t. split; [vm_compute; reflexivity|].
  assert (next_task p 0 sample_worker (sample_job false) = Ok (1, 0, t)) as Hn by (vm_compute; reflexivity).
  assert (@scan (cpu_backends 0) (j_work (t_job t)) (t_start t) (t_count t) = Ok (Build_Scan 1 [0])) as Hs
    by (vm_compute; reflexivity).
  assert ((8192 <? Z.of_nat (length (found (shared p2))) + Z.of_nat (length (solutions_of t))) = false) as Hroom
    by (vm_compute; reflexivity).
  assert (workers p !! 0%nat = Some sample_worker) as Hi by (vm_compute; reflexivity).
  assert (work (shared p) = Some (sample_job false)) as Hw by (vm_compute; reflexivity).
  pose proof (solutions_reach_queue cpu_backends sample_pool p p1 p2 0 sample_worker (sample_job false)
    cpu_backends_laws sample_pool_start (sample_reachable false []) Hi eq_refl Hw
    (run_others cpu_backends 0 [1]%nat (run_workers cpu_backends [0]%nat p) ltac:(by_compute))
    (run_others cpu_backends 0 [1; 1]%nat (run_workers cpu_backends [0]%nat p1) ltac:(by_compute))) as H.
  rewrite Hn in H. destruct H as [_ H]. rewrite Hs in H. destruct H as (_ & _ & H). rewrite Hroom in H. exact (proj1 H).
Defined.

(** Both shares found above reach the pool in one turn. *)
Definition found_above : list Found := Eval vm_compute in snd <$> submitted (schedule cpu_backends options both start).
Definition two_shares : Env (P := V1) :=
  {| e_expired := false; e_drain_now := 0; e_read := Ok replies; e_message_time := λ _, 0;
     e_shared := set_found found_above no_work; e_share_time := λ _, 0; e_now := 0;
     e_begin := 0; e_update_now := 0; e_slots := []; e_readings := [] |}.

(** A thread in the middle of a scan of one nonce. *)
Lemma join_returns_witness :
  let w := with_task 1 0 {| t_job := sample_job false; t_start := 0; t_count := 1 |} sample_worker in
  w_stage (join cpu_backends 0 [no_work; no_work; no_work] w).1 = Stopped ∧
  w_hashes (join cpu_backends 0 [no_work; no_work; no_work] w).1 = 1.
Proof.
  intros w. split; [|vm_compute; reflexivity].
  exact (proj1 (join_returns cpu_backends 0 [no_work; no_work; no_work] w (le_n 3))).
Defined.

Lemma queue_is_submitted_witness :
  let c1 := (hear two_shares coordinator).1 in
  let c' := (turn options two_shares coordinator).1 in
  nextid c' = 12 ∧ ∃ k p, delivered options (found (e_shared two_shares)) c1 c' (Ok tt) k p.
Proof.
  intros c1 c'.
  assert ((nextid c', (turn options two_shares coordinator).2) = (12, Ok tt)) as Ht by (vm_compute; reflexivity).
  assert ((draining c1, (hear two_shares coordinator).2) = (false, Ok tt)) as Hh by (vm_compute; reflexivity).
  apply pair_eq in Ht as [Hn Ht]. apply pair_eq in Hh as [Hd Hh]. split; [exact Hn|].
  assert (turn options two_shares coordinator = (c', Ok tt)) as Ht' by (rewrite <- Ht; apply surjective_pairing).
  assert (hear two_shares coordinator = (c1, Ok tt)) as Hh' by (rewrite <- Hh; apply surjective_pairing).
  assert (Forall sound (found (e_shared two_shares))) as Hs by by_compute.
  exact (queue_is_submitted options two_shares coordinator c1 c' (Ok tt) Hh' Hd eq_refl Hs Ht').
Defined.
End Delivered.
