(* ===== verification/Pool.v ===== *)
(** * A pool that checks every share

    A Stratum V1 pool written from the protocol: it remembers what it announced and
    checks each [mining.submit] against it, with the digest of RFC 7693 and targets
    as numbers.  It shares two readers with the miner, for hexadecimal text
    ([Hex.unhex]) and for decimal difficulties ([Targets.difficulty_target]); both
    are proved exact in their files.  What the miner (src/src/stratum.cpp,
    src/src/coin.cpp and the main loop of src/src/miner.cpp) writes passes
    that check, in every interleaving, whatever reads and writes of the socket
    fail. *)
From stdpp Require Import sorting.
From S2P Require Import Prelude Words Hex Blake Targets Work Json Options Workers View Coordinator Protocols System Refine Delivery.
From S2P Require Stratum.

(** ** The pool *)

(** A job as announced, with the extranonce1 and the target in force then. *)
Record PoolJob := { pj_prev : Bytes; pj_coinb1 : Bytes; pj_time : Bytes; pj_en1 : Bytes; pj_target : Z }.
Record PoolState := {
  ps_target : option Z; ps_en1 : option Bytes; ps_jobs : gmap string PoolJob; ps_seen : list (Bytes * Bytes)
}.
Definition new_pool : PoolState := {| ps_target := None; ps_en1 := None; ps_jobs := ∅; ps_seen := [] |}.

Definition set_ps_target (t : Z) (s : PoolState) : PoolState :=
  {| ps_target := Some t; ps_en1 := ps_en1 s; ps_jobs := ps_jobs s; ps_seen := ps_seen s |}.
Definition set_ps_en1 (e : Bytes) (s : PoolState) : PoolState :=
  {| ps_target := ps_target s; ps_en1 := Some e; ps_jobs := ps_jobs s; ps_seen := ps_seen s |}.
Definition set_ps_jobs (js : gmap string PoolJob) (s : PoolState) : PoolState :=
  {| ps_target := ps_target s; ps_en1 := ps_en1 s; ps_jobs := js; ps_seen := ps_seen s |}.
Definition see (k : Bytes * Bytes) (s : PoolState) : PoolState :=
  {| ps_target := ps_target s; ps_en1 := ps_en1 s; ps_jobs := ps_jobs s; ps_seen := ps_seen s ++ [k] |}.

(** The bytes a hexadecimal string stands for. *)
Definition text_bytes (j : json) : Bytes :=
  match j with JString s => match unhex s with Ok b => b | Throw _ => [] end | _ => [] end.

Section referee.
Context `{BigNum} `{FloatPrinter}.

(** [mining.notify]: the jobs before it are void if it is clean. *)
Definition announce_job (p : list json) (s : PoolState) : PoolState :=
  match ps_target s, ps_en1 s, nth 0 p JNull with
  | Some t, Some e, JString id =>
      set_ps_jobs (<[id := {| pj_prev := text_bytes (nth 1 p JNull); pj_coinb1 := text_bytes (nth 2 p JNull);
                              pj_time := text_bytes (nth 7 p JNull); pj_en1 := e; pj_target := t |}]>
                     (if eq_true (nth 8 p JNull) then ∅ else ps_jobs s)) s
  | _, _, _ => s
  end.

(** What the pool remembers of a message it sends. *)
Definition announce (m : json) (s : PoolState) : PoolState :=
  let p := elements (member m "params") in
  match find m "method" with
  | Some (JString method) =>
      if bool_decide (method = "mining.set_difficulty") then
        match difficulty_target (dump_number (nth 0 p JNull)) with
        | Ok t => set_ps_target (be_value t) s
        | Throw _ => s
        end
      else if bool_decide (method = "mining.set_extranonce") then set_ps_en1 (text_bytes (nth 0 p JNull)) s
      else if bool_decide (method = "mining.notify") then announce_job p s
      else s
  | Some _ => s
  | None =>
      match find m "id" with
      | Some i =>
          if is_number_integer i && bool_decide (get_int64 i = Ok 1)
          then set_ps_en1 (text_bytes (nth 1 (elements (member m "result")) JNull)) s else s
      | None => s
      end
  end.

(** The digest of a share, from its job, extranonce2, time and nonce. *)
Definition share_digest (j : PoolJob) (en2 time nonce : Bytes) : Bytes :=
  Rfc7693.blake2b 32 (pj_prev j ++ nonce ++ time ++
    Rfc7693.blake2b 32 ([x00] ++ pj_coinb1 j ++ pj_en1 j ++ en2)).

(** The verdict on a line the miner wrote: a share for the worker [user], of a job
    that is not void, with fields of the right sizes and the announced time, not
    submitted before, whose digest is at most the job's target. *)
Definition judge (user : string) (line : json) (s : PoolState) : PoolState * bool :=
  match find line "method", elements (member line "params") with
  | Some (JString "mining.submit"), [JString u; JString id; JString en2; JString time; JString nonce] =>
      match ps_jobs s !! id, unhex en2, unhex time, unhex nonce with
      | Some j, Ok e, Ok t, Ok n =>
          (see (e, n) s,
           bool_decide (u = user) && (length e =? 8)%nat && (length n =? 8)%nat && bool_decide (t = pj_time j) &&
           negb (bool_decide ((e, n) ∈ ps_seen s)) && (be_value (share_digest j e t n) <=? pj_target j))
      | _, _, _, _ => (s, false)
      end
  | _, _ => (s, false)
  end.

(** The conversation as the miner sees it: the pool's messages as it handles them,
    its own lines as it writes them. *)
Inductive event := Said (m : json) | Wrote (line : json).
Fixpoint referee (user : string) (evs : list event) (s : PoolState) : PoolState * list bool :=
  match evs with
  | [] => (s, [])
  | Said m :: evs => referee user evs (announce m s)
  | Wrote line :: evs =>
      let '(s, b) := judge user line s in
      let '(s, bs) := referee user evs s in (s, b :: bs)
  end.

Lemma referee_app user evs evs' s :
  referee user (evs ++ evs') s =
  let '(s1, bs) := referee user evs s in let '(s2, bs') := referee user evs' s1 in (s2, bs ++ bs').
Proof.
  revert s. induction evs as [|[m|line] evs IH]; intros s; cbn [app referee].
  - by destruct (referee user evs' s).
  - apply IH.
  - destruct (judge user line s) as [s1 b]. rewrite IH. destruct (referee user evs s1) as [s2 bs].
    by destruct (referee user evs' s2).
Qed.
End referee.

(** ** A message keeps both sides in step *)

Section messages.
Context {BN : BigNum} {BL : BigNumLaws BN} {FP : FloatPrinter}.
Import Stratum.

(** The settings for the next job are those the pool announced. *)
Definition same_settings (s : StratumState) (ps : PoolState) : Prop :=
  (have_target s = true → ps_target ps = Some (be_value (next_target s)) ∧ length (next_target s) = 32%nat) ∧
  (en2_size s = 8 → ∃ e, unhex (en1 s) = Ok e ∧ ps_en1 ps = Some e).

(** The job the pool keeps and the one the miner made of it. *)
Record offers (pj : PoolJob) (j : Job) : Prop := {
  of_header : header (j_work j) = pj_prev pj ++ replicate 8 x00 ++ pj_time pj ++
    Rfc7693.blake2b 32 ([x00] ++ pj_coinb1 pj ++ pj_en1 pj ++ le_bytes 8 (j_generation j));
  of_time : unhex (j_ntime j) = Ok (pj_time pj);
  of_target : be_value (target (j_work j)) = pj_target pj ∧ length (target (j_work j)) = 32%nat;
  of_sizes : length (pj_prev pj) = 32%nat ∧ length (pj_time pj) = 8%nat;
}.
(** A job of this protocol: its extranonce2 is its number. *)
Definition numbered (j : Job) : Prop := j_sv2 j = false ∧ j_en2 j = hex (le_bytes 8 (j_generation j)).

Lemma text_bytes_unhex s b : unhex s = Ok b → text_bytes (JString s) = b.
Proof. cbn. by intros ->. Qed.

Lemma sia_work_offers prev c1 c2 e1 g time h en1 :
  sia_work prev c1 c2 e1 (hex (le_bytes 8 g)) time = Ok h → unhex e1 = Ok en1 →
  let p := text_bytes (JString prev) in let t := text_bytes (JString time) in
  h = p ++ replicate 8 x00 ++ t ++
    Rfc7693.blake2b 32 ([x00] ++ text_bytes (JString c1) ++ en1 ++ le_bytes 8 g) ∧
  unhex time = Ok t ∧ length p = 32%nat ∧ length t = 8%nat.
Proof.
  intros Hs He. cbn zeta. pose proof Hs as Hs'. unfold sia_work in Hs'.
  apply bind_Ok in Hs' as (p & Hp & Hs'). apply bind_Ok in Hs' as (a & Ha & Hs').
  apply bind_Ok in Hs' as (b & Hb & Hs'). apply bind_Ok in Hs' as (e & He' & Hs').
  apply bind_Ok in Hs' as (e2 & He2 & Hs'). apply bind_Ok in Hs' as (t & Ht & Hs').
  apply bind_Ok in Hs' as (u & Hc & _). apply throw_if_Ok in Hc.
  rewrite He in He'. injection He' as <-. rewrite unhex_of_hex in He2. injection He2 as <-.
  repeat match goal with H : _ || _ = false |- _ => apply orb_false_iff in H as [? ?] end.
  repeat match goal with H : negb _ = false |- _ => apply negb_false_iff, Nat.eqb_eq in H end.
  destruct b; [|done].
  destruct (sia_work_layout prev c1 c2 e1 (hex (le_bytes 8 g)) time p a en1 (le_bytes 8 g) t)
    as (root & Hr & Hs2); try done; [apply unhex_of_hex|].
  rewrite Hs in Hs2. injection Hs2 as ->.
  rewrite (text_bytes_unhex _ _ Hp), (text_bytes_unhex _ _ Ha), (text_bytes_unhex _ _ Ht).
  rewrite blake2b256_rfc_block in Hr by (rewrite !length_app, le_bytes_length in *; cbn [length]; lia).
  injection Hr as <-. by split_and!.
Qed.

Lemma receive_sizes_Ok e n msg s s' u : receive_sizes e n msg s = (s', Ok u) →
  ∃ t b, e = JString t ∧ unhex t = Ok b ∧ s' = set_extranonce t 8 s.
Proof.
  unfold receive_sizes. intros Hr. inv_st.
  repeat match goal with H : get_string _ = Ok _ |- _ => apply get_string_Ok in H end.
  match goal with H : negb (_ || _) = true |- _ => apply negb_true_iff, orb_false_iff in H as [_ Hn] end.
  apply negb_false_iff, Z.eqb_eq in Hn. subst. by eexists _, _.
Qed.

Lemma same_settings_en1 t b s ps : unhex t = Ok b → same_settings s ps →
  same_settings (set_extranonce t 8 s) (set_ps_en1 b ps).
Proof. intros Hb [Ht _]. split; [exact Ht|]. intros _. by exists b. Qed.
Lemma same_settings_jobs js s s' ps : next_target s' = next_target s → have_target s' = have_target s →
  en1 s' = en1 s → en2_size s' = en2_size s → same_settings s ps → same_settings s' (set_ps_jobs js ps).
Proof. unfold same_settings. intros -> -> -> ->. done. Qed.

(** A message the miner handles without an exception: what the pool remembers
    of it matches, and the job it issues is the pool's. *)
Definition in_step (s s' : StratumState) (ps ps' : PoolState) (r : option Job) : Prop :=
  same_settings s' ps' ∧ ps_seen ps' = ps_seen ps ∧
  match r with
  | None => valid_ids s' = valid_ids s ∧ ps_jobs ps' = ps_jobs ps
  | Some j => numbered j ∧ j_generation j = generation s + 1 ∧ ∃ pj clean, offers pj j ∧
      valid_ids s' = <[j_id j := j_generation j]> (if clean : bool then ∅ else valid_ids s) ∧
      ps_jobs ps' = <[j_id j := pj]> (if clean then ∅ else ps_jobs ps)
  end.

Lemma notify_in_step p s s' ps r : stratum_ok s → generation s + 1 < 2 ^ 64 → same_settings s ps →
  receive_notify p s = (s', Ok r) → in_step s s' ps (announce_job p ps) r.
Proof.
  intros Hok Hg [Hts Hes] Hr. pose proof (receive_notify_wp p s Hok Hg) as Hw. unfold wp in Hw. rewrite Hr in Hw.
  assert (have_target s = true ∧ en2_size s = 8) as [Ht He].
  { unfold receive_notify in Hr. apply st_bind_Ok in Hr as (? & ? & [= <- <-] & Hr).
    apply st_bind_Ok in Hr as (? & ? & Hc & _). apply st_require_Ok in Hc as [Hc _].
    apply negb_true_iff in Hc. repeat (apply orb_false_iff in Hc as [Hc ?]). bool_lia. by split. }
  destruct (Hts Ht) as [Hpt Hl]. destruct (Hes He) as (e & Hen & Hpe).
  cbn [fst snd] in Hw. destruct Hw as (_ & _ & _ & Hj). destruct r as [j|]; [|done].
  destruct Hj as (clean & [Hcl Hid Htm Hst Hgen _ Hen2 Htg (prev & c1 & c2 & H1 & H2 & H3 & Hhd) _ [Hv2 _]]).
  unfold announce_job. rewrite Hpt, Hpe, Hid. rewrite Hen2 in Hhd.
  destruct (sia_work_offers _ _ _ _ _ _ _ _ Hhd Hen) as (Hh & Hti & Lp & Lt).
  unfold in_step, numbered. rewrite Hgen. split_and!; try done.
  - apply (same_settings_jobs _ s); rewrite ?Hst; by destruct clean.
  - eexists _, clean. split; [|rewrite Hcl; split; [rewrite Hst; by destruct clean|reflexivity]].
    constructor; cbn [pj_prev pj_coinb1 pj_time pj_en1 pj_target]; rewrite ?H1, ?H2, ?Htm, ?Hgen, ?Htg; [exact Hh|exact Hti|by split|by split].
Qed.

Lemma receive_in_step m s s' ps r : stratum_ok s → generation s + 1 < 2 ^ 64 → same_settings s ps →
  receive m s = (s', Ok r) → in_step s s' ps (announce m ps) r.
Proof.
  intros Hok Hg Hs Hr. unfold receive in Hr. apply st_bind_Ok in Hr as (? & ? & Hobj & Hr).
  apply st_require_Ok in Hobj as [_ ->]. unfold announce, contains in *.
  destruct (find m "method") as [mm|] eqn:Hm.
  - inv_st. repeat match goal with H : at_key _ _ = Ok _ |- _ => apply at_key_Ok in H as [_ H] end.
    match goal with H : get_string _ = Ok _ |- _ => apply get_string_Ok in H end. simplify_eq.
    match goal with H : find m "params" = Some ?x |- _ =>
      assert (member m "params" = x) as -> by (unfold member; by rewrite H) end.
    repeat case_bool_decide.
    + unfold receive_difficulty in Hr. inv_st.
      match goal with H : difficulty_target _ = Ok _ |- _ => rewrite H; apply difficulty_target_length in H as Hl end.
      destruct Hs as [_ Hs]. split_and!; try done.
    + unfold receive_extranonce in Hr. inv_st.
      match goal with H : receive_sizes _ _ _ _ = _ |- _ => apply receive_sizes_Ok in H as (t & b & Ht & Hb & ->) end.
      rewrite Ht. rewrite (text_bytes_unhex _ _ Hb). by split; [apply same_settings_en1|].
    + by apply notify_in_step.
    + inv_st. by split.
  - destruct (find m "id") as [i|]; [|inv_st; by split].
    destruct (is_number_integer i) eqn:Hi; [|inv_st; by split].
    apply st_bind_Ok in Hr as (id & ? & Hid & Hr). apply st_lift_Ok in Hid as [Hid ->].
    unfold receive_reply in Hr. cbn [andb].
    apply st_bind_Ok in Hr as (? & s1 & H1 & Hr). apply st_bind_Ok in Hr as (? & s2 & H2 & Hr).
    injection Hr as <- <-.
    assert (same_settings s1 (if bool_decide (get_int64 i = Ok 1)
      then set_ps_en1 (text_bytes (nth 1 (elements (member m "result")) JNull)) ps else ps) ∧
      valid_ids s1 = valid_ids s) as [Hs1 Hv1].
    { rewrite Hid. destruct (Z.eqb_spec id 1) as [->|Hne].
      - rewrite bool_decide_eq_true_2 by done. inv_st.
        match goal with H : at_key _ _ = Ok ?x |- _ => apply at_key_Ok in H as [_ H];
          assert (member m "result" = x) as -> by (unfold member; by rewrite H) end.
        match goal with H : receive_sizes _ _ _ _ = _ |- _ => apply receive_sizes_Ok in H as (t & b & Ht & Hb & ->) end.
        rewrite Ht. rewrite (text_bytes_unhex _ _ Hb). split; [by apply same_settings_en1|done].
      - rewrite bool_decide_eq_false_2 by congruence. injection H1 as <-. done. }
    assert (same_settings s2 (if bool_decide (get_int64 i = Ok 1)
      then set_ps_en1 (text_bytes (nth 1 (elements (member m "result")) JNull)) ps else ps) ∧
      valid_ids s2 = valid_ids s1) as [Hs2 Hv2].
    { destruct (id =? 3); inv_st; [|done]. split; [exact Hs1|done]. }
    split; [exact Hs2|]. split; [by case_match|]. split; [congruence|by case_match].
Qed.
End messages.

(** ** The conversation of a run *)

Section conversation.
Context {BN : BigNum} {BL : BigNumLaws BN} {FP : FloatPrinter}.
Context (backend : nat → Backend) (o : MineOptions).

(** The message a step handles, and the lines it writes to the socket. *)
Definition said (s s' : System V1) : list event := Said <$> handled s s'.
Definition wrote (s s' : System V1) : list json :=
  drop (length (v1_sent (proto (coord s)))) (v1_sent (proto (coord s'))).

(** A run with its conversation after the opening requests. *)
Inductive conversation (s0 : System V1) : list event → System V1 → Prop :=
| conversation_start : conversation s0 [] s0
| conversation_step evs s s' : conversation s0 evs s → system_step backend o s s' →
    conversation s0 (evs ++ said s s' ++ (Wrote <$> wrote s s')) s'.

Lemma conversation_reachable s0 evs s : conversation s0 evs s → rtc (system_step backend o) s0 s.
Proof. induction 1; [done|]. by eapply rtc_r. Qed.

(** The jobs the miner may still find shares of. *)
Definition state_of (s : System V1) : Stratum.StratumState := v1_state (proto (coord s)).
Definition known (s : System V1) (j : Job) : Prop := j ∈ issued (pool s) ∨ Stratum.current (state_of s) = Some j.

(** How the pool knows a share again. *)
Definition share_key (x : Z * Found) : Bytes * Bytes :=
  (le_bytes 8 (j_generation (f_job x.2)), le_bytes 8 (f_nonce x.2)).

(** While the connection lives, a job the miner takes for valid is one the pool keeps. *)
Definition backed (s : System V1) (ps : PoolState) (j : Job) : Prop :=
  numbered j ∧ (Stratum.valid_ids (state_of s) !! j_id j = Some (j_generation j) →
    ∃ pj, ps_jobs ps !! j_id j = Some pj ∧ offers pj j).
Record agree (s : System V1) (ps : PoolState) : Prop := {
  ag_seen : ps_seen ps = share_key <$> submitted s;
  ag_live : (∀ e, at_phase s ≠ Failed e) → same_settings (state_of s) ps ∧ ∀ j, known s j → backed s ps j;
}.

(** What a step owes: the two sides agree afterwards and its lines are accepted. *)
Definition passes (s s' : System V1) (ps : PoolState) : Prop :=
  let r := referee (o_user o) (said s s' ++ (Wrote <$> wrote s s')) ps in
  agree s' r.1 ∧ Forall (λ b, b = true) r.2 ∧ length (submitted s') = (length (submitted s) + length r.2)%nat.

Lemma said_same s s' : at_phase s' = at_phase s → said s s' = [].
Proof. intros Hp. unfold said. by rewrite handled_same. Qed.

(** A step that exchanges nothing. *)
Lemma passes_still s s' ps : agree s ps → said s s' = [] → submitted s' = submitted s →
  v1_sent (proto (coord s')) = v1_sent (proto (coord s)) →
  ((∀ e, at_phase s' ≠ Failed e) → (∀ e, at_phase s ≠ Failed e) ∧ state_of s' = state_of s ∧
    issued (pool s') = issued (pool s)) →
  passes s s' ps.
Proof.
  intros [Hs Hl] Hsaid Hsub Hsent Hsame. unfold passes, wrote. rewrite Hsaid, Hsent, drop_all. cbn.
  split_and!; [|constructor|rewrite Hsub; lia]. constructor; [by rewrite Hsub|].
  intros Hf. destruct (Hsame Hf) as (Hf0 & Hst & Hi). unfold backed, known. rewrite Hst, Hi. by apply Hl.
Qed.

(** *** A message *)

Lemma message_passes p c c' now m ms l ps : counter (proto c) + 1024 < 2 ^ 64 → on_message now m c = (c', Ok tt) →
  let s := Build_System p c (Handling (m :: ms)) l in
  let s' := Build_System (publish_to p (c_work c')) c' (Handling ms) l in
  system_inv s → agree s ps → passes s s' ps.
Proof.
  intros Hb He s s' Hinv [Hseen Hlive]. change (Stratum.generation (v1_state (proto c)) + 1024 < 2 ^ 64) in Hb.
  assert (Stratum.generation (v1_state (proto c)) + 1 < 2 ^ 64) as Hb1 by lia. destruct Hlive as [Hset Hjobs]; [done|].
  destruct (alive_inv s Hinv) as (Hi & Hc & _ & _ & _); [done|].
  destruct (on_message_spec now m c c' (Ok tt) He) as (p' & r' & Hev & Hpr & _ & _ & _ & Hcase).
  destruct r' as [job|ex]; [|by destruct Hcase].
  pose proof (v1_receive m (proto c) Hi Hb1) as Hv. unfold wp in Hv.
  cbn [on_event v1_protocol] in Hev. rewrite Hev in Hv. cbn [fst snd is_ok] in Hv.
  destruct (Hv eq_refl) as (_ & _ & _ & Hcur).
  unfold on_state in Hev. destruct (Stratum.receive m (v1_state (proto c))) as [st r] eqn:Hr.
  injection Hev as <- ->. cbn [v1_state] in *. destruct Hi as (Hok & _ & Hcok).
  destruct (receive_in_step m _ _ ps _ Hok Hb1 Hset Hr) as (Hset' & Hseen' & Hjob).
  assert (said s s' = [Said m]) as Hsaid by (unfold said, handled; cbn; by rewrite Nat.eqb_refl).
  assert (state_of s' = st) as Hst by (unfold state_of; cbn; by rewrite Hpr).
  unfold passes, wrote. rewrite Hsaid. cbn [s s' coord]. rewrite Hpr. cbn [v1_sent]. rewrite drop_all. cbn [fmap list_fmap app referee fst snd].
  split_and!; [|constructor|cbn; lia]. constructor; [by rewrite Hseen'|]. intros _. rewrite Hst. split; [exact Hset'|].
  assert (∀ j, known s j → j_generation j ≤ Stratum.generation (v1_state (proto c))) as Hold.
  { intros j [Hj|Hj]; [by apply Hc|]. destruct (Hcok j Hj) as (_ & [_ ?] & _). done. }
  intros j Hj. assert (known s j ∨ job = Some j) as Hj'.
  { assert (j ∈ issued p ∨ Stratum.current st = Some j) as [?|Hl].
    { destruct Hj as [[?|[Hw Hj]]%publish_to_known|Hj]; [by left| |right; by rewrite <- Hst].
      right. cbn [is_ok andb] in Hcase. destruct (publishes _ _ _).
      - destruct Hcase as [Hcw _]. cbn in Hcw. congruence.
      - destruct Hcase as [Hcw _]. destruct Hinv as (_ & Hwk & _). cbn in Hwk. congruence. }
    - by left; left.
    - destruct job as [jn|]; [|left; right; unfold state_of; cbn; congruence]. destruct Hcur as [Hcur _]. right. congruence. }
  unfold backed. rewrite Hst. destruct job as [jn|].
  - destruct Hjob as (Hnum & Hgen & pj & clean & Hof & -> & ->). destruct Hj' as [Hk|[= ->]].
    2:{ split; [done|]. intros _. exists pj. by rewrite lookup_insert_eq. }
    destruct (Hjobs j Hk) as [Hn Hpj]. split; [done|]. specialize (Hold j Hk).
    destruct (decide (j_id jn = j_id j)) as [->|Hne]; [rewrite !lookup_insert_eq; intros [= ?]; lia|].
    rewrite !lookup_insert_ne by done. destruct clean; [by rewrite lookup_empty|exact Hpj].
  - destruct Hjob as [-> ->]. destruct Hj' as [Hk|]; [|done]. by apply Hjobs.
Qed.

(** *** A share *)

Lemma nonce_hash_digest pj j n : offers pj j → length (header (j_work j)) = 80%nat →
  nonce_hash (header (j_work j)) n =
  share_digest pj (le_bytes 8 (j_generation j)) (pj_time pj) (le_bytes 8 n).
Proof.
  intros [Hh _ _ [Lp Lt]] Hl. unfold nonce_hash, nonce_header, share_digest. rewrite Hh in *.
  set (root := Rfc7693.blake2b 32 ([x00] ++ _)) in *. rewrite !length_app, length_replicate in Hl.
  rewrite store_le_app by done. rewrite blake2b256_rfc_block; [done|].
  rewrite !length_app, le_bytes_length. lia.
Qed.

Lemma judge_accepts pj f id ps : offers pj (f_job f) → numbered (f_job f) → sound f →
  ps_jobs ps !! j_id (f_job f) = Some pj → share_key (id, f) ∉ ps_seen ps →
  judge (o_user o) (submit_line o (f_job f) (f_nonce f) id) ps = (see (share_key (id, f)) ps, true).
Proof.
  intros Hof [_ Hen2] [Hl Hm] Hpj Hnew. pose proof Hof as [_ Ht [Htg Ltg] [_ Lt]].
  set (line := submit_line _ _ _ _). assert (find line "method" = Some (JString "mining.submit")) as Hmth by reflexivity.
  assert (elements (member line "params") = [JString (o_user o); JString (j_id (f_job f)); JString (j_en2 (f_job f));
    JString (j_ntime (f_job f)); JString (hex (store_le (replicate 8 x00) 0 (f_nonce f)))]) as Hpar by reflexivity.
  unfold judge. rewrite Hmth, Hpar.
  rewrite Hpj, Hen2, Ht, Stratum.store_le_fresh, !unhex_of_hex. unfold share_key in *. cbn [snd] in *. f_equal.
  rewrite !le_bytes_length, !bool_decide_eq_true_2, bool_decide_eq_false_2 by done. cbn [Nat.eqb negb andb].
  apply Z.leb_le. rewrite <- nonce_hash_digest, <- Htg by done. apply meets_be; [|exact Hm].
  destruct (nonce_hash_ok _ (f_nonce f) Hl) as [_ ->]. done.
Qed.

(** The digits of a share's job and nonce tell it from the others. *)
Lemma share_key_inj p f f' id id' : pool_inv p → (∀ j, j ∈ issued p → numbered j) →
  genuine_share p f → genuine_share p f' → share_key (id, f) = share_key (id', f') → key f = key f'.
Proof.
  intros Hp Hnum Hf Hf'. destruct (genuine_spec p _ _ Hp Hf) as (_ & Hn & _ & j & Hj & Hjf).
  destruct (genuine_spec p _ _ Hp Hf') as (_ & Hn' & _ & j' & Hj' & Hjf').
  destruct (Hnum j Hj) as [Hv _], (Hnum j' Hj') as [Hv' _].
  unfold share_key, key. cbn [snd].
  destruct Hjf as [->|[? _]]; [|congruence]. destruct Hjf' as [->|[? _]]; [|congruence].
  intros Hk. pose proof (f_equal fst Hk) as Hg. pose proof (f_equal snd Hk) as Hnn. clear Hk.
  change (le_bytes 8 (j_generation j) = le_bytes 8 (j_generation j')) in Hg.
  change (le_bytes 8 (f_nonce f) = le_bytes 8 (f_nonce f')) in Hnn. destruct Hp as (Hjs & _). pose proof Hjs as [Hall _].
  rewrite Forall_forall in Hall. destruct (Hall j Hj) as [(_ & _ & _ & Hu) _], (Hall j' Hj') as [(_ & _ & _ & Hu') _].
  apply le_bytes_inj in Hg; [|exact Hu|exact Hu']. apply le_bytes_inj in Hnn; [|exact Hn|exact Hn'].
  by rewrite (same_generation _ _ _ Hjs Hj Hj' Hg), Hnn.
Qed.

Lemma submit_passes p c c' now f q l ps : submit_found o now f c = (c', Ok tt) →
  let s := Build_System p c (Submitting (f :: q)) l in
  let s' := Build_System p c' (Submitting q) (l ++ if nextid c =? nextid c' then [] else [(nextid c, f)]) in
  system_inv s → NoDup (key ∘ snd <$> submitted s') → agree s ps → passes s s' ps.
Proof.
  intros He s s' Hinv Hnd Hag. destruct (alive_inv s Hinv) as (_ & _ & _ & _ & Hq); [done|].
  apply Forall_cons in Hq as [Hgf _]. destruct Hinv as (Hp & _ & Hgen & _). cbn in Hp, Hgen.
  destruct (genuine_spec p _ _ Hp Hgf) as (Hlen & _ & Hm & j & Hj & Hjf).
  destruct (submit_found_spec o now f c c' (Ok tt) Hlen Hm He) as (_ & _ & _ & _ & Hcase).
  assert (said s s' = []) as Hsaid by done.
  destruct Hcase as [(Hpr & Hni & _)|(Hsend & Hv & _ & Hni)].
  - apply passes_still; try done; cbn; rewrite ?Hpr, ?Hni, ?Z.eqb_refl, ?app_nil_r; try done.
    intros _. split_and!; try done. unfold state_of. cbn. by rewrite Hpr.
  - destruct Hag as [Hseen Hlive]. destruct Hlive as [Hset Hjobs]; [done|].
    destruct (Hjobs j (or_introl Hj)) as [Hnum Hb]. destruct Hjf as [Hjf|[Hv2 _]]; [|by destruct Hnum; congruence].
    rewrite <- Hjf in *. cbn [is_valid v1_protocol] in Hv. unfold Stratum.valid in Hv.
    apply andb_true_iff in Hv as [_ Hv]. destruct (Stratum.valid_ids _ !! _) as [g|] eqn:Hg; [|done].
    apply Z.eqb_eq in Hv as ->. destruct (Hb eq_refl) as (pj & Hpj & Hof).
    apply v1_send_Ok in Hsend as Hpr.
    assert (wrote s s' = [submit_line o (f_job f) (f_nonce f) (nextid c)]) as Hw.
    { unfold wrote. cbn [s s' coord]. rewrite Hpr. cbn [v1_sent]. by rewrite drop_app_length. }
    assert (submitted s' = l ++ [(nextid c, f)]) as Hsub.
    { cbn. by rewrite (proj2 (Z.eqb_neq _ _)) by lia. }
    assert (share_key (nextid c, f) ∉ ps_seen ps) as Hnew.
    { rewrite Hseen. cbn [s submitted]. intros ([id f'] & Hk & Hin)%list_elem_of_fmap.
      rewrite Forall_forall in Hgen. assert (key f = key f') as Hkey.
      { eapply (share_key_inj p); [exact Hp| |exact Hgf|exact (Hgen _ Hin)|exact Hk].
        intros j' Hj'. by destruct (Hjobs j' (or_introl Hj')). }
      rewrite Hsub, fmap_app in Hnd. apply NoDup_app in Hnd as (_ & Hnd & _).
      apply (Hnd (key f)); [|by apply list_elem_of_singleton]. rewrite Hkey.
      apply list_elem_of_fmap. by exists (id, f'). }
    unfold passes. rewrite Hsaid, Hw. cbn [app fmap list_fmap referee].
    rewrite (judge_accepts pj) by done. cbn [fst snd length]. rewrite Hsub, length_app. cbn [length].
    split_and!; [|by apply Forall_singleton|cbn; lia]. constructor.
    + cbn [see ps_seen]. rewrite Hsub, fmap_app, Hseen. done.
    + intros _. assert (state_of s' = state_of s) as Hst by (unfold state_of; cbn; by rewrite Hpr).
      unfold backed, known. rewrite Hst. split; [exact Hset|exact Hjobs].
Qed.

(** *** Every step *)

Lemma step_passes s s' ps : system_inv s → NoDup (key ∘ snd <$> submitted s') →
  system_step backend o s s' → agree s ps → passes s s' ps.
Proof.
  intros Hinv Hnd Hstep Hag. destruct Hstep as [p p' c ph l Ht|p c c' r b now l He|p c c' r force begin now slots readings l He
    |p c c' r b l _ He|p c c' r now m ms l Hb He|p c l|p c c' r l He|p c c' r now f q l He|p c c' r now l He|p c ph e l].
  - destruct (thread_step_frame _ _ _ Ht) as (_ & _ & Hi & _). apply passes_still; try done. by apply said_same.
  - apply start_drain_proto in He. apply passes_still; unfold state_of; cbn; by rewrite ?He.
  - apply keeps_proto in He; [|apply _]. destruct r; apply passes_still; unfold state_of; cbn; by rewrite ?He.
  - cbn in He. injection He as <- <-. destruct b as [ms|e]; by apply passes_still.
  - destruct r as [[]|e]; [by eapply message_passes|]. cbn [after].
    assert (v1_sent (proto c') = v1_sent (proto c)) as Hs.
    { destruct (on_message_spec now m c c' (Throw e) He) as (p' & r' & Hev & -> & _).
      cbn [on_event v1_protocol] in Hev. rewrite <- (on_state_sent (Stratum.receive m) (proto c)). by rewrite Hev. }
    apply passes_still; try done. intros Hf. by destruct (Hf e).
  - by apply passes_still.
  - apply take_queue_proto in He. destruct r; apply passes_still; unfold state_of; cbn; by rewrite ?He.
  - destruct r as [[]|e]; [by eapply submit_passes|].
    destruct (alive_inv _ Hinv) as (_ & _ & _ & _ & Hq); [done|]. cbn in Hq. apply Forall_cons in Hq as [Hgf _].
    destruct Hinv as (Hp & _). cbn in Hp. destruct (genuine_spec p _ _ Hp Hgf) as (Hlen & _ & Hm & _).
    destruct (submit_found_spec o now f c c' (Throw e) Hlen Hm He) as (_ & _ & _ & _ & Hni & Hpr).
    assert (proto c' = proto c) as Hpr' by by destruct Hpr as [?|(e' & ?%v1_send_Throw)].
    apply passes_still; try done; cbn; rewrite ?Hni, ?Z.eqb_refl, ?app_nil_r, ?Hpr'; try done.
    intros Hf. by destruct (Hf e).
  - apply keeps_proto in He; [|apply _]. destruct r; apply passes_still; unfold state_of; cbn; by rewrite ?He.
  - apply passes_still; try done; [by destruct ph as [|[|]| | |]|]. intros Hf. by destruct (Hf e).
Qed.

Lemma start_agrees k s : system_start s → proto (coord s) = v1_start k o → agree s new_pool.
Proof.
  intros ((_ & Hi & _) & _ & Hsub & _) Hp. constructor; [by rewrite Hsub|]. intros _.
  unfold known, state_of. rewrite Hi, Hp. split; [by split|]. intros j [Hj|Hj]; [by apply elem_of_nil in Hj|done].
Qed.

(** The lines of a conversation are what the socket was given. *)
Definition lines (evs : list event) : list json := omap (λ e, match e with Wrote l => Some l | Said _ => None end) evs.

Lemma lines_app evs evs' : lines (evs ++ evs') = lines evs ++ lines evs'.
Proof. apply omap_app. Qed.
Definition heard (evs : list event) : list json := omap (λ e, match e with Said m => Some m | Wrote _ => None end) evs.

Lemma omap_wrote {B} (f : event → option B) g (l : list json) : (∀ x, f (Wrote x) = g x) → omap f (Wrote <$> l) = omap g l.
Proof. intros Hf. induction l as [|x l IH]; [done|]. cbn. rewrite Hf, IH. done. Qed.
Lemma omap_said {B} (f : event → option B) g (l : list json) : (∀ x, f (Said x) = g x) → omap f (Said <$> l) = omap g l.
Proof. intros Hf. induction l as [|x l IH]; [done|]. cbn. rewrite Hf, IH. done. Qed.
Lemma omap_some {A} (l : list A) : omap Some l = l.
Proof. induction l as [|x l IH]; [done|]. cbn. by rewrite IH. Qed.
Lemma omap_none {A B} (l : list A) : omap (λ _, @None B) l = [].
Proof. by induction l. Qed.

Lemma lines_step s s' : lines (said s s' ++ (Wrote <$> wrote s s')) = wrote s s'.
Proof.
  rewrite lines_app. unfold lines, said.
  by rewrite (omap_said _ (λ _, None)), (omap_wrote _ Some), omap_none, omap_some.
Qed.
Lemma heard_step s s' : heard (said s s' ++ (Wrote <$> wrote s s')) = handled s s'.
Proof.
  unfold heard. rewrite omap_app. unfold said.
  by rewrite (omap_said _ Some), (omap_wrote _ (λ _, None)), omap_none, omap_some, app_nil_r.
Qed.

(** Every run has its conversation. *)
Lemma path_conversation s0 ms s : path backend o s0 ms s → ∃ evs, conversation s0 evs s ∧ heard evs = ms.
Proof.
  induction 1 as [|ms s s' _ (evs & Hc & <-) Hs]; [exists []; by split; [constructor|]|].
  eexists. split; [by econstructor|]. unfold heard at 1. rewrite omap_app. f_equal. apply heard_step.
Qed.

Lemma submitted_grows s s' : system_step backend o s s' → ∃ new, submitted s' = submitted s ++ new.
Proof. intros []; cbn [submitted]; first [by eexists | exists []; by rewrite app_nil_r]. Qed.

Lemma wrote_sent s s' : wire_ok o s → wire_ok o s' → system_step backend o s s' →
  v1_sent (proto (coord s')) = v1_sent (proto (coord s)) ++ wrote s s'.
Proof.
  unfold wire_ok, wrote. intros -> -> [new ->]%submitted_grows.
  by rewrite fmap_app, (assoc_L app), drop_app_length.
Qed.

(** What holds of a conversation. *)
Lemma conversation_agrees k s0 evs s : (∀ i, @BackendLaws (backend i)) → system_start s0 → proto (coord s0) = v1_start k o →
  conversation s0 evs s →
  let r := referee (o_user o) evs new_pool in
  system_inv s ∧ wire_ok o s ∧ agree s r.1 ∧ Forall (λ b, b = true) r.2 ∧
  length (submitted s) = length r.2 ∧ v1_sent (proto (coord s)) = v1_hello o ++ lines evs.
Proof.
  intros Hlaws Hstart Hp0 Hc. cbn zeta. induction Hc as [|evs s s' Hc IH Hstep].
  { pose proof Hstart as (_ & _ & Hsub & _). split_and!; try done.
    - by apply start_inv.
    - unfold wire_ok. by rewrite Hp0, Hsub, app_nil_r.
    - by eapply start_agrees.
    - by rewrite Hsub.
    - by rewrite Hp0, app_nil_r. }
  destruct IH as (Hinv & Hw & Hag & Hall & Hlen & Hsent).
  assert (system_inv s') as Hinv' by exact (system_step_inv backend o Hlaws s s' Hinv Hstep).
  assert (wire_ok o s') as Hw' by exact (system_step_wire backend o s s' Hinv Hw Hstep).
  assert (NoDup (key ∘ snd <$> submitted s')) as Hnd.
  { eapply submitted_NoDup; [exact Hlaws|exact Hstart|]. eapply rtc_r; [by eapply conversation_reachable|done]. }
  pose proof (step_passes s s' _ Hinv Hnd Hstep Hag) as Hps. unfold passes in Hps. rewrite referee_app.
  destruct (referee (o_user o) evs new_pool) as [ps bs]. cbn [fst snd] in *.
  destruct (referee (o_user o) _ ps) as [ps' bs']. cbn [fst snd] in *. destruct Hps as (Hag' & Hall' & Hlen').
  split_and!; try done; [by apply Forall_app|rewrite length_app; lia|].
  by rewrite (wrote_sent s s'), Hsent, lines_app, lines_step, <- (assoc_L app).
Qed.

(** C3: The pool accepts every share.  In every interleaving of threads and
    coordinator, a Stratum V1 pool that remembers what it announced - difficulty,
    extranonce1, jobs, which of them are void - and judges each line the miner
    writes after its opening requests by the messages the miner had handled by
    then, finds every line a well-formed submission of a live job that was not
    submitted before, whose digest by RFC 7693 meets the target in force when the
    job was announced; and it receives exactly one such line per share submitted. *)
Theorem pool_accepts k s0 evs s : (∀ i, @BackendLaws (backend i)) → system_start s0 → proto (coord s0) = v1_start k o →
  conversation s0 evs s →
  let verdicts := (referee (o_user o) evs new_pool).2 in
  Forall (λ b, b = true) verdicts ∧ length verdicts = length (submitted s) ∧
  v1_sent (proto (coord s)) = v1_hello o ++ lines evs.
Proof.
  intros Hlaws Hstart Hp Hc. destruct (conversation_agrees k s0 evs s Hlaws Hstart Hp Hc) as (_ & _ & _ & Hall & Hlen & Hs).
  by split_and!.
Qed.
End conversation.

(** ** An example: the conversation of a schedule *)

Module Accepted.
Import System.Run.
#[local] Existing Instance System.Run.printer.

Fixpoint spoken (l : list action) (s : System V1) : list event :=
  match l with
  | [] => []
  | a :: l => match perform cpu_backends options a s with Some s' => said s s' ++ (Wrote <$> wrote s s') ++ spoken l s' | None => [] end
  end.
Lemma spoken_conversation s0 l evs s : conversation cpu_backends options s0 evs s →
  conversation cpu_backends options s0 (evs ++ spoken l s) (schedule cpu_backends options l s).
Proof.
  revert evs s. induction l as [|a l IH]; intros evs s Hc; cbn [spoken schedule]; [by rewrite app_nil_r|].
  destruct (perform cpu_backends options a s) as [s'|] eqn:E; [|by rewrite app_nil_r].
  rewrite (assoc_L app (said s s')), (assoc_L app evs). apply IH. econstructor; [done|]. by eapply perform_step.
Qed.

Lemma pool_accepts_witness :
  let evs := spoken Delivery.Delivered.both start in
  let verdicts := (referee (o_user options) evs new_pool).2 in
  length verdicts = 2%nat ∧ Forall (λ b, b = true) verdicts.
Proof.
  intros evs verdicts. split; [vm_compute; reflexivity|].
  exact (proj1 (pool_accepts cpu_backends options link start evs _ cpu_backends_laws start_ok eq_refl
    (spoken_conversation start Delivery.Delivered.both [] start (conversation_start _ _ start)))).
Defined.
End Accepted.
