(* ===== verification/Channel.v ===== *)
(** * A Stratum V2 pool that checks every share

    The counterpart of Pool for Stratum V2, again written from the protocol: a pool
    with one standard channel remembers the messages it sends and judges each
    [SubmitSharesStandard] frame against them, with the digest of RFC 7693 and
    targets as numbers.  What the session (src/src/sv2_session.cpp), the header
    builder of src/src/sv2.cpp, the threads and the main loop of
    src/src/miner.cpp send passes that check, in every interleaving. *)
From S2P Require Import Prelude Words Hex Blake Targets Work Sv2 Json Options Workers View Coordinator Protocols System Delivery.
From S2P Require Noise Session Pool.

(** ** The pool *)

(** A job of the channel: what it commits to and, once it may be mined, on which
    previous hash, from which time, against which target and the how manieth to
    be mined it is. *)
Record Active := { a_prev : Bytes; a_time : Z; a_target : Z; a_number : Z }.
Record ChannelJob := { cj_root : Bytes; cj_version : Z; cj_active : option Active }.
Record ChannelState := {
  ch_id : Z; ch_extra : Bytes; ch_target : Z; ch_prev : option Bytes; ch_jobs : gmap Z ChannelJob;
  ch_started : Z; ch_last : Z; ch_seen : list (Z * Z * Z)
}.
Definition new_channel : ChannelState :=
  {| ch_id := 0; ch_extra := []; ch_target := 0; ch_prev := None; ch_jobs := ∅; ch_started := 0; ch_last := 0; ch_seen := [] |}.

Definition open_channel (id : Z) (extra : Bytes) (t : Z) (s : ChannelState) : ChannelState :=
  {| ch_id := id; ch_extra := extra; ch_target := t; ch_prev := ch_prev s; ch_jobs := ch_jobs s;
     ch_started := ch_started s; ch_last := ch_last s; ch_seen := ch_seen s |}.
Definition set_ch_prev (p : Bytes) (s : ChannelState) : ChannelState :=
  {| ch_id := ch_id s; ch_extra := ch_extra s; ch_target := ch_target s; ch_prev := Some p; ch_jobs := ch_jobs s;
     ch_started := ch_started s; ch_last := ch_last s; ch_seen := ch_seen s |}.
Definition set_ch_jobs (js : gmap Z ChannelJob) (s : ChannelState) : ChannelState :=
  {| ch_id := ch_id s; ch_extra := ch_extra s; ch_target := ch_target s; ch_prev := ch_prev s; ch_jobs := js;
     ch_started := ch_started s; ch_last := ch_last s; ch_seen := ch_seen s |}.
Definition count_started (s : ChannelState) : ChannelState :=
  {| ch_id := ch_id s; ch_extra := ch_extra s; ch_target := ch_target s; ch_prev := ch_prev s; ch_jobs := ch_jobs s;
     ch_started := ch_started s + 1; ch_last := ch_last s; ch_seen := ch_seen s |}.
Definition note (q : Z) (k : Z * Z * Z) (s : ChannelState) : ChannelState :=
  {| ch_id := ch_id s; ch_extra := ch_extra s; ch_target := ch_target s; ch_prev := ch_prev s; ch_jobs := ch_jobs s;
     ch_started := ch_started s; ch_last := q; ch_seen := ch_seen s ++ [k] |}.

(** Job [id] may be mined from time [t]. *)
Definition start_job (id : Z) (j : ChannelJob) (t : Z) (s : ChannelState) : ChannelState :=
  match ch_prev s with
  | Some p =>
      let a := {| a_prev := p; a_time := t; a_target := ch_target s; a_number := ch_started s + 1 |} in
      count_started (set_ch_jobs (<[id := {| cj_root := cj_root j; cj_version := cj_version j; cj_active := Some a |}]>
                                    (ch_jobs s)) s)
  | None => s
  end.

(** What the pool remembers of a message it sends.  The extranonce of the channel
    is the prefix, with zeros up to 12 bytes; a previous hash makes all jobs void
    but the one it names. *)
Definition notice (m : Message) (s : ChannelState) : ChannelState :=
  match m with
  | MOpenSuccess m =>
      open_channel (os_channel m) (os_prefix m ++ replicate (12 - length (os_prefix m)) x00) (be_value (os_target m)) s
  | MNewJob m =>
      let j := {| cj_root := nj_root m; cj_version := nj_version m; cj_active := None |} in
      match nj_ntime m with
      | None => set_ch_jobs (<[nj_job m := j]> (ch_jobs s)) s
      | Some t => start_job (nj_job m) j t s
      end
  | MPrevHash m =>
      match ch_jobs s !! ph_job m with
      | Some j => start_job (ph_job m) j (ph_ntime m) (set_ch_prev (ph_hash m) (set_ch_jobs ∅ s))
      | None => s
      end
  | MTarget m => open_channel (ch_id s) (ch_extra s) (be_value (tg_target m)) s
  | _ => s
  end.

(** The digest of a share. *)
Definition leaf_digest (root extra : Bytes) : Bytes :=
  Rfc7693.blake2b 32 (replicate 4 x00 ++ root ++ replicate 4 x00 ++ extra).
Definition channel_digest (prev root extra : Bytes) (time nonce : Z) : Bytes :=
  Rfc7693.blake2b 32 (prev ++ le_bytes 8 nonce ++ le_bytes 8 time ++ leaf_digest root extra).

(** The verdict on a frame: a share of this channel, numbered after the last one,
    of a job that may be mined, with its version and its time or one less than
    2^24 seconds later, not submitted before, whose digest is at most the target
    the job was started with. *)
Definition judge_frame (f : Frame) (s : ChannelState) : ChannelState * bool :=
  match parse_submit (payload f) with
  | ([], Ok (c, q, id, n, t, v)) =>
      match ch_jobs s !! id with
      | Some {| cj_root := root; cj_version := version; cj_active := Some a |} =>
          (note q (a_number a, t, n) s,
           (extension f =? 0x8000) && (type f =? 0x1a) && (c =? ch_id s) && (ch_last s <? q) && (v =? version) &&
           ((t - a_time a) mod 2 ^ 32 <? 2 ^ 24) && negb (bool_decide ((a_number a, t, n) ∈ ch_seen s)) &&
           (be_value (channel_digest (a_prev a) root (ch_extra s) t n) <=? a_target a))
      | _ => (s, false)
      end
  | _ => (s, false)
  end.

(** The conversation as the miner sees it: the pool's messages as it handles them,
    its own shares as it sends them. *)
Inductive exchange := Told (m : Message) | Sent (f : Frame).
Fixpoint arbiter (evs : list exchange) (s : ChannelState) : ChannelState * list bool :=
  match evs with
  | [] => (s, [])
  | Told m :: evs => arbiter evs (notice m s)
  | Sent f :: evs =>
      let '(s, b) := judge_frame f s in
      let '(s, bs) := arbiter evs s in (s, b :: bs)
  end.

Lemma arbiter_app evs evs' s :
  arbiter (evs ++ evs') s =
  let '(s1, bs) := arbiter evs s in let '(s2, bs') := arbiter evs' s1 in (s2, bs ++ bs').
Proof.
  revert s. induction evs as [|[m|f] evs IH]; intros s; cbn [app arbiter].
  - by destruct (arbiter evs' s).
  - apply IH.
  - destruct (judge_frame f s) as [s1 b]. rewrite IH. destruct (arbiter evs s1) as [s2 bs].
    by destruct (arbiter evs' s2).
Qed.
Lemma arbiter_told ms s : arbiter (Told <$> ms) s = (fold_left (flip notice) ms s, []).
Proof. revert s. induction ms as [|m ms IH]; intros s; [done|]. cbn. apply IH. Qed.

(** ** A message keeps both sides in step *)

Section messages.
Context {C : Noise.NoiseCrate}.
Import Session.

(** The job the pool keeps, and the one the session made of it. *)
Record started_as (extra : Bytes) (k : Z) (pj : ChannelJob) (a : Active) (j : Job) : Prop := {
  sa_header : header (j_work j) = a_prev a ++ replicate 8 x00 ++ le_bytes 8 (a_time a) ++ leaf_digest (cj_root pj) extra;
  sa_prev : length (a_prev a) = 32%nat;
  sa_target : length (target (j_work j)) = 32%nat ∧ be_value (target (j_work j)) ≤ a_target a;
  sa_fields : j_sv2 j = true ∧ j_wire_job j = k ∧ j_version j = cj_version pj ∧ j_time32 j = a_time a ∧
    j_generation j = a_number a;
}.

(** A stored job, on a channel with this extranonce that started [g] jobs so far. *)
Definition filed (extra : Bytes) (g k : Z) (st : Stored) (pj : ChannelJob) : Prop :=
  is_u32 k ∧ is_u32 (cj_version pj) ∧ nj_root (wire st) = cj_root pj ∧ nj_version (wire st) = cj_version pj ∧
  match cj_active pj with
  | None => future st = true
  | Some a => future st = false ∧ started_as extra k pj a (job st) ∧ a_number a ≤ g
  end.

(** The pool's books are the session's; of the jobs in [l] and the current one each
    is told by its number. *)
Record tracks (l : list Job) (s : Session) (ps : ChannelState) : Prop := {
  tr_channel : ch_id ps = channel s ∧ is_u32 (channel s);
  tr_extra : ch_extra ps = extra s;
  tr_target : ch_target ps = be_value (s_target s);
  tr_prev : ch_prev ps = if have_previous s then Some (previous s) else None;
  tr_started : ch_started ps = generation s;
  tr_last : ch_last ps = last_sent s;
  tr_jobs : map_Forall2 (filed (extra s) (generation s)) (jobs s) (ch_jobs ps);
  tr_known : ∀ j, j ∈ l ∨ current s = Some j → j_sv2 j = true ∧ j_generation j ≤ generation s ∧
    ∀ k st, jobs s !! k = Some st → future st = false → j_generation (job st) = j_generation j → job st = j;
}.

Lemma map_Forall2_lookup_l {A B} (R : Z → A → B → Prop) (m1 : gmap Z A) (m2 : gmap Z B) k x :
  map_Forall2 R m1 m2 → m1 !! k = Some x → ∃ y, m2 !! k = Some y ∧ R k x y.
Proof. intros Hm Hx. specialize (Hm k). rewrite Hx in Hm. inversion Hm; eauto. Qed.
Lemma map_Forall2_lookup_None {A B} (R : Z → A → B → Prop) (m1 : gmap Z A) (m2 : gmap Z B) k :
  map_Forall2 R m1 m2 → m1 !! k = None → m2 !! k = None.
Proof. intros Hm Hx. specialize (Hm k). rewrite Hx in Hm. by inversion Hm. Qed.

Lemma tracks_same l s s' ps : same_jobs s s' → last_sent s' = last_sent s → tracks l s ps → tracks l s' ps.
Proof.
  intros (_ & Hc & _ & _ & Hg & Hj & Hcu & Ht & _ & Hp & Hh & He) Hl [].
  constructor; rewrite ?Hc, ?Hg, ?Hj, ?Hcu, ?Ht, ?Hp, ?Hh, ?He, ?Hl; done.
Qed.

Lemma filed_grows extra g g' k st pj : g ≤ g' → filed extra g k st pj → filed extra g' k st pj.
Proof.
  unfold filed. intros Hg (? & ? & ? & ? & Ha). split_and!; try done.
  destruct (cj_active pj) as [a|]; [|done]. destruct Ha as (? & ? & ?). split_and!; try done. lia.
Qed.

Lemma standard_work_rfc prev root extra t h : length prev = 32%nat → standard_work prev root extra t = Ok h →
  h = prev ++ replicate 8 x00 ++ le_bytes 8 t ++ leaf_digest root extra.
Proof.
  unfold standard_work, leaf_digest. intros Hp H. inv_ok.
  match goal with H : blake2b256 _ = Ok _ |- _ =>
    pose proof (blake2b256_length _ _ H); apply blake2b256_rfc_value in H; subst end.
  rewrite work_header_layout by done. by rewrite <- !(assoc_L app).
Qed.

(** Starting a job is what the session's [activate] does. *)
Lemma start_tracks l k st t s s' j ps pj : activated k st t s s' j →
  tracks l (set_jobs (delete k (jobs s)) s) (set_ch_jobs (delete k (ch_jobs ps)) ps) →
  is_u32 k → is_u32 (cj_version pj) → nj_root (wire st) = cj_root pj → nj_version (wire st) = cj_version pj →
  nj_job (wire st) = k → length (previous s) = 32%nat → length (s_target s) = 32%nat →
  0 ≤ generation s → generation s + 1 < 2 ^ 64 → tracks l s' (start_job k pj t ps).
Proof.
  intros [(h & Hh & Hj) Hjobs Hcur Hgen (_ & Hch & _ & _ & Hhp & Htg & Hpr & Hex) (_ & _ & _ & Hls) Hp]
    [[Hid Hid32] Hext Htgt Hprev Hst Hlast Hfiled Hknown] Hk Hv Hr Hver Hkj Lp Lt Hg Hg1.
  rewrite u64_small in Hgen by (unfold is_u64; lia).
  apply standard_work_rfc in Hh; [|done]. cbn [set_jobs set_ch_jobs ch_id ch_extra ch_target ch_prev ch_started
    ch_last ch_jobs channel extra s_target have_previous previous generation last_sent jobs current] in *.
  rewrite Hp in Hprev. unfold start_job. rewrite Hprev. cbn zeta.
  assert (j_generation j = generation s + 1) as Hjg.
  { subst j. cbn. by rewrite u64_small by (unfold is_u64; lia). }
  constructor; cbn [count_started set_ch_jobs ch_id ch_extra ch_target ch_prev ch_started ch_last ch_jobs];
    rewrite ?Hch, ?Hex, ?Htg, ?Hhp, ?Hp, ?Hpr, ?Hgen, ?Hls; try done; [congruence| |].
  - rewrite Hjobs, <- (insert_delete_eq (jobs s)), <- (insert_delete_eq (ch_jobs ps)).
    apply map_Forall2_insert_2.
    + unfold filed. cbn [cj_root cj_version cj_active wire future job]. split_and!; try done; [|cbn; lia].
      constructor; cbn [a_prev a_time a_target a_number cj_root cj_version];
        [subst j; cbn [activated_job job_work j_work header]; rewrite Hh, Hr; reflexivity|exact Lp| |].
      * subst j. cbn [activated_job job_work j_work target]. rewrite Htgt, min_hash_value by done. split; [|lia].
        unfold min_hash. by case_match.
      * rewrite Hjg, Hst. subst j. cbn. by rewrite Hkj, Hver.
    + eapply map_Forall2_impl; [exact Hfiled|]. intros k' st' pj'. apply filed_grows. lia.
  - assert (∀ j', j' ∈ l ∨ current s' = Some j' → j' = j ∨ j_sv2 j' = true ∧ j_generation j' ≤ generation s ∧ ∀ k' st',
      delete k (jobs s) !! k' = Some st' → future st' = false → j_generation (job st') = j_generation j' → job st' = j') as Hcase.
    { intros j' [Hl|Hc]; [right; apply Hknown; by left|left; congruence]. }
    intros j' Hj'. split; [destruct (Hcase j' Hj') as [->|[? _]]; [by subst j|done]|].
    split; [destruct (Hcase j' Hj') as [->|(_ & ? & _)]; lia|].
    intros k' st' Hst' Hf Hge. rewrite Hjobs in Hst'.
    destruct (decide (k = k')) as [<-|Hne].
    + rewrite lookup_insert_eq in Hst'. injection Hst' as <-. cbn [job] in *.
      destruct (Hcase j' Hj') as [->|(_ & ? & _)]; [done|]. lia.
    + rewrite lookup_insert_ne in Hst' by done.
      assert (delete k (jobs s) !! k' = Some st') as Hd by by rewrite lookup_delete_ne.
      destruct (Hcase j' Hj') as [->|(_ & _ & Hold)]; [|by apply (Hold k' st')].
      destruct (map_Forall2_lookup_l _ _ _ _ _ Hfiled Hd) as (pj' & _ & Hpj').
      destruct Hpj' as (_ & _ & _ & _ & Ha). destruct (cj_active pj') as [a|]; [|congruence].
      destruct Ha as (_ & [_ _ _ (_ & _ & _ & _ & Hn)] & Hle). lia.
Qed.

Lemma tracks_phase l p s ps : tracks l s ps → tracks l (set_phase p s) ps.
Proof. intros []. by constructor. Qed.
Lemma tracks_jobs l s ps js : tracks l s ps → js = ch_jobs ps → tracks l (set_jobs (jobs s) s) (set_ch_jobs js ps).
Proof. intros [] ->. by constructor. Qed.

Lemma setup_tracks l m s s' u ps : tracks l s ps → on_setup m s = (s', Ok u) → tracks l s' ps.
Proof.
  intros Ht Hr. unfold on_setup in Hr. inv_st. apply tracks_phase.
  match goal with H : send ?f ?s0 = (?s1, _) |- _ => pose proof (send_wp f s0) as Hs; unfold wp in Hs; rewrite H in Hs end.
  destruct Hs as [Hj (_ & _ & _ & Hl)]. by eapply tracks_same.
Qed.

Lemma open_tracks l m s s' u ps : Wire.message_ok (MOpenSuccess m) → session_ok s → tracks l s ps →
  on_open m s = (s', Ok u) → tracks l s' (notice (MOpenSuccess m) ps).
Proof.
  intros (_ & Hid & _) (_ & _ & _ & _ & Hpre & _) [_ _ _ Hprev Hst Hlast Hfiled Hknown] Hr. unfold on_open in Hr. inv_st.
  repeat match goal with H : _ && _ = true |- _ => apply andb_true_iff in H as [? ?] end.
  match goal with H : (phase _ =? 2) = true |- _ => apply Z.eqb_eq in H as Hph end.
  destruct (Hpre ltac:(lia)) as [Hj Hc]. rewrite Hj in *. apply map_Forall2_empty_inv_l in Hfiled.
  constructor; cbn [notice open_channel ch_id ch_extra ch_target ch_prev ch_jobs ch_started ch_last
    channel extra s_target have_previous previous generation last_sent jobs current
    set_phase set_extra set_s_target set_group set_channel]; rewrite ?Hj, ?Hc, ?Hfiled; try done.
  - match goal with H : _ || _ = true |- _ => apply orb_true_iff in H end.
    rewrite resize_spec, take_ge; [done|]. by match goal with H : _ ∨ _ |- _ => destruct H as [->%Nat.eqb_eq| ->%Nat.eqb_eq]; lia end.
  - apply map_Forall2_empty.
  - intros j [Hl|]; [|done]. split_and!; [by apply Hknown; left..|]. intros k st. by rewrite lookup_empty.
Qed.

Lemma new_job_tracks l m s s' u ps : Wire.message_ok (MNewJob m) → session_ok s → v2_wf s → generation s + 1 < 2 ^ 64 →
  tracks l s ps → on_new_job m s = (s', Ok u) → tracks l s' (notice (MNewJob m) ps).
Proof.
  intros (_ & Hk & _ & Hv & _) Hok (Lt & Lp & Hg & _) Hg1 Ht Hr.
  pose proof (on_new_job_wp m s Hok) as Hw. unfold wp in Hw. rewrite Hr in Hw. cbn [fst snd] in Hw.
  destruct Hw as (_ & (_ & _ & _ & Hls) & _ & Hnone & Hw).
  pose proof (map_Forall2_lookup_None _ _ _ _ (tr_jobs _ _ _ Ht) Hnone) as Hnone'.
  cbn [notice]. destruct (nj_ntime m) as [t|].
  - destruct Hw as (j & Hact & _). eapply start_tracks; [exact Hact| |done..]. cbn [set_jobs jobs].
    rewrite delete_insert_id, delete_id by done.
    exact (tracks_jobs l s ps _ Ht eq_refl).
  - destruct Hw as [-> _]. destruct Ht as [? ? ? ? Hst ? Hfiled Hknown]. constructor; try done.
    + by apply map_Forall2_insert_2.
    + cbn [set_jobs jobs current generation]. intros j Hj. split_and!; [by apply Hknown..|]. intros k st.
      destruct (decide (nj_job m = k)) as [<-|Hne]; [rewrite lookup_insert_eq; by intros [= <-]|].
      rewrite lookup_insert_ne by done. by apply Hknown.
Qed.

Lemma prev_hash_tracks l m s s' u ps : Wire.message_ok (MPrevHash m) → session_ok s → v2_wf s →
  generation s + 1 < 2 ^ 64 → tracks l s ps → on_prev_hash m s = (s', Ok u) → tracks l s' (notice (MPrevHash m) ps).
Proof.
  intros (_ & Hk & Hh & _) Hok (Lt & _ & Hg & _) Hg1 Ht Hr.
  pose proof (on_prev_hash_wp m s Hok) as Hw. unfold wp in Hw. rewrite Hr in Hw. cbn [fst snd] in Hw.
  destruct Hw as (_ & _ & _ & st & nt & j & Hst & _ & Hact & _).
  destruct Hok as (_ & _ & _ & Hids & _). destruct (Hids _ _ ltac:(done) Hst) as [Hkj _].
  pose proof Ht as [? ? ? ? ? ? Hfiled Hknown].
  destruct (map_Forall2_lookup_l _ _ _ _ _ Hfiled Hst) as (pj & Hpj & _ & Hv & Hroot & Hver & _).
  cbn [notice]. rewrite Hpj. eapply start_tracks; [exact Hact| |done..].
  cbn [next_epoch set_jobs jobs set_ch_prev set_ch_jobs ch_jobs]. rewrite insert_empty, delete_singleton_eq, delete_empty.
  constructor; try done; cbn [set_jobs jobs set_ch_jobs ch_jobs].
  - apply map_Forall2_empty.
  - intros j' Hj. split_and!; [by apply Hknown..|]. intros k' st'. by rewrite lookup_empty.
Qed.

Lemma target_tracks l m s s' out out' ps : tracks l s ps → on_target m out s = (s', Ok out') →
  tracks l s' (notice (MTarget m) ps).
Proof. intros [] Hr. unfold on_target in Hr. inv_st. by constructor. Qed.

(** Every message a session handles. *)
Lemma message_tracks l m s s' out out' ps : Wire.message_ok m → session_ok s → v2_wf s → generation s + 1 < 2 ^ 64 →
  tracks l s ps → on_message m out s = (s', Ok out') → tracks l s' (notice m ps).
Proof.
  intros Hm Hok Hwf Hg Ht Hr. pose proof (on_message_wp m s out Hok) as Hb. unfold wp in Hb. rewrite Hr in Hb.
  destruct Hb as (_ & _ & Hls). unfold on_message in Hr. apply st_bind_Ok in Hr as (o & s1 & Hr & He).
  injection He as <- _. destruct m; inv_st.
  - by eapply setup_tracks.
  - by eapply open_tracks.
  - by eapply new_job_tracks.
  - by eapply prev_hash_tracks.
  - by eapply target_tracks.
  - pose proof (on_accepted_jobs m out s) as Hj. unfold wp in Hj. rewrite Hr in Hj. by eapply tracks_same.
  - pose proof (on_rejected_jobs m out s) as Hj. unfold wp in Hj. rewrite Hr in Hj. by eapply tracks_same.
  - done.
Qed.

(** *** A read *)

Definition steady (l : list Job) (s : Session) (ps : ChannelState) : Prop := v2_inv s ∧ tracks l s ps.

Lemma steady_same l s s' ps : same_jobs s s' → same_shares s s' → steady l s ps → steady l s' ps.
Proof.
  intros Hj Hs [[Hok Hw] Ht]. split; [split|].
  - apply (session_ok_same s); [done|by eapply accounting_same, Hok|done].
  - by eapply v2_wf_same.
  - eapply tracks_same; [done|apply Hs|done].
Qed.

(** The messages of the frames of a read. *)
Definition frame_messages (fs : list Frame) : list Message :=
  omap (λ f, match decode f with Ok m => Some m | Throw _ => None end) fs.

Lemma frames_tracks l fs s s' out out' ps : steady l s ps → generation s + Z.of_nat (length fs) < 2 ^ 64 →
  on_frames fs out s = (s', Ok out') → tracks l s' (fold_left (flip notice) (frame_messages fs) ps).
Proof.
  revert s out ps. induction fs as [|f fs IH]; intros s out ps [[Hok Hwf] Ht] Hg Hr; cbn [on_frames length] in *; inv_st; [done|].
  match goal with H : decode f = Ok _ |- _ => rename H into Hd end.
  assert (frame_messages (f :: fs) = x :: frame_messages fs) as -> by (unfold frame_messages; cbn; by rewrite Hd).
  apply decode_cases in Hd as [_ [Hm _]%decode_value_sound].
  match goal with H : on_message x out s = (?s1, Ok ?o) |- _ => rename H into Hx; rename s1 into sm; rename o into om end.
  pose proof (on_message_wp x s out Hok) as Hok1. pose proof (on_message_step x out s Hm Hwf ltac:(lia)) as Hst.
  unfold wp in Hok1, Hst. rewrite Hx in Hok1, Hst. destruct Hok1 as [Hok1 _]. destruct (Hst eq_refl) as (Hwf1 & Hg1 & _).
  cbn [fst snd fold_left flip] in *. apply (IH sm om); [|lia|done].
  split; [by split|]. exact (message_tracks l x s sm out om ps Hm Hok Hwf ltac:(lia) Ht Hx).
Qed.

(** [receive] up to its frames: what is left to decrypt. *)
Definition opening (bytes : Bytes) : stM Session (option Bytes) :=
  s ← st_get;
  if phase s =? 0 then
    _ ← st_modify (λ s, set_handshake (handshake s ++ bytes) s);
    s ← st_get;
    _ ← st_require (Z.of_nat (length (handshake s)) <=? 65536) "SV2 handshake buffer limit";
    if (length (handshake s) <? 234)%nat then mret None
    else
      _ ← with_noise (Noise.finish (take 234 (handshake s)));
      let remainder := drop 234 (handshake s) in
      _ ← st_modify (set_handshake []);
      _ ← st_modify (set_phase 1);
      f ← st_lift (setup (host s) (port s) "supryolo/0.2.1");
      _ ← send f;
      mret (Some remainder)
  else mret (Some bytes).

Lemma receive_opening b s : receive b s =
  (o ← opening b; match o with None => mret [] | Some rest => receive_frames rest end) s.
Proof.
  unfold receive, opening. rewrite !st_bind_eq. cbn [st_get]. destruct (phase s =? 0); [|done].
  rewrite !st_bind_eq. cbn [st_modify]. rewrite !st_bind_eq. cbn [st_get]. rewrite !st_bind_eq.
  destruct (st_require _ _ _) as [s1 [u|e]]; [|done]. destruct (_ <? 234)%nat; [done|].
  rewrite !st_bind_eq. destruct (with_noise _ _) as [s2 [u2|e]]; [|done]. cbn zeta. rewrite !st_bind_eq. cbn [st_modify].
  rewrite !st_bind_eq. cbn [st_modify]. rewrite !st_bind_eq. destruct (st_lift _ _) as [s3 [f|e]]; [|done].
  rewrite !st_bind_eq. by destruct (send f s3) as [s4 [u4|e]].
Qed.

(** The messages a read completes. *)
Definition told (b : Bytes) (s : Session) : list Message :=
  match opening b s with
  | (s1, Ok (Some rest)) =>
      match Noise.receive rest (noise s1) with (_, Ok fs) => frame_messages fs | _ => [] end
  | _ => []
  end.

Lemma opening_steady l b s s' o ps : steady l s ps → opening b s = (s', Ok o) →
  steady l s' ps ∧ generation s' = generation s.
Proof.
  intros Hs Hr. unfold opening in Hr. apply st_bind_Ok in Hr as (? & ? & [= <- <-] & Hr).
  destruct (Z.eqb_spec (phase s) 0) as [Hp|_]; [|by injection Hr as <- _].
  apply st_bind_Ok in Hr as (? & s1 & [= <-] & Hr). apply st_bind_Ok in Hr as (? & ? & [= <- <-] & Hr).
  set (s1 := set_handshake _ s) in *. assert (steady l s1 ps) as H1 by exact (steady_same l s s1 ps ltac:(by split_and!) ltac:(by split_and!) Hs).
  apply st_bind_Ok in Hr as (? & ? & Hc & Hr). apply st_require_Ok in Hc as [_ ->].
  destruct (_ <? 234)%nat; [by injection Hr as <- _|].
  apply st_bind_Ok in Hr as (u2 & s2 & Hf & Hr). cbn zeta in Hr.
  pose proof (with_noise_same (Noise.finish (take 234 (handshake s1))) s1) as Hw. unfold wp in Hw. rewrite Hf in Hw.
  destruct Hw as [Hj2 Hs2]. pose proof (steady_same _ _ _ _ Hj2 Hs2 H1) as [[Hok2 Hwf2] Ht2].
  apply st_bind_Ok in Hr as (? & s3 & [= <-] & Hr). apply st_bind_Ok in Hr as (? & s4 & [= <-] & Hr).
  apply st_bind_Ok in Hr as (f & ? & Hl & Hr). apply st_lift_Ok in Hl as [_ ->].
  apply st_bind_Ok in Hr as (u & s5 & Hsd & Hr). injection Hr as <- _.
  set (s4 := set_phase 1 (set_handshake [] s2)) in *.
  assert (steady l s4 ps) as H4.
  { split; [split; [|exact Hwf2]|].
    - apply session_ok_phase; [done| |lia]. destruct Hj2 as [Hp2 _]. cbn [fst] in Hp2. rewrite Hp2. cbn. lia.
    - apply tracks_phase. eapply tracks_same; [| |exact Ht2]; [by split_and!|done]. }
  pose proof (send_wp f s4) as Hw. unfold wp in Hw. rewrite Hsd in Hw. destruct Hw as [Hj5 Hs5].
  split; [by eapply steady_same|]. destruct Hj2 as (_ & _ & _ & _ & Hg2 & _), Hj5 as (_ & _ & _ & _ & Hg5 & _).
  cbn [fst] in Hg2, Hg5. rewrite Hg5. exact Hg2.
Qed.

Lemma receive_tracks l b s s' out ps : steady l s ps → generation s + 1024 < 2 ^ 64 → receive b s = (s', Ok out) →
  tracks l s' (fold_left (flip notice) (told b s) ps).
Proof.
  intros Hs Hg Hr. rewrite receive_opening in Hr. apply st_bind_Ok in Hr as (o & s1 & Ho & Hr).
  destruct (opening_steady l b s s1 o ps Hs Ho) as [H1 Hg1]. unfold told. rewrite Ho.
  destruct o as [rest|]; [|injection Hr as <- _; apply H1].
  unfold receive_frames in Hr. apply st_bind_Ok in Hr as (fs & s2 & Hn & Hr). unfold with_noise in Hn.
  destruct (Noise.receive rest (noise s1)) as [n r] eqn:En. injection Hn as <- ->.
  apply noise_receive_count in En as Hc. apply (frames_tracks l fs (set_noise n s1) s' [] out); [|cbn; lia|exact Hr].
  eapply steady_same; [| |exact H1]; by split_and!.
Qed.
End messages.

(** ** The conversation of a run *)

Section dialogue.
Context {C : Noise.NoiseCrate} {FP : FloatPrinter}.
Context (backend : nat → Backend) (o : MineOptions).
Import Session(generation, noise, sent, jobs, channel, last_sent, extra, previous, s_target, current, valid,
  wire, job, future, Stored, Session).

(** One step and what is said in it: a read tells the session its messages, a
    submission sends the encryption of a frame, and nothing else is a message of
    the conversation - only a read that fails may have written (requests that open
    the channel). *)
Inductive speaks : System Session → list exchange → System Session → Prop :=
| speaks_read p c c' ms b l : generation (proto c) + 1024 < 2 ^ 64 → with_proto (arrive b) c = (c', Ok ms) →
    speaks (Build_System p c Waiting l) (Told <$> told b (proto c)) (Build_System p c' (Handling ms) l)
| speaks_share s s' fr n b : system_step backend o s s' → at_phase s ≠ Waiting →
    Noise.encode fr (noise (proto (coord s))) = (n, Ok b) →
    sent (proto (coord s')) = sent (proto (coord s)) ++ [b] → speaks s [Sent fr] s'
| speaks_not s s' : system_step backend o s s' → (at_phase s = Waiting → ∀ ms, at_phase s' ≠ Handling ms) →
    (at_phase s = Waiting ∨ sent (proto (coord s')) = sent (proto (coord s))) → speaks s [] s'.

(** A run with its conversation. *)
Inductive dialogue (s0 : System Session) : list exchange → System Session → Prop :=
| dialogue_start : dialogue s0 [] s0
| dialogue_step evs new s s' : dialogue s0 evs s → speaks s new s' → dialogue s0 (evs ++ new) s'.

Lemma speaks_step s new s' : speaks s new s' → system_step backend o s s'.
Proof. intros [p c c' ms b l Hb He| |]; [|done..]. by apply (sys_read _ _ p c c' (Ok ms) b). Qed.
Lemma dialogue_reachable s0 evs s : dialogue s0 evs s → rtc (system_step backend o) s0 s.
Proof. induction 1 as [|evs new s s' _ IH Hs]; [done|]. eapply rtc_r; [exact IH|by eapply speaks_step]. Qed.

(** How the pool knows a share again. *)
Definition share_id (x : Z * Found) : Z * Z * Z :=
  (j_generation (f_job x.2), j_time32 (f_job x.2), f_nonce x.2).

Record in_accord (s : System Session) (ps : ChannelState) : Prop := {
  ia_seen : ch_seen ps = share_id <$> submitted s;
  ia_live : (∀ e, at_phase s ≠ Failed e) → tracks (issued (pool s)) (proto (coord s)) ps;
}.

(** What a step owes. *)
Definition goes_on (s s' : System Session) (ps : ChannelState) : Prop := ∃ new, speaks s new s' ∧
  let r := arbiter new ps in
  in_accord s' r.1 ∧ Forall (λ b, b = true) r.2 ∧ length (submitted s') = (length (submitted s) + length r.2)%nat.

Lemma goes_on_silent s s' ps : in_accord s ps → system_step backend o s s' → submitted s' = submitted s →
  (at_phase s = Waiting → ∀ ms, at_phase s' ≠ Handling ms) →
  (at_phase s = Waiting ∨ sent (proto (coord s')) = sent (proto (coord s))) →
  ((∀ e, at_phase s' ≠ Failed e) → (∀ e, at_phase s ≠ Failed e) ∧ proto (coord s') = proto (coord s) ∧
    ∀ j, j ∈ issued (pool s') → j ∈ issued (pool s) ∨ current (proto (coord s)) = Some j) →
  goes_on s s' ps.
Proof.
  intros [Hseen Hlive] Hst Hsub Hph Hsent Hal. exists []. split; [by apply speaks_not|]. cbn zeta. cbn [arbiter fst snd].
  rewrite Hsub. split_and!; [|constructor|cbn; lia]. constructor; [by rewrite Hsub|]. intros Hf.
  destruct (Hal Hf) as (Hf0 & -> & Hi). destruct (Hlive Hf0) as [? ? ? ? ? ? ? Hk]. constructor; try done.
  intros j [Hj|Hj]; apply Hk; [|by right]. by apply Hi.
Qed.

(** *** A share *)

Lemma roll_time_header extra k pj a j t : started_as extra k pj a j →
  header (j_work (roll_time j t)) = a_prev a ++ replicate 8 x00 ++ le_bytes 8 t ++ leaf_digest (cj_root pj) extra.
Proof.
  intros [Hh Hp _ _]. cbn [roll_time j_work header]. rewrite Hh, (assoc_L app (a_prev a)), store_le_app.
  - by rewrite <- (assoc_L app).
  - rewrite length_app, length_replicate. lia.
  - apply le_bytes_length.
Qed.

Lemma nonce_hash_channel prev t root extra h n : length prev = 32%nat → length h = 80%nat →
  h = prev ++ replicate 8 x00 ++ le_bytes 8 t ++ leaf_digest root extra →
  nonce_hash h n = channel_digest prev root extra t n.
Proof.
  intros Lp Lh ->. unfold nonce_hash, nonce_header, channel_digest. set (leaf := leaf_digest root extra) in *.
  rewrite !length_app, length_replicate, le_bytes_length in Lh. rewrite store_le_app by done.
  rewrite blake2b256_rfc_block; [done|]. rewrite !length_app, !le_bytes_length. lia.
Qed.

(** A share of a V2 job is one of its job with the time rolled forward. *)
Lemma genuine_rolled p j n : pool_inv p → genuine (scans p) j n → ∃ j0, j0 ∈ issued p ∧
  (j_sv2 j0 = false ∨ ∃ d, 0 ≤ d < 2 ^ 24 ∧ j = roll_time j0 ((j_time32 j0 + d) mod 2 ^ 32)).
Proof.
  intros (_ & _ & Hent & _) (e & He & <- & _). rewrite Forall_forall in Hent. destruct (Hent e He) as (Hin & Hcu & Hcase).
  exists (e_base e). split; [done|]. destruct (j_sv2 (e_base e)); [right|by left].
  destruct Hcase as (b & pt & Hb & Hp & ->). pose proof (partition_ok _ _ _ _ _ Hp) as (_ & Hc & _).
  unfold is_u64 in Hcu. rewrite partition_value in Hp by lia. injection Hp as <-. cbn [t_job p_ntime].
  exists (e_cursor e / 2 ^ 32). split; [split; [apply Z.div_pos|apply Z.div_lt_upper_bound]; lia|].
  by replace (j_time32 (e_base e) + 0 * 2 ^ 24 + e_cursor e / 2 ^ 32) with (j_time32 (e_base e) + e_cursor e / 2 ^ 32) by lia.
Qed.

(** A job the session takes for valid is one the pool started. *)
Lemma valid_started l s ps j : tracks l s ps → j ∈ l → valid s j = true → ∃ pj a,
  ch_jobs ps !! j_wire_job j = Some pj ∧ cj_active pj = Some a ∧ started_as (ch_extra ps) (j_wire_job j) pj a j ∧
  is_u32 (j_wire_job j) ∧ is_u32 (cj_version pj).
Proof.
  intros [_ Hex _ _ _ _ Hfiled Hknown] Hj Hv. unfold valid in Hv.
  apply andb_true_iff in Hv as [_ Hv]. destruct (jobs s !! j_wire_job j) as [st|] eqn:Hst; [|done].
  apply andb_true_iff in Hv as [Hf%negb_true_iff Hg%Z.eqb_eq].
  destruct (Hknown j (or_introl Hj)) as (_ & _ & Hk). specialize (Hk _ _ Hst Hf Hg). subst j.
  destruct (map_Forall2_lookup_l _ _ _ _ _ Hfiled Hst) as (pj & Hpj & Hu & Hv' & _ & _ & Ha).
  destruct (cj_active pj) as [a|] eqn:Ea; [|congruence]. destruct Ha as (_ & Ha & _). exists pj, a. by rewrite Hex.
Qed.

Lemma judge_frame_accepts ps pj a j t n q fr : ch_jobs ps !! j_wire_job j = Some pj → cj_active pj = Some a →
  started_as (ch_extra ps) (j_wire_job j) pj a j → is_u32 (j_wire_job j) → is_u32 (cj_version pj) → is_u32 (ch_id ps) →
  is_u32 t → is_u32 n → is_u32 q → ch_last ps < q → (t - j_time32 j) mod 2 ^ 32 < 2 ^ 24 →
  (j_generation j, t, n) ∉ ch_seen ps → length (header (j_work (roll_time j t))) = 80%nat →
  meets (nonce_hash (header (j_work (roll_time j t))) n) (target (j_work j)) = true →
  submit_standard (ch_id ps) q (j_wire_job j) n t (j_version j) = Ok fr →
  judge_frame fr ps = (note q (j_generation j, t, n) ps, true).
Proof.
  intros Hpj Ha Hs Hk Hv Hc Ht Hn Hq Hlast Htime Hnew Hl Hm Hfr.
  pose proof Hs as [_ Lp [Ltg Htg] (_ & _ & Hver & Htm & Hnum)].
  destruct (submit_frame (ch_id ps) q (j_wire_job j) n t (j_version j)) as (f & Hf & He & Hty & Hparse); [rewrite ?Hver; done..|].
  rewrite Hfr in Hf. injection Hf as <-. unfold judge_frame. rewrite Hparse, Hpj.
  destruct pj as [root version act]. cbn [cj_root cj_version cj_active] in *. subst act. rewrite <- Hnum, <- Htm, <- Hver, He, Hty.
  rewrite !Z.eqb_refl, (proj2 (Z.ltb_lt _ _) Hlast), (proj2 (Z.ltb_lt _ _) Htime), bool_decide_eq_false_2 by done.
  cbn [negb andb]. f_equal. apply Z.leb_le. etrans; [|exact Htg].
  pose proof (roll_time_header _ _ _ _ _ t Hs) as Hh. cbn [cj_root] in Hh.
  rewrite <- (nonce_hash_channel _ _ _ _ _ n Lp Hl Hh). apply meets_be; [|exact Hm].
  destruct (nonce_hash_ok _ n Hl) as [_ ->]. done.
Qed.

(** What the pool tells shares apart by tells them apart. *)
Lemma share_id_key p f f' id id' : pool_inv p → (∀ j, j ∈ issued p → j_sv2 j = true) →
  genuine_share p f → genuine_share p f' → share_id (id, f) = share_id (id', f') → key f = key f'.
Proof.
  intros Hp Hv Hf Hf'. destruct (genuine_rolled p _ _ Hp Hf) as (j & Hj & Hjf), (genuine_rolled p _ _ Hp Hf') as (j' & Hj' & Hjf').
  destruct Hjf as [?|(d & _ & Hjf)]; [rewrite Hv in *; done|]. destruct Hjf' as [?|(d' & _ & Hjf')]; [rewrite Hv in *; done|].
  set (t := (_ + d) mod _) in *. set (t' := (_ + d') mod _) in *. clearbody t t'.
  unfold share_id, key. cbn [snd]. rewrite Hjf, Hjf'. cbn [roll_time j_generation j_time32]. intros [= Hg Ht Hn].
  destruct Hp as (Hjs & _). by rewrite (same_generation _ _ _ Hjs Hj Hj' Hg), Ht, Hn.
Qed.

(** What is known of a submission that returns. *)
Lemma send_share_sends j n id s s' : 0 ≤ id → 0 ≤ n → v2_inv s → send_share o j n id s = (s', Ok tt) →
  is_u32 id ∧ is_u32 n ∧ last_sent s < id ∧ valid s j = true ∧ last_sent s' = id ∧ Session.same_jobs s s' ∧
  ∃ fr ns b, submit_standard (channel s) id (j_wire_job j) n (j_time32 j) (j_version j) = Ok fr ∧
    Noise.encode fr (noise s) = (ns, Ok b) ∧ sent s' = sent s ++ [b].
Proof.
  intros Hid Hn [Hok _] Hr. cbn [send_share v2_protocol] in Hr. apply st_bind_Ok in Hr as (? & ? & Hq & Hr).
  apply st_require_Ok in Hq as [Hq ->]. apply negb_true_iff, Z.ltb_ge in Hq.
  assert (is_u32 id) as Hid32 by (unfold is_u32; lia). rewrite u32_small in Hr by done.
  pose proof (Session.submit_wp j n id s Hok) as Hw. unfold wp in Hw. rewrite Hr in Hw. cbn [fst snd] in Hw.
  destruct Hw as (_ & _ & _ & Hl & Hlt & Hv & Hn32 & Hj). assert (is_u32 n) as Hnu by (unfold is_u32; lia).
  apply Session.submit_sends in Hr as (fr & ns & b & Hfr & He & _ & Hs). rewrite u32_small in Hfr by done.
  split_and!; try done. by exists fr, ns, b.
Qed.

Lemma share_goes_on p c c' now f q l ps : submit_found o now f c = (c', Ok tt) →
  let s := Build_System p c (Submitting (f :: q)) l in
  let s' := Build_System p c' (Submitting q) (l ++ if nextid c =? nextid c' then [] else [(nextid c, f)]) in
  system_inv s → NoDup (key ∘ snd <$> submitted s') → system_step backend o s s' → in_accord s ps → goes_on s s' ps.
Proof.
  intros He s s' Hinv Hnd Hstep Hag. destruct (alive_inv s Hinv) as (Hi & _ & _ & _ & Hq); [done|].
  apply Forall_cons in Hq as [Hgf _]. destruct Hinv as (Hp & _ & Hgen & _ & Hn10 & _). cbn [s pool coord submitted] in Hp, Hgen, Hn10.
  destruct (genuine_spec p _ _ Hp Hgf) as (Hlen & [Hn0 _] & Hm & _).
  destruct (submit_found_spec o now f c c' (Ok tt) Hlen Hm He) as (_ & _ & _ & _ & Hcase).
  destruct Hcase as [(Hpr & Hni & _)|(Hsend & _ & _ & Hni)].
  - apply goes_on_silent; try done; cbn; rewrite ?Hpr, ?Hni, ?Z.eqb_refl, ?app_nil_r; try done; [by right|].
    intros _. split_and!; try done. by left.
  - pose proof Hag as [Hseen Hlive]. assert (tracks (issued p) (proto c) ps) as Htr by (apply Hlive; done). clear Hlive.
    cbn [s coord] in Hi. assert (0 ≤ nextid c) as Hid0 by lia. destruct (send_share_sends _ _ _ _ _ Hid0 Hn0 Hi Hsend) as
      (Hid & Hn & Hlast & Hv & Hls & Hj & fr & ns & b & Hfr & Henc & Hsent).
    destruct (genuine_rolled p _ _ Hp Hgf) as (j & Hjin & Hroll).
    destruct Hroll as [Hv2|(d & Hd & Hroll)]; [by rewrite (proj1 (tr_known _ _ _ Htr j (or_introl Hjin))) in Hv2|].
    set (t := (j_time32 j + d) mod 2 ^ 32) in *. rewrite Hroll in Hv, Hm, Hlen, Hfr.
    change (valid (proto c) j = true) in Hv.
    destruct (valid_started _ _ _ _ Htr Hjin Hv) as (pj & a & Hpj & Ha & Hst & Hk & Hver).
    assert (share_id (nextid c, f) = (j_generation j, t, f_nonce f)) as Hsid by (unfold share_id; cbn [snd]; by rewrite Hroll).
    assert (submitted s' = l ++ [(nextid c, f)]) as Hsub by (cbn; by rewrite (proj2 (Z.eqb_neq _ _)) by lia).
    assert (share_id (nextid c, f) ∉ ch_seen ps) as Hnew.
    { rewrite Hseen. cbn [s submitted]. intros ([id f'] & Heq & Hin)%list_elem_of_fmap.
      rewrite Forall_forall in Hgen. assert (key f = key f') as Hkey.
      { eapply (share_id_key p); [exact Hp| |exact Hgf|exact (Hgen _ Hin)|exact Heq].
        intros j' Hj'. apply (tr_known _ _ _ Htr j'). by left. }
      rewrite Hsub, fmap_app in Hnd. apply NoDup_app in Hnd as (_ & Hnd & _).
      apply (Hnd (key f)); [|by apply list_elem_of_singleton]. rewrite Hkey.
      apply list_elem_of_fmap. by exists (id, f'). }
    pose proof (tr_channel _ _ _ Htr) as [Hch Hchu].
    assert (judge_frame fr ps = (note (nextid c) (j_generation j, t, f_nonce f) ps, true)) as Hjudge.
    { rewrite <- Hch in Hfr, Hchu. eapply (judge_frame_accepts ps pj a j); try done.
      - unfold is_u32, t. apply Z.mod_pos_bound. lia.
      - by rewrite (tr_last _ _ _ Htr).
      - unfold t. rewrite Zminus_mod_idemp_l. replace (j_time32 j + d - j_time32 j) with d by lia.
        rewrite Z.mod_small by lia. lia.
      - by rewrite <- Hsid. }
    exists [Sent fr]. split; [by eapply speaks_share|]. cbn zeta. cbn [arbiter]. rewrite Hjudge. cbn [fst snd length].
    rewrite Hsub, length_app. cbn [length]. split_and!; [|by apply Forall_singleton|done]. constructor.
    + cbn [note ch_seen]. rewrite Hsub, fmap_app, Hseen, <- Hsid. done.
    + intros _. cbn [s' pool coord]. destruct Hj as (_ & Hc & _ & _ & Hg & Hjo & Hcu & Ht & _ & Hpv & Hh & Hex).
      destruct Htr. constructor; cbn [note ch_id ch_extra ch_target ch_prev ch_started ch_last ch_jobs];
        rewrite ?Hc, ?Hg, ?Hjo, ?Hcu, ?Ht, ?Hpv, ?Hh, ?Hex, ?Hls; done.
Qed.

(** *** Every step *)

Lemma message_goes_on p c c' now m ms r l ps : on_message now m c = (c', r) →
  let s := Build_System p c (Handling (m :: ms)) l in
  let s' := Build_System (publish_to p (c_work c')) c' (after r (λ _, Handling ms)) l in
  system_inv s → system_step backend o s s' → in_accord s ps → goes_on s s' ps.
Proof.
  intros He s s' Hinv Hstep Hag. destruct (on_message_spec now m c c' r He) as (p' & r' & Hev & Hpr & _ & _ & _ & Hcase).
  cbn [on_event v2_protocol] in Hev. injection Hev as <- <-.
  apply goes_on_silent; try done; [by right; cbn; rewrite Hpr|]. intros Hf. split_and!; [done..|].
  cbn [s s' pool coord]. intros j [?|[Hw Hj]]%publish_to_known; [by left|right].
  destruct Hinv as (_ & Hwk & _). cbn [s pool coord] in Hwk.
  destruct (is_ok r && _); destruct Hcase as [Hcw _]; [|congruence]. cbn in Hcw. congruence.
Qed.

Lemma read_goes_on p c c' ms b l ps : generation (proto c) + 1024 < 2 ^ 64 → with_proto (arrive b) c = (c', Ok ms) →
  let s := Build_System p c Waiting l in let s' := Build_System p c' (Handling ms) l in
  system_inv s → in_accord s ps → goes_on s s' ps.
Proof.
  intros Hb He s s' Hinv [Hseen Hlive]. exists (Told <$> told b (proto c)). split; [by apply speaks_read|].
  rewrite arbiter_told. cbn [fst snd length]. split_and!; [|constructor|cbn; lia].
  destruct (alive_inv s Hinv) as (Hi & _); [done|]. unfold with_proto in He. cbn [arrive v2_protocol] in He.
  destruct (Session.receive b (proto c)) as [p' r] eqn:Hr. injection He as <- ->. constructor; cbn [s' pool coord submitted set_proto proto].
  - cbn [s submitted] in Hseen. rewrite <- Hseen. generalize (told b (proto c)). clear. intros ms. revert ps. induction ms as [|m ms IH]; intros ps; [done|].
    cbn [fold_left flip]. rewrite IH. unfold notice, start_job. by repeat case_match.
  - intros _. eapply receive_tracks; [|exact Hb|exact Hr]. split; [exact Hi|]. by apply Hlive.
Qed.

(** A step of the coordinator that leaves the protocol and the jobs alone. *)
Lemma still_goes_on s s' ps : in_accord s ps → system_step backend o s s' → submitted s' = submitted s →
  (at_phase s = Waiting → ∀ ms, at_phase s' ≠ Handling ms) → proto (coord s') = proto (coord s) →
  issued (pool s') = issued (pool s) → (∀ e, at_phase s ≠ Failed e) → goes_on s s' ps.
Proof.
  intros Hag Hst Hsub Hph Hp Hi Hf. apply goes_on_silent; try done; [by right; rewrite Hp|].
  intros _. split_and!; [done..|]. rewrite Hi. by left.
Qed.
(** A step into failure. *)
Lemma failing_goes_on s s' ps e : in_accord s ps → system_step backend o s s' → submitted s' = submitted s →
  at_phase s' = Failed e → at_phase s = Waiting ∨ proto (coord s') = proto (coord s) → goes_on s s' ps.
Proof.
  intros Hag Hst Hsub Hph Hp. apply goes_on_silent; try done.
  - intros _ ms. by rewrite Hph.
  - destruct Hp as [?| ->]; [by left|by right].
  - intros Hf. by destruct (Hf e).
Qed.

(** A submission that throws wrote nothing. *)
Lemma send_share_throws j n id s s' e : send_share o j n id s = (s', Throw e) → sent s' = sent s.
Proof.
  cbn [send_share v2_protocol]. unfold Session.submit, Session.send, Session.with_noise, Session.write. rewrite st_bind_eq.
  destruct (st_require _ _ s) as [s1 [u|e1]] eqn:E; [|intros [= <- _]; unfold st_require in E; by injection E as <- _].
  apply st_require_Ok in E as [_ ->]. rewrite st_bind_eq. cbn [st_get]. rewrite st_bind_eq.
  destruct (st_require _ _ s) as [s1 [u1|e1]] eqn:E; [|intros [= <- _]; unfold st_require in E; by injection E as <- _].
  apply st_require_Ok in E as [_ ->]. rewrite !st_bind_eq. cbn [st_modify]. rewrite st_bind_eq. cbn [st_modify].
  rewrite st_bind_eq. destruct (submit_standard _ _ _ _ _ _) as [f|ex]; [|by intros [= <- _]]. cbn [st_lift].
  rewrite st_bind_eq. destruct (Noise.encode f _) as [ns [b|ex]]; [done|by intros [= <- _]].
Qed.

Lemma refused_goes_on p c c' now f q l e ps : submit_found o now f c = (c', Throw e) →
  let s := Build_System p c (Submitting (f :: q)) l in
  let s' := Build_System p c' (Failed e) (l ++ if nextid c =? nextid c' then [] else [(nextid c, f)]) in
  system_inv s → system_step backend o s s' → in_accord s ps → goes_on s s' ps.
Proof.
  intros He s s' Hinv Hstep Hag. destruct (alive_inv s Hinv) as (_ & _ & _ & _ & Hq); [done|].
  apply Forall_cons in Hq as [Hgf _]. destruct Hinv as (Hp & _). destruct (genuine_spec p _ _ Hp Hgf) as (Hlen & _ & Hm & _).
  destruct (submit_found_spec o now f c c' (Throw e) Hlen Hm He) as (_ & _ & _ & _ & Hni & Hpr).
  apply goes_on_silent; try done.
  - cbn. by rewrite Hni, Z.eqb_refl, app_nil_r.
  - right. cbn [s s' coord]. destruct Hpr as [->|(ex & Hsd)]; [done|]. by eapply send_share_throws.
  - intros Hf. by destruct (Hf e).
Qed.

Lemma step_goes_on s s' ps : system_inv s → NoDup (key ∘ snd <$> submitted s') → system_step backend o s s' →
  in_accord s ps → goes_on s s' ps.
Proof.
  intros Hinv Hnd Hstep Hag. pose proof Hstep as Hst. destruct Hstep as [p p' c ph l Ht|p c c' r b now l He
    |p c c' r force begin now slots readings l He|p c c' r b l Hb He|p c c' r now m ms l Hb He|p c l|p c c' r l He
    |p c c' r now f q l He|p c c' r now l He|p c ph e l].
  - destruct (thread_step_frame _ _ _ Ht) as (_ & _ & Hi & _). apply goes_on_silent; try done; cbn.
    + by intros ->.
    + by right.
    + rewrite Hi. intros Hf. split_and!; [done..|by left].
  - apply start_drain_proto in He. by apply still_goes_on.
  - apply keeps_proto in He; [|apply _]. destruct r as [u|e]; [by apply still_goes_on|eapply failing_goes_on; try done; by left].
  - destruct r as [ms|e]; [by eapply read_goes_on|eapply failing_goes_on; try done; by left].
  - by eapply message_goes_on.
  - by apply still_goes_on.
  - apply take_queue_proto in He. destruct r as [q|e]; [by apply still_goes_on|eapply failing_goes_on; try done; by right].
  - destruct r as [[]|e]; [by eapply share_goes_on|by eapply refused_goes_on].
  - apply keeps_proto in He; [|apply _]. destruct r as [u|e]; [by apply still_goes_on|eapply failing_goes_on; try done; by right].
  - eapply failing_goes_on; try done. by right.
Qed.

Lemma start_in_accord s k h pt u r : system_start s → Session.new_session k h pt u r = Ok (proto (coord s)) →
  in_accord s new_channel.
Proof.
  intros ((_ & Hi & _) & _ & Hsub & _) Hs. constructor; [by rewrite Hsub|]. intros _. rewrite Hi.
  unfold Session.new_session in Hs. destruct (Noise.new_noise k) as [[n first]|e]; [|discriminate].
  rewrite bind_Ok_eq in Hs. apply Ok_inj in Hs. rewrite <- Hs. constructor; try done.
  - apply map_Forall2_empty.
  - intros j [Hj|Hj]; [by apply elem_of_nil in Hj|done].
Qed.

(** *** Every run *)

Lemma run_dialogue s0 k h pt u r s : (∀ i, @BackendLaws (backend i)) → system_start s0 →
  Session.new_session k h pt u r = Ok (proto (coord s0)) → rtc (system_step backend o) s0 s →
  ∃ evs, dialogue s0 evs s ∧ let res := arbiter evs new_channel in
    in_accord s res.1 ∧ Forall (λ b, b = true) res.2 ∧ length res.2 = length (submitted s).
Proof.
  intros Hlaws Hstart Hs Hr. revert s Hr. refine (rtc_ind_r (λ s, ∃ evs, dialogue s0 evs s ∧ _) s0 _ _);
    [|intros s s' Hr Hstep IH].
  - exists []. cbn zeta. split; [constructor|]. pose proof Hstart as (_ & _ & Hsub & _).
    split_and!; [by eapply start_in_accord|constructor|by rewrite Hsub].
  - destruct IH as (evs & Hd & Hag & Hall & Hlen). cbn zeta in *.
    assert (system_inv s) as Hinv by exact (system_reachable_inv backend o Hlaws s0 s Hstart Hr).
    assert (NoDup (key ∘ snd <$> submitted s')) as Hnd.
    { eapply submitted_NoDup; [exact Hlaws|exact Hstart|]. eapply rtc_r; [exact Hr|exact Hstep]. }
    destruct (step_goes_on s s' _ Hinv Hnd Hstep Hag) as (new & Hsp & Hgo). cbn zeta in Hgo.
    exists (evs ++ new). split; [by econstructor|]. rewrite arbiter_app.
    destruct (arbiter evs new_channel) as [ps bs]. cbn [fst snd] in *. destruct (arbiter new ps) as [ps' bs'].
    cbn [fst snd] in *. destruct Hgo as (Hag' & Hall' & Hlen').
    split_and!; [done|by apply Forall_app|rewrite length_app; lia].
Qed.

(** C4: A Stratum V2 pool accepts every share.  Take a connection that begins with
    a new session.  In every interleaving of threads and coordinator and whatever
    the pool sends, what the miner writes - apart from the requests that open the
    channel, written while it reads - is the encryption of frames; and a pool that
    remembers what it told the miner - channel, extranonce, targets, previous
    hashes, jobs - and judges each frame by the messages the miner had read by then
    finds every one a new share of a live job, numbered in order, with the job's
    version and a time at most 2^24 seconds past the announced one, whose digest by
    RFC 7693 meets the target in force when the job was started; there is exactly
    one frame per share submitted. *)
Theorem channel_accepts s0 k h pt u r s : (∀ i, @BackendLaws (backend i)) → system_start s0 →
  Session.new_session k h pt u r = Ok (proto (coord s0)) → rtc (system_step backend o) s0 s →
  ∃ evs, dialogue s0 evs s ∧ let verdicts := (arbiter evs new_channel).2 in
    Forall (λ b, b = true) verdicts ∧ length verdicts = length (submitted s).
Proof.
  intros Hlaws Hstart Hs Hr. destruct (run_dialogue s0 k h pt u r s Hlaws Hstart Hs Hr) as (evs & Hd & _ & Hall & Hlen).
  by exists evs.
Qed.
End dialogue.

(** ** An example: a channel is opened, a future job started, and a share found

    The target of the channel asks for 32 zero bits; the nonce 0 at this time and with
    this extranonce meets it. *)
Module Mined.
#[local] Existing Instances Noise.Plain.crate Noise.Plain.laws System.Run.printer.

Definition time : Z := 1753681012.
Definition messages : list Message :=
  [MSetupSuccess {| ss_version := 2; ss_flags := 0 |};
   MOpenSuccess {| os_request := 1; os_channel := 7; os_target := Session.maximum_target; os_prefix := [x05; x05; x05; x1f]; os_group := 9 |};
   MNewJob (Session.Session2.new_job 1 None);
   MPrevHash {| ph_channel := 9; ph_job := 1; ph_hash := replicate 32 x00; ph_ntime := time; ph_nbits := 0x1d00ffff |}].

(** What the pool sends: the end of the handshake, then the messages, encrypted
    from the third block on (the first two are the miner's [SetupConnection]). *)
Definition pool_noise : Noise.Noise :=
  Noise.set_state {| Noise.initiator := None; Noise.engine := Some 2; Noise.st_failed := false |} Noise.Plain.ready_noise.
Definition stream : Bytes :=
  replicate 234 x00 ++ match Noise.encode_all (Wire.encode <$> messages) pool_noise with (_, Ok b) => b | _ => [] end.

Definition threads : Pool :=
  {| shared := no_work; issued := []; scans := [];
     workers := [{| w_batch := 1; w_row := 0; w_generation := 0; w_cursor := 0; w_hashes := 0; w_stage := Looping |}] |}.
Definition coordinator : Coord Session.Session :=
  connected Session.Session2.fresh 0
    {| proto := Session.Session2.fresh; c_work := None; pending := ∅; nextid := 0; received := 0; activated := false;
       draining := false; drain_until := 0;
       view := set_devices [new_device "CPU" "scalar" EmptyString] new_view; log := [];
       had_work := false; fatal := false; backoff := 1; last_update := 0; last_hashes := [0]; thermal := [-1] |}.
Definition start : System Session.Session :=
  {| pool := threads; coord := coordinator; at_phase := Waiting; submitted := [] |}.
Definition steps : list action :=
  [Read stream; Handle; Handle; Handle; Handle; Thread 0; Thread 0; Thread 0; Handled; Take; Submit].

Lemma channel_start_ok : system_start start.
Proof.
  split_and!; try done.
  - split_and!; try done; [cbn; lia|]. by repeat constructor.
  - exact (v2_initial_inv (replicate 32 x01) "pool" 3333 "worker" 0 Session.Session2.fresh eq_refl).
  - by eexists _, _.
Qed.

(** The pool accepts the share once, and neither another nonce nor an older job. *)
Definition share (q n t : Z) : exchange :=
  match submit_standard 7 q 1 n t 1 with Ok f => Sent f | Throw _ => Told (MSetupSuccess {| ss_version := 2; ss_flags := 0 |}) end.
Example verdicts :
  (arbiter ((Told <$> messages) ++ [share 10 0 time; share 11 0 time; share 12 1 time; share 13 0 (time - 1)]) new_channel).2 =
  [true; false; false; false].
Proof. vm_compute. reflexivity. Qed.

Lemma channel_accepts_witness :
  let s := schedule cpu_backends System.Run.options steps start in
  length (submitted s) = 1%nat ∧
  ∃ evs, dialogue cpu_backends System.Run.options start evs s ∧
    Forall (λ b, b = true) (arbiter evs new_channel).2 ∧ length (arbiter evs new_channel).2 = length (submitted s).
Proof.
  intros s. split; [vm_compute; reflexivity|].
  exact (channel_accepts cpu_backends System.Run.options start (replicate 32 x01) "pool" 3333 "worker" 0 s
    cpu_backends_laws channel_start_ok eq_refl (schedule_reachable cpu_backends System.Run.options steps start)).
Defined.
End Mined.
