(* ===== verification/Startup.v ===== *)
(** * Starting to mine

    The part of [mine] in src/src/miner.cpp before its loop: the checks, the
    choice of GPUs and the number of CPU threads, the rows shown, one slot per
    mining thread, and the Stratum V2 endpoint; and the selection of the
    benchmark in src/src/main.cpp.  The enumerated devices and the number of
    logical processors are given. *)
From Stdlib Require Import SpecFloat.
From S2P Require Import Prelude Words Hex Targets Work Cpu Devices Amd Options Workers View Coordinator Transport Protocols.
From S2P Require Sv2 Noise Session.

(** ** The choice of devices *)

(** [transport_url] and the authority key of Stratum V2. *)
Definition check_url (o : MineOptions) : result (option Bytes * string) :=
  let url := bytes_of (o_url o) in
  if starts_with (bytes_of "stratum2+tcp://") url then
    key ← unhex (o_sv2_authority o);
    _ ← throw_if (negb (length key =? 32)%nat) "SV2 requires --sv2-authority with 32-byte hex key";
    Ok (Some key, "stratum+tcp://" +:+ String.string_of_list_byte (drop 15 url))
  else Ok (None, o_url o).

Fixpoint find_device (id : Z) (l : list GpuInfo) : option GpuInfo :=
  match l with [] => None | d :: l => if index d =? id then Some d else find_device id l end.
(** The devices asked for, in the order given. *)
Fixpoint pick_devices (ids : list Z) (available : list GpuInfo) (missing : Z → string) : result (list GpuInfo) :=
  match ids with
  | [] => Ok []
  | id :: ids =>
      match find_device id available with
      | None => Throw (runtime_error (missing id))
      | Some d => ds ← pick_devices ids available missing; Ok (d :: ds)
      end
  end.
Definition select_gpus (o : MineOptions) (available : list GpuInfo) : result (list GpuInfo) :=
  if o_no_gpu o then Ok []
  else if negb (o_devices_explicit o) then Ok available
  else pick_devices (o_devices o) available (λ id, "GPU device " +:+ pretty id +:+ " unavailable").

(** [cpu_threads]; zero asks for half of the logical processors, less one per GPU
    and one. *)
Definition cpu_thread_count (o : MineOptions) (logical : Z) (selected : nat) : Z :=
  let n := if o_no_cpu o then 0 else o_cpu_threads o in
  if negb (o_no_cpu o) && (n =? 0) then Z.max 1 (logical / 2 - Z.of_nat selected - 1) else n.

Record Plan := { plan_authority : option Bytes; plan_url : string; plan_gpus : list GpuInfo; plan_cpus : Z }.

(** From the first check of [mine] to the last one. *)
Definition prepare (o : MineOptions) (available : result (list GpuInfo)) (logical : Z) : result Plan :=
  '(authority, url) ← check_url o;
  _ ← throw_if (bool_decide (o_user o = EmptyString)) "payout worker required with --user";
  _ ← throw_if (o_no_cpu o && o_no_gpu o) "No mining devices enabled (--no-cpu and --no-gpu)";
  available ← (if o_no_gpu o then Ok [] else available);
  selected ← select_gpus o available;
  _ ← throw_if (64 <? Z.of_nat (length selected)) "At most 64 GPUs may be selected";
  _ ← throw_if (bool_decide (selected = []) && o_no_cpu o) "No enabled GPU devices available; CPU disabled";
  let n := cpu_thread_count o logical (length selected) in
  _ ← throw_if (128 <? n) "At most 128 CPU threads supported";
  Ok {| plan_authority := authority; plan_url := url; plan_gpus := selected; plan_cpus := n |}.

(** The devices and threads of a benchmark. *)
Definition benchmark_plan (o : MineOptions) (all : result (list GpuInfo)) (concurrency : Z)
    : result (list GpuInfo * Z) :=
  all ← (if o_no_gpu o then Ok [] else all);
  selected ← (if o_devices_explicit o then pick_devices (o_devices o) all (λ _, "GPU device unavailable") else Ok all);
  let n := if o_no_cpu o then 0
           else if negb (o_cpu_threads o =? 0) then o_cpu_threads o else Z.max 1 (concurrency / 2) in
  _ ← throw_if (bool_decide (selected = []) && (n =? 0)) "No enabled devices available";
  Ok (selected, n).

(** ** Slots and rows *)

Record Slot := { s_row : Z; s_gpu : Z }.
Definition slots (p : Plan) : list Slot :=
  imap (λ i _, {| s_row := Z.of_nat i; s_gpu := Z.of_nat i |}) (plan_gpus p) ++
  replicate (Z.to_nat (plan_cpus p)) {| s_row := Z.of_nat (length (plan_gpus p)); s_gpu := -1 |}.

Definition cpu_name (k : cpu_kind) : string :=
  match k with CpuScalar => "CPU scalar reference" | CpuAvx2 => "CPU AVX2 4-way" end.
Definition gpu_row (d : GpuInfo) : DeviceView := new_device ("GPU" +:+ pretty (index d)) (name d) (pci_bus d).
(** The rows of the view; naming the CPU constructs its back end, which may throw. *)
Definition rows (o : MineOptions) (avx2 : bool) (p : Plan) : result (list DeviceView) :=
  if plan_cpus p =? 0 then Ok (gpu_row <$> plan_gpus p)
  else
    k ← cpu_backend avx2 (o_cpu_variant o);
    Ok ((gpu_row <$> plan_gpus p) ++
        [new_device "CPU" (cpu_name k +:+ " x" +:+ pretty (plan_cpus p)) EmptyString]).

(** The text after the last dot of the worker name. *)
Definition worker_name (user : string) : string :=
  match rsplit x2e (bytes_of user) with
  | Some (_, rig) => String.string_of_list_byte rig
  | None => user
  end.
Definition first_view (o : MineOptions) (ds : list DeviceView) : DashboardView :=
  set_devices ds (set_alarm_temperature (o_alarm_temperature o)
    (set_warn_temperature (o_warn_temperature o)
    (set_worker (worker_name (o_user o)) (set_pool (o_url o) new_view)))).

(** The thread of a slot before its first iteration. *)
Definition worker_of (o : MineOptions) (s : Slot) : Worker :=
  {| w_batch := if s_gpu s <? 0 then o_cpu_batch o else o_batch o; w_row := s_row s;
     w_generation := 0; w_cursor := 0; w_hashes := 0; w_stage := Looping |}.
(** The threads of a new connection. *)
Definition start_pool (o : MineOptions) (p : Plan) : Pool :=
  {| shared := no_work; workers := worker_of o <$> slots p; issued := []; scans := [] |}.

(** ** The Stratum V2 endpoint *)

(** [std::stoul(s)]; what follows the digits is ignored. *)
Definition stoul (s : Bytes) : result Z :=
  let s := drop_while is_space s in
  let '(neg, s) := match s with
    | c :: r => if b2z c =? 45 then (true, r) else if b2z c =? 43 then (false, r) else (false, s)
    | [] => (false, []) end in
  let ds := take_while is_digit s in
  if bool_decide (ds = []) then Throw std_invalid_argument
  else if 2 ^ 64 <=? dec_value ds then Throw std_out_of_range
  else Ok (if neg : bool then u64 (- dec_value ds) else dec_value ds).

(** Host and port of [transport_url]; without a colon the socket has thrown. *)
Definition sv2_endpoint (transport_url : string) : result (string * Z) :=
  match rsplit b_colon (drop 14 (bytes_of transport_url)) with
  | None => Throw (runtime_error "pool port required")
  | Some (host, port) =>
      p ← stoul port;
      _ ← throw_if ((p =? 0) || (65535 <? p)) "invalid SV2 port";
      Ok (String.string_of_list_byte host, p)
  end.

(** [float(selected.size() * 17e9 + cpu_threads * 25e6)] and its bits; it is never negative. *)
Definition nominal_rate (p : Plan) : spec_float :=
  SFadd 53 1024
    (SFmul 53 1024 (f64_of_Z (Z.of_nat (length (plan_gpus p)))) (f64_of_Z 17000000000))
    (SFmul 53 1024 (f64_of_Z (plan_cpus p)) (f64_of_Z 25000000)).
Definition float_bits (f : spec_float) : Z :=
  match f with
  | S754_finite false m e =>
      match binary_normalize 24 128 (Z.pos m) e false with
      | S754_finite _ m e => (e + 150) * 2 ^ 23 + (Z.pos m - 2 ^ 23)
      | S754_infinity _ => 255 * 2 ^ 23
      | _ => 0
      end
  | _ => 0
  end.

(** The session object of a new connection. *)
Definition open_sv2 `{Noise.NoiseCrate} (o : MineOptions) (p : Plan) (authority : Bytes) : result Session.Session :=
  '(host, port) ← sv2_endpoint (plan_url p);
  Session.new_session authority host port (o_user o) (float_bits (nominal_rate p)).

(** ** Properties *)

Lemma find_device_Some id l d : find_device id l = Some d → d ∈ l ∧ index d = id.
Proof.
  induction l as [|x l IH]; cbn; [done|]. destruct (Z.eqb_spec (index x) id).
  - intros [= <-]. split; [left|done].
  - intros [? ?]%IH. split; [by right|done].
Qed.

Lemma pick_devices_Ok ids available missing ds : pick_devices ids available missing = Ok ds →
  (index <$> ds) = ids ∧ Forall (λ d, d ∈ available) ds.
Proof.
  revert ds. induction ids as [|id ids IH]; intros ds; cbn; [by intros [= <-]|].
  destruct (find_device id available) as [d|] eqn:E; [|discriminate].
  intros (ds' & Hds & [= <-])%bind_Ok. apply find_device_Some in E as [Hd <-].
  destruct (IH ds' Hds) as [<- Hf]. by split; [|constructor].
Qed.

Lemma cpu_thread_count_bounds o logical n : 0 ≤ o_cpu_threads o →
  0 ≤ cpu_thread_count o logical n ∧ (o_no_cpu o = false → 0 < cpu_thread_count o logical n) ∧
  (o_no_cpu o = true → cpu_thread_count o logical n = 0).
Proof.
  intros Ho. unfold cpu_thread_count. destruct (o_no_cpu o); cbn; [done|].
  destruct (Z.eqb_spec (o_cpu_threads o) 0); split_and!; try done; lia.
Qed.

Lemma rows_length o avx2 p ds : rows o avx2 p = Ok ds →
  length ds = (length (plan_gpus p) + if decide (plan_cpus p = 0%Z) then 0 else 1)%nat.
Proof.
  unfold rows. destruct (Z.eqb_spec (plan_cpus p) 0); destruct (decide _); try done.
  - intros [= <-]. rewrite length_fmap. lia.
  - intros (k & _ & [= <-])%bind_Ok. by rewrite length_app, length_fmap.
Qed.

(** The threads of a plan begin where Workers begins. *)
Lemma prepare_pool_start o available logical p : options_ok o → prepare o available logical = Ok p →
  pool_start (start_pool o p).
Proof.
  intros Hok Hp. unfold prepare in Hp. apply bind_Ok in Hp as ([authority url] & _ & Hp).
  do 4 (apply bind_Ok in Hp as (? & _ & Hp)). apply bind_Ok in Hp as (? & H64%throw_if_Ok & Hp).
  apply bind_Ok in Hp as (? & _ & Hp). cbn zeta in Hp. apply bind_Ok in Hp as (? & H128%throw_if_Ok & Hp).
  injection Hp as <-. apply Z.ltb_ge in H64, H128. split_and!; try done.
  - cbn. unfold slots. cbn. rewrite length_fmap, length_app, length_imap, length_replicate. lia.
  - apply Forall_fmap, Forall_forall. intros s _.
    pose proof (ok_batch o Hok). pose proof (ok_cpu_batch o Hok). unfold fresh_worker, compose. cbn.
    split_and!; try done; destruct (s_gpu s <? 0); lia.
Qed.

(** C35: A command line that starts mining starts it properly.  The GPUs are devices
    that exist: all of them, or exactly those asked for, in that order.  There is
    at least one mining thread, at most 64 GPU and 128 CPU threads, each with a
    positive 32-bit batch and a row of the display; so the threads begin in the
    state the rest of the development starts from. *)
Theorem startup_ok argv o available logical p avx2 ds :
  main_command argv = Ok (Mine o) → prepare o available logical = Ok p → rows o avx2 p = Ok ds →
  pool_start (start_pool o p) ∧
  (0 < length (workers (start_pool o p)) ≤ 192)%nat ∧
  Forall (λ w, 0 ≤ w_row w < Z.of_nat (length ds)) (workers (start_pool o p)) ∧
  (∃ all, (o_no_gpu o = false → available = Ok all) ∧ Forall (λ d, d ∈ all) (plan_gpus p) ∧
    (o_no_gpu o = false → o_devices_explicit o = false → plan_gpus p = all)) ∧
  (o_devices_explicit o = true → index <$> plan_gpus p = o_devices o).
Proof.
  intros Hm Hp Hr. destruct (command_options argv o Hm) as (Hok & _ & _ & _ & _ & Hboth & Hexp).
  pose proof (prepare_pool_start o available logical p Hok Hp) as Hstart. unfold prepare in Hp. apply bind_Ok in Hp as ([authority url] & _ & Hp).
  apply bind_Ok in Hp as (? & _ & Hp). apply bind_Ok in Hp as (? & _ & Hp).
  apply bind_Ok in Hp as (all & Hall & Hp). apply bind_Ok in Hp as (sel & Hsel & Hp).
  apply bind_Ok in Hp as (? & H64%throw_if_Ok & Hp). apply bind_Ok in Hp as (? & Hnone%throw_if_Ok & Hp).
  cbn zeta in Hp. apply bind_Ok in Hp as (? & H128%throw_if_Ok & Hp). injection Hp as <-.
  apply Z.ltb_ge in H64, H128. set (n := cpu_thread_count o logical (length sel)) in *.
  pose proof (ok_threads o Hok) as [Ht _].
  destruct (cpu_thread_count_bounds o logical (length sel) Ht) as (Hn0 & Hnpos & Hnz). fold n in Hn0, Hnpos, Hnz.
  apply rows_length in Hr. cbn [plan_gpus plan_cpus] in *.
  assert (length (workers (start_pool o {| plan_authority := authority; plan_url := url; plan_gpus := sel; plan_cpus := n |}))
    = (length sel + Z.to_nat n)%nat) as Hlen.
  { cbn. unfold slots. cbn. rewrite length_fmap, length_app, length_imap, length_replicate. done. }
  assert (0 < length sel + Z.to_nat n)%nat as Hpos.
  { destruct (o_no_cpu o); [|specialize (Hnpos eq_refl); lia].
    destruct sel; [by rewrite bool_decide_eq_true_2 in Hnone|cbn; lia]. }
  split_and!.
  - exact Hstart.
  - rewrite Hlen. lia.
  - rewrite Hlen. lia.
  - apply Forall_fmap, Forall_app. unfold compose, worker_of. cbn [w_row]. split.
    + apply Forall_forall. intros s (i & d & -> & Hi)%elem_of_lookup_imap. apply lookup_lt_Some in Hi.
      cbn [s_row plan_gpus plan_cpus] in *. destruct (decide _) in Hr; lia.
    + apply Forall_forall. intros s [-> Hs]%elem_of_replicate.
      cbn [s_row plan_gpus plan_cpus] in *. destruct (decide _) in Hr; lia.
  - exists all. unfold select_gpus in Hsel. destruct (o_no_gpu o).
    + injection Hsel as <-. by split_and!.
    + split; [done|]. destruct (o_devices_explicit o); cbn [negb] in Hsel.
      * apply pick_devices_Ok in Hsel as [_ Hf]. by split_and!.
      * injection Hsel as <-. split_and!; try done. by apply Forall_forall.
  - intros He. unfold select_gpus in Hsel. rewrite He in *. destruct (o_no_gpu o); [done|].
    by apply pick_devices_Ok in Hsel as [? _].
Qed.

(** The automatic thread count is not capped: with 512 logical processors and no
    [--cpu-threads] the miner refuses to start. *)
Lemma automatic_threads_refused argv o : argv = ["--url"; "stratum+tcp://pool:4444"; "--user"; "a"; "--no-gpu"]%string →
  main_command argv = Ok (Mine o) →
  prepare o (Ok []) 512 = Throw (runtime_error "At most 128 CPU threads supported").
Proof.
  intros -> H. assert (main_command ["--url"; "stratum+tcp://pool:4444"; "--user"; "a"; "--no-gpu"]%string =
    Ok (Mine (mined (main_command ["--url"; "stratum+tcp://pool:4444"; "--user"; "a"; "--no-gpu"]%string)))) as E
    by (vm_compute; reflexivity).
  rewrite E in H. injection H as <-. vm_compute. reflexivity.
Qed.

Definition sample_gpu (i : Z) : GpuInfo :=
  {| index := i; name := "card"; pci_bus := EmptyString; api := opencl; backend_index := i; amd := true |}.
Definition sample_gpus : list GpuInfo := sample_gpu <$> [0; 1; 2].
Definition sample_plan : Plan :=
  {| plan_authority := None; plan_url := "stratum+tcp://pool:4444";
     plan_gpus := [sample_gpu 0; sample_gpu 2]; plan_cpus := 5 |}.
Lemma startup_ok_witness :
  let o := mined (main_command sample_argv) in
  pool_start (start_pool o sample_plan) ∧ length (workers (start_pool o sample_plan)) = 7%nat ∧
  index <$> plan_gpus sample_plan = [0; 2].
Proof.
  cbn zeta. split; [|split; vm_compute; reflexivity].
  apply (startup_ok sample_argv _ (Ok sample_gpus) 16 sample_plan true
    (match rows (mined (main_command sample_argv)) true sample_plan with Ok ds => ds | _ => [] end));
    vm_compute; reflexivity.
Defined.
