(* ===== verification/Whole.v ===== *)
(** * From the command line to the pool

    What the parts achieve together, over either protocol: a command line, the
    devices it selects, the back end each thread constructs (the worker lambda of
    src/src/miner.cpp), the loop of one connection as written, and the pool. *)
From Stdlib Require Import SpecFloat.
From S2P Require Import Prelude Words Hex Blake Targets Work Cpu Avx2 Gpu Cuda OpenCl Devices Json Options Workers View.
From S2P Require Import Coordinator Mine Protocols System Refine Delivery Pool Channel Startup.
From S2P Require Stratum Noise Session.

(** ** Back ends *)

(** [slot.gpu < 0 ? cpu_backend(...) : gpu_backend(...)]: what the back end of a
    slot can be, when its constructor returns. *)
Inductive constructs (o : MineOptions) (p : Plan) (s : Slot) : Backend → Prop :=
| on_scalar avx2 : s_gpu s < 0 → cpu_backend avx2 (o_cpu_variant o) = Ok CpuScalar → constructs o p s cpu_scan
| on_avx2 avx2 : s_gpu s < 0 → cpu_backend avx2 (o_cpu_variant o) = Ok CpuAvx2 → constructs o p s avx2_scan
| on_cuda d dev block v api (B : Backend) : 0 ≤ s_gpu s → plan_gpus p !! Z.to_nat (s_gpu s) = Some d →
    gpu_backend d (o_block o) (o_variant o) (o_opencl_variant o) = CudaBackend dev block v →
    is_ok (new_cuda api block v no_handles).2 = true →
    (∀ w start count, cuda_scan api v block w start count (@scan B w start count)) → constructs o p s B
| on_opencl d dev block variant v rt create maximum held cd name api (B : Backend) : 0 ≤ s_gpu s →
    plan_gpus p !! Z.to_nat (s_gpu s) = Some d →
    gpu_backend d (o_block o) (o_variant o) (o_opencl_variant o) = OpenClBackend dev block variant →
    new_opencl create maximum rt dev block variant ∅ = (held, Ok (cd, v, name)) →
    (∀ w start count, cl_scan api v block w start count (@scan B w start count)) → constructs o p s B.

Lemma new_cuda_checked api b v : is_ok (new_cuda api b v no_handles).2 = true → check_config b v = Ok tt.
Proof.
  unfold new_cuda. rewrite st_bind_eq. unfold st_lift at 1. destruct (check_config b v) as [[]|e]; [done|]. done.
Qed.
Lemma new_opencl_checked create maximum rt dev block variant held r :
  new_opencl create maximum rt dev block variant ∅ = (held, Ok r) → 32 ≤ block.
Proof.
  unfold new_opencl. intros (s & s1 & Hs & _)%st_bind_Ok. apply st_lift_Ok in Hs as [Hs _].
  unfold select_device in Hs. apply bind_Ok in Hs as (? & _ & Hs). apply bind_Ok in Hs as (? & Hg%throw_if_Ok & _).
  bool_lia.
Qed.

Lemma constructs_laws o p s B : constructs o p s B → BackendLaws B.
Proof.
  intros [avx2 _ _|avx2 _ _|d dev block v api B' _ _ _ Hn Hs|d dev block variant v rt create maximum held cd name api B' _ _ _ Hn Hs].
  - exact cpu_laws.
  - exact avx2_laws.
  - eapply cuda_laws; [by eapply new_cuda_checked|exact Hs].
  - eapply cl_laws; [by eapply new_opencl_checked|exact Hs].
Qed.

(** The back ends of all threads.  A thread whose constructor throws ends without a
    scan; any back end may stand for the one it does not have. *)
Definition back_ends (device : nat → option Backend) (i : nat) : Backend := default cpu_scan (device i).
Definition devices_of (o : MineOptions) (p : Plan) (device : nat → option Backend) : Prop :=
  ∀ i B, device i = Some B → ∃ s, slots p !! i = Some s ∧ constructs o p s B.

Lemma back_ends_laws o p device : devices_of o p device → ∀ i, @BackendLaws (back_ends device i).
Proof.
  intros Hd i. unfold back_ends. destruct (device i) as [B|] eqn:E; [|exact cpu_laws].
  destruct (Hd i B E) as (s & _ & Hs). by eapply constructs_laws.
Qed.

(** ** A connection *)

Section connection.
Context {P : Type} `{ProtocolLaws P} `{FloatPrinter} (o : MineOptions).

(** The coordinator when the loop of a connection begins. *)
Definition opened (q : P) (now : Z) (c : Coord P) : Coord P :=
  (begin_connection o q now (on_view (set_v_state "CONNECTING") c).1).1.

Lemma opened_start p q now c : pool_start p → inv q → live q = None → fatal c = false →
  system_start (Build_System p (opened q now c) Waiting []).
Proof.
  intros Hp Hi Hl Hf. split_and!; try done. by exists now, (opened q now c).
Qed.

Lemma attempt_submitted a c q c' r : a_open a = Ok q → connection o (a_ticks a) (opened q (a_now a) c) = (c', r) →
  r_submitted (attempt o a c) = nextid c' - 10.
Proof.
  intros Ho Hc. unfold attempt. rewrite Ho. unfold opened in Hc. rewrite Hc. by destruct r as [[|]|].
Qed.
End connection.

Section accepted.
Context {BN : BigNum} {BL : BigNumLaws BN} {FP : FloatPrinter}.

(** The messages the reads of a connection deliver. *)
Definition reads_of (ticks : list (Tick (P := V1))) : list (list json) :=
  (λ t, match e_read (t_env t) with Ok ms => ms | Throw _ => [] end) <$> ticks.

Lemma v1_reads ticks reads : Forall2 (λ t, delivers (P := V1) (t_env t)) ticks reads → reads = reads_of ticks.
Proof. induction 1 as [|t ms ticks reads (q & q' & [= _ He]) _ IH]; [done|]. unfold reads_of in *. by rewrite fmap_cons, <- IH, He. Qed.

Lemma concat_take_prefix {A} n (l : list (list A)) : concat (take n l) `prefix_of` concat l.
Proof. rewrite <- (take_drop n l) at 2. rewrite concat_app. by eexists. Qed.

(** C1: From the command line to the pool.  Take a command line that starts mining
    over Stratum V1, the plan made of it, for each thread whatever back end its
    constructor returns (CPU scalar or AVX2, CUDA or OpenCL with any driver) and
    one connection of the loop whose opening requests are sent, running beside the
    threads in any order, whichever later reads and writes fail.  Then a
    pool that checks every line against what it announced, by the messages the
    reads delivered, accepts every line the miner writes after its opening
    requests, and there are exactly as many as the loop's books say were
    submitted. *)
Theorem mining_is_accepted argv o available logical p k device a q c p' c' r :
  main_command argv = Ok (Mine o) → prepare o available logical = Ok p → devices_of o p device →
  fatal c = false → v1_open k o = Ok q → a_open a = Ok q →
  live_connection (back_ends device) o (a_ticks a) (start_pool o p) (opened o q (a_now a) c) p' c' r →
  ∃ evs, heard evs `prefix_of` concat (reads_of (a_ticks a)) ∧
    v1_sent (proto c') = v1_hello o ++ lines evs ∧
    let verdicts := (referee (o_user o) evs new_pool).2 in
    Forall (λ b, b = true) verdicts ∧ Z.of_nat (length verdicts) = r_submitted (attempt o a c).
Proof.
  intros Hm Hp Hd Hf Hq Ho Hl. apply v1_open_start in Hq as ->. destruct (command_options argv o Hm) as (Hok & _).
  pose proof (back_ends_laws o p device Hd) as Hlaws.
  pose proof (prepare_pool_start o available logical p Hok Hp) as Hps.
  pose proof (opened_start o _ (v1_start k o) (a_now a) c Hps (v1_initial_inv k o) eq_refl Hf) as Hs.
  rewrite (attempt_submitted o a c (v1_start k o) c' r Ho (live_computes _ _ _ _ _ _ _ _ Hl)).
  destruct (live_from_start _ _ _ _ _ _ _ _ Hlaws Hs Hl) as (shares & ms & n & reads & Hpath & Hids & Hn & Hr & Hpre).
  destruct (path_conversation _ _ _ _ _ Hpath) as (evs & Hc & Hh). exists evs.
  destruct (conversation_agrees _ _ _ _ _ _ Hlaws Hs eq_refl Hc) as (_ & _ & _ & Hall & Hlen & Hsent).
  cbn zeta. split_and!; [|exact Hsent|exact Hall|].
  - rewrite Hh. etrans; [exact Hpre|]. rewrite (v1_reads _ _ Hr). unfold reads_of. rewrite fmap_take. apply concat_take_prefix.
  - cbn [submitted] in Hlen. rewrite <- Hlen. apply (f_equal length) in Hids. rewrite length_fmap, length_seqZ in Hids. lia.
Qed.
End accepted.

Section channel_accepted.
Context {C : Noise.NoiseCrate} {FP : FloatPrinter}.

Lemma open_sv2_session o p k q : open_sv2 o p k = Ok q →
  ∃ h pt, Session.new_session k h pt (o_user o) (float_bits (nominal_rate p)) = Ok q.
Proof. unfold open_sv2. intros ([h pt] & _ & Hq)%bind_Ok. by exists h, pt. Qed.

(** C2: From the command line to a Stratum V2 pool: as for Stratum V1, with the
    session the program opens for the authority key of its plan.  The loop of a
    connection, beside the threads, holds a conversation in which the pool finds
    every frame the miner sends on its channel a share to accept, and there are
    exactly as many as the loop's books say were submitted. *)
Theorem sv2_mining_is_accepted argv o available logical p k device a q c p' c' r :
  main_command argv = Ok (Mine o) → prepare o available logical = Ok p → plan_authority p = Some k →
  devices_of o p device → fatal c = false → open_sv2 o p k = Ok q → a_open a = Ok q →
  live_connection (back_ends device) o (a_ticks a) (start_pool o p) (opened o q (a_now a) c) p' c' r →
  ∃ shares evs,
    dialogue (back_ends device) o (Build_System (start_pool o p) (opened o q (a_now a) c) Waiting []) evs
      (Build_System p' c' (last_phase r) shares) ∧
    let verdicts := (arbiter evs new_channel).2 in
    Forall (λ b, b = true) verdicts ∧ Z.of_nat (length verdicts) = r_submitted (attempt o a c).
Proof.
  intros Hm Hp _ Hd Hf Hq Ho Hl. destruct (command_options argv o Hm) as (Hok & _).
  pose proof (back_ends_laws o p device Hd) as Hlaws.
  pose proof (prepare_pool_start o available logical p Hok Hp) as Hps.
  destruct (open_sv2_session _ _ _ _ Hq) as (h & pt & Hses).
  pose proof (opened_start o _ q (a_now a) c Hps (v2_initial_inv _ _ _ _ _ _ Hses)) as Hs.
  assert (live q = None) as Hlive.
  { unfold Session.new_session in Hses. destruct (Noise.new_noise k) as [[n first]|e]; [|discriminate].
    rewrite bind_Ok_eq in Hses. apply Ok_inj in Hses. by rewrite <- Hses. }
  specialize (Hs Hlive Hf). rewrite (attempt_submitted o a c q c' r Ho (live_computes _ _ _ _ _ _ _ _ Hl)).
  destruct (live_from_start _ _ _ _ _ _ _ _ Hlaws Hs Hl) as (shares & ms & n & reads & Hpath & Hids & Hn & _).
  destruct (run_dialogue _ _ _ k h pt (o_user o) (float_bits (nominal_rate p)) _ Hlaws Hs Hses (path_reachable _ _ _ _ _ Hpath))
    as (evs & Hdl & _ & Hall & Hlen).
  exists shares, evs. cbn zeta in *. split_and!; [exact Hdl|exact Hall|]. rewrite Hlen. cbn [submitted].
  apply (f_equal length) in Hids. rewrite length_fmap, length_seqZ in Hids. lia.
Qed.
End channel_accepted.

(** ** An example: two CPU threads, two shares *)

Module Example.
Import System.Run.
#[local] Existing Instance System.Run.printer.

Definition command : list string :=
  ["--url"; "stratum+tcp://pool:4444"; "--user"; "address.rig"; "--no-gpu"; "--cpu-threads"; "2"; "--cpu-batch"; "1";
   "--cpu-variant"; "scalar"]%string.
Definition o : MineOptions := mined (main_command command).
Definition plan : Plan :=
  {| plan_authority := None; plan_url := "stratum+tcp://pool:4444"; plan_gpus := []; plan_cpus := 2 |}.
Definition device (i : nat) : option Backend := if (i <? 2)%nat then Some cpu_scan else None.

(** The first turn brings the job and takes the share of thread 0, the second that
    of thread 1. *)
Definition fresh : Coord V1 := opened o (v1_start link o) 0 coordinator.
Definition first_take : Pool := Eval vm_compute in
  run_workers (back_ends device) [0; 1; 0; 0]%nat
    (publish_to (start_pool o plan) (c_work (st_iter (on_message 0) replies fresh).1)).
Definition second_take : Pool := Eval vm_compute in run_workers (back_ends device) [1; 1]%nat (empty_queue first_take).
Definition turns : list (Tick (P := V1)) := [Beside.tick replies (shared first_take); Beside.tick [] (shared second_take)].
Definition one_attempt : Attempt (P := V1) :=
  {| a_expired := false; a_open := Ok (v1_start link o); a_now := 0; a_ticks := turns; a_begin := 0; a_pauses := [] |}.

(** The socket's failures end the connection: a read at the end of the stream, and
    a write of the first submission, which is not counted. *)
Definition closed : Tick (P := V1) :=
  {| t_expired := false; t_now := 0; t_env := Beside.env (Throw (runtime_error "pool closed connection")) no_work |}.
Example read_fails : (connection o [Beside.tick replies no_work; closed] fresh).2 =
  Some (Throw (runtime_error "pool closed connection")).
Proof. vm_compute. reflexivity. Qed.
Definition cut (j : json) : result unit :=
  match find j "method" with
  | Some (JString "mining.submit"%string) => Throw (runtime_error "pool send failed")
  | _ => Ok tt
  end.
Example write_fails :
  let x := connection o turns (opened o (v1_start cut o) 0 coordinator) in
  (x.2, nextid x.1, length (v1_sent (proto x.1))) = (Some (Throw (runtime_error "pool send failed")), 10, 3%nat).
Proof. vm_compute. reflexivity. Qed.
Example open_fails : is_ok (v1_open (λ _, Throw (runtime_error "pool send failed")) o) = false.
Proof. reflexivity. Qed.

Lemma device_ok : devices_of o plan device.
Proof.
  intros i B. unfold device. destruct (Nat.ltb_spec i 2) as [Hi|]; [|done]. intros [= <-].
  exists {| s_row := 0; s_gpu := -1 |}. split; [|by apply (on_scalar _ _ _ false)].
  destruct i as [|[|i]]; [done..|lia].
Qed.

Lemma mining_is_accepted_witness :
  r_submitted (attempt o one_attempt coordinator) = 2 ∧
  match exec_connection (back_ends device) o turns Beside.threads (start_pool o plan) fresh with
  | Some (p', c', r) => ∃ evs, heard evs `prefix_of` concat (reads_of turns) ∧
      v1_sent (proto c') = v1_hello o ++ lines evs ∧
      Forall (λ b, b = true) (referee (o_user o) evs new_pool).2 ∧
      Z.of_nat (length (referee (o_user o) evs new_pool).2) = r_submitted (attempt o one_attempt coordinator)
  | None => False
  end.
Proof.
  split; [vm_compute; reflexivity|].
  assert (match exec_connection (back_ends device) o turns Beside.threads (start_pool o plan) fresh with
    | Some _ => true | None => false end = true) as Hr by (vm_compute; reflexivity).
  pose proof (exec_live (back_ends device) o turns Beside.threads (start_pool o plan) fresh) as Hl.
  destruct (exec_connection _ _ _ _ _ _) as [[[p' c'] r]|]; [|discriminate Hr].
  assert (main_command command = Ok (Mine o)) as Hm by (vm_compute; reflexivity).
  assert (prepare o (Ok []) 8 = Ok plan) as Hp by (vm_compute; reflexivity).
  exact (mining_is_accepted command o (Ok []) 8 plan link device one_attempt (v1_start link o) coordinator p' c' r Hm Hp device_ok
    eq_refl eq_refl eq_refl (Hl p' c' r eq_refl)).
Defined.
End Example.

(** ** An example over Stratum V2: one thread, one share *)

Module ChannelExample.
#[local] Existing Instances Noise.Plain.crate Noise.Plain.laws System.Run.printer.

Definition command : list string :=
  ["--url"; "stratum2+tcp://pool:3333"; "--sv2-authority"; hex (replicate 32 x01); "--user"; "address.rig"; "--no-gpu";
   "--cpu-threads"; "1"; "--cpu-batch"; "1"; "--cpu-variant"; "scalar"]%string.
Definition o : MineOptions := mined (main_command command).
Definition plan : Plan :=
  {| plan_authority := Some (replicate 32 x01); plan_url := "stratum+tcp://pool:3333"; plan_gpus := []; plan_cpus := 1 |}.
Definition device (i : nat) : option Backend := if (i =? 0)%nat then Some cpu_scan else None.
Definition session : Session.Session :=
  match open_sv2 o plan (replicate 32 x01) with Ok q => q | Throw _ => Session.Session2.fresh end.

Definition fresh : Coord Session.Session := opened o session 0 Mined.coordinator.
Definition informed : Coord Session.Session :=
  (st_iter (on_message 0) (replicate 4 (JObject [])) (with_proto (arrive Mined.stream) fresh).1).1.
Definition at_take : Pool := Eval vm_compute in
  run_workers (back_ends device) [0; 0; 0]%nat (publish_to (start_pool o plan) (c_work informed)).
Definition turns : list (Tick (P := Session.Session)) :=
  [{| t_expired := false; t_now := 0;
      t_env := {| e_expired := false; e_drain_now := 0; e_read := Mined.stream; e_message_time := λ _, 0;
                  e_shared := shared at_take; e_share_time := λ _, 0; e_now := 0; e_begin := 0; e_update_now := 0;
                  e_slots := []; e_readings := [] |} |}].
Definition threads : list (list nat) := [[]; []; []; []; []; []; [0; 0; 0]; []; []; []]%nat.
Definition one_attempt : Attempt (P := Session.Session) :=
  {| a_expired := false; a_open := Ok session; a_now := 0; a_ticks := turns; a_begin := 0; a_pauses := [] |}.

Lemma one_device_ok : devices_of o plan device.
Proof.
  intros i B. unfold device. destruct (Nat.eqb_spec i 0) as [->|]; [|done]. intros [= <-].
  exists {| s_row := 0; s_gpu := -1 |}. split; [done|]. by apply (on_scalar _ _ _ false).
Qed.

Lemma sv2_mining_is_accepted_witness :
  r_submitted (attempt o one_attempt Mined.coordinator) = 1 ∧
  match exec_connection (back_ends device) o turns threads (start_pool o plan) fresh with
  | Some (p', c', r) => ∃ shares evs,
      dialogue (back_ends device) o (Build_System (start_pool o plan) fresh Waiting []) evs (Build_System p' c' (last_phase r) shares) ∧
      Forall (λ b, b = true) (arbiter evs new_channel).2 ∧
      Z.of_nat (length (arbiter evs new_channel).2) = r_submitted (attempt o one_attempt Mined.coordinator)
  | None => False
  end.
Proof.
  split; [vm_compute; reflexivity|].
  assert (match exec_connection (back_ends device) o turns threads (start_pool o plan) fresh with
    | Some _ => true | None => false end = true) as Hr by (vm_compute; reflexivity).
  pose proof (exec_live (back_ends device) o turns threads (start_pool o plan) fresh) as Hl.
  destruct (exec_connection _ _ _ _ _ _) as [[[p' c'] r]|]; [|discriminate Hr].
  assert (main_command command = Ok (Mine o)) as Hm by (vm_compute; reflexivity).
  assert (prepare o (Ok []) 8 = Ok plan) as Hp by (vm_compute; reflexivity).
  assert (open_sv2 o plan (replicate 32 x01) = Ok session) as Hq by (vm_compute; reflexivity).
  exact (sv2_mining_is_accepted command o (Ok []) 8 plan (replicate 32 x01) device one_attempt session Mined.coordinator p' c' r
    Hm Hp eq_refl one_device_ok eq_refl Hq eq_refl (Hl p' c' r eq_refl)).
Defined.
End ChannelExample.
