(* ===== verification/Bench.v ===== *)
(** * The benchmark

    The end of [main] in src/src/main.cpp: one thread per device scans fixed work
    over contiguous nonce ranges until its time is over, and the results are
    summed and printed.  The clock readings after each scan are an input. *)
From Stdlib Require Import SpecFloat.
From S2P Require Import Prelude Words Targets Work Cpu Amd Devices Options Startup.
From S2P Require Render.

(** ** One thread *)

Record Result := { r_name : string; r_error : string; r_hashes : Z; r_seconds : spec_float }.
Definition no_result : Result :=
  {| r_name := EmptyString; r_error := EmptyString; r_hashes := 0; r_seconds := S754_zero false |}.
Definition set_name (v : string) (r : Result) : Result :=
  {| r_name := v; r_error := r_error r; r_hashes := r_hashes r; r_seconds := r_seconds r |}.
Definition set_error (v : string) (r : Result) : Result :=
  {| r_name := r_name r; r_error := v; r_hashes := r_hashes r; r_seconds := r_seconds r |}.

(** [w.header[j] = uint8_t(j * 7 + 3)] *)
Definition bench_header : Bytes := (λ j, u8 (j * 7 + 3)) <$> seqZ 0 80.

Section threads.
Context `{BigNum}.

Definition bench_work : result Work := t ← difficulty_target "128"; Ok {| header := bench_header; target := t |}.

(** The [do] loop, one clock reading per round; false while it still runs. *)
Fixpoint bench_loop (B : Backend) (w : Work) (batch : Z) (limit : spec_float) (clock : list spec_float)
    (r : Result) : stM Result bool :=
  match clock with
  | [] => mret false
  | t :: clock =>
      s ← st_lift (@scan B w (r_hashes r) batch);
      let r := {| r_name := r_name r; r_error := r_error r;
                  r_hashes := u64 (r_hashes r + hashes s); r_seconds := t |} in
      _ ← st_modify (λ _, r);
      if SFltb t limit then bench_loop B w batch limit clock r else mret true
  end.
(** A thread: [make] constructs the back end of the device, with its name. *)
Definition bench_body (make : result (Backend * string)) (device : string) (batch : Z) (limit : spec_float)
    (clock : list spec_float) : stM Result bool :=
  '(B, name) ← st_lift make;
  _ ← st_modify (set_name (device +:+ " " +:+ name));
  w ← st_lift bench_work;
  _ ← st_lift (@scan B w 0 batch);
  r ← st_get;
  bench_loop B w batch limit clock r.
Definition bench_thread (make : result (Backend * string)) (device : string) (batch : Z) (limit : spec_float)
    (clock : list spec_float) : Result * bool :=
  match bench_body make device batch limit clock no_result with
  | (r, Ok finished) => (r, finished)
  | (r, Throw e) => (set_error (what e) r, true)
  end.

(** ** The summary *)

Definition is_failed (r : Result) : bool := negb (bool_decide (r_error r = EmptyString)).
(** [r.hashes / r.seconds / 1e6] *)
Definition megahashes (r : Result) : spec_float :=
  SFdiv 53 1024 (SFdiv 53 1024 (f64_of_Z (r_hashes r)) (r_seconds r)) (f64_of_Z 1000000).
(** The total, the CPU's share of it, and the exit status. *)
Definition totals (gpus : nat) (results : list Result) : spec_float * spec_float * Z :=
  let ok := filter (λ x, is_failed x.2 = false) (imap pair results) in
  let sum l := fold_left (SFadd 53 1024) l (S754_zero false) in
  (sum ((λ x, megahashes x.2) <$> ok),
   sum ((λ x, megahashes x.2) <$> filter (λ x, (gpus ≤ x.1)%nat) ok),
   if existsb is_failed results then 1 else 0).

(** ** What is printed *)

(** [n] without trailing zeros, as long as [p] digits follow the point. *)
Fixpoint trimmed (p : nat) (n : Z) : string :=
  match p with
  | O => pretty n
  | S q => if n mod 10 =? 0 then trimmed q (n / 10) else Render.fixed_text p n
  end.
(** [m * 2^e * 10^k] to the nearest integer, ties to even. *)
Definition digits_at (m : positive) (e k : Z) : Z :=
  Render.half_even (Z.pos m * 2 ^ Z.max 0 e * 10 ^ Z.max 0 k) (2 ^ Z.max 0 (- e) * 10 ^ Z.max 0 (- k)).
(** The decimal exponent of the value rounded to six digits, searched upwards. *)
Fixpoint exponent_from (fuel : nat) (m : positive) (e x : Z) : Z :=
  match fuel with
  | O => x
  | S fuel => if digits_at m e (5 - x) <? 1000000 then x else exponent_from fuel m e (x + 1)
  end.
(** [std::cout << f]: six significant digits. *)
Definition general (f : spec_float) : string :=
  let sign (s : bool) := if s then "-"%string else EmptyString in
  match f with
  | S754_zero s => sign s +:+ "0"
  | S754_infinity s => sign s +:+ "inf"
  | S754_nan => "nan"
  | S754_finite s m e =>
      let x := exponent_from 640 m e (-325) in
      let d := digits_at m e (5 - x) in
      sign s +:+
      (if (x <? -4) || (6 <=? x) then
         trimmed 5 d +:+ (if x <? 0 then "e-" else "e+") +:+ Render.pad 2 (pretty (Z.abs x))
       else trimmed (Z.to_nat (5 - x)) d)
  end.

(** The search ends with the exponent of every double: its 640 steps lead from the
    smallest one beyond the largest. *)
Lemma half_even_bound n d : 0 ≤ n → 0 < d → Render.half_even n d ≤ n / d + 1.
Proof. intros Hn Hd. unfold Render.half_even. repeat case_match; lia. Qed.
Lemma exponent_found fuel m e x k : 0 ≤ k < Z.of_nat fuel → digits_at m e (5 - (x + k)) < 1000000 →
  digits_at m e (5 - exponent_from fuel m e x) < 1000000.
Proof.
  revert x k. induction fuel as [|fuel IH]; intros x k Hk Hd; [lia|]. cbn [exponent_from].
  destruct (digits_at m e (5 - x) <? 1000000) eqn:E; [by apply Z.ltb_lt|].
  assert (k ≠ 0) as Hk0 by (intros ->; apply Z.ltb_ge in E; rewrite Z.add_0_r in Hd; lia).
  apply (IH (x + 1) (k - 1)); [lia|]. by replace (x + 1 + (k - 1)) with (x + k) by lia.
Qed.
Lemma general_digits m e : (m < 2 ^ 53)%positive → e ≤ 971 →
  digits_at m e (5 - exponent_from 640 m e (-325)) < 1000000.
Proof.
  intros Hm He. apply (exponent_found _ _ _ _ 634); [lia|]. unfold digits_at.
  change (5 - (-325 + 634)) with (-304). change (Z.max 0 (-304)) with 0. change (Z.max 0 (- -304)) with 304.
  rewrite Z.mul_1_r. assert (0 < 2 ^ Z.max 0 e ≤ 2 ^ 971) as Hp.
  { split; [apply Z.pow_pos_nonneg; lia|apply Z.pow_le_mono_r; lia]. }
  assert (0 < 2 ^ Z.max 0 (- e)) as Hq by (apply Z.pow_pos_nonneg; lia).
  eapply Z.le_lt_trans; [apply half_even_bound; nia|].
  assert (Z.pos m * 2 ^ Z.max 0 e / (2 ^ Z.max 0 (- e) * 10 ^ 304) < 100000); [|lia].
  apply Z.div_lt_upper_bound; [nia|].
  assert (Z.pos m * 2 ^ Z.max 0 e ≤ 2 ^ 53 * 2 ^ 971) as Hn by (apply Z.mul_le_mono_nonneg; lia).
  eapply Z.le_lt_trans; [exact Hn|]. eapply Z.lt_le_trans with (1 * 10 ^ 304 * 100000); [vm_compute; reflexivity|]. nia.
Qed.

Definition variant_text (o : MineOptions) (d : GpuInfo) : string :=
  match api d with
  | opencl => if o_opencl_variant o <? 0 then "auto" else pretty (o_opencl_variant o)
  | cuda => pretty (o_variant o)
  end.
Definition result_line (o : MineOptions) (d : GpuInfo) (r : Result) : string :=
  r_name r +:+ " variant=" +:+ variant_text o d +:+ " block=" +:+ pretty (gpu_block d (o_block o)) +:+
  " batch=" +:+ pretty (o_batch o) +:+ " hashes=" +:+ pretty (r_hashes r) +:+ " seconds=" +:+ general (r_seconds r) +:+
  " MH/s=" +:+ general (megahashes r).
(** One line per GPU that did not fail, the CPU's share, the total. *)
Definition bench_lines (o : MineOptions) (gpus : list GpuInfo) (cpus : Z) (results : list Result) : list string :=
  let '(total, cpu_rate, _) := totals (length gpus) results in
  (filter (λ x, is_failed x.2 = false) (zip gpus results) ≫= λ x, [result_line o x.1 x.2]) ++
  (if cpus =? 0 then [] else ["CPU threads=" +:+ pretty cpus +:+ " MH/s=" +:+ general cpu_rate]) ++
  ["Benchmark total MH/s=" +:+ general total].
Definition bench_errors (results : list Result) : list string :=
  r_error <$> filter (λ r, is_failed r = true) results.

(** ** What a thread measures *)

(** [b] rounds of [batch] nonces, from nonce 0 on, without a gap. *)
Fixpoint scans (batch start : Z) (rounds : nat) : list (Z * Z) :=
  match rounds with O => [] | S n => (start, batch) :: scans batch (start + batch) n end.

Section measured.
Context (B : Backend) (laws : @BackendLaws B).

Lemma bench_loop_measures w batch limit clock r r' finished :
  length (header w) = 80%nat → length (target w) = 32%nat → is_u32 batch → is_u64 (r_hashes r) →
  r_hashes r + Z.of_nat (length clock) * batch < 2 ^ 64 →
  bench_loop B w batch limit clock r r = (r', Ok finished) →
  ∃ rounds, (rounds ≤ length clock)%nat ∧ r_hashes r' = r_hashes r + Z.of_nat rounds * batch ∧
    Forall (λ t, SFltb t limit = true) (take (rounds - 1) clock) ∧
    r_name r' = r_name r ∧ r_error r' = r_error r ∧ is_u64 (r_hashes r') ∧
    (∀ i p, scans batch (r_hashes r) rounds !! i = Some p →
       ∃ s, @scan B w p.1 p.2 = Ok s ∧ nonces s ≡ₚ solutions w p.1 p.2) ∧
    (finished = true → (0 < rounds)%nat ∧ clock !! (rounds - 1)%nat = Some (r_seconds r') ∧ SFltb (r_seconds r') limit = false).
Proof.
  intros Hh Ht Hb. revert r. induction clock as [|t clock IH]; intros r Hr Hmax.
  { intros [= <- <-]. exists 0%nat. rewrite Z.add_0_r. by split_and!. }
  cbn [bench_loop]. unfold mbind, stM_bind, st_lift, st_modify.
  destruct (@scan B w (r_hashes r) batch) as [s|e] eqn:Es; [|discriminate].
  pose proof (scan_exact w (r_hashes r) batch Hh Ht Hr Hb s Es) as (Hok & Hs & Hn).
  assert (r_hashes r + batch < 2 ^ 64) as Hlt.
  { unfold is_u32 in Hb. cbn [length] in Hmax. nia. }
  rewrite Hs. replace (u64 (r_hashes r + batch)) with (r_hashes r + batch)
    by (unfold u64, is_u64, is_u32 in *; rewrite Z.mod_small; lia).
  set (r1 := {| r_name := r_name r; r_error := r_error r; r_hashes := r_hashes r + batch; r_seconds := t |}).
  assert (is_u64 (r_hashes r1)) as Hr1 by (cbn; unfold is_u64, is_u32 in *; lia).
  destruct (SFltb t limit) eqn:Hlim.
  - intros H1. apply IH in H1 as (rounds & Hle & Hsum & Hall & Hn' & He' & Hu & Hsc & Hfin); [|done|change (r_hashes r1) with (r_hashes r + batch); cbn [length] in Hmax; nia].
    exists (S rounds). change (r_hashes r1) with (r_hashes r + batch) in *. cbn [length]. split_and!; try done; try lia.
    + destruct rounds as [|rounds]; [constructor|]. cbn [Nat.sub] in *. rewrite Nat.sub_0_r in Hall. by constructor.
    + intros [|i] p; cbn [scans lookup list_lookup]; [intros [= <-]; by exists s|]. apply Hsc.
    + intros Hf. destruct (Hfin Hf) as (Hpos & Hl & ?). split_and!; [lia| |done].
      destruct rounds as [|rounds]; [lia|]. cbn [Nat.sub] in *. by rewrite Nat.sub_0_r in Hl.
  - intros [= <- <-]. exists 1%nat. cbn [r_hashes]. split_and!; try done; try (cbn; lia).
    + intros [|[|i]] p; cbn; [|done..]. intros [= <-]. by exists s.
    + intros _. split_and!; [lia|done|done].
Qed.
End measured.
End threads.
