(* ===== verification/Program.v ===== *)
(** * The program

    [mine] of src/src/miner.cpp from its first check to its exit status, as the
    composition of the other files, and what [main] of src/src/main.cpp does with
    a command line: the objects it builds, in which order they go away again, and
    what it prints.  The two protocols give two main loops.  The threads that run
    beside it (API, display) take any actions, with any views between them: what is
    proved here holds whichever of them the loop's refreshes cause. *)
From Stdlib Require Import SpecFloat.
From S2P Require Import Prelude Words Hex Targets Work Cpu Devices Amd Nvml Json View Connect Api Options.
From S2P Require Import Workers Coordinator Mine Protocols Startup Bench.
From S2P Require Noise Session Render Display Server.

(** ** Signals *)

Inductive handler := DefaultHandler | Ignore | Interrupt | StopDemo | Custom (n : Z).
(** What [std::signal] has been told. *)
Record Signals := { sigint : handler; sigterm : handler; sigpipe : handler }.
(** [SignalRestore]: the handlers before, and those of mining. *)
Definition catch_signals (s : Signals) : Signals :=
  {| sigint := Interrupt; sigterm := Interrupt; sigpipe := Ignore |}.
Definition restore_signals (old s : Signals) : Signals :=
  {| sigint := sigint old; sigterm := sigterm old; sigpipe := sigpipe old |}.
(** [DemoSignals] leaves the pipe alone. *)
Definition catch_demo (s : Signals) : Signals :=
  {| sigint := StopDemo; sigterm := StopDemo; sigpipe := sigpipe s |}.
Definition restore_demo (old s : Signals) : Signals :=
  {| sigint := sigint old; sigterm := sigterm old; sigpipe := sigpipe s |}.

(** ** What the program touches *)

Record World := {
  signals : Signals; hardware : list action; server : Server.Server; console : Display.Console;
  printed : list string
}.
Definition set_signals (v : Signals) (w : World) : World :=
  {| signals := v; hardware := hardware w; server := server w; console := console w; printed := printed w |}.
Definition set_hardware (v : list action) (w : World) : World :=
  {| signals := signals w; hardware := v; server := server w; console := console w; printed := printed w |}.
Definition set_server (v : Server.Server) (w : World) : World :=
  {| signals := signals w; hardware := hardware w; server := v; console := console w; printed := printed w |}.
Definition set_console (v : Display.Console) (w : World) : World :=
  {| signals := signals w; hardware := hardware w; server := server w; console := v; printed := printed w |}.
(** Lines on the standard output. *)
Definition print_lines (l : list string) (w : World) : World :=
  {| signals := signals w; hardware := hardware w; server := server w; console := console w; printed := printed w ++ l |}.

(** Code that works on one part. *)
Definition part {S A} (get : World → S) (set : S → World → World) (m : stM S A) : stM World A := λ w,
  let '(s, r) := m (get w) in (set s w, r).
(** An object that lives until the end of a scope: its destructor runs on every path. *)
Definition finally {A} (m : stM World A) (destroy : World → World) : stM World A := λ w,
  let '(w, r) := m w in (destroy w, r).
Definition scoped {A} (construct : stM World unit) (destroy : World → World) (body : stM World A) : stM World A :=
  _ ← construct; finally body destroy.

(** ** The main loop *)

(** [expired()] *)
Definition expired (interrupted quit : bool) (o : MineOptions) (elapsed : spec_float) : bool :=
  interrupted || quit || (SFltb (S754_zero false) (o_seconds o) && SFleb (o_seconds o) elapsed).

(** One round of the sensor thread. *)
Definition sense (nv : nvml) (fs : sysfs) (p : Impl) (selected : nat) : list GpuReadings :=
  sample nv fs p <$> seq 0 selected.

(** [std::to_string] of a double. *)
Definition double_text (f : spec_float) : string := Render.decimal f 6.
Definition final_text (v : DashboardView) : string :=
  let rate := if SFltb (S754_zero false) (elapsed v)
              then SFdiv 53 1024 (SFdiv 53 1024 (f64_of_Z (View.hashes v)) (elapsed v)) (f64_of_Z 1000000)
              else S754_zero false in
  "Final hashes=" +:+ pretty (View.hashes v) +:+ " seconds=" +:+ double_text (elapsed v) +:+
  " MH/s=" +:+ double_text rate +:+ " accepted=" +:+ pretty (accepted v) +:+ " rejected=" +:+ pretty (rejected v) +:+
  " stale=" +:+ pretty (stale v) +:+ " pending=" +:+ pretty (v_pending v).
Definition selected_text (p : Plan) : string :=
  "Selected " +:+ pretty (Z.of_nat (length (plan_gpus p))) +:+ " GPU(s), " +:+ pretty (plan_cpus p) +:+ " CPU thread(s)".

(** What [mine] returns, and what it showed. *)
Record Report := { status : Z; final_view : DashboardView; shown : list (string * Severity) }.

Section loop.
Context {P : Type} `{Protocol P} `{FloatPrinter} (o : MineOptions).

(** The variables before the loop; [proto] is not read before a connection sets it. *)
Definition first_coord (p : P) (begin : Z) (v : DashboardView) : Coord P :=
  {| proto := p; c_work := None; pending := ∅; nextid := 10; received := begin; activated := false;
     draining := false; drain_until := begin; view := v; log := []; had_work := false; fatal := false;
     backoff := 1; last_update := begin; last_hashes := replicate (length (devices v)) 0;
     thermal := replicate (length (devices v)) (-1) |}.

(** After the loop: the last figures and the last event. *)
Definition finish (begin : Z) (u : Pause) : stM (Coord P) unit :=
  _ ← on_view (set_v_state "STOPPED");
  _ ← update o true begin (u_now u) (u_slots u) (u_readings u);
  c ← st_get;
  say (final_text (view c)) info.

(** None while the attempts do not end the loop. *)
Definition mining (p : P) (begin : Z) (v : DashboardView) (attempts : list (@Attempt P _)) (last : Pause)
    : option Report :=
  let r := mine_loop o attempts (first_coord p begin v) in
  if r_over r then
    let c := (finish begin last (r_coord r)).1 in
    Some {| status := exit_code c; final_view := view c; shown := log c |}
  else None.
End loop.

(** What opening a connection ends in, once its socket is open. *)
Definition opening {P} `{Protocol P} (open : result P) (a : Attempt) : Attempt :=
  {| a_expired := a_expired a; a_open := (_ ← a_open a; open); a_now := a_now a; a_ticks := a_ticks a;
     a_begin := a_begin a; a_pauses := a_pauses a |}.

(** ** [mine] *)

Section mine.
Context {BN : BigNum} {FP : FloatPrinter} {NC : Noise.NoiseCrate} {JD : JsonDump}.
Context (o : MineOptions).

(** What [mine] meets, in order. *)
Record MineEnv := {
  e_available : result (list GpuInfo); e_logical : Z;
  e_nvml : nvml; e_sysfs : sysfs; e_accepts : list action → AmdWrite → bool; e_refusal : AmdWrite → string;
  e_socket : socket_answer; e_binds : bool; e_listens : bool; e_thread : result unit;
  e_answers : Display.Answers; e_restores_attr : bool; e_restores_flags : bool;
  e_avx2 : bool; e_sensors : result unit; e_begin_time : Z;
  e_v1 : list (Link * @Attempt V1 _); e_session : Session.Session; e_v2 : list (@Attempt Session.Session _);
  e_last : Pause;
  e_server_actions : list Server.action; e_display_actions : list Display.action
}.

Definition first_events (control_events : list string) (p : Plan) : list (string * Severity) :=
  ((λ m, (m, info)) <$> control_events) ++ [(selected_text p, info)].

(** From the objects' construction to their end. *)
Definition mine_body (e : MineEnv) (p : Plan) (control_events : list string) : stM World (option Report) :=
  ds ← st_lift (rows o (e_avx2 e) p);
  _ ← st_lift (e_sensors e);
  let v := first_view o ds in
  let r := match plan_authority p with
           | None => mining o (v1_start (λ _, Ok tt) o) (e_begin_time e) v ((λ x, opening (v1_open x.1 o) x.2) <$> e_v1 e) (e_last e)
           | Some key => mining o (e_session e) (e_begin_time e) v (opening (open_sv2 o p key) <$> e_v2 e) (e_last e)
           end in
  _ ← part server set_server (st_modify (Server.perform_all (e_server_actions e)));
  _ ← part console set_console (st_modify (λ c, Display.console
        (Display.perform_all (e_display_actions e)
          (Display.started (negb (bool_decide (o_log_file o = EmptyString))) (e_begin_time e) c))));
  mret ((λ r, {| status := status r; final_view := final_view r;
                 shown := first_events control_events p ++ shown r |}) <$> r).

Definition mine (e : MineEnv) : stM World (option Report) :=
  p ← st_lift (prepare o (e_available e) (e_logical e));
  let impl := new_impl (e_nvml e) (plan_gpus p) in
  control_events ← part hardware set_hardware
    (apply (e_nvml e) (e_sysfs e) (e_accepts e) (e_refusal e) impl (o_controls o));
  w ← st_get;
  let old := signals w in
  scoped (part signals set_signals (st_modify catch_signals))
         (λ w, set_signals (restore_signals old (signals w)) w)
    (scoped (part server set_server
               (Server.new_server (o_api_port o) (e_socket e) (e_binds e) (e_listens e) (e_thread e)))
            (λ w, set_server (Server.end_server (server w)) w)
      (scoped (part console set_console
                 (Display.new_dashboard (o_tui o) (o_log_file o) (e_answers e) (e_restores_attr e) (e_restores_flags e)))
              (λ w, set_console (Display.restore (e_restores_attr e) (e_restores_flags e) (console w)).1 w)
         (mine_body e p control_events))).
End mine.

(** ** Everything is given back *)

Lemma wp_part {S A} (get : World → S) (set : S → World → World) (m : stM S A) Q w :
  wp m (λ s r, Q (set s w) r) (get w) → wp (part get set m) Q w.
Proof. unfold wp, part. by destruct (m (get w)). Qed.
Lemma wp_finally {A} (m : stM World A) destroy Q w : wp m (λ w r, Q (destroy w) r) w → wp (finally m destroy) Q w.
Proof. unfold wp, finally. by destruct (m w). Qed.
Lemma wp_scoped {A} construct destroy (body : stM World A) Q w :
  wp construct (λ w r, match r with
    | Ok _ => wp body (λ w r, Q (destroy w) r) w
    | Throw e => Q w (Throw e)
    end) w → wp (scoped construct destroy body) Q w.
Proof.
  intros Hc. apply wp_bind. eapply wp_mono; [exact Hc|]. intros w' [u|e] Hw; cbn [wp_next]; [|exact Hw].
  by apply wp_finally.
Qed.

Lemma restore_signals_eq old s : restore_signals old s = old.
Proof. by destruct old. Qed.

Section restored.
Context {BN : BigNum} {FP : FloatPrinter} {NC : Noise.NoiseCrate} {JD : JsonDump}.
Context (o : MineOptions) (e : MineEnv).

(** The server and the terminal, as long as their objects live. *)
Definition server_open (s : Server.Server) : Prop :=
  ∀ l, Server.alive (Server.perform_all l s) = true → open_fds (Server.calls (Server.end_server (Server.perform_all l s))) = ∅.
Definition server_closed (s : Server.Server) : Prop := Server.alive s = true → open_fds (Server.calls s) = ∅.
Definition status_ok (r : result (option Report)) : Prop :=
  match r with Ok (Some rep) => status rep ∈ [0; 1; 2] | _ => True end.

Lemma exit_code_range {P} `{Protocol P} (c : Coord P) : exit_code c ∈ [0; 1; 2].
Proof. unfold exit_code. destruct (fatal c), (negb (rejected (view c) =? 0)), (had_work c); set_solver. Qed.

Lemma mining_status {P} `{Protocol P} (p : P) begin v attempts last rep :
  mining o p begin v attempts last = Some rep → status rep ∈ [0; 1; 2].
Proof. unfold mining. destruct (r_over _); [|done]. intros [= <-]. apply exit_code_range. Qed.

Lemma mine_body_keeps p evs t st w : Display.remembers t st (console w) → server_open (server w) →
  wp (mine_body o e p evs) (λ w' r, signals w' = signals w ∧ Display.remembers t st (console w') ∧
    server_closed (Server.end_server (server w')) ∧ status_ok r) w.
Proof.
  intros Hc Hs. assert (server_closed (Server.end_server (server w))) as Hs0.
  { intros Ha. apply (Hs []). cbn. revert Ha. unfold Server.end_server. by destruct (Server.listener _). }
  unfold mine_body. apply wp_bind, wp_lift. destruct (rows o (e_avx2 e) p) as [ds|ex]; cbn [wp_next]; [|by split_and!].
  apply wp_bind, wp_lift. destruct (e_sensors e) as [u|ex]; cbn [wp_next]; [|by split_and!]. cbn zeta.
  set (r := match plan_authority p with Some _ => _ | None => _ end).
  assert (∀ rep, r = Some rep → status rep ∈ [0; 1; 2]) as Hr.
  { intros rep. subst r. destruct (plan_authority p); apply mining_status. }
  apply wp_bind, wp_part, wp_modify. cbn [wp_next]. apply wp_bind, wp_part, wp_modify. cbn [wp_next].
  apply wp_ret. cbn [signals console server set_server set_console]. split_and!.
  - done.
  - by apply Display.perform_all_remembers.
  - intros Ha. apply Hs. revert Ha. unfold Server.end_server. by destruct (Server.listener _).
  - unfold status_ok. destruct r as [rep|]; [|done]. cbn. by apply Hr.
Qed.

Lemma mine_scopes t st w : e_restores_attr e = true → e_restores_flags e = true → 0 ≤ o_api_port o →
  server w = Server.fresh_server → console w = Display.fresh t st →
  wp (mine o e) (λ w' r, signals w' = signals w ∧ Display.restored t st (console w') ∧
    server_closed (server w') ∧ status_ok r) w.
Proof.
  intros Ha Hf Hport Hs Hc. assert (Display.restored t st (console w)) as Hr0 by (rewrite Hc; by split_and!).
  assert (server_closed (server w)) as Hs0 by (rewrite Hs; by intros _).
  unfold mine. apply wp_bind, wp_lift. destruct (prepare _ _ _) as [p|ex]; cbn [wp_next]; [|by split_and!]. cbn zeta.
  apply wp_bind, wp_part. set (m := apply _ _ _ _ _ _). unfold wp at 1. destruct (m (hardware w)) as [hw [evs|ex]];
    cbn [fst snd wp_next]; [|by split_and!].
  apply wp_bind, wp_get. cbn [wp_next]. cbn zeta. apply wp_scoped, wp_part, wp_modify.
  apply wp_scoped, wp_part. cbn [server set_signals set_hardware]. rewrite Hs.
  eapply wp_mono; [by apply Server.server_life|]. intros s1 [u|ex] Hlife.
  2:{ cbn [signals server console set_signals set_server set_console set_hardware]. split_and!; [by rewrite restore_signals_eq|exact Hr0|by intros _|done]. }
  assert (server_open s1) as Hopen.
  { intros l Hl. specialize (Hlife l). cbn zeta in Hlife. rewrite Hl in Hlife. apply Hlife. }
  apply wp_scoped, wp_part. cbn [console set_server set_signals set_hardware]. rewrite Hc, Ha, Hf.
  eapply wp_mono; [apply Display.new_dashboard_restores|]. intros c1 [u'|ex] Hcon.
  - eapply wp_mono; [by apply (mine_body_keeps p evs t st)|].
    intros w' r (Hsig & Hrem & Hclosed & Hst). cbn [signals server console set_signals set_server set_console] in *.
    split_and!; [by rewrite restore_signals_eq| |done|done].
    pose proof (Display.restore_restored t st (console w') Hrem) as Hres. unfold wp in Hres. apply Hres.
  - cbn [signals server console set_signals set_server set_console set_hardware]. split_and!; [by rewrite restore_signals_eq|exact Hcon| |done]. intros Hal. apply (Hopen []).
    revert Hal. unfold Server.end_server. cbn. by destruct (Server.listener s1).
Qed.
End restored.

(** ** [main] *)

Definition version_text : string := "supryolo/0.2.1".
Definition usage : list string :=
  ["supryolo/0.2.1";
   "Mine: --url stratum+tcp://de.b2pool.io:4444 --user ADDRESS.worker";
   "Devices: --gpu-device 0,1 (alias -d; default all), --no-gpu, --no-cpu";
   "GPU backend: --gpu-backend auto|cuda|opencl (auto: CUDA plus AMD OpenCL)";
   "CPU: --cpu-threads N (0 auto), --cpu (legacy CPU-only alias)";
   "CPU kernel: --cpu-variant auto|scalar|avx2 (runtime detection)";
   "GPU controls: --gpu-core-clock MHz --gpu-mem-clock MHz --powerlimit W";
   "              --gpu-fan-speed PERCENT (one value or comma-separated per selected GPU)";
   "              0 resets that setting; explicit settings persist until changed";
   "Display: --tui --no-tui --gpu-temp-warn 75 --gpu-temp-alarm 85";
   "SV2: --url stratum2+tcp://HOST:PORT --sv2-authority HEX_KEY";
   "API: --api-port N (loopback HTTP, 0 disables); --log-file PATH";
   "Inspect: --list-devices --tui-demo [--seconds 10]";
   "Benchmark: --benchmark --no-cpu --gpu-device 0 --seconds 30";
   "OpenCL tuning: auto selects AMD variant 3; --opencl-variant 0 (native), 1 (precomputed),";
   "               2 (AMD rotations), 3 (precomputed AMD rotations)";
   "Tuning: --block 0 (auto: CUDA 256, OpenCL 64) --batch 67108864 --variant 3 --cpu-batch 16384";
   "Variants: 0 native, 1 PTX, 2 precomputed native, 3 precomputed PTX";
   "4 uniform nonce word, 5 two nonces/thread, 6 four nonces/thread"]%string.

(** The demonstration screen. *)
Definition demo_device (l n : string) (rate : spec_float) (acc rej : Z) (s : GpuReadings) : DeviceView :=
  set_sensors s (set_d_rejected rej (set_d_accepted acc (set_hashes_per_second rate (new_device l n EmptyString)))).
Definition demo_readings (temp fan core mem w : Z) : GpuReadings :=
  {| temperature := Some temp; fan_percent := Some fan; core_mhz := Some core; memory_mhz := Some mem;
     utilization := None; watts := Some (f64_of_Z w); power_limit := None; error := EmptyString |}.
Definition demo_view : DashboardView :=
  View.set_devices
    [demo_device "GPU0" "NVIDIA RTX 5090" (f64_of_Z 17300000000) 23 0 (demo_readings 62 65 2800 15001 570);
     demo_device "GPU1" "NVIDIA RTX 5090" (f64_of_Z 17200000000) 19 1 (demo_readings 86 95 2700 15001 575);
     demo_device "CPU" "CPU SIMD x8" (f64_of_Z 40000000) 0 0 (no_readings EmptyString)]
  (set_rejected 1 (set_accepted 42 (set_difficulty "128" (set_worker "matrix-demo"
    (set_pool "stratum+tcp://example.invalid:4444" (set_v_state "DEMO - NO MINING" new_view)))))).
Definition demo_events : list (string * Severity) :=
  [("DEMO ONLY: no devices or pool connection", warning); ("Share accepted (GPU0)", success);
   ("Share rejected (GPU1, above target)", error_severity); ("Vardiff retarget -> 128", info);
   ("GPU1 86C ALARM", error_severity)]%string.
(** The loop, by its tests and clock readings: the views shown, none while it runs. *)
Fixpoint demo_loop (limit : spec_float) (rounds : list (bool * spec_float)) : option (list DashboardView) :=
  match rounds with
  | [] => None
  | (stopped, now) :: rounds =>
      if stopped then Some []
      else if SFltb limit now then Some []
      else cons (set_elapsed now demo_view) <$> demo_loop limit rounds
  end.

(** One line of the device list. *)
Definition or_dashes (n : option Z) (unit : string) : string :=
  match n with Some n => pretty n +:+ unit | None => "--" end.
Definition device_text (d : GpuInfo) (r : GpuReadings) : string :=
  "GPU" +:+ pretty (index d) +:+ " " +:+ name d +:+
  (if decide (Devices.api d = cuda) then " [CUDA]" else " [OpenCL]") +:+ " PCI " +:+ pci_bus d +:+
  " temp=" +:+ or_dashes (temperature r) "C" +:+ " fan=" +:+ or_dashes (fan_percent r) "%" +:+
  " core=" +:+ or_dashes (core_mhz r) EmptyString +:+ " mem=" +:+ or_dashes (memory_mhz r) EmptyString +:+
  " power=" +:+ match watts r with Some w => double_text w +:+ "W" | None => "--" end.
Definition device_lines (nv : nvml) (fs : sysfs) (ds : list GpuInfo) : list string :=
  imap (λ i d, device_text d (sample nv fs (new_impl nv ds) i)) ds.
Definition cpu_line (k : cpu_kind) (threads : Z) : string :=
  "CPU " +:+ cpu_name k +:+ " logical threads=" +:+ pretty threads.

Section main.
Context {BN : BigNum} {FP : FloatPrinter} {NC : Noise.NoiseCrate} {JD : JsonDump}.

(** What [main] meets besides mining: the number of logical processors, the rounds
    of the demonstration, and for each benchmark thread its back end and clock. *)
Record MainEnv := {
  m_mine : MineEnv; m_threads : Z;
  m_demo : list (bool * spec_float); m_demo_actions : list Display.action;
  m_gpu_backend : GpuInfo → result (Backend * string); m_cpu_backend : result (Backend * string);
  m_clock : nat → list spec_float
}.
(** What was written to the standard error, and the exit status. *)
Record Outcome := { err_lines : list string; exit_status : Z }.
Definition exits (code : Z) : Outcome := {| err_lines := []; exit_status := code |}.

Definition demo_run (e : MainEnv) (limit : spec_float) : stM World (option Outcome) :=
  w ← st_get;
  let old := signals w in
  scoped (part signals set_signals (st_modify catch_demo))
         (λ w, set_signals (restore_demo old (signals w)) w)
    (scoped (part console set_console
               (Display.new_dashboard "on" EmptyString (e_answers (m_mine e)) (e_restores_attr (m_mine e))
                  (e_restores_flags (m_mine e))))
            (λ w, set_console (Display.restore (e_restores_attr (m_mine e)) (e_restores_flags (m_mine e)) (console w)).1 w)
      (_ ← part console set_console (st_modify (λ c, Display.console
             (Display.perform_all (m_demo_actions e) (Display.started false (e_begin_time (m_mine e)) c))));
       mret ((λ _, exits 0) <$> demo_loop limit (m_demo e)))).

Definition list_run (o : MineOptions) (e : MainEnv) : stM World (option Outcome) :=
  ds ← st_lift (e_available (m_mine e));
  _ ← st_modify (print_lines (device_lines (e_nvml (m_mine e)) (e_sysfs (m_mine e)) ds));
  k ← st_lift (cpu_backend (e_avx2 (m_mine e)) (o_cpu_variant o));
  _ ← st_modify (print_lines [cpu_line k (m_threads e)]);
  mret (Some (exits 0)).

(** The threads of a benchmark, one per device. *)
Definition bench_results (o : MineOptions) (e : MainEnv) (gpus : list GpuInfo) (cpus : Z) : list (Result * bool) :=
  imap (λ i d, bench_thread (m_gpu_backend e d) ("GPU" +:+ pretty (index d)) (o_batch o) (o_seconds o) (m_clock e i)) gpus ++
  ((λ i, bench_thread (m_cpu_backend e) "CPU" (o_cpu_batch o) (o_seconds o) (m_clock e (length gpus + i)))
     <$> seq 0 (Z.to_nat cpus)).
Definition bench_run (o : MineOptions) (e : MainEnv) : stM World (option Outcome) :=
  '(gpus, cpus) ← st_lift (benchmark_plan o (e_available (m_mine e)) (m_threads e));
  control_events ← part hardware set_hardware
    (apply (e_nvml (m_mine e)) (e_sysfs (m_mine e)) (e_accepts (m_mine e)) (e_refusal (m_mine e))
       (new_impl (e_nvml (m_mine e)) gpus) (o_controls o));
  _ ← st_modify (print_lines control_events);
  let rs := bench_results o e gpus cpus in
  if forallb snd rs then
    _ ← st_modify (print_lines (bench_lines o gpus cpus (fst <$> rs)));
    mret (Some {| err_lines := bench_errors (fst <$> rs); exit_status := (totals (length gpus) (fst <$> rs)).2 |})
  else mret None.

(** The text an immediate exit prints. *)
Definition exit_text (argv : list string) : list string :=
  match parse argv no_args with Ok None => [version_text] | _ => usage end.
Definition run_command (argv : list string) (c : command) (e : MainEnv) : stM World (option Outcome) :=
  match c with
  | Exit code => _ ← st_modify (print_lines (exit_text argv)); mret (Some (exits code))
  | Options.Demo limit => demo_run e limit
  | ListDevices o => list_run o e
  | Options.Mine o =>
      r ← mine o (m_mine e);
      mret ((λ r, exits (status r)) <$> r)
  | Benchmark o => bench_run o e
  end.
(** [main]: any exception is printed and gives status 1.  None when the loop does not
    end, or when an exception in the server's thread has ended the program. *)
Definition main (argv : list string) (e : MainEnv) (w : World) : World * option Outcome :=
  let '(w, r) := (c ← st_lift (main_command argv); run_command argv c e) w in
  (w, if Server.alive (server w) then
        match r with
        | Ok r => r
        | Throw ex => Some {| err_lines := [what ex]; exit_status := 1 |}
        end
      else None).
End main.

(** ** What is left when the program ends *)

Section ends.
Context {BN : BigNum} {FP : FloatPrinter} {NC : Noise.NoiseCrate} {JD : JsonDump}.
Context (e : MainEnv) (t : Display.Termios) (st : Z).

(** The terminal, the signal handlers and the server's sockets are those of before. *)
Definition given_back (w w' : World) : Prop :=
  signals w' = signals w ∧ Display.restored t st (console w') ∧ server_closed (server w').
Definition at_start (w : World) : Prop := server w = Server.fresh_server ∧ console w = Display.fresh t st.
(** Only mining and the benchmark write to the hardware. *)
Definition writes_hardware (c : command) : bool :=
  match c with Options.Mine _ | Benchmark _ => true | _ => false end.
Definition outcome_ok (r : result (option Outcome)) : Prop :=
  match r with Ok (Some oc) => exit_status oc ∈ [0; 1; 2] | _ => True end.

Lemma untouched w w' : at_start w → signals w' = signals w → console w' = console w → server w' = server w →
  given_back w w'.
Proof. intros [Hs Hc] Hsig Hcon Hser. split_and!; [done|by rewrite Hcon, Hc|by rewrite Hser, Hs]. Qed.

Lemma restore_demo_eq old s : sigpipe s = sigpipe old → restore_demo old s = old.
Proof. destruct old. cbn. by intros <-. Qed.

Lemma demo_scopes limit w : e_restores_attr (m_mine e) = true → e_restores_flags (m_mine e) = true → at_start w →
  wp (demo_run e limit) (λ w' r, given_back w w' ∧ hardware w' = hardware w ∧ outcome_ok r) w.
Proof.
  intros Ha Hf [Hs Hc]. unfold demo_run. apply wp_bind, wp_get. cbn [wp_next]. cbn zeta.
  apply wp_scoped, wp_part, wp_modify. apply wp_scoped, wp_part. cbn [console set_signals]. rewrite Hc, Ha, Hf.
  eapply wp_mono; [apply Display.new_dashboard_restores|]. intros c [u|ex] Hcon.
  - apply wp_bind, wp_part, wp_modify. cbn [wp_next]. apply wp_ret. unfold given_back.
    cbn [signals server console hardware set_signals set_console]. split_and!.
    + by apply restore_demo_eq.
    + assert (Display.remembers t st (Display.console (Display.perform_all (m_demo_actions e)
        (Display.started false (e_begin_time (m_mine e)) c)))) as Hrem by by apply Display.perform_all_remembers.
      pose proof (Display.restore_restored t st _ Hrem) as Hres. unfold wp in Hres. apply Hres.
    + by rewrite Hs.
    + done.
    + destruct (demo_loop limit (m_demo e)); cbn; [set_solver|done].
  - unfold given_back. cbn [signals server console hardware set_signals set_console].
    split_and!; [by apply restore_demo_eq|exact Hcon|by rewrite Hs|done|done].
Qed.

Lemma list_keeps o w : at_start w →
  wp (list_run o e) (λ w' r, given_back w w' ∧ hardware w' = hardware w ∧ outcome_ok r) w.
Proof.
  intros Hw. assert (given_back w w) as H0 by by apply untouched.
  unfold list_run. apply wp_bind, wp_lift. destruct (e_available _) as [ds|ex]; cbn [wp_next]; [|done].
  apply wp_bind, wp_modify. cbn [wp_next]. apply wp_bind, wp_lift.
  destruct (cpu_backend _ _) as [k|ex]; cbn [wp_next]; [|by split_and!].
  apply wp_bind, wp_modify. cbn [wp_next]. apply wp_ret. split; [by apply untouched|].
  split; [done|]. cbn. set_solver.
Qed.

Lemma bench_keeps o w : at_start w → wp (bench_run o e) (λ w' r, given_back w w' ∧ outcome_ok r) w.
Proof.
  intros Hw. assert (∀ w', signals w' = signals w → console w' = console w → server w' = server w → given_back w w')
    as H0 by by intros; apply untouched.
  unfold bench_run. apply wp_bind, wp_lift. destruct (benchmark_plan _ _ _) as [[gpus cpus]|ex]; cbn [wp_next];
    [|split; [by apply H0|done]].
  apply wp_bind, wp_part. set (m := apply _ _ _ _ _ _). unfold wp at 1. destruct (m (hardware w)) as [hw [evs|ex]];
    cbn [fst snd wp_next]; [|split; [by apply H0|done]].
  apply wp_bind, wp_modify. cbn [wp_next]. cbn zeta. destruct (forallb snd _).
  - apply wp_bind, wp_modify. cbn [wp_next]. apply wp_ret. split; [by apply H0|]. cbn [outcome_ok exit_status].
    unfold totals. cbn [snd]. destruct (existsb _ _); set_solver.
  - apply wp_ret. split; [by apply H0|done].
Qed.

Lemma command_exit argv code : main_command argv = Ok (Exit code) → code = 0 ∨ code = 1.
Proof.
  unfold main_command. intros H. apply bind_Ok in H as ([a|] & _ & H); [|left; by injection H as <-].
  destruct (help a || _); [left; by injection H as <-|]. apply bind_Ok in H as (u & _ & H).
  unfold dispatch in H. destruct (demo a); [apply bind_Ok in H as (? & _ & H); discriminate|].
  destruct (list_devices a); [discriminate|]. unfold choose_run in H. cbn zeta in H.
  apply bind_Ok in H as (? & _ & H). apply bind_Ok in H as (? & _ & H).
  destruct (negb (bool_decide (o_url _ = _))); [discriminate|]. destruct (negb (bench a)); [right; by injection H as <-|discriminate].
Qed.

Lemma command_gives_back argv c w : e_restores_attr (m_mine e) = true → e_restores_flags (m_mine e) = true →
  main_command argv = Ok c → at_start w →
  wp (run_command argv c e) (λ w' r,
    given_back w w' ∧ (writes_hardware c = false → hardware w' = hardware w) ∧ outcome_ok r) w.
Proof.
  intros Ha Hf Hcmd Hw. destruct c as [code|o|limit|o|o]; cbn [run_command writes_hardware].
  - apply wp_bind, wp_modify. cbn [wp_next]. apply wp_ret. split_and!; [by apply untouched|done|]. cbn.
    destruct (command_exit argv code Hcmd) as [-> | ->]; set_solver.
  - eapply wp_mono; [by apply list_keeps|]. naive_solver.
  - eapply wp_mono; [by apply demo_scopes|]. naive_solver.
  - apply wp_bind. destruct Hw as [Hs Hc]. eapply wp_mono; [apply (mine_scopes o (m_mine e) t st w); [done..| |done|done]|].
    + apply command_options in Hcmd as [Hok _]. apply (ok_port _ Hok).
    + intros w' [r|ex] (Hsig & Hres & Hcl & Hst); cbn [wp_next]; [|by split_and!].
      apply wp_ret. split_and!; try done. destruct r; [exact Hst|done].
  - eapply wp_mono; [by apply bench_keeps|]. intros w' r [Hg Hr]. by split_and!.
Qed.
End ends.


(** Mining with a dashboard and the API: one connection fails, then SIGINT. *)
Module Example.
#[local] Existing Instance Noise.Plain.crate.
#[local] Instance printer : FloatPrinter := λ _, "1"%string.
#[local] Existing Instance sample_dump.

Definition argv : list string :=
  ["--url"; "stratum+tcp://pool:4444"; "--user"; "address.rig"; "--no-gpu"; "--cpu-threads"; "2"; "--tui";
   "--api-port"; "4068"]%string.
Definition refused (expired : bool) : @Attempt V1 _ :=
  {| a_expired := expired; a_open := Throw (runtime_error "pool connection failed"); a_now := 0; a_ticks := [];
     a_begin := 0; a_pauses := [{| u_expired := true; u_now := 0; u_slots := []; u_readings := [] |}] |}.
Definition mine_env : MineEnv :=
  {| e_available := Ok []; e_logical := 8; e_nvml := sample_nvml; e_sysfs := sample_fs;
     e_accepts := λ _ _, true; e_refusal := λ _, EmptyString;
     e_socket := Opened; e_binds := true; e_listens := true; e_thread := Ok tt;
     e_answers := {| Display.log_opens := true; Display.term := Some "xterm"%string; Display.out_tty := true;
       Display.in_tty := true; Display.gets_attr := true; Display.sets_attr := true; Display.gets_flags := true;
       Display.sets_flags := true; Display.make_thread := Ok tt |};
     e_restores_attr := true; e_restores_flags := true; e_avx2 := true; e_sensors := Ok tt; e_begin_time := 0;
     e_v1 := [(λ _, Ok tt, refused false); (λ _, Ok tt, refused true)]; e_session := Session.Session2.opened; e_v2 := [];
     e_last := {| u_expired := true; u_now := 1000000000; u_slots := [(0, 7)]; u_readings := [] |};
     e_server_actions := [Server.Accepts (Server.Client sample_read [(true, Took 500)])];
     e_display_actions := [Display.Logs "12:00:00" "Connecting" info; Display.Rounds [] 80 24 (S754_zero false) 0;
       Display.Tests; Display.Stops; Display.Rounds [] 80 24 (S754_zero false) 0; Display.Tests] |}.
Definition env : MainEnv :=
  {| m_mine := mine_env; m_threads := 8; m_demo := []; m_demo_actions := [];
     m_gpu_backend := λ _, Throw (runtime_error "none"); m_cpu_backend := Throw (runtime_error "none"); m_clock := λ _, [] |}.
Definition terminal : Display.Termios :=
  {| Display.canonical := true; Display.echo := true; Display.vmin := 1; Display.vtime := 0; Display.other := 35 |}.
Definition world : World :=
  {| signals := {| sigint := DefaultHandler; sigterm := Custom 1; sigpipe := DefaultHandler |}; hardware := [];
     server := Server.fresh_server; console := Display.fresh terminal 2; printed := [] |}.
End Example.
