(* ===== verification/Report.v ===== *)
(** * The final report

    What the view says at the end of a whole run of [mine] (src/src/miner.cpp): the
    counters of the rows add up to the totals in every state of the coordinator, and
    the report - the last view, the last event and the exit status - agrees with the
    shares that were submitted. *)
From Stdlib Require Import SpecFloat.
From S2P Require Import Prelude Words Json Amd Options Workers View Coordinator Figures Mine Program.

(** ** The sheet: rows and totals *)

Section sheet.
Context {P : Type} `{Protocol P} `{FloatPrinter} (o : MineOptions) (n : nat).

Definition column (f : DeviceView → Z) (w : DashboardView) : Z := u64 (sum (f <$> devices w)).
(** The rows sum to the totals; every share outstanding has a row. *)
Record adds_up (w : DashboardView) : Prop := {
  au_devices : length (devices w) = n;
  au_accepted : column d_accepted w = accepted w;
  au_rejected : column d_rejected w = rejected w;
  au_stale : column d_stale w = stale w
}.
Definition row_ok (row : Z) : Prop := 0 ≤ row < Z.of_nat n.
Record sheet (c : Coord P) : Prop := {
  sh_view : adds_up (view c);
  sh_last : length (last_hashes c) = n;
  sh_thermal : length (thermal c) = n;
  sh_rows : map_Forall (λ _ p, row_ok (p_row p)) (pending c)
}.

(** Code that keeps the sheet. *)
Class Fits {A} (m : stM (Coord P) A) : Prop := fits_wp c : sheet c → wp m (λ c' _, sheet c') c.
#[export] Instance fits_bind {A B} (m : stM (Coord P) A) (k : A → stM (Coord P) B) :
  Fits m → (∀ a, Fits (k a)) → Fits (m ≫= k).
Proof.
  intros Hm Hk c Hc. apply wp_bind. eapply wp_mono; [by apply Hm|]. intros c1 [a|e] H1; [|done].
  cbn [wp_next]. by apply Hk.
Qed.
#[export] Instance fits_ret {A} (a : A) : Fits (mret a).
Proof. intros c Hc. by apply wp_ret. Qed.
#[export] Instance fits_get : Fits st_get.
Proof. intros c Hc. by apply wp_get. Qed.
#[export] Instance fits_lift {A} (r : result A) : Fits (st_lift r).
Proof. intros c Hc. by apply wp_lift. Qed.
#[export] Instance fits_require b msg : Fits (st_require b msg).
Proof. intros c Hc. exact Hc. Qed.
#[export] Instance fits_throw {A} msg : Fits (st_throw (A := A) msg).
Proof. intros c Hc. exact Hc. Qed.
#[export] Instance fits_say m s : Fits (say m s).
Proof. intros c [? ? ? ?]. by constructor. Qed.
#[export] Instance fits_with_proto {A} (m : stM P A) : Fits (with_proto m).
Proof. intros c [? ? ? ?]. unfold wp, with_proto. destruct (m (proto c)) as [p r]. by constructor. Qed.
Lemma fits_iter {A} (f : A → stM (Coord P) unit) l : Forall (λ a, Fits (f a)) l → Fits (st_iter f l).
Proof. induction 1; cbn [st_iter]; apply _. Qed.
(** An assignment to anything else. *)
Ltac fits := lazymatch goal with |- Fits (st_modify _) => idtac | |- Fits (on_view _) => idtac end;
  let c := fresh in intros c [[? ? ? ?] ? ? ?]; constructor; [by constructor|done..].
#[local] Hint Extern 0 (Fits (st_modify _)) => fits : typeclass_instances.
#[local] Hint Extern 0 (Fits (on_view _)) => fits : typeclass_instances.

(** ** Counting an answer *)

Lemma sum_alter (f : DeviceView → Z) (g : DeviceView → DeviceView) (i : nat) (l : list DeviceView) d : l !! i = Some d →
  f (g d) = u64 (f d + 1) → u64 (sum (f <$> alter g i l)) = u64 (u64 (sum (f <$> l)) + 1).
Proof.
  intros Hi Hf. rewrite u64_add_l. revert i Hi. induction l as [|x l IH]; intros [|i] Hi; [done|done|..].
  - injection Hi as ->. change (alter g 0%nat (d :: l)) with (g d :: l). rewrite !fmap_cons, !sum_cons, Hf, u64_add_l.
    f_equal. lia.
  - change (alter g (S i) (x :: l)) with (x :: alter g i l). rewrite !fmap_cons, !sum_cons.
    rewrite <- u64_add_r, (IH i Hi), u64_add_r. f_equal. lia.
Qed.
Lemma column_same (f : DeviceView → Z) (g : DeviceView → DeviceView) (i : nat) (l : list DeviceView) :
  (∀ d, f (g d) = f d) → f <$> alter g i l = f <$> l.
Proof.
  intros Hf. apply list_eq. intros j. rewrite !list_lookup_fmap. destruct (decide (i = j)) as [->|Hne].
  - rewrite list_lookup_alter_eq. destruct (l !! j); cbn; by rewrite ?Hf.
  - by rewrite list_lookup_alter_ne.
Qed.

(** The view after an answer for row [i]: one counter and its total grow. *)
Lemma answer_adds_up row w : adds_up w → row_ok row →
  adds_up (on_device row (λ d, set_d_accepted (u64 (d_accepted d + 1)) d) (set_accepted (u64 (accepted w + 1)) w)) ∧
  adds_up (on_device row (λ d, set_d_rejected (u64 (d_rejected d + 1)) d) (set_rejected (u64 (rejected w + 1)) w)) ∧
  adds_up (on_device row (λ d, set_d_stale (u64 (d_stale d + 1)) d) (set_stale (u64 (stale w + 1)) w)).
Proof.
  intros [Hd Ha Hr Hs] Hrow. destruct (lookup_lt_is_Some_2 (devices w) (Z.to_nat row)) as [d Hi];
    [unfold row_ok in Hrow; lia|].
  unfold on_device. split_and!; constructor; cbn [devices set_devices set_accepted set_rejected set_stale accepted rejected stale];
    unfold column in *; cbn [devices set_devices set_accepted set_rejected set_stale];
    rewrite ?length_alter; try done; first
      [ by rewrite column_same by done
      | rewrite (sum_alter _ _ _ _ d Hi) by done; congruence ].
Qed.
(** ** The coordinator keeps the sheet *)

#[export] Instance fits_report_method msg : Fits (report_method msg).
Proof.
  unfold report_method. destruct (find msg "method"); [|apply _]. apply fits_bind; [apply _|].
  intros m. repeat case_match; apply _.
Qed.
Lemma fits_share_accepted row : row_ok row → Fits (share_accepted row).
Proof.
  intros Hrow c Hc. destruct (answer_adds_up row (view c) (sh_view c Hc) Hrow) as (Ha & _ & _).
  unfold share_accepted, on_view. do 2 (apply wp_bind, wp_modify; cbn [wp_next]).
  apply wp_bind, wp_get. cbn [wp_next view set_view].
  apply (fits_say _ _ (set_view _ _)). destruct Hc. by constructor.
Qed.
Lemma fits_share_refused msg row : row_ok row → Fits (share_refused msg row).
Proof.
  intros Hrow. unfold share_refused. apply fits_bind; [apply _|]. intros code. apply fits_bind; [|apply _].
  intros c Hc. destruct (answer_adds_up row (view c) (sh_view c Hc) Hrow) as (_ & Hr & Hs). unfold on_view.
  destruct (code =? 21); apply wp_bind, wp_modify; cbn [wp_next]; apply wp_modify; destruct Hc; by constructor.
Qed.
#[export] Instance fits_report_reply msg : Fits (report_reply msg).
Proof.
  unfold report_reply. destruct (find msg "id") as [i|]; [|apply _]. destruct (is_number_integer i); [|apply _].
  apply fits_bind; [apply _|]. intros id. apply fits_bind; [destruct (id =? 2); apply _|]. intros _ c Hc.
  apply wp_bind, wp_get. cbn [wp_next]. destruct (pending c !! id) as [p|] eqn:Hp; [|by apply wp_ret].
  pose proof (map_Forall_lookup_1 _ _ _ _ (sh_rows c Hc) Hp) as Hrow.
  assert (Fits (if eq_true (member msg "result") then share_accepted (p_row p) else share_refused msg (p_row p))) as Hf
    by (destruct (eq_true _); [by apply fits_share_accepted|by apply fits_share_refused]).
  apply wp_bind. eapply wp_mono; [by apply Hf|]. intros c1 [u|e] H1; cbn [wp_next]; [|exact H1].
  apply wp_modify. destruct H1 as [? ? ? Hr]. constructor; try done. cbn. by apply map_Forall_delete.
Qed.
#[export] Instance fits_publish auth job : Fits (publish_work auth job).
Proof.
  unfold publish_work. apply fits_bind; [apply _|]. intros c. case_match; [|apply _].
  do 2 (apply fits_bind; [apply _|intros _]). apply fits_bind; [apply _|]. intros c1. case_match; apply _.
Qed.
#[export] Instance fits_on_message now msg : Fits (on_message now msg).
Proof. unfold on_message. apply _. Qed.
#[export] Instance fits_take s : Fits (take_queue s).
Proof. unfold take_queue. destruct (failure s); [|apply _]. case_bool_decide; apply _. Qed.
Lemma fits_submit now f : row_ok (f_row f) → Fits (submit_found o now f).
Proof.
  intros Hrow. unfold submit_found. apply fits_bind; [apply _|]. intros c.
  destruct (draining c); [apply _|]. destruct (negb (is_valid _ _)); [apply _|].
  apply fits_bind; [apply _|intros _]. apply fits_bind; [apply _|intros hash].
  apply fits_bind; [case_match; apply _|intros _]. apply fits_bind; [case_match; apply _|intros _].
  apply fits_bind; [apply _|intros _]. intros c1 [? ? ? Hr]. apply wp_modify. constructor; try done. cbn.
  by apply map_Forall_insert_2.
Qed.
#[export] Instance fits_timeouts now : Fits (check_timeouts now).
Proof. unfold check_timeouts. apply _. Qed.
#[export] Instance fits_drain b now : Fits (start_drain b now).
Proof. unfold start_drain. apply fits_bind; [apply _|]. intros c. case_match; apply _. Qed.
(** A refresh leaves the counters of the rows alone. *)
Lemma refresh_same (f : DeviceView → Z) slots readings delta ls ds : length ls = length ds →
  (∀ x d, f (update_rate delta x d) = f d) → (∀ i d, f (refreshed slots readings i d) = f d) →
  f <$> zip_with (update_rate delta) ls (imap (refreshed slots readings) ds) = f <$> ds.
Proof.
  intros Hl Hu Hr. apply list_eq. intros i. rewrite !list_lookup_fmap, lookup_zip_with, list_lookup_imap.
  destruct (ds !! i) as [d|] eqn:Hi; cbn.
  - destruct (lookup_lt_is_Some_2 ls i) as [x ->]; [apply lookup_lt_Some in Hi; lia|]. cbn. by rewrite Hu, Hr.
  - by destruct (ls !! i).
Qed.
#[export] Instance fits_update force begin now slots readings : Fits (update o force begin now slots readings).
Proof.
  intros c Hc. pose proof Hc as [[Hd Ha Hr Hs] Hl Ht Hp].
  destruct (negb force && SFltb (seconds_of (now - last_update c)) quarter) eqn:Hf.
  { unfold update. apply wp_bind, wp_get. cbn [wp_next]. cbn zeta. rewrite Hf. by apply wp_ret. }
  unfold wp. rewrite update_eq by (done || congruence). cbn [fst].
  set (delta := seconds_of _). set (ds := imap _ _).
  assert (length ds = n) as Hds by (unfold ds; by rewrite length_imap).
  destruct (next_rows_parts o delta ds (last_hashes c) (thermal c)) as (N1 & N2 & N3 & _); [congruence..|].
  assert (∀ f, (∀ x d, f (update_rate delta x d) = f d) → (∀ i d, f (refreshed slots readings i d) = f d) →
    f <$> zip_with (update_rate delta) (last_hashes c) ds = f <$> devices (view c)) as Hsame
    by (intros f ? ?; apply refresh_same; [congruence|done..]).
  constructor; [constructor|..]; unfold column;
    cbn [view set_last_update set_rows set_view set_hashes set_devices devices set_elapsed accepted rejected stale
      set_log set_last_hashes set_thermal last_hashes thermal pending]; rewrite ?N1, ?N2, ?N3.
  - rewrite length_zip_with. lia.
  - rewrite Hsame; [exact Ha| |]; intros; unfold update_rate, refreshed; by repeat case_match.
  - rewrite Hsame; [exact Hr| |]; intros; unfold update_rate, refreshed; by repeat case_match.
  - rewrite Hsame; [exact Hs| |]; intros; unfold update_rate, refreshed; by repeat case_match.
  - by rewrite length_fmap.
  - rewrite length_zip_with. lia.
  - exact Hp.
Qed.

(** ** Turns, connections, attempts *)

(** The shares queued name rows that exist. *)
Definition queued_ok (e : Env) : Prop := Forall (λ f, row_ok (f_row f)) (found (e_shared e)).
Lemma fits_iteration e : queued_ok e → Fits (iteration o e).
Proof.
  intros Hq. unfold iteration, turn. apply fits_bind; [apply _|intros _]. apply fits_bind; [apply _|intros messages].
  apply fits_bind; [apply fits_iter, Forall_forall; intros; apply _|intros _].
  intros c Hc. apply wp_bind. unfold wp. destruct (take_queue (e_shared e) c) as [c1 r] eqn:E.
  pose proof (fits_take (e_shared e) c Hc) as H1. unfold wp in H1. rewrite E in H1. cbn [fst snd] in *.
  destruct r as [queue|ex]; cbn [wp_next]; [|exact H1]. apply take_queue_found in E as ->.
  assert (Fits (st_iter (λ jf : nat * Found, submit_found o (e_share_time e jf.1) jf.2) (imap pair (found (e_shared e))))) as Hi.
  { apply fits_iter, Forall_forall. intros [j f] (j' & f' & [= -> ->] & Hf)%elem_of_lookup_imap. apply fits_submit.
    exact (Forall_lookup_1 _ _ _ _ Hq Hf). }
  exact (fits_bind _ _ Hi _ c1 H1).
Qed.
Lemma fits_begin p now : Fits (begin_connection o p now).
Proof.
  unfold begin_connection. apply fits_bind; [apply _|intros _]. apply fits_bind; [|intros _; apply _].
  intros c [? ? ? ?]. apply wp_modify. by constructor.
Qed.
Lemma fits_connection ticks c : Forall (queued_ok ∘ t_env) ticks → sheet c → sheet (connection o ticks c).1.
Proof.
  intros Ht. revert c. induction Ht as [|t ticks Hq _ IH]; intros c Hc; [done|]. cbn [connection].
  destruct (running _ _ c); [|done]. pose proof (fits_iteration (t_env t) Hq c Hc) as H1. unfold wp in H1.
  destruct (iteration o (t_env t) c) as [c1 [u|e]]; [by apply IH|done].
Qed.
#[export] Instance fits_pause begin k rounds : Fits (pause o begin k rounds).
Proof.
  revert rounds. induction k as [|k IH]; intros [|u rounds]; cbn [pause]; try apply _. destruct (u_expired u); apply _.
Qed.
#[export] Instance fits_stopped begin rounds e : Fits (session_stopped o begin rounds e).
Proof.
  unfold session_stopped. apply fits_bind; [apply _|]. intros c. do 2 (apply fits_bind; [apply _|intros _]).
  case_match; [apply _|]. apply fits_bind; [apply _|]. intros b. case_match; apply _.
Qed.

Definition attempt_ok (a : Attempt) : Prop := Forall (queued_ok ∘ t_env) (a_ticks a).
Lemma fits_attempt a c : attempt_ok a → sheet c → sheet (r_coord (attempt o a c)).
Proof.
  intros Ha Hc. unfold attempt. cbn zeta.
  assert (sheet (on_view (set_v_state "CONNECTING") c).1) as H1 by (destruct Hc as [[? ? ? ?] ? ? ?]; constructor; [by constructor|done..]).
  destruct (a_open a) as [p|e]; [|by apply fits_stopped].
  pose proof (fits_begin p (a_now a) _ H1) as H2. unfold wp in H2.
  pose proof (fits_connection (a_ticks a) _ Ha H2) as H3.
  destruct (connection o (a_ticks a) _) as [c1 [[u|e]|]]; [done|by apply fits_stopped|done].
Qed.
Lemma fits_loop attempts c : Forall attempt_ok attempts → sheet c → sheet (r_coord (mine_loop o attempts c)).
Proof.
  intros Ha. revert c. induction Ha as [|a attempts H1 _ IH]; intros c Hc; [done|]. cbn [mine_loop].
  destruct (a_expired a || fatal c); [done|]. pose proof (fits_attempt a c H1 Hc) as H2.
  destruct (r_over (attempt o a c)); [|done]. by apply IH.
Qed.
End sheet.

(** ** The report *)

(** A view before anything was counted. *)
Definition uncounted (w : DashboardView) : Prop :=
  accepted w = 0 ∧ rejected w = 0 ∧ stale w = 0 ∧
  Forall (λ d, d_accepted d = 0 ∧ d_rejected d = 0 ∧ d_stale d = 0) (devices w).

Lemma uncounted_adds_up w : uncounted w → adds_up (length (devices w)) w.
Proof.
  intros (Ha & Hr & Hs & Hd). constructor; [done|..]; unfold column; rewrite ?Ha, ?Hr, ?Hs;
    (induction Hd as [|d l (H1 & H2 & H3) _ IH]; [done|]; rewrite fmap_cons, sum_cons, ?H1, ?H2, ?H3; exact IH).
Qed.
Lemma first_coord_sheet {P} `{Protocol P} (p : P) begin v : uncounted v → sheet (length (devices v)) (first_coord p begin v).
Proof.
  intros Hv. constructor; [by apply uncounted_adds_up|by apply length_replicate..|apply map_Forall_empty].
Qed.

Section report.
Context {P : Type} `{Protocol P} `{FloatPrinter} (o : MineOptions).

(** The end of [mine] refreshes the figures and adds to the log. *)
Lemma finish_spec n begin u (c c' : Coord P) r : sheet n c → Forall (λ s, row_ok n s.1) (u_slots u) →
  finish o begin u c = (c', r) →
  sheet n c' ∧ answered (view c') = answered (view c) ∧ exit_code c' = exit_code c ∧
  rejected (view c') = rejected (view c) ∧ v_state (view c') = "STOPPED"%string ∧
  View.hashes (view c') = u64 (sum (u_slots u).*2) ∧
  ∃ events, log c' = events ++ [(final_text (view c'), info)].
Proof.
  intros Hc Hu. unfold finish, on_view, st_modify. rewrite st_bind_eq. set (c0 := set_view _ c).
  assert (sheet n c0) as Hc0 by (destruct Hc as [[? ? ? ?] ? ? ?]; constructor; [by constructor|done..]).
  rewrite st_bind_eq. destruct (update o true begin (u_now u) (u_slots u) (u_readings u) c0) as [c1 r1] eqn:E.
  pose proof (fits_update o n true begin (u_now u) (u_slots u) (u_readings u) c0 Hc0) as H1. unfold wp in H1.
  rewrite E in H1. cbn [fst] in H1. destruct Hc0 as [[Hd _ _ _] Hl Ht _].
  destruct (update_parts o true begin (u_now u) (u_slots u) (u_readings u) c0 c1 r1) as (-> & _ & _ & Hsum & _);
    [congruence|congruence|by rewrite Hd|exact E|].
  rewrite update_eq in E by (done || congruence). injection E as E.
  assert (answered (view c1) = answered (view c) ∧ exit_code c1 = exit_code c ∧ rejected (view c1) = rejected (view c) ∧
    v_state (view c1) = "STOPPED"%string) as (Ha & He & Hr & Hv) by (rewrite <- E; by split_and!).
  rewrite st_bind_eq. cbn [st_get]. unfold say, st_modify. intros [= <- <-]. destruct H1 as [? ? ? ?].
  split_and!; try done. by eexists.
Qed.

(** C25: The final report is true.  When [mine] ends, over any number of connections and
    however they ended: the shares shown as accepted, rejected and stale, with those
    that were never answered, are exactly the shares that were submitted; the rows
    of the devices add up to these totals; the hash count is the sum of the counters
    of all threads; the last event states these very figures; and the exit status
    is 2 exactly if shares were rejected and no device failed. *)
Theorem mining_report p begin v attempts last rep : uncounted v →
  Forall (attempt_ok (length (devices v))) attempts → queued_total attempts < 2 ^ 64 →
  Forall (λ s, row_ok (length (devices v)) s.1) (u_slots last) →
  mining o p begin v attempts last = Some rep →
  let r := mine_loop o attempts (first_coord p begin v) in
  let w := final_view rep in
  accepted w + rejected w + stale w + r_unanswered r = r_submitted r ∧ 0 ≤ r_unanswered r ∧
  r_submitted r ≤ queued_total attempts ∧
  column d_accepted w = accepted w ∧ column d_rejected w = rejected w ∧ column d_stale w = stale w ∧
  View.hashes w = u64 (sum (u_slots last).*2) ∧ v_state w = "STOPPED"%string ∧
  (∃ events, shown rep = events ++ [(final_text w, info)]) ∧
  (status rep = 2 ↔ fatal (r_coord r) = false ∧ rejected w ≠ 0).
Proof.
  intros Hv Ha Hq Hl. unfold mining. cbn zeta. pose proof Hv as (Hv1 & Hv2 & Hv3 & _).
  pose proof (mine_loop_balanced o attempts (first_coord p begin v)) as Hb.
  pose proof (fits_loop o _ attempts _ Ha (first_coord_sheet p begin v Hv)) as Hs.
  set (r := mine_loop _ _ _) in *. destruct (r_over r); [|done].
  destruct Hb as (_ & _ & Hbal & Hsub & Hun).
  { unfold run_ok. cbn. lia. }
  { unfold answered. cbn. lia. }
  destruct (finish o begin last (r_coord r)) as [c' r'] eqn:E.
  destruct (finish_spec _ _ _ _ _ _ Hs Hl E) as (Hs' & Hans & Hex & Hrej & Hst & Hh & Hlog).
  intros [= <-]. cbn [final_view shown status fst]. destruct Hs' as [[_ Hc1 Hc2 Hc3] _ _ _].
  unfold answered in *. cbn [view first_coord] in Hbal.
  split_and!; try done; try lia. rewrite Hex, Hrej. unfold exit_code.
  destruct (fatal (r_coord r)); [by split; [|intros [? _]]|].
  destruct (rejected (view (r_coord r)) =? 0) eqn:Er; cbn [negb].
  - apply Z.eqb_eq in Er. rewrite Er. split; [by destruct (had_work _)|intros [_ ?]; lia].
  - apply Z.eqb_neq in Er. by split.
Qed.
End report.

(** A connection that fails, one with two shares of which one is accepted, a stop. *)
Module Reported.
#[local] Existing Instances Coordinator.Demo.protocol Coordinator.Demo.printer.

Definition attempts : list (@Attempt (list Z) _) := [Mine.Demo.failing; Mine.Demo.mining false; Mine.Demo.mining true].
Definition start : DashboardView := view Coordinator.Demo.idle.
Definition last : Pause := {| u_expired := true; u_now := 7 * seconds_ns; u_slots := [(0, 21)]; u_readings := [] |}.

Lemma mining_report_witness :
  match mining default_options [] 0 start attempts last with
  | Some rep => accepted (final_view rep) = 1 ∧ status rep = 0 ∧ d_accepted <$> devices (final_view rep) = [1] ∧
      View.hashes (final_view rep) = 21 ∧ v_state (final_view rep) = "STOPPED"%string ∧
      ∃ events, shown rep = events ++ [(final_text (final_view rep), info)]
  | None => False
  end.
Proof.
  assert (match mining default_options [] 0 start attempts last with
    | Some rep => accepted (final_view rep) = 1 ∧ status rep = 0 ∧ d_accepted <$> devices (final_view rep) = [1]
    | None => False end) as Hr by (vm_compute; by split_and!).
  assert (uncounted start) as Hu by by_compute.
  assert (Forall (attempt_ok (length (devices start))) attempts) as Hok by by_compute.
  assert (queued_total attempts < 2 ^ 64) as Hq by (vm_compute; reflexivity).
  assert (Forall (λ s, row_ok (length (devices start)) s.1) (u_slots last)) as Hl by by_compute.
  pose proof (mining_report default_options [] 0 start attempts last) as Hall.
  destruct (mining default_options [] 0 start attempts last) as [rep|]; [|exact Hr].
  destruct (Hall rep Hu Hok Hq Hl eq_refl) as (_ & _ & _ & _ & _ & _ & Hh & Hv & He & _). destruct Hr as (H1 & H2 & H3).
  by split_and!.
Defined.
End Reported.
